(** * The telemetry bridge core: state store, patterns, subscriptions,
      message router and Companion adapter

    A shallow embedding of the TypeScript sources
    - [src/core/state/store.ts]          (state store, pattern matching),
    - [src/core/router/subscription.ts]  (subscription manager),
    - [src/core/router/router.ts]        (message router),
    - [src/core/protocol/factory.ts]     (message builders),
    - [src/adapters/companion/adapter.ts] (Companion adapter command path),
    followed by the properties of the specification stated over it.

    Conventions of the embedding.
    - Objects are records, [Map]s are insertion-ordered association lists
      (iteration order is observable: snapshot enumeration, target lookup by
      id), mutation is explicit state passing.
    - A function that can throw returns its exception as data.
    - JavaScript numbers are modelled by integers; values of type [unknown]
      are JSON trees. *)

From Stdlib Require Import String Ascii List ZArith Bool Lia.
From Stdlib Require Import DecimalString.
From Stdlib Require DecimalNat DecimalFacts.
Import ListNotations.

#[local] Set Warnings "-register-all".
#[local] Open Scope list_scope.
#[local] Open Scope string_scope.

(* ------------------------------------------------------------------------- *)
(** ** JavaScript runtime: strings, numbers, JSON values                      *)
(* ------------------------------------------------------------------------- *)

Module Js.

(** [Number.prototype.toString()] on an integer. *)
Definition Number_toString (n : Z) : string :=
  NilZero.string_of_int (Z.to_int n).

(** The same on a counter that is never negative. *)
Definition Nat_toString (n : nat) : string :=
  NilZero.string_of_uint (Nat.to_uint n).

(** [Array.prototype.join]. *)
Fixpoint join (sep : string) (parts : list string) : string :=
  match parts with
  | [] => EmptyString
  | [p] => p
  | p :: rest => p ++ sep ++ join sep rest
  end.

(** [String.prototype.split] on a one-character separator. The result is
    never empty: splitting the empty string gives one empty part. *)
Fixpoint split (sep : ascii) (s : string) : list string :=
  match s with
  | EmptyString => [EmptyString]
  | String c s' =>
      if Ascii.eqb c sep then EmptyString :: split sep s'
      else match split sep s' with
           | [] => [String c EmptyString]
           | p :: ps => String c p :: ps
           end
  end.

(** A value of TypeScript type [unknown], restricted to what JSON carries
    plus [undefined]. *)
Inductive Value : Type :=
| JUndefined
| JNull
| JBool (b : bool)
| JNumber (n : Z)
| JString (s : string)
| JArray (items : list Value)
| JObject (fields : list (string * Value)).

(** [a === b]. Primitives compare by value. Two composites are identical
    only when they are the same reference; the tree model has no
    references, so composites are reported as not identical and every
    caller in this development then compares their serialisations, which
    agree for one and the same object. *)
Definition strictEquals (a b : Value) : bool :=
  match a, b with
  | JUndefined, JUndefined => true
  | JNull, JNull => true
  | JBool x, JBool y => Bool.eqb x y
  | JNumber x, JNumber y => Z.eqb x y
  | JString x, JString y => String.eqb x y
  | _, _ => false
  end.

Definition quoteChar : ascii := ascii_of_nat 34.
Definition backslash : ascii := ascii_of_nat 92.

Definition hexDigit (n : nat) : ascii :=
  if Nat.ltb n 10 then ascii_of_nat (48 + n) else ascii_of_nat (87 + n).

(** The escape of one character inside a JSON string literal. *)
Definition escapeChar (c : ascii) : string :=
  let n := nat_of_ascii c in
  if Nat.eqb n 34 then String backslash (String quoteChar EmptyString)
  else if Nat.eqb n 92 then String backslash (String backslash EmptyString)
  else if Nat.eqb n 8 then String backslash "b"
  else if Nat.eqb n 12 then String backslash "f"
  else if Nat.eqb n 10 then String backslash "n"
  else if Nat.eqb n 13 then String backslash "r"
  else if Nat.eqb n 9 then String backslash "t"
  else if Nat.ltb n 32 then
    String backslash
      ("u00" ++ String (hexDigit (n / 16)) (String (hexDigit (n mod 16)) EmptyString))
  else String c EmptyString.

Fixpoint escapeString (s : string) : string :=
  match s with
  | EmptyString => EmptyString
  | String c s' => escapeChar c ++ escapeString s'
  end.

Definition quote (s : string) : string :=
  String quoteChar (escapeString s ++ String quoteChar EmptyString).

(** [JSON.stringify(v)]. [None] is the JavaScript result [undefined]
    (serialising [undefined] itself). Inside an array [undefined] prints as
    [null]; inside an object the field is left out. Serialisation cannot
    throw on a tree (no cycles, no BigInt). *)
Fixpoint JSON_stringify (v : Value) : option string :=
  match v with
  | JUndefined => None
  | JNull => Some "null"
  | JBool true => Some "true"
  | JBool false => Some "false"
  | JNumber n => Some (Number_toString n)
  | JString s => Some (quote s)
  | JArray items =>
      Some ("[" ++ join ","
              (map (fun x => match JSON_stringify x with
                             | Some s => s
                             | None => "null"
                             end) items) ++ "]")
  | JObject fields =>
      Some ("{" ++ join ","
              (flat_map (fun kv => match JSON_stringify (snd kv) with
                                   | Some s => [quote (fst kv) ++ ":" ++ s]
                                   | None => []
                                   end) fields) ++ "}")
  end.

(** [a !== b] on two results of [JSON.stringify]. *)
Definition stringifiedDiffer (a b : option string) : bool :=
  match a, b with
  | None, None => false
  | Some x, Some y => negb (String.eqb x y)
  | _, _ => true
  end.

(** Truthiness of an optional string ([undefined] and the empty string are
    falsy). *)
Definition truthyString (s : option string) : bool :=
  match s with
  | Some (String _ _) => true
  | _ => false
  end.

End Js.

(* ------------------------------------------------------------------------- *)
(** ** [Map<string, V>]: insertion-ordered                                    *)
(* ------------------------------------------------------------------------- *)

Module JsMap.

Section WithValue.
Context {V : Type}.

Definition t : Type := list (string * V).

Definition empty : t := [].

Fixpoint get (m : t) (k : string) : option V :=
  match m with
  | [] => None
  | (k', v) :: m' => if String.eqb k' k then Some v else get m' k
  end.

Definition has (m : t) (k : string) : bool :=
  match get m k with Some _ => true | None => false end.

(** [m.set(k, v)]: an existing key keeps its position, a new key goes
    last. *)
Fixpoint set (m : t) (k : string) (v : V) : t :=
  match m with
  | [] => [(k, v)]
  | (k', v') :: m' =>
      if String.eqb k' k then (k, v) :: m' else (k', v') :: set m' k v
  end.

Fixpoint delete (m : t) (k : string) : t :=
  match m with
  | [] => []
  | (k', v') :: m' =>
      if String.eqb k' k then m' else (k', v') :: delete m' k
  end.

Definition keys (m : t) : list string := map fst m.
Definition values (m : t) : list V := map snd m.
Definition size (m : t) : nat := length m.

(** A [Map] holds a key once. The list model can say otherwise, so the
    properties that depend on it assume it; every operation keeps it. *)
Definition unique (m : t) : Prop := NoDup (keys m).

End WithValue.

Arguments t : clear implicits.

End JsMap.


(* ------------------------------------------------------------------------- *)
(** ** Regular expressions, as far as [patternToRegex] builds them            *)
(* ------------------------------------------------------------------------- *)

Module RegExp.

(** The nodes of an anchored regular expression [^ ... $]. *)
Inductive Node : Type :=
| Char (c : ascii)      (* a literal character, written [c] or [\c] *)
| AnyStar               (* [.*]    *)
| NotDotPlus.           (* [[^.]+] *)

(** The syntax characters of the regular-expression grammar. *)
Definition isSyntaxChar (c : ascii) : bool :=
  existsb (Ascii.eqb c) (list_ascii_of_string "^$\.*+?()[]{}|").

(** [.] does not match a line terminator (no [s] flag). Strings are byte
    strings here, so only LF and CR are line terminators. *)
Definition isLineTerminator (c : ascii) : bool :=
  Nat.eqb (nat_of_ascii c) 10 || Nat.eqb (nat_of_ascii c) 13.

Definition isDot (c : ascii) : bool := Ascii.eqb c ".".

(** Reading the source text after the leading [^], up to the closing [$].
    Only the constructs above are read; any other use of a syntax character
    is outside the fragment and gives [None]. *)
Fixpoint parseBody (s : string) : option (list Node) :=
  match s with
  | EmptyString => None
  | String c rest =>
      if Ascii.eqb c "$" then
        match rest with EmptyString => Some [] | _ => None end
      else if Ascii.eqb c Js.backslash then
        match rest with
        | String d rest' =>
            if isSyntaxChar d then option_map (cons (Char d)) (parseBody rest')
            else None
        | EmptyString => None
        end
      else if Ascii.eqb c "." then
        match rest with
        | String d rest' =>
            if Ascii.eqb d "*" then option_map (cons AnyStar) (parseBody rest')
            else None
        | EmptyString => None
        end
      else if Ascii.eqb c "[" then
        match rest with
        | String c1 (String c2 (String c3 (String c4 rest'))) =>
            if Ascii.eqb c1 "^" && Ascii.eqb c2 "." && Ascii.eqb c3 "]"
               && Ascii.eqb c4 "+"
            then option_map (cons NotDotPlus) (parseBody rest')
            else None
        | _ => None
        end
      else if isSyntaxChar c then None
      else option_map (cons (Char c)) (parseBody rest)
  end.

(** [new RegExp(source)] for a source of the shape [^...$]. *)
Definition create (source : string) : option (list Node) :=
  match source with
  | String c body => if Ascii.eqb c "^" then parseBody body else None
  | EmptyString => None
  end.

(** Backtracking match of the whole input against the nodes (both ends are
    anchored). Greedy or not, [test] answers whether some split matches. *)
Fixpoint matchNodes (r : list Node) : string -> bool :=
  match r with
  | [] => fun s => match s with EmptyString => true | _ => false end
  | Char c :: r' =>
      fun s => match s with
               | String x s' => Ascii.eqb x c && matchNodes r' s'
               | EmptyString => false
               end
  | AnyStar :: r' =>
      fix star (s : string) : bool :=
        matchNodes r' s
        || match s with
           | String x s' => negb (isLineTerminator x) && star s'
           | EmptyString => false
           end
  | NotDotPlus :: r' =>
      fun s => match s with
               | String x s' =>
                   negb (isDot x)
                   && (fix plus (s : string) : bool :=
                         matchNodes r' s
                         || match s with
                            | String y s'' => negb (isDot y) && plus s''
                            | EmptyString => false
                            end) s'
               | EmptyString => false
               end
  end.

(** [regex.test(input)]. *)
Definition test (r : list Node) (input : string) : bool := matchNodes r input.

End RegExp.

(* ------------------------------------------------------------------------- *)
(** ** Pattern matching ([store.ts], "Pattern Matching")                      *)
(* ------------------------------------------------------------------------- *)

Module Pattern.

(** The characters of the class [[.+?^${}()|[\]\\]]. *)
Definition isSpecial (c : ascii) : bool :=
  existsb (Ascii.eqb c) (list_ascii_of_string ".+?^${}()|[]\").

(** [s.replace(/[.+?^${}()|[\]\\]/g, '\\$&')]. *)
Fixpoint escapeSpecials (s : string) : string :=
  match s with
  | EmptyString => EmptyString
  | String c s' =>
      if isSpecial c then String Js.backslash (String c (escapeSpecials s'))
      else String c (escapeSpecials s')
  end.

(** [s.replace(/needle/g, replacement)] for a literal, non-empty needle:
    leftmost matches, not overlapping. [skip] counts the characters of a
    match that are still to be passed over. *)
Fixpoint replaceAllFrom (needle replacement : string) (skip : nat) (s : string)
  : string :=
  match s with
  | EmptyString => EmptyString
  | String c s' =>
      match skip with
      | S k => replaceAllFrom needle replacement k s'
      | O =>
          if String.prefix needle s
          then replacement
               ++ replaceAllFrom needle replacement (String.length needle - 1) s'
          else String c (replaceAllFrom needle replacement 0 s')
      end
  end.

Definition replaceAll (needle replacement s : string) : string :=
  replaceAllFrom needle replacement 0 s.

Definition backslashDot : string := String Js.backslash ".".
Definition placeholder : string := "{{DOUBLE_STAR}}".

(** The text handed to [new RegExp]; the five [replace] calls in order. *)
Definition regexSource (pattern : string) : string :=
  let escaped := escapeSpecials pattern in
  let escaped := replaceAll backslashDot backslashDot escaped in
  let escaped := replaceAll "**" placeholder escaped in
  let escaped := replaceAll "*" "[^.]+" escaped in
  let escaped := replaceAll placeholder ".*" escaped in
  "^" ++ escaped ++ "$".

Definition patternToRegex (pattern : string) : option (list RegExp.Node) :=
  RegExp.create (regexSource pattern).

(** [patternToRegex(pattern).test(path)]. A source text outside the fragment
    of [RegExp.create] would answer [false]; [patternToRegex_is_translate]
    below shows there is none. *)
Definition pathMatchesPattern (path pattern : string) : bool :=
  match patternToRegex pattern with
  | Some regex => RegExp.test regex path
  | None => false
  end.

(** *** The translation in the words of the specification

    [*] becomes [[^.]+], [**] becomes [.*], every other character stands for
    itself; stars pair up from the left. *)
Fixpoint translate (pattern : string) : list RegExp.Node :=
  match pattern with
  | EmptyString => []
  | String c rest =>
      if Ascii.eqb c "*" then
        match rest with
        | String d rest' =>
            if Ascii.eqb d "*" then RegExp.AnyStar :: translate rest'
            else RegExp.NotDotPlus :: translate rest
        | EmptyString => [RegExp.NotDotPlus]
        end
      else RegExp.Char c :: translate rest
  end.

(** What it means for a text to match translated nodes. *)
Inductive Matches : list RegExp.Node -> string -> Prop :=
| MatchesEnd : Matches [] EmptyString
| MatchesChar c r s : Matches r s -> Matches (RegExp.Char c :: r) (String c s)
| MatchesAny r w s :
    (forall c, In c (list_ascii_of_string w) ->
               RegExp.isLineTerminator c = false) ->
    Matches r s -> Matches (RegExp.AnyStar :: r) (w ++ s)
| MatchesSegment r w s :
    w <> EmptyString ->
    (forall c, In c (list_ascii_of_string w) -> c <> "."%char) ->
    Matches r s -> Matches (RegExp.NotDotPlus :: r) (w ++ s).

(** *** The segment reading of the specification

    A path and a pattern are split at the dots; a pattern segment [*] stands
    for exactly one path segment, [**] for zero or more, any other for
    itself. *)
Fixpoint segmentsMatch (pattern : list string) : list string -> bool :=
  match pattern with
  | [] => fun path => match path with [] => true | _ => false end
  | p :: pattern' =>
      if String.eqb p "**" then
        fix anySegments (path : list string) : bool :=
          segmentsMatch pattern' path
          || match path with
             | _ :: path' => anySegments path'
             | [] => false
             end
      else if String.eqb p "*" then
        fun path => match path with
                    | _ :: path' => segmentsMatch pattern' path'
                    | [] => false
                    end
      else
        fun path => match path with
                    | seg :: path' => String.eqb p seg && segmentsMatch pattern' path'
                    | [] => false
                    end
  end.

Definition matchesBySegments (path pattern : string) : bool :=
  segmentsMatch (Js.split "." pattern) (Js.split "." path).

(** *** The stages of [regexSource], node by node

    Used to relate the five [replace] calls to [translate]: the text after
    each call is the nodes of [translate] written out with the text that
    stands for [**] and for [*] at that stage. *)
Definition escapeOne (c : ascii) : string :=
  if isSpecial c then String Js.backslash (String c EmptyString)
  else String c EmptyString.

Definition render (any one : string) (n : RegExp.Node) : string :=
  match n with
  | RegExp.Char c => escapeOne c
  | RegExp.AnyStar => any
  | RegExp.NotDotPlus => one
  end.

Fixpoint renderAll (any one : string) (nodes : list RegExp.Node) : string :=
  match nodes with
  | [] => EmptyString
  | n :: rest => render any one n ++ renderAll any one rest
  end.

(** The shape of what [translate] produces: no literal star, and a single
    star is never followed by another wildcard. *)
Fixpoint wellFormed (nodes : list RegExp.Node) : Prop :=
  match nodes with
  | [] => True
  | RegExp.Char c :: rest => c <> "*"%char /\ wellFormed rest
  | RegExp.AnyStar :: rest => wellFormed rest
  | RegExp.NotDotPlus :: rest =>
      match rest with
      | [] => True
      | RegExp.Char _ :: _ => wellFormed rest
      | _ => False
      end
  end.

(** [String.prototype.slice(n)]. *)
Fixpoint drop (n : nat) (s : string) : string :=
  match n, s with
  | S k, String _ s' => drop k s'
  | _, _ => s
  end.

End Pattern.


(* ------------------------------------------------------------------------- *)
(** ** Bridge protocol messages ([protocol/types.ts], [protocol/factory.ts])   *)
(* ------------------------------------------------------------------------- *)

Module Protocol.

Inductive MessageType : Type :=
| COMMAND | EVENT | STATE | ACK | ERROR | SUBSCRIBE | UNSUBSCRIBE.

Module AckStatus.
Inductive t : Type := RECEIVED | COMPLETED | FAILED | TIMEOUT | REJECTED.
End AckStatus.

Module ErrorCode.
Definition INVALID_MESSAGE : string := "INVALID_MESSAGE".
Definition UNKNOWN_TARGET : string := "UNKNOWN_TARGET".
Definition TIMEOUT : string := "TIMEOUT".
Definition RATE_LIMITED : string := "RATE_LIMITED".
Definition UNAUTHORIZED : string := "UNAUTHORIZED".
Definition FORBIDDEN : string := "FORBIDDEN".
Definition ADAPTER_ERROR : string := "ADAPTER_ERROR".
Definition STATE_CONFLICT : string := "STATE_CONFLICT".
Definition SUBSCRIPTION_FAILED : string := "SUBSCRIPTION_FAILED".
Definition INTERNAL_ERROR : string := "INTERNAL_ERROR".
End ErrorCode.

Module SubscriptionFilter.
Inductive t : Type := STATE | EVENTS | ALL.
End SubscriptionFilter.

(** [payload.params] of a command, at the types the adapter's handlers
    declare for it: every field optional, absent is [undefined]. *)
Module Params.
Record t : Type := mk {
  keyIndex : option Z;
  page : option Z;
  bank : option Z;
  direction : option string;
  name : option string;
  value : option string
}.
Definition none : t := mk None None None None None None.
End Params.

Module Command.
Record Payload : Type := mk { action : string; params : option Params.t }.
End Command.

Module Event.
Record Payload : Type := mk { event : string; data : Js.Value }.
End Event.

Module State.
Record Payload : Type := mk {
  value : Js.Value;
  stale : option bool;
  owner : option string;
  version : option nat
}.
End State.

Module AckError.
Record t : Type := mk { code : string; message : string; details : Js.Value }.
End AckError.

Module Ack.
Record Payload : Type := mk {
  status : AckStatus.t;
  commandId : string;
  result : Js.Value;
  error : option AckError.t
}.
End Ack.

Module Error.
Record Payload : Type := mk {
  code : string;
  message : string;
  details : Js.Value;
  relatedMessageId : option string
}.
End Error.

Module Subscribe.
Record Payload : Type := mk {
  patterns : list string;
  filter : option SubscriptionFilter.t;
  snapshot : option bool
}.
End Subscribe.

Module Unsubscribe.
Record Payload : Type := mk { patterns : list string }.
End Unsubscribe.

(** The discriminated union: the [type] tag is the constructor. *)
Inductive Payload : Type :=
| PCommand (p : Command.Payload)
| PEvent (p : Event.Payload)
| PState (p : State.Payload)
| PAck (p : Ack.Payload)
| PError (p : Error.Payload)
| PSubscribe (p : Subscribe.Payload)
| PUnsubscribe (p : Unsubscribe.Payload).

Record BridgeMessage : Type := mkMessage {
  id : string;
  source : string;
  target : option string;
  path : string;
  payload : Payload;
  timestamp : Z;
  correlationId : option string;
  sequence : nat;
  ttl : option Z;
  idempotencyKey : option string
}.

Definition type (m : BridgeMessage) : MessageType :=
  match payload m with
  | PCommand _ => COMMAND
  | PEvent _ => EVENT
  | PState _ => STATE
  | PAck _ => ACK
  | PError _ => ERROR
  | PSubscribe _ => SUBSCRIBE
  | PUnsubscribe _ => UNSUBSCRIBE
  end.

Definition isCommandMessage (m : BridgeMessage) : bool :=
  match type m with COMMAND => true | _ => false end.

(** The JavaScript runtime a component runs in: the wall clock read by
    [Date.now()] and the source of identifiers. [generateUuidV7] builds its
    text from the clock and [crypto.getRandomValues]; that text is not
    modelled, the runtime supplies the identifiers as a stream. *)
Record Runtime : Type := mkRuntime {
  Date_now : Z;
  uuids : nat -> string;
  minted : nat
}.

Definition generateUuidV7 (rt : Runtime) : string * Runtime :=
  (uuids rt (minted rt), mkRuntime (Date_now rt) (uuids rt) (S (minted rt))).

(** [SequenceCounter.next()]: the current value, then increment. *)
Definition next (counter : nat) : nat * nat := (counter, S counter).

Module StateOptions.
Record t : Type := mk {
  source : string;
  path : string;
  value : Js.Value;
  stale : option bool;
  owner : option string;
  version : option nat;
  correlationId : option string
}.
End StateOptions.

Definition createState (options : StateOptions.t) (sequence : nat) (rt : Runtime)
  : BridgeMessage * Runtime :=
  let '(uuid, rt) := generateUuidV7 rt in
  (mkMessage uuid (StateOptions.source options) None (StateOptions.path options)
     (PState (State.mk (StateOptions.value options) (StateOptions.stale options)
                (Some match StateOptions.owner options with
                      | Some o => o
                      | None => StateOptions.source options
                      end)
                (StateOptions.version options)))
     (Date_now rt) (StateOptions.correlationId options) sequence None None,
   rt).

Module AckOptions.
Record t : Type := mk {
  source : string;
  target : string;
  path : string;
  commandId : string;
  status : AckStatus.t;
  result : Js.Value;
  error : option AckError.t;
  correlationId : option string
}.
End AckOptions.

Definition createAck (options : AckOptions.t) (sequence : nat) (rt : Runtime)
  : BridgeMessage * Runtime :=
  let '(uuid, rt) := generateUuidV7 rt in
  (mkMessage uuid (AckOptions.source options) (Some (AckOptions.target options))
     (AckOptions.path options)
     (PAck (Ack.mk (AckOptions.status options) (AckOptions.commandId options)
              (AckOptions.result options) (AckOptions.error options)))
     (Date_now rt) (AckOptions.correlationId options) sequence None None,
   rt).

Module ErrorOptions.
Record t : Type := mk {
  source : string;
  target : option string;
  path : string;
  code : string;
  message : string;
  details : Js.Value;
  relatedMessageId : option string;
  correlationId : option string
}.
End ErrorOptions.

Definition createError (options : ErrorOptions.t) (sequence : nat) (rt : Runtime)
  : BridgeMessage * Runtime :=
  let '(uuid, rt) := generateUuidV7 rt in
  (mkMessage uuid (ErrorOptions.source options) (ErrorOptions.target options)
     (ErrorOptions.path options)
     (PError (Error.mk (ErrorOptions.code options) (ErrorOptions.message options)
                (ErrorOptions.details options)
                (ErrorOptions.relatedMessageId options)))
     (Date_now rt) (ErrorOptions.correlationId options) sequence None None,
   rt).

End Protocol.


(* ------------------------------------------------------------------------- *)
(** ** Identifiers: the text of a UUID v7 ([factory.ts])                      *)
(* ------------------------------------------------------------------------- *)

(** The text [generateUuidV7] builds, as a function of what it reads: the
    clock and the ten bytes of [crypto.getRandomValues]. *)
Module Uuid.

(** [n.toString(16)] on a non-negative integer, most significant digit
    first; [fuel] bounds the number of digits. *)
Fixpoint toHex (fuel : nat) (n : Z) (acc : string) : string :=
  match fuel with
  | O => acc
  | S fuel =>
      let acc := String (Js.hexDigit (Z.to_nat (n mod 16))) acc in
      if Z.eqb (n / 16) 0 then acc else toHex fuel (n / 16) acc
  end.

Definition Number_toString16 (n : Z) : string :=
  toHex (S (Z.to_nat (Z.log2 n))) n EmptyString.

(** [s.padStart(targetLength, c)] with a pad of one character. *)
Definition padStart (targetLength : nat) (c : ascii) (s : string) : string :=
  string_of_list_ascii (repeat c (targetLength - String.length s)) ++ s.

(** [s.slice(start, end)] for [0 <= start <= end]. *)
Definition slice (s : string) (start stop : nat) : string :=
  String.substring start (stop - start) s.

(** [bytes.slice(start, end)] on a typed array, within the same bounds. *)
Definition sliceBytes (bytes : list Z) (start stop : nat) : list Z :=
  firstn (stop - start) (skipn start bytes).

(** [b.toString(16).padStart(2, '0')]. *)
Definition byteToHex (b : Z) : string := padStart 2 "0" (Number_toString16 b).

(** [bytesToHex(bytes)]. *)
Definition bytesToHex (bytes : list Z) : string :=
  Js.join EmptyString (map byteToHex bytes).

(** [generateUuidV7()], with [Date.now()] and the random bytes as
    arguments. *)
Definition generateUuidV7 (now : Z) (randomBytes : list Z) : string :=
  let timestampHex := padStart 12 "0" (Number_toString16 now) in
  let timeLow := slice timestampHex 0 8 in
  let timeMid := slice timestampHex 8 12 in
  let randomHigh := Z.lor (Z.land (nth 0 randomBytes 0%Z) 15) 112 in
  let timeHighAndVersion :=
    padStart 2 "0" (Number_toString16 randomHigh)
    ++ bytesToHex (sliceBytes randomBytes 1 2) in
  let clockSeqHi := Z.lor (Z.land (nth 2 randomBytes 0%Z) 63) 128 in
  let clockSeqLow := nth 3 randomBytes 0%Z in
  let clockSeq :=
    padStart 2 "0" (Number_toString16 clockSeqHi)
    ++ padStart 2 "0" (Number_toString16 clockSeqLow) in
  let node := bytesToHex (sliceBytes randomBytes 4 10) in
  timeLow ++ "-" ++ timeMid ++ "-" ++ timeHighAndVersion ++ "-" ++ clockSeq
  ++ "-" ++ node.

(** *** Reading an identifier

    The value of a hexadecimal digit, of a string of them, and the
    timestamp a reader takes from an identifier:
    [parseInt(id.slice(0, 8) + id.slice(9, 13), 16)]. *)
Definition hexDigitValue (c : ascii) : Z :=
  let n := nat_of_ascii c in
  if Nat.leb 48 n && Nat.leb n 57 then Z.of_nat (n - 48)
  else if Nat.leb 97 n && Nat.leb n 102 then Z.of_nat (n - 87)
  else 0.

Fixpoint hexValue (acc : Z) (s : string) : Z :=
  match s with
  | EmptyString => acc
  | String c s' => hexValue (acc * 16 + hexDigitValue c) s'
  end.

Definition timestampOf (uuid : string) : Z :=
  hexValue 0 (slice uuid 0 8 ++ slice uuid 9 13).

End Uuid.


(* ------------------------------------------------------------------------- *)
(** ** The state store ([store.ts])                                           *)
(* ------------------------------------------------------------------------- *)

Module StateStore.

Module Entry.
Record t : Type := mk {
  value : Js.Value;
  owner : string;
  version : nat;
  stale : bool;
  updatedAt : Z;
  path : string
}.
End Entry.

Module Delta.
Record t : Type := mk {
  path : string;
  entry : Entry.t;
  previousVersion : option nat
}.
End Delta.

Module Snapshot.
Record t : Type := mk {
  entries : JsMap.t Entry.t;
  timestamp : Z;
  version : nat
}.
End Snapshot.

Module OwnershipError.
Record t : Type := mk {
  path : string;
  currentOwner : string;
  attemptedOwner : string
}.
(** [error.message], as the constructor of [StateOwnershipError] builds it. *)
Definition message (e : t) : string :=
  "State key '" ++ path e ++ "' is owned by '" ++ currentOwner e
  ++ "', cannot be modified by '" ++ attemptedOwner e ++ "'".
End OwnershipError.

(** The fields of the class. The set of listeners is not a field here: a
    write returns the deltas it hands to [notifyListeners], in order, and
    the router, which installs the one listener, runs it on them. *)
Record t : Type := mk {
  entries : JsMap.t Entry.t;
  globalVersion : nat;
  sequenceCounter : nat;
  source : string
}.

Definition create (source : string) : t := mk JsMap.empty 0 0 source.

(** What a write does: throw, return [null], or notify and return a delta. *)
Inductive WriteResult : Type :=
| Threw (e : OwnershipError.t)
| Unchanged
| Changed (delta : Delta.t).

(** [valueChanged(oldValue, newValue)]. *)
Definition valueChanged (oldValue newValue : Js.Value) : bool :=
  if Js.strictEquals oldValue newValue then false
  else Js.stringifiedDiffer (Js.JSON_stringify oldValue) (Js.JSON_stringify newValue).

Definition get (s : t) (path : string) : option Entry.t :=
  JsMap.get (entries s) path.

Definition getValue (s : t) (path : string) : Js.Value :=
  match JsMap.get (entries s) path with
  | Some e => Entry.value e
  | None => Js.JUndefined
  end.

Definition has (s : t) (path : string) : bool := JsMap.has (entries s) path.

Definition size (s : t) : nat := JsMap.size (entries s).

Definition version (s : t) : nat := globalVersion s.

(** [set(path, value, owner)]; [now] is what [Date.now()] reads. *)
Definition set (now : Z) (s : t) (path : string) (value : Js.Value) (owner : string)
  : t * WriteResult :=
  let existing := JsMap.get (entries s) path in
  match existing with
  | Some e =>
      if negb (String.eqb (Entry.owner e) owner) then
        (s, Threw (OwnershipError.mk path (Entry.owner e) owner))
      else if negb (valueChanged (Entry.value e) value) then
        (s, Unchanged)
      else
        let entry := Entry.mk value owner (Entry.version e + 1) false now path in
        (mk (JsMap.set (entries s) path entry) (S (globalVersion s))
            (sequenceCounter s) (source s),
         Changed (Delta.mk path entry (Some (Entry.version e))))
  | None =>
      let entry := Entry.mk value owner (0 + 1) false now path in
      (mk (JsMap.set (entries s) path entry) (S (globalVersion s))
          (sequenceCounter s) (source s),
       Changed (Delta.mk path entry None))
  end.

(** [delete(path, owner)]. *)
Definition delete (now : Z) (s : t) (path : string) (owner : string)
  : t * WriteResult :=
  match JsMap.get (entries s) path with
  | None => (s, Unchanged)
  | Some e =>
      if negb (String.eqb (Entry.owner e) owner) then
        (s, Threw (OwnershipError.mk path (Entry.owner e) owner))
      else
        (mk (JsMap.delete (entries s) path) (S (globalVersion s))
            (sequenceCounter s) (source s),
         Changed (Delta.mk path
                    (Entry.mk Js.JNull (Entry.owner e) (Entry.version e + 1)
                       (Entry.stale e) now (Entry.path e))
                    (Some (Entry.version e))))
  end.

(** The loop shared by [markOwnerStale] ([flag = true]) and
    [clearOwnerStale] ([flag = false]): every entry of the owner whose flag
    differs is replaced in place; the deltas come out in iteration order. *)
Fixpoint flipStale (now : Z) (owner : string) (flag : bool)
  (es : JsMap.t Entry.t) : JsMap.t Entry.t * list Delta.t :=
  match es with
  | [] => ([], [])
  | (p, e) :: rest =>
      let '(rest', deltas) := flipStale now owner flag rest in
      if String.eqb (Entry.owner e) owner && negb (Bool.eqb (Entry.stale e) flag)
      then
        let newEntry := Entry.mk (Entry.value e) (Entry.owner e)
                          (Entry.version e + 1) flag now (Entry.path e) in
        ((p, newEntry) :: rest',
         Delta.mk p newEntry (Some (Entry.version e)) :: deltas)
      else ((p, e) :: rest', deltas)
  end.

Definition markOwnerStale (now : Z) (s : t) (owner : string) : t * list Delta.t :=
  let '(es, deltas) := flipStale now owner true (entries s) in
  (mk es (globalVersion s + length deltas) (sequenceCounter s) (source s), deltas).

Definition clearOwnerStale (now : Z) (s : t) (owner : string) : t * list Delta.t :=
  let '(es, deltas) := flipStale now owner false (entries s) in
  (mk es (globalVersion s + length deltas) (sequenceCounter s) (source s), deltas).

(** [getMatchingPaths(pattern)]: the regular expression is built once. *)
Definition getMatchingPaths (s : t) (pattern : string) : list string :=
  match Pattern.patternToRegex pattern with
  | Some regex => filter (RegExp.test regex) (JsMap.keys (entries s))
  | None => []
  end.

(** [getMatchingEntries(pattern)]: a fresh map filled in the order of the
    matching paths. *)
Definition getMatchingEntries (s : t) (pattern : string) : JsMap.t Entry.t :=
  fold_left (fun results path =>
               match JsMap.get (entries s) path with
               | Some e => JsMap.set results path e
               | None => results
               end)
            (getMatchingPaths s pattern) JsMap.empty.

Definition getSnapshotForPattern (now : Z) (s : t) (pattern : string) : Snapshot.t :=
  Snapshot.mk (getMatchingEntries s pattern) now (globalVersion s).

Definition getSnapshot (now : Z) (s : t) : Snapshot.t :=
  Snapshot.mk (entries s) now (globalVersion s).

(** [entryToMessage(path, entry)]: [stale: entry.stale || undefined]. *)
Definition entryToMessage (rt : Protocol.Runtime) (s : t) (path : string)
  (entry : Entry.t) : Protocol.BridgeMessage * t * Protocol.Runtime :=
  let '(seq, counter) := Protocol.next (sequenceCounter s) in
  let '(m, rt) :=
    Protocol.createState
      (Protocol.StateOptions.mk (source s) path (Entry.value entry)
         (if Entry.stale entry then Some true else None)
         (Some (Entry.owner entry)) (Some (Entry.version entry)) None)
      seq rt in
  (m, mk (entries s) (globalVersion s) counter (source s), rt).

(** [snapshotToMessages(snapshot)]. *)
Fixpoint entriesToMessages (rt : Protocol.Runtime) (s : t)
  (es : JsMap.t Entry.t)
  : list Protocol.BridgeMessage * t * Protocol.Runtime :=
  match es with
  | [] => ([], s, rt)
  | (p, e) :: rest =>
      let '(m, s, rt) := entryToMessage rt s p e in
      let '(ms, s, rt) := entriesToMessages rt s rest in
      (m :: ms, s, rt)
  end.

Definition snapshotToMessages (rt : Protocol.Runtime) (s : t)
  (snapshot : Snapshot.t)
  : list Protocol.BridgeMessage * t * Protocol.Runtime :=
  entriesToMessages rt s (Snapshot.entries snapshot).

Definition deltaToMessage (rt : Protocol.Runtime) (s : t) (delta : Delta.t)
  : Protocol.BridgeMessage * t * Protocol.Runtime :=
  entryToMessage rt s (Delta.path delta) (Delta.entry delta).

(** [getEntriesByOwner(owner)]: a fresh map filled in iteration order. *)
Definition getEntriesByOwner (s : t) (owner : string) : JsMap.t Entry.t :=
  fold_left (fun results kv =>
               if String.eqb (Entry.owner (snd kv)) owner
               then JsMap.set results (fst kv) (snd kv)
               else results)
            (entries s) JsMap.empty.

(** [StateUpdate]. *)
Module Update.
Record t : Type := mk {
  path : string;
  value : Js.Value;
  owner : option string;
  stale : option bool
}.
End Update.

(** [setBulk(updates, owner)]. Each update is written with [update.owner ??
    owner]. A [set] that throws ends the loop and the call: the array of
    deltas is lost to the caller, but the deltas of the writes before it
    have been notified, and are returned here with the exception. *)
Fixpoint setBulk (now : Z) (s : t) (updates : list Update.t) (owner : string)
  : t * list Delta.t * option OwnershipError.t :=
  match updates with
  | [] => (s, [], None)
  | update :: rest =>
      let writer := match Update.owner update with
                    | Some o => o
                    | None => owner
                    end in
      let '(s, result) := set now s (Update.path update) (Update.value update) writer in
      match result with
      | Threw e => (s, [], Some e)
      | Unchanged => setBulk now s rest owner
      | Changed delta =>
          let '(s, deltas, thrown) := setBulk now s rest owner in
          (s, delta :: deltas, thrown)
      end
  end.

(** The delta that announces the removal of an entry: [{ ...entry, value:
    null, version: entry.version + 1, updatedAt: Date.now() }]. *)
Definition removalDelta (now : Z) (path : string) (e : Entry.t) : Delta.t :=
  Delta.mk path
    (Entry.mk Js.JNull (Entry.owner e) (Entry.version e + 1) (Entry.stale e) now
       (Entry.path e))
    (Some (Entry.version e)).

(** The loop of [deleteByOwner]: an entry of the owner is deleted while the
    map is iterated, and its delta notified; the iteration goes on with the
    entries that follow. *)
Fixpoint removeOwned (now : Z) (owner : string) (es : JsMap.t Entry.t)
  : JsMap.t Entry.t * list Delta.t :=
  match es with
  | [] => ([], [])
  | (p, e) :: rest =>
      let '(rest', deltas) := removeOwned now owner rest in
      if String.eqb (Entry.owner e) owner
      then (rest', removalDelta now p e :: deltas)
      else ((p, e) :: rest', deltas)
  end.

(** [deleteByOwner(owner)]. *)
Definition deleteByOwner (now : Z) (s : t) (owner : string) : t * list Delta.t :=
  let '(es, deltas) := removeOwned now owner (entries s) in
  (mk es (globalVersion s + length deltas) (sequenceCounter s) (source s), deltas).

(** [clear()]: a delta per path, looked up in the map that is still full,
    then the map is emptied and the global version goes up once. *)
Definition clear (now : Z) (s : t) : t * list Delta.t :=
  (mk JsMap.empty (S (globalVersion s)) (sequenceCounter s) (source s),
   flat_map (fun path =>
               match JsMap.get (entries s) path with
               | Some e => [removalDelta now path e]
               | None => []
               end)
            (JsMap.keys (entries s))).

(** What can be done to a store, and a store after a sequence of it. *)
Inductive Op : Type :=
| OpSet (now : Z) (path : string) (value : Js.Value) (owner : string)
| OpSetBulk (now : Z) (updates : list Update.t) (owner : string)
| OpDelete (now : Z) (path : string) (owner : string)
| OpMarkOwnerStale (now : Z) (owner : string)
| OpClearOwnerStale (now : Z) (owner : string)
| OpDeleteByOwner (now : Z) (owner : string)
| OpClear (now : Z).

Definition apply (s : t) (op : Op) : t :=
  match op with
  | OpSet now path value owner => fst (set now s path value owner)
  | OpSetBulk now updates owner => fst (fst (setBulk now s updates owner))
  | OpDelete now path owner => fst (delete now s path owner)
  | OpMarkOwnerStale now owner => fst (markOwnerStale now s owner)
  | OpClearOwnerStale now owner => fst (clearOwnerStale now s owner)
  | OpDeleteByOwner now owner => fst (deleteByOwner now s owner)
  | OpClear now => fst (clear now s)
  end.

Definition applyAll (s : t) (ops : list Op) : t := fold_left apply ops s.

(** What holds of the entries of a store whatever has been done to it: a
    path occurs once; an entry records the path it is stored under; its
    version is at least [1] and at most the global version. *)
Definition consistent (s : t) : Prop :=
  JsMap.unique (entries s)
  /\ Forall (fun kv =>
               Entry.path (snd kv) = fst kv
               /\ 1 <= Entry.version (snd kv) <= globalVersion s)
            (entries s).

End StateStore.


(* ------------------------------------------------------------------------- *)
(** ** The subscription manager ([subscription.ts])                           *)
(* ------------------------------------------------------------------------- *)

Module SubscriptionManager.

Module Subscription.
Record t : Type := mk {
  id : string;
  clientId : string;
  patterns : list string;
  compiledPatterns : list (option (list RegExp.Node));
  filter : Protocol.SubscriptionFilter.t;
  snapshot : bool;
  snapshotSent : bool;
  createdAt : Z
}.
End Subscription.

Record t : Type := mk {
  subscriptionsById : JsMap.t Subscription.t;
  subscriptionsByClient : JsMap.t (list string);
  idCounter : nat
}.

Definition create : t := mk JsMap.empty JsMap.empty 0.

(** [Set.prototype.add] on an insertion-ordered set of strings. *)
Definition setAdd (xs : list string) (x : string) : list string :=
  if existsb (String.eqb x) xs then xs else (xs ++ [x])%list.

Definition setDelete (xs : list string) (x : string) : list string :=
  filter (fun y => negb (String.eqb y x)) xs.

(** [regex.test(path)] on a compiled pattern. *)
Definition compiledTest (regex : option (list RegExp.Node)) (path : string) : bool :=
  match regex with
  | Some r => RegExp.test r path
  | None => false
  end.

(** [subscribe(clientId, patterns, filter = 'all', snapshot = true)]: an
    argument that is [undefined] takes its default. *)
Definition subscribe (now : Z) (sm : t) (clientId : string) (patterns : list string)
  (filter : option Protocol.SubscriptionFilter.t) (snapshot : option bool)
  : Subscription.t * t :=
  let filter := match filter with
                | Some f => f
                | None => Protocol.SubscriptionFilter.ALL
                end in
  let snapshot := match snapshot with Some b => b | None => true end in
  let counter := S (idCounter sm) in
  let id := "sub-" ++ Js.Nat_toString counter in
  let subscription :=
    Subscription.mk id clientId patterns (map Pattern.patternToRegex patterns)
      filter snapshot false now in
  let byId := JsMap.set (subscriptionsById sm) id subscription in
  let clientSubs := match JsMap.get (subscriptionsByClient sm) clientId with
                    | Some subs => subs
                    | None => []
                    end in
  let byClient := JsMap.set (subscriptionsByClient sm) clientId (setAdd clientSubs id) in
  (subscription, mk byId byClient counter).

(** [unsubscribe(subscriptionId)]. *)
Definition unsubscribe (sm : t) (subscriptionId : string) : bool * t :=
  match JsMap.get (subscriptionsById sm) subscriptionId with
  | None => (false, sm)
  | Some subscription =>
      let byId := JsMap.delete (subscriptionsById sm) subscriptionId in
      let client := Subscription.clientId subscription in
      let byClient :=
        match JsMap.get (subscriptionsByClient sm) client with
        | Some clientSubs =>
            let clientSubs := setDelete clientSubs subscriptionId in
            match clientSubs with
            | [] => JsMap.delete (subscriptionsByClient sm) client
            | _ => JsMap.set (subscriptionsByClient sm) client clientSubs
            end
        | None => subscriptionsByClient sm
        end in
      (true, mk byId byClient (idCounter sm))
  end.

(** The loop of [unsubscribePatterns] over the client's subscription ids. *)
Fixpoint unsubscribeEach (sm : t) (patterns : list string) (subIds : list string)
  : nat * t :=
  match subIds with
  | [] => (0, sm)
  | subId :: rest =>
      match JsMap.get (subscriptionsById sm) subId with
      | Some subscription =>
          if existsb (fun p => existsb (String.eqb p) patterns)
                     (Subscription.patterns subscription)
          then
            let '(removed, sm') := unsubscribeEach (snd (unsubscribe sm subId)) patterns rest in
            (S removed, sm')
          else unsubscribeEach sm patterns rest
      | None => unsubscribeEach sm patterns rest
      end
  end.

(** [unsubscribePatterns(clientId, patterns)]. *)
Definition unsubscribePatterns (sm : t) (clientId : string) (patterns : list string)
  : nat * t :=
  match JsMap.get (subscriptionsByClient sm) clientId with
  | None => (0, sm)
  | Some clientSubs => unsubscribeEach sm patterns clientSubs
  end.

(** [unsubscribeClient(clientId)]. *)
Definition unsubscribeClient (sm : t) (clientId : string) : nat * t :=
  match JsMap.get (subscriptionsByClient sm) clientId with
  | None => (0, sm)
  | Some clientSubs =>
      (length clientSubs,
       mk (fold_left (fun m subId => JsMap.delete m subId) clientSubs
             (subscriptionsById sm))
          (JsMap.delete (subscriptionsByClient sm) clientId)
          (idCounter sm))
  end.

Definition getSubscription (sm : t) (subscriptionId : string)
  : option Subscription.t :=
  JsMap.get (subscriptionsById sm) subscriptionId.

(** The kind of message a lookup is made for ([messageType] in the
    source). *)
Inductive MessageKind : Type := KindState | KindEvent.

(** The filter test at the head of both matching loops: [true] when the
    subscription is skipped ([continue]). *)
Definition filteredOut (f : Protocol.SubscriptionFilter.t)
  (messageType : option MessageKind) : bool :=
  match messageType with
  | None => false
  | Some k =>
      match f, k with
      | Protocol.SubscriptionFilter.STATE, KindEvent => true
      | Protocol.SubscriptionFilter.EVENTS, KindState => true
      | _, _ => false
      end
  end.

(** The inner loop of [getMatchingSubscriptions]: the first pattern whose
    compiled form matches. *)
Fixpoint firstMatch (compiled : list (option (list RegExp.Node)))
  (patterns : list string) (path : string) : option string :=
  match compiled, patterns with
  | regex :: compiled', p :: patterns' =>
      if compiledTest regex path then Some p else firstMatch compiled' patterns' path
  | _, _ => None
  end.

(** [getMatchingSubscriptions(path, messageType?)]. *)
Definition getMatchingSubscriptions (sm : t) (path : string)
  (messageType : option MessageKind) : list (Subscription.t * string) :=
  flat_map (fun subscription =>
              if filteredOut (Subscription.filter subscription) messageType then []
              else match firstMatch (Subscription.compiledPatterns subscription)
                           (Subscription.patterns subscription) path with
                   | Some p => [(subscription, p)]
                   | None => []
                   end)
           (JsMap.values (subscriptionsById sm)).

(** [getSubscribedClients(path, messageType?)]: a [Set] of client ids. *)
Definition getSubscribedClients (sm : t) (path : string)
  (messageType : option MessageKind) : list string :=
  fold_left (fun clients m => setAdd clients (Subscription.clientId (fst m)))
            (getMatchingSubscriptions sm path messageType) [].

(** [markSnapshotSent(subscriptionId)]. *)
Definition markSnapshotSent (sm : t) (subscriptionId : string) : t :=
  match JsMap.get (subscriptionsById sm) subscriptionId with
  | Some s =>
      mk (JsMap.set (subscriptionsById sm) subscriptionId
            (Subscription.mk (Subscription.id s) (Subscription.clientId s)
               (Subscription.patterns s) (Subscription.compiledPatterns s)
               (Subscription.filter s) (Subscription.snapshot s) true
               (Subscription.createdAt s)))
         (subscriptionsByClient sm) (idCounter sm)
  | None => sm
  end.

(** [getAwaitingSnapshot()]. *)
Definition getAwaitingSnapshot (sm : t) : list Subscription.t :=
  filter (fun s => Subscription.snapshot s && negb (Subscription.snapshotSent s))
         (JsMap.values (subscriptionsById sm)).

(** Subscription number [k] has been issued, and every record held under
    its id asks for a snapshot and is not marked as sent. *)
Definition awaitsSnapshot (k : nat) (sm : t) : Prop :=
  k <= idCounter sm
  /\ Forall (fun kv =>
               fst kv = "sub-" ++ Js.Nat_toString k ->
               Subscription.snapshot (snd kv) = true
               /\ Subscription.snapshotSent (snd kv) = false)
            (subscriptionsById sm).

(** Every id in the table has been issued: it is [sub-j] for some [j] up to
    the counter. *)
Definition idsIssued (sm : t) : Prop :=
  Forall (fun kv => exists j, fst kv = "sub-" ++ Js.Nat_toString j /\ j <= idCounter sm)
         (subscriptionsById sm).

(** [getClientSubscriptions(clientId)]. *)
Definition getClientSubscriptions (sm : t) (clientId : string) : list Subscription.t :=
  match JsMap.get (subscriptionsByClient sm) clientId with
  | None => []
  | Some subIds =>
      flat_map (fun subId =>
                  match JsMap.get (subscriptionsById sm) subId with
                  | Some sub => [sub]
                  | None => []
                  end)
               subIds
  end.

(** [isClientSubscribed(clientId, path, messageType?)]. *)
Definition isClientSubscribed (sm : t) (clientId path : string)
  (messageType : option MessageKind) : bool :=
  existsb (fun sub =>
             negb (filteredOut (Subscription.filter sub) messageType)
             && existsb (fun regex => compiledTest regex path)
                        (Subscription.compiledPatterns sub))
          (getClientSubscriptions sm clientId).

(** [totalSubscriptions] and [totalClients]. *)
Definition totalSubscriptions (sm : t) : nat := JsMap.size (subscriptionsById sm).
Definition totalClients (sm : t) : nat := JsMap.size (subscriptionsByClient sm).

(** What can be done to a manager, and a manager after a sequence of it. *)
Inductive Op : Type :=
| OpSubscribe (now : Z) (clientId : string) (patterns : list string)
    (filter : option Protocol.SubscriptionFilter.t) (snapshot : option bool)
| OpUnsubscribe (subscriptionId : string)
| OpUnsubscribePatterns (clientId : string) (patterns : list string)
| OpUnsubscribeClient (clientId : string)
| OpMarkSnapshotSent (subscriptionId : string).

Definition apply (sm : t) (op : Op) : t :=
  match op with
  | OpSubscribe now clientId patterns filter snapshot =>
      snd (subscribe now sm clientId patterns filter snapshot)
  | OpUnsubscribe subscriptionId => snd (unsubscribe sm subscriptionId)
  | OpUnsubscribePatterns clientId patterns =>
      snd (unsubscribePatterns sm clientId patterns)
  | OpUnsubscribeClient clientId => snd (unsubscribeClient sm clientId)
  | OpMarkSnapshotSent subscriptionId => markSnapshotSent sm subscriptionId
  end.

Definition applyAll (sm : t) (ops : list Op) : t := fold_left apply ops sm.

(** The two indexes agree. A subscription is held under its own id, with
    its patterns compiled one for one, and its id is listed under its
    client; the ids listed under a client are distinct, at least one, and
    each is the id of a subscription of that client; an id or a client
    occurs once. *)
Definition inSync (sm : t) : Prop :=
  JsMap.unique (subscriptionsById sm)
  /\ JsMap.unique (subscriptionsByClient sm)
  /\ Forall (fun kv =>
               Subscription.id (snd kv) = fst kv
               /\ Subscription.compiledPatterns (snd kv)
                  = map Pattern.patternToRegex (Subscription.patterns (snd kv))
               /\ exists subIds,
                    JsMap.get (subscriptionsByClient sm) (Subscription.clientId (snd kv))
                    = Some subIds
                    /\ In (fst kv) subIds)
            (subscriptionsById sm)
  /\ Forall (fun kv =>
               snd kv <> []
               /\ NoDup (snd kv)
               /\ Forall (fun subId =>
                            exists sub,
                              JsMap.get (subscriptionsById sm) subId = Some sub
                              /\ Subscription.clientId sub = fst kv)
                         (snd kv))
            (subscriptionsByClient sm).

End SubscriptionManager.


(* ------------------------------------------------------------------------- *)
(** ** The message router ([router.ts])                                       *)
(* ------------------------------------------------------------------------- *)

Module MessageRouter.

Import Protocol.

(** A registered target. Its [handler] closure is not data: what the
    handlers do is given by [Handlers] below. *)
Module RouteTarget.
Record t : Type := mk { id : string; namespace : string }.
End RouteTarget.

Module RouterOptions.
Record t : Type := mk {
  enableIdempotency : bool;
  idempotencyTtl : Z;
  maxPendingCommands : nat;
  defaultCommandTimeout : Z
}.
(** The defaults the constructor fills in. *)
Definition defaults : t := mk true 60000 1000 30000.
End RouterOptions.

Module IdempotencyRecord.
Record t : Type := mk { result : option BridgeMessage; timestamp : Z }.
End IdempotencyRecord.

Module PendingCommand.
Record t : Type := mk { message : BridgeMessage; sentAt : Z }.
End PendingCommand.

(** The fields of the class, and the runtime the router runs in. *)
Record t : Type := mk {
  targets : JsMap.t RouteTarget.t;
  stateStore : StateStore.t;
  subscriptionManager : SubscriptionManager.t;
  sequenceCounter : nat;
  options : RouterOptions.t;
  idempotencyCache : JsMap.t IdempotencyRecord.t;
  pendingCommands : JsMap.t PendingCommand.t;
  runtime : Runtime
}.

(** [new MessageRouter(stateStore, options)]. *)
Definition create (stateStore : StateStore.t) (options : RouterOptions.t)
  (rt : Runtime) : t :=
  mk JsMap.empty stateStore SubscriptionManager.create 0 options
     JsMap.empty JsMap.empty rt.

Definition withStateStore (r : t) (s : StateStore.t) : t :=
  mk (targets r) s (subscriptionManager r) (sequenceCounter r) (options r)
     (idempotencyCache r) (pendingCommands r) (runtime r).

Definition withSubscriptionManager (r : t) (sm : SubscriptionManager.t) : t :=
  mk (targets r) (stateStore r) sm (sequenceCounter r) (options r)
     (idempotencyCache r) (pendingCommands r) (runtime r).

Definition withSequenceCounter (r : t) (n : nat) : t :=
  mk (targets r) (stateStore r) (subscriptionManager r) n (options r)
     (idempotencyCache r) (pendingCommands r) (runtime r).

Definition withIdempotencyCache (r : t) (c : JsMap.t IdempotencyRecord.t) : t :=
  mk (targets r) (stateStore r) (subscriptionManager r) (sequenceCounter r)
     (options r) c (pendingCommands r) (runtime r).

Definition withPendingCommands (r : t) (p : JsMap.t PendingCommand.t) : t :=
  mk (targets r) (stateStore r) (subscriptionManager r) (sequenceCounter r)
     (options r) (idempotencyCache r) p (runtime r).

Definition withRuntime (r : t) (rt : Runtime) : t :=
  mk (targets r) (stateStore r) (subscriptionManager r) (sequenceCounter r)
     (options r) (idempotencyCache r) (pendingCommands r) rt.

Definition withTargets (r : t) (ts : JsMap.t RouteTarget.t) : t :=
  mk ts (stateStore r) (subscriptionManager r) (sequenceCounter r)
     (options r) (idempotencyCache r) (pendingCommands r) (runtime r).

(** *** What handlers do

    A value thrown by a handler: an [Error] with its message, or anything
    else. *)
Inductive Thrown : Type :=
| ErrorObject (message : string)
| OtherValue.

(** How one call of a handler ends: it returns (or its promise fulfils), its
    promise rejects, or it throws before returning. Under [await] the last
    two are the same; under [Promise.resolve(handler(m)).catch(...)] only a
    rejection is caught. *)
Inductive Completion : Type :=
| Returns
| Rejects (e : Thrown)
| Throws (e : Thrown).

(** The behaviour of the registered handlers. Called on a message, a handler
    may call [router.route] again, any number of times, before it completes;
    each such message comes with the behaviour of the handlers during that
    inner call. Handlers run to completion: no other work interleaves with
    a call. The routes a handler starts are not awaited by it, so their
    outcome does not change how the handler completes. *)
Inductive Handlers : Type :=
| MkHandlers (react : RouteTarget.t -> BridgeMessage
                      -> list (BridgeMessage * Handlers) * Completion).

(** One handler call as observed: the target called, the message passed,
    and the calls made by the routes the handler started meanwhile. *)
Inductive Call : Type :=
| Invoke (target : RouteTarget.t) (message : BridgeMessage) (nested : list Call).

Definition react (h : Handlers)
  : RouteTarget.t -> BridgeMessage -> list (BridgeMessage * Handlers) * Completion :=
  match h with MkHandlers f => f end.

Definition callee (c : Call) : RouteTarget.t :=
  match c with Invoke t _ _ => t end.

Definition delivered (c : Call) : BridgeMessage :=
  match c with Invoke _ m _ => m end.

(** How the promise returned by [route] settles. *)
Inductive Settled : Type :=
| Fulfilled
| RejectedWith (e : Thrown)
| RejectedTypeError.

(** Calling [target.handler(message)] from router state [r]. *)
Definition Invoker : Type :=
  t -> RouteTarget.t -> BridgeMessage -> t * Call * Completion.

(** *** Helper methods *)

(** The loop of [findTarget] over the parts left after each [pop]. [parts]
    holds the remaining parts in reverse order. *)
Fixpoint findPrefix (targets : JsMap.t RouteTarget.t) (reversedParts : list string)
  : option RouteTarget.t :=
  match reversedParts with
  | [] => None
  | _ :: shorter =>
      match shorter with
      | [] => None
      | _ :: _ =>
          match JsMap.get targets (Js.join "." (rev shorter)) with
          | Some target => Some target
          | None => findPrefix targets shorter
          end
      end
  end.

(** [findTarget(namespace)]. *)
Definition findTarget (r : t) (namespace : string) : option RouteTarget.t :=
  match JsMap.get (targets r) namespace with
  | Some exact => Some exact
  | None => findPrefix (targets r) (rev (Js.split "." namespace))
  end.

(** [findTargetById(id)]. *)
Definition findTargetById (r : t) (id : string) : option RouteTarget.t :=
  find (fun target => String.eqb (RouteTarget.id target) id)
       (JsMap.values (targets r)).

(** [createAck({...}, this.sequenceCounter.next())] inside the router. *)
Definition makeAck (r : t) (options : AckOptions.t) : BridgeMessage * t :=
  let '(seq, counter) := next (sequenceCounter r) in
  let '(ack, rt) := createAck options seq (runtime r) in
  (ack, withRuntime (withSequenceCounter r counter) rt).

(** [sendError(originalMessage, code, errorMessage)]. *)
Definition sendError (call : Invoker) (r : t) (originalMessage : BridgeMessage)
  (code errorMessage : string) : t * list Call * Settled :=
  let '(seq, counter) := next (sequenceCounter r) in
  let '(error, rt) :=
    createError
      (ErrorOptions.mk "hub.core" (Some (source originalMessage))
         (path originalMessage) code errorMessage Js.JUndefined
         (Some (id originalMessage)) (correlationId originalMessage))
      seq (runtime r) in
  let r := withRuntime (withSequenceCounter r counter) rt in
  match JsMap.get (targets r) (source originalMessage) with
  | Some sourceTarget =>
      let '(r, c, done) := call r sourceTarget error in
      match done with
      | Returns => (r, [c], Fulfilled)
      | Rejects e | Throws e => (r, [c], RejectedWith e)
      end
  | None => (r, [], Fulfilled)
  end.

(** [cleanupExpired()], run by the interval timer. *)
Definition cleanupExpired (r : t) : t :=
  let now := Date_now (runtime r) in
  withIdempotencyCache r
    (filter (fun kv =>
               negb (Z.ltb (RouterOptions.idempotencyTtl (options r) * 2)
                           (now - IdempotencyRecord.timestamp (snd kv))))
            (idempotencyCache r)).

(** [registerTarget(target)]; [None] when it throws. *)
Definition registerTarget (r : t) (target : RouteTarget.t) : option t :=
  if JsMap.has (targets r) (RouteTarget.namespace target) then None
  else Some (withTargets r (JsMap.set (targets r) (RouteTarget.namespace target) target)).

(** *** Routing *)

(** The idempotency test [this.options.enableIdempotency &&
    message.idempotencyKey] and the key it guards. *)
Definition idempotencyKeyOf (r : t) (key : option string) : option string :=
  if RouterOptions.enableIdempotency (options r) && Js.truthyString key
  then key else None.

(** [error instanceof Error ? error.message : 'Unknown error']. *)
Definition errorMessageOf (e : Thrown) : string :=
  match e with
  | ErrorObject m => m
  | OtherValue => "Unknown error"
  end.

(** The second half of [routeCommand], from "Find target" on. *)
Definition dispatchCommand (call : Invoker) (r : t) (message : BridgeMessage)
  : t * list Call * Settled :=
  match target message with
  | None => (r, [], RejectedTypeError)
  | Some namespace =>
      match findTarget r namespace with
      | None =>
          sendError call r message ErrorCode.UNKNOWN_TARGET
            ("Unknown target: " ++ namespace)
      | Some target =>
          let '(receivedAck, r) :=
            makeAck r (AckOptions.mk "hub.core" (source message) (path message)
                         (id message) AckStatus.RECEIVED Js.JUndefined None
                         (correlationId message)) in
          let '(r, acks, failed) :=
            match JsMap.get (targets r) (source message) with
            | Some sourceTarget =>
                let '(r, c, done) := call r sourceTarget receivedAck in
                match done with
                | Returns => (r, [c], None)
                | Rejects e | Throws e => (r, [c], Some e)
                end
            | None => (r, [], None)
            end in
          match failed with
          | Some e => (r, acks, RejectedWith e)
          | None =>
              let '(r, c, done) := call r target message in
              match done with
              | Returns =>
                  let r :=
                    match idempotencyKeyOf r (idempotencyKey message) with
                    | Some key =>
                        withIdempotencyCache r
                          (JsMap.set (idempotencyCache r) key
                             (IdempotencyRecord.mk None (Date_now (runtime r))))
                    | None => r
                    end in
                  (r, (acks ++ [c])%list, Fulfilled)
              | Rejects e | Throws e =>
                  let '(r, cs, settled) :=
                    sendError call r message ErrorCode.ADAPTER_ERROR (errorMessageOf e) in
                  (r, (acks ++ c :: cs)%list, settled)
              end
          end
      end
  end.

(** [routeCommand(message)]. *)
Definition routeCommand (call : Invoker) (r : t) (message : BridgeMessage)
  : t * list Call * Settled :=
  match idempotencyKeyOf r (idempotencyKey message) with
  | Some key =>
      match JsMap.get (idempotencyCache r) key with
      | Some cached =>
          match IdempotencyRecord.result cached with
          | Some result =>
              match JsMap.get (targets r) (source message) with
              | Some sourceTarget =>
                  let '(r, c, done) := call r sourceTarget result in
                  match done with
                  | Returns => (r, [c], Fulfilled)
                  | Rejects e | Throws e => (r, [c], RejectedWith e)
                  end
              | None => (r, [], Fulfilled)
              end
          | None => (r, [], Fulfilled)
          end
      | None => dispatchCommand call r message
      end
  | None => dispatchCommand call r message
  end.

(** The loop of [routeEvent]: a failed delivery is logged and the loop goes
    on. *)
Fixpoint deliverEvent (call : Invoker) (r : t) (message : BridgeMessage)
  (subscribedClients : list string) : t * list Call :=
  match subscribedClients with
  | [] => (r, [])
  | clientId :: rest =>
      match findTargetById r clientId with
      | Some target =>
          if negb (String.eqb (RouteTarget.namespace target) (source message)) then
            let '(r, c, _) := call r target message in
            let '(r, cs) := deliverEvent call r message rest in
            (r, c :: cs)
          else deliverEvent call r message rest
      | None => deliverEvent call r message rest
      end
  end.

(** [routeEvent(message)]. *)
Definition routeEvent (call : Invoker) (r : t) (message : BridgeMessage)
  : t * list Call * Settled :=
  let subscribedClients :=
    SubscriptionManager.getSubscribedClients (subscriptionManager r) (path message)
      (Some SubscriptionManager.KindEvent) in
  let '(r, cs) := deliverEvent call r message subscribedClients in
  (r, cs, Fulfilled).

(** The loop of [handleStateDelta]. A rejected promise is caught and logged;
    a handler that throws before returning ends the loop (the exception
    leaves the listener and is caught in [notifyListeners]). *)
Fixpoint deliverState (call : Invoker) (r : t) (message : BridgeMessage)
  (owner : string) (subscribedClients : list string) : t * list Call :=
  match subscribedClients with
  | [] => (r, [])
  | clientId :: rest =>
      match findTargetById r clientId with
      | Some target =>
          if negb (String.eqb (RouteTarget.namespace target) owner) then
            let '(r, c, done) := call r target message in
            match done with
            | Throws _ => (r, [c])
            | _ =>
                let '(r, cs) := deliverState call r message owner rest in
                (r, c :: cs)
            end
          else deliverState call r message owner rest
      | None => deliverState call r message owner rest
      end
  end.

(** [handleStateDelta(delta)], the listener the constructor installs on the
    store. *)
Definition handleStateDelta (call : Invoker) (r : t) (delta : StateStore.Delta.t)
  : t * list Call :=
  let '(message, store, rt) :=
    StateStore.deltaToMessage (runtime r) (stateStore r) delta in
  let r := withRuntime (withStateStore r store) rt in
  let subscribedClients :=
    SubscriptionManager.getSubscribedClients (subscriptionManager r)
      (StateStore.Delta.path delta) (Some SubscriptionManager.KindState) in
  deliverState call r message (StateStore.Entry.owner (StateStore.Delta.entry delta))
    subscribedClients.

(** [this.stateStore.set(path, value, owner)] with the router's listener
    installed: the write, then the listener on the delta it notifies. Any
    caller holding the store ([getStateStore()]) goes through this. *)
Definition storeSet (call : Invoker) (r : t) (path : string) (value : Js.Value)
  (owner : string) : t * list Call * StateStore.WriteResult :=
  let '(store, result) :=
    StateStore.set (Date_now (runtime r)) (stateStore r) path value owner in
  let r := withStateStore r store in
  match result with
  | StateStore.Changed delta =>
      let '(r, cs) := handleStateDelta call r delta in (r, cs, result)
  | _ => (r, [], result)
  end.

(** [routeState(message)]. *)
Definition routeState (call : Invoker) (r : t) (message : BridgeMessage)
  (payload : State.Payload) : t * list Call * Settled :=
  let '(r, cs, result) :=
    storeSet call r (path message) (State.value payload) (source message) in
  match result with
  | StateStore.Threw e =>
      sendError call r message ErrorCode.STATE_CONFLICT
        (StateStore.OwnershipError.message e)
  | _ => (r, cs, Fulfilled)
  end.

(** [Promise.resolve(target.handler(message)).catch(...)] as the last
    statement of a synchronous method: only a handler that throws before
    returning makes the method throw. *)
Definition forward (call : Invoker) (r : t) (target : RouteTarget.t)
  (message : BridgeMessage) : t * list Call * Settled :=
  let '(r, c, done) := call r target message in
  match done with
  | Throws e => (r, [c], RejectedWith e)
  | _ => (r, [c], Fulfilled)
  end.

(** [handleAck(message)]. *)
Definition handleAck (call : Invoker) (r : t) (message : BridgeMessage)
  (payload : Ack.Payload) : t * list Call * Settled :=
  let r :=
    match JsMap.get (pendingCommands r) (Ack.commandId payload) with
    | Some pending =>
        let r := withPendingCommands r
                   (JsMap.delete (pendingCommands r) (Ack.commandId payload)) in
        match idempotencyKeyOf r (idempotencyKey (PendingCommand.message pending)) with
        | Some key =>
            withIdempotencyCache r
              (JsMap.set (idempotencyCache r) key
                 (IdempotencyRecord.mk (Some message) (Date_now (runtime r))))
        | None => r
        end
    | None => r
    end in
  match target message with
  | Some namespace =>
      match JsMap.get (targets r) namespace with
      | Some sourceTarget => forward call r sourceTarget message
      | None => (r, [], Fulfilled)
      end
  | None => (r, [], Fulfilled)
  end.

(** [handleError(message)]. *)
Definition handleError (call : Invoker) (r : t) (message : BridgeMessage)
  : t * list Call * Settled :=
  if Js.truthyString (target message) then
    match target message with
    | Some namespace =>
        match JsMap.get (targets r) namespace with
        | Some target => forward call r target message
        | None => (r, [], Fulfilled)
        end
    | None => (r, [], Fulfilled)
    end
  else (r, [], Fulfilled).

(** The inner loop of the snapshot stream: [await sourceTarget.handler
    (stateMsg)] for each message; a failure ends the whole method. *)
Fixpoint streamMessages (call : Invoker) (r : t) (sourceTarget : RouteTarget.t)
  (messages : list BridgeMessage) : t * list Call * option Thrown :=
  match messages with
  | [] => (r, [], None)
  | stateMsg :: rest =>
      let '(r, c, done) := call r sourceTarget stateMsg in
      match done with
      | Returns =>
          let '(r, cs, failed) := streamMessages call r sourceTarget rest in
          (r, c :: cs, failed)
      | Rejects e | Throws e => (r, [c], Some e)
      end
  end.

(** The outer loop: per pattern, take the snapshot, build its messages, then
    stream them. *)
Fixpoint streamSnapshots (call : Invoker) (r : t) (sourceTarget : RouteTarget.t)
  (patterns : list string) : t * list Call * option Thrown :=
  match patterns with
  | [] => (r, [], None)
  | pattern :: rest =>
      let snapshot :=
        StateStore.getSnapshotForPattern (Date_now (runtime r)) (stateStore r) pattern in
      let '(messages, store, rt) :=
        StateStore.snapshotToMessages (runtime r) (stateStore r) snapshot in
      let r := withRuntime (withStateStore r store) rt in
      let '(r, cs, failed) := streamMessages call r sourceTarget messages in
      match failed with
      | Some e => (r, cs, Some e)
      | None =>
          let '(r, cs', failed) := streamSnapshots call r sourceTarget rest in
          (r, (cs ++ cs')%list, failed)
      end
  end.

(** The event that closes a snapshot stream. *)
Definition snapshotCompleteEvent (subscriptionId : string) (now : Z) (seq : nat)
  : BridgeMessage :=
  mkMessage ("snapshot-complete-" ++ subscriptionId) "hub.core" None
    "hub.subscriptions"
    (PEvent (Event.mk "snapshot_complete"
               (Js.JObject [("subscriptionId", Js.JString subscriptionId)])))
    now None seq None None.

(** [if (message.payload.snapshot)]. *)
Definition snapshotRequested (payload : Subscribe.Payload) : bool :=
  match Subscribe.snapshot payload with
  | Some true => true
  | _ => false
  end.

(** [handleSubscribe(message)]. *)
Definition handleSubscribe (call : Invoker) (r : t) (message : BridgeMessage)
  (payload : Subscribe.Payload) : t * list Call * Settled :=
  let '(subscription, sm) :=
    SubscriptionManager.subscribe (Date_now (runtime r)) (subscriptionManager r)
      (source message) (Subscribe.patterns payload) (Subscribe.filter payload)
      (Subscribe.snapshot payload) in
  let subscriptionId := SubscriptionManager.Subscription.id subscription in
  let r := withSubscriptionManager r sm in
  let '(ack, r) :=
    makeAck r (AckOptions.mk "hub.core" (source message) (path message)
                 (id message) AckStatus.COMPLETED
                 (Js.JObject [("subscriptionId", Js.JString subscriptionId)])
                 None (correlationId message)) in
  match JsMap.get (targets r) (source message) with
  | None => (r, [], Fulfilled)
  | Some sourceTarget =>
      let '(r, c0, done) := call r sourceTarget ack in
      match done with
      | Rejects e | Throws e => (r, [c0], RejectedWith e)
      | Returns =>
          if snapshotRequested payload then
            let '(r, cs, failed) :=
              streamSnapshots call r sourceTarget (Subscribe.patterns payload) in
            match failed with
            | Some e => (r, c0 :: cs, RejectedWith e)
            | None =>
                let now := Date_now (runtime r) in
                let '(seq, counter) := next (sequenceCounter r) in
                let r := withSequenceCounter r counter in
                let completeEvent := snapshotCompleteEvent subscriptionId now seq in
                let '(r, c1, done) := call r sourceTarget completeEvent in
                match done with
                | Rejects e | Throws e =>
                    (r, c0 :: (cs ++ [c1])%list, RejectedWith e)
                | Returns =>
                    (withSubscriptionManager r
                       (SubscriptionManager.markSnapshotSent (subscriptionManager r)
                          subscriptionId),
                     c0 :: (cs ++ [c1])%list, Fulfilled)
                end
            end
          else (r, [c0], Fulfilled)
      end
  end.

(** [handleUnsubscribe(message)]. *)
Definition handleUnsubscribe (call : Invoker) (r : t) (message : BridgeMessage)
  (payload : Unsubscribe.Payload) : t * list Call * Settled :=
  let '(removed, sm) :=
    SubscriptionManager.unsubscribePatterns (subscriptionManager r)
      (source message) (Unsubscribe.patterns payload) in
  let r := withSubscriptionManager r sm in
  let '(ack, r) :=
    makeAck r (AckOptions.mk "hub.core" (source message) (path message)
                 (id message) AckStatus.COMPLETED
                 (Js.JObject [("removedCount", Js.JNumber (Z.of_nat removed))])
                 None (correlationId message)) in
  match JsMap.get (targets r) (source message) with
  | Some sourceTarget => forward call r sourceTarget ack
  | None => (r, [], Fulfilled)
  end.

(** [route(message)], with the handler calls left to [call]. *)
Definition routeWith (call : Invoker) (r : t) (message : BridgeMessage)
  : t * list Call * Settled :=
  match payload message with
  | PCommand _ => routeCommand call r message
  | PEvent _ => routeEvent call r message
  | PState p => routeState call r message p
  | PAck p => handleAck call r message p
  | PError _ => handleError call r message
  | PSubscribe p => handleSubscribe call r message p
  | PUnsubscribe p => handleUnsubscribe call r message p
  end.

(** Calling a handler: the routes it starts run one after the other inside
    the call, each from the state the previous one left. *)
Fixpoint invoke (h : Handlers) (r : t) (target : RouteTarget.t)
  (message : BridgeMessage) {struct h} : t * Call * Completion :=
  match h with
  | MkHandlers react =>
      let fix reenter (routes : list (BridgeMessage * Handlers)) (r : t)
        : t * list Call :=
        match routes with
        | [] => (r, [])
        | (m, inner) :: rest =>
            let '(r, cs, _) := routeWith (invoke inner) r m in
            let '(r, cs') := reenter rest r in
            (r, (cs ++ cs')%list)
        end in
      let '(r, nested) := reenter (fst (react target message)) r in
      (r, Invoke target message nested, snd (react target message))
  end.

(** [router.route(message)]. *)
Definition route (h : Handlers) (r : t) (message : BridgeMessage)
  : t * list Call * Settled :=
  routeWith (invoke h) r message.

(** Handlers that never call back into the router and always return: the
    client transport's [sendToClient]. *)
Definition quiet : Handlers := MkHandlers (fun _ _ => ([], Returns)).

(** [unregisterTarget(namespace)]. Rejecting the waiters of the pending
    commands has no effect inside the router. *)
Definition unregisterTarget (r : t) (namespace : string) : bool * t :=
  match JsMap.get (targets r) namespace with
  | None => (false, r)
  | Some target =>
      let sm := snd (SubscriptionManager.unsubscribeClient (subscriptionManager r)
                       (RouteTarget.id target)) in
      let pending :=
        filter (fun kv =>
                  match Protocol.target (PendingCommand.message (snd kv)) with
                  | Some ns => negb (String.eqb ns namespace)
                  | None => true
                  end)
               (pendingCommands r) in
      (true,
       withTargets (withPendingCommands (withSubscriptionManager r sm) pending)
         (JsMap.delete (targets r) namespace))
  end.

(** What can happen to a router, one thing at a time and each to
    completion: a message is routed, a component holding the store writes to
    it, a target comes or goes, the sweep timer fires, the clock moves. *)
Inductive Action : Type :=
| Route (message : BridgeMessage) (h : Handlers)
| StoreSet (path : string) (value : Js.Value) (owner : string) (h : Handlers)
| RegisterTarget (target : RouteTarget.t)
| UnregisterTarget (namespace : string)
| CleanupExpired
| ClockReads (now : Z).

Definition step (r : t) (a : Action) : t * list Call :=
  match a with
  | Route message h => let '(r, cs, _) := route h r message in (r, cs)
  | StoreSet path value owner h =>
      let '(r, cs, _) := storeSet (invoke h) r path value owner in (r, cs)
  | RegisterTarget target =>
      (match registerTarget r target with Some r' => r' | None => r end, [])
  | UnregisterTarget namespace => (snd (unregisterTarget r namespace), [])
  | CleanupExpired => (cleanupExpired r, [])
  | ClockReads now =>
      (withRuntime r (mkRuntime now (uuids (runtime r)) (minted (runtime r))), [])
  end.

Fixpoint run (r : t) (actions : list Action) : t * list Call :=
  match actions with
  | [] => (r, [])
  | a :: rest =>
      let '(r, cs) := step r a in
      let '(r, cs') := run r rest in
      (r, (cs ++ cs')%list)
  end.

(** *** Target resolution in the words of the specification

    The namespaces tried: the namespace itself, then the namespace with its
    last dot-segment trimmed, and so on down to its first segment. *)
Fixpoint leadingSegments (n : nat) (parts : list string) : list string :=
  match n with
  | O => []
  | S k => Js.join "." (firstn (S k) parts) :: leadingSegments k parts
  end.

Definition candidates (namespace : string) : list string :=
  let parts := Js.split "." namespace in
  leadingSegments (length parts) parts.

(** The first of the namespaces that has a target. *)
Fixpoint firstRegistered (targets : JsMap.t RouteTarget.t) (namespaces : list string)
  : option RouteTarget.t :=
  match namespaces with
  | [] => None
  | ns :: rest =>
      match JsMap.get targets ns with
      | Some target => Some target
      | None => firstRegistered targets rest
      end
  end.

(** *** The snapshot of a subscription in the words of the specification

    For each pattern in turn, the entries of the store that match it, in the
    order the store enumerates them, each as a state message. *)
Fixpoint snapshotMessages (rt : Runtime) (store : StateStore.t)
  (patterns : list string) : list BridgeMessage * StateStore.t * Runtime :=
  match patterns with
  | [] => ([], store, rt)
  | pattern :: rest =>
      let snapshot := StateStore.getSnapshotForPattern (Date_now rt) store pattern in
      let '(messages, store, rt) := StateStore.snapshotToMessages rt store snapshot in
      let '(messages', store, rt) := snapshotMessages rt store rest in
      ((messages ++ messages')%list, store, rt)
  end.

(** The id the next subscription will get. *)
Definition nextSubscriptionId (r : t) : string :=
  "sub-" ++ Js.Nat_toString (S (SubscriptionManager.idCounter (subscriptionManager r))).

(** The result carried by an ack. *)
Definition ackResult (m : BridgeMessage) : Js.Value :=
  match payload m with
  | PAck p => Ack.result p
  | _ => Js.JUndefined
  end.

(** Whether a command is answered from the idempotency cache. *)
Definition answeredFromCache (r : t) (message : BridgeMessage) : bool :=
  match idempotencyKeyOf r (idempotencyKey message) with
  | Some key => JsMap.has (idempotencyCache r) key
  | None => false
  end.

(** No command is pending and no cached record carries a result: every
    cached key is in flight. *)
Definition inFlightOnly (r : t) : Prop :=
  pendingCommands r = []
  /\ Forall (fun kv => IdempotencyRecord.result (snd kv) = None)
            (idempotencyCache r).

(** Reading a delivered message. *)
Definition isErrorWithCode (code : string) (m : BridgeMessage) : bool :=
  match payload m with
  | PError p => String.eqb (Error.code p) code
  | _ => false
  end.

Definition ackStatus (m : BridgeMessage) : option AckStatus.t :=
  match payload m with
  | PAck p => Some (Ack.status p)
  | _ => None
  end.

Definition ackErrorCode (m : BridgeMessage) : option string :=
  match payload m with
  | PAck p => option_map AckError.code (Ack.error p)
  | _ => None
  end.

Definition isStateMessage (m : BridgeMessage) : bool :=
  match payload m with PState _ => true | _ => false end.

Definition isEventNamed (name : string) (m : BridgeMessage) : bool :=
  match payload m with
  | PEvent p => String.eqb (Event.event p) name
  | _ => false
  end.

(** The handler calls of a call tree in the order they start: a call, then
    what was routed while it was running, then the call after it. *)
Fixpoint started (c : Call) : list (RouteTarget.t * BridgeMessage) :=
  match c with
  | Invoke target message nested => (target, message) :: flat_map started nested
  end.

Definition trace (calls : list Call) : list (RouteTarget.t * BridgeMessage) :=
  flat_map started calls.

End MessageRouter.


(* ------------------------------------------------------------------------- *)
(** ** The Companion adapter: the bridge-message handler ([adapter.ts])       *)
(* ------------------------------------------------------------------------- *)

Module CompanionAdapter.

Import Protocol.

Module SatelliteCommand.
Definition KEY_PRESS : string := "KEY-PRESS".
Definition KEY_ROTATE : string := "KEY-ROTATE".
Definition KEYS_CLEAR : string := "KEYS-CLEAR".
Definition VARIABLE_VALUE : string := "VARIABLE-VALUE".
Definition PING : string := "PING".
End SatelliteCommand.

(** The socket of the [ws] library, as far as sending goes: its ready state,
    whether [send] throws, and the frames written so far (oldest first). *)
Module WebSocket.
Inductive ReadyState : Type := CONNECTING | OPEN | CLOSING | CLOSED.
Record t : Type := mk {
  readyState : ReadyState;
  sendThrows : bool;
  sent : list string
}.
Definition isOpen (w : t) : bool :=
  match readyState w with OPEN => true | _ => false end.
End WebSocket.

Module Capabilities.
Record t : Type := mk {
  supportsVariables : bool;
  supportsKeyImages : bool;
  supportsRotation : bool;
  supportsVariableWrite : bool
}.
(** [DEFAULT_CAPABILITIES]. *)
Definition defaults : t := mk true true false true.
End Capabilities.

Module Metrics.
Record t : Type := mk {
  messagesSent : nat;
  commandsSent : nat;
  commandsFailed : nat
}.
Definition initial : t := mk 0 0 0.
End Metrics.

(** The fields of the class that the command path reads or writes.
    [router] is [true] while a router is attached ([this.router] is not
    null). *)
Record t : Type := mk {
  deviceId : string;
  namespace : string;
  sequenceCounter : nat;
  ws : option WebSocket.t;
  router : bool;
  capabilities : Capabilities.t;
  metrics : Metrics.t;
  variablesCache : JsMap.t string;
  keyStatesCache : JsMap.t Js.Value
}.

Definition withWs (a : t) (w : option WebSocket.t) : t :=
  mk (deviceId a) (namespace a) (sequenceCounter a) w (router a)
     (capabilities a) (metrics a) (variablesCache a) (keyStatesCache a).

Definition withMetrics (a : t) (m : Metrics.t) : t :=
  mk (deviceId a) (namespace a) (sequenceCounter a) (ws a) (router a)
     (capabilities a) m (variablesCache a) (keyStatesCache a).

Definition withSequenceCounter (a : t) (n : nat) : t :=
  mk (deviceId a) (namespace a) n (ws a) (router a)
     (capabilities a) (metrics a) (variablesCache a) (keyStatesCache a).

Definition withKeyStatesCache (a : t) (c : JsMap.t Js.Value) : t :=
  mk (deviceId a) (namespace a) (sequenceCounter a) (ws a) (router a)
     (capabilities a) (metrics a) (variablesCache a) c.

(** What a handler leaves behind: the adapter, the runtime, and the messages
    it passed to [this.router.route], in order. *)
Definition Effect : Type := (t * Runtime * list BridgeMessage)%type.

(** The characters [encodeURIComponent] leaves as they are. *)
Definition isUnreserved (c : ascii) : bool :=
  let n := nat_of_ascii c in
  (Nat.leb 65 n && Nat.leb n 90) || (Nat.leb 97 n && Nat.leb n 122)
  || (Nat.leb 48 n && Nat.leb n 57)
  || existsb (Ascii.eqb c) (list_ascii_of_string "-_.!~*'()").

Definition upperHexDigit (n : nat) : ascii :=
  if Nat.ltb n 10 then ascii_of_nat (48 + n) else ascii_of_nat (55 + n).

(** [encodeURIComponent] on a string of UTF-8 bytes. *)
Fixpoint encodeURIComponent (s : string) : string :=
  match s with
  | EmptyString => EmptyString
  | String c s' =>
      if isUnreserved c then String c (encodeURIComponent s')
      else
        let n := nat_of_ascii c in
        String "%" (String (upperHexDigit (n / 16))
                      (String (upperHexDigit (n mod 16)) (encodeURIComponent s')))
  end.

(** [sendSatelliteCommand(command, args)]. *)
Definition sendSatelliteCommand (a : t) (command : string) (args : list string)
  : bool * t :=
  match ws a with
  | None => (false, a)
  | Some w =>
      if negb (WebSocket.isOpen w) then (false, a)
      else
        let message := Js.join " " (command :: args) in
        if WebSocket.sendThrows w then (false, a)
        else
          (true,
           withMetrics
             (withWs a (Some (WebSocket.mk (WebSocket.readyState w)
                                (WebSocket.sendThrows w)
                                (WebSocket.sent w ++ [message])%list)))
             (Metrics.mk (S (Metrics.messagesSent (metrics a)))
                (Metrics.commandsSent (metrics a))
                (Metrics.commandsFailed (metrics a))))
  end.

(** [this.metrics.commandsSent++]. *)
Definition countCommandSent (a : t) : t :=
  withMetrics a (Metrics.mk (Metrics.messagesSent (metrics a))
                   (S (Metrics.commandsSent (metrics a)))
                   (Metrics.commandsFailed (metrics a))).

(** [sendCompletedAck(command, result)]. *)
Definition sendCompletedAck (a : t) (rt : Runtime) (command : BridgeMessage)
  (result : Js.Value) : Effect :=
  if negb (router a) then (a, rt, [])
  else
    let '(seq, counter) := next (sequenceCounter a) in
    let '(ack, rt) :=
      createAck (AckOptions.mk (namespace a) (source command) (path command)
                   (id command) AckStatus.COMPLETED result None
                   (correlationId command))
        seq rt in
    (withSequenceCounter a counter, rt, [ack]).

(** [sendErrorResponse(command, code, message)]. *)
Definition sendErrorResponse (a : t) (rt : Runtime) (command : BridgeMessage)
  (code message : string) : Effect :=
  if negb (router a) then (a, rt, [])
  else
    let a := withMetrics a (Metrics.mk (Metrics.messagesSent (metrics a))
                              (Metrics.commandsSent (metrics a))
                              (S (Metrics.commandsFailed (metrics a)))) in
    let '(seq, counter) := next (sequenceCounter a) in
    let '(ack, rt) :=
      createAck (AckOptions.mk (namespace a) (source command) (path command)
                   (id command) AckStatus.FAILED Js.JUndefined
                   (Some (AckError.mk code message Js.JUndefined))
                   (correlationId command))
        seq rt in
    (withSequenceCounter a counter, rt, [ack]).

(** The key a press or release names: [keyIndex], or [page] and [bank];
    [None] when neither is there. [params?.x] is [undefined] as well when
    [params] itself is. *)
Definition keyIndexOf (params : option Params.t) : option Z :=
  let params := match params with Some p => p | None => Params.none end in
  match Params.keyIndex params with
  | Some keyIndex => Some keyIndex
  | None =>
      match Params.page params, Params.bank params with
      | Some page, Some bank => Some ((page - 1) * 8 + bank)%Z
      | _, _ => None
      end
  end.

(** The body shared by [handlePressCommand] ([state = "PRESSED"]) and
    [handleReleaseCommand] ([state = "RELEASED"]), which differ in that word
    only. *)
Definition handleKeyCommand (state : string) (a : t) (rt : Runtime)
  (command : BridgeMessage) (params : option Params.t) : Effect :=
  match keyIndexOf params with
  | None =>
      sendErrorResponse a rt command ErrorCode.INVALID_MESSAGE
        "Missing keyIndex or page/bank parameters"
  | Some keyIndex =>
      let '(_, a) :=
        sendSatelliteCommand a SatelliteCommand.KEY_PRESS
          [deviceId a; Js.Number_toString keyIndex; state] in
      sendCompletedAck (countCommandSent a) rt command Js.JUndefined
  end.

Definition handlePressCommand := handleKeyCommand "PRESSED".
Definition handleReleaseCommand := handleKeyCommand "RELEASED".

(** [handleRotateCommand(command)]. The test [!params?.keyIndex ||
    !params?.direction] takes [undefined], the number [0] and the empty
    string for absent. *)
Definition handleRotateCommand (a : t) (rt : Runtime) (command : BridgeMessage)
  (params : option Params.t) : Effect :=
  if negb (Capabilities.supportsRotation (capabilities a)) then
    sendErrorResponse a rt command ErrorCode.ADAPTER_ERROR
      "Rotation not supported by this Companion instance"
  else
    let p := match params with Some p => p | None => Params.none end in
    match Params.keyIndex p, Params.direction p with
    | Some keyIndex, Some (String _ _ as direction) =>
        if Z.eqb keyIndex 0 then
          sendErrorResponse a rt command ErrorCode.INVALID_MESSAGE
            "Missing keyIndex or direction parameters"
        else
          let '(_, a) :=
            sendSatelliteCommand a SatelliteCommand.KEY_ROTATE
              [deviceId a; Js.Number_toString keyIndex;
               if String.eqb direction "left" then "-1" else "1"] in
          sendCompletedAck (countCommandSent a) rt command Js.JUndefined
    | _, _ =>
        sendErrorResponse a rt command ErrorCode.INVALID_MESSAGE
          "Missing keyIndex or direction parameters"
    end.

(** [handleSetVariableCommand(command)]. *)
Definition handleSetVariableCommand (a : t) (rt : Runtime) (command : BridgeMessage)
  (params : option Params.t) : Effect :=
  if negb (Capabilities.supportsVariableWrite (capabilities a)) then
    sendErrorResponse a rt command ErrorCode.ADAPTER_ERROR "Variable write not supported"
  else
    let p := match params with Some p => p | None => Params.none end in
    match Params.name p, Params.value p with
    | Some (String c name' as name), Some value =>
        let '(_, a) :=
          sendSatelliteCommand a SatelliteCommand.VARIABLE_VALUE
            [name ++ "=" ++ encodeURIComponent value] in
        sendCompletedAck (countCommandSent a) rt command Js.JUndefined
    | _, _ =>
        sendErrorResponse a rt command ErrorCode.INVALID_MESSAGE
          "Missing name or value parameters"
    end.

(** [handleGetVariableCommand(command)]. *)
Definition handleGetVariableCommand (a : t) (rt : Runtime) (command : BridgeMessage)
  (params : option Params.t) : Effect :=
  let p := match params with Some p => p | None => Params.none end in
  match Params.name p with
  | Some (String c name' as name) =>
      let value := match JsMap.get (variablesCache a) name with
                   | Some v => Js.JString v
                   | None => Js.JNull
                   end in
      sendCompletedAck a rt command
        (Js.JObject [("name", Js.JString name); ("value", value)])
  | _ =>
      sendErrorResponse a rt command ErrorCode.INVALID_MESSAGE "Missing name parameter"
  end.

(** [handleClearKeysCommand(command)]. *)
Definition handleClearKeysCommand (a : t) (rt : Runtime) (command : BridgeMessage)
  : Effect :=
  let '(_, a) := sendSatelliteCommand a SatelliteCommand.KEYS_CLEAR [deviceId a] in
  let a := withKeyStatesCache a JsMap.empty in
  sendCompletedAck (countCommandSent a) rt command Js.JUndefined.

(** [handleBridgeMessage(message)]. *)
Definition handleBridgeMessage (a : t) (rt : Runtime) (message : BridgeMessage)
  : Effect :=
  match payload message with
  | PCommand p =>
      let action := Command.action p in
      let params := Command.params p in
      if String.eqb action "press" then handlePressCommand a rt message params
      else if String.eqb action "release" then handleReleaseCommand a rt message params
      else if String.eqb action "rotate" then handleRotateCommand a rt message params
      else if String.eqb action "setVariable" then
        handleSetVariableCommand a rt message params
      else if String.eqb action "getVariable" then
        handleGetVariableCommand a rt message params
      else if String.eqb action "clearKeys" then handleClearKeysCommand a rt message
      else
        sendErrorResponse a rt message ErrorCode.ADAPTER_ERROR
          ("Unknown action: " ++ action)
  | _ => (a, rt, [])
  end.

(** The frames on the wire so far. *)
Definition framesSent (a : t) : list string :=
  match ws a with
  | Some w => WebSocket.sent w
  | None => []
  end.

(** The adapter as a route target: called on a message it runs
    [handleBridgeMessage] and hands each ack to [router.route]; the handlers
    reached from there do not call back. *)
Definition asHandlers (a : t) (rt : Runtime) (adapterTarget : MessageRouter.RouteTarget.t)
  : MessageRouter.Handlers :=
  MessageRouter.MkHandlers
    (fun target message =>
       if String.eqb (MessageRouter.RouteTarget.namespace target)
                     (MessageRouter.RouteTarget.namespace adapterTarget)
       then (map (fun ack => (ack, MessageRouter.quiet))
                 (snd (handleBridgeMessage a rt message)),
             MessageRouter.Returns)
       else ([], MessageRouter.Returns)).

(** *** Capability detection

    [DEFAULT_CAPABILITIES.features] is one array, and
    [{ ...DEFAULT_CAPABILITIES }] copies the reference to it: the [features]
    of every capabilities object is that array, and [push] writes to it.
    [shared] is its content. The other fields are copied by value. *)
Module Detected.
Record t : Type := mk {
  flags : Capabilities.t;
  apiVersion : option string
}.
(** [{ ...DEFAULT_CAPABILITIES }], its [features] apart. *)
Definition defaults : t := mk Capabilities.defaults None.
End Detected.

Definition withCapabilities (a : t) (c : Capabilities.t) : t :=
  mk (deviceId a) (namespace a) (sequenceCounter a) (ws a) (router a)
     c (metrics a) (variablesCache a) (keyStatesCache a).

(** One turn of the loop over [args]. *)
Definition detectArg (state : Detected.t * list string) (arg : string)
  : Detected.t * list string :=
  let '(c, shared) := state in
  let f := Detected.flags c in
  if String.prefix "API:" arg then
    (Detected.mk f (Some (String.substring 4 (String.length arg - 4) arg)), shared)
  else if String.eqb arg "VARIABLES" then
    (Detected.mk (Capabilities.mk true (Capabilities.supportsKeyImages f)
                    (Capabilities.supportsRotation f)
                    (Capabilities.supportsVariableWrite f))
       (Detected.apiVersion c),
     (shared ++ ["variables"])%list)
  else if String.eqb arg "ROTATION" then
    (Detected.mk (Capabilities.mk (Capabilities.supportsVariables f)
                    (Capabilities.supportsKeyImages f) true
                    (Capabilities.supportsVariableWrite f))
       (Detected.apiVersion c),
     (shared ++ ["rotation"])%list)
  else if String.eqb arg "VARIABLE_WRITE" then
    (Detected.mk (Capabilities.mk (Capabilities.supportsVariables f)
                    (Capabilities.supportsKeyImages f)
                    (Capabilities.supportsRotation f) true)
       (Detected.apiVersion c),
     (shared ++ ["variable_write"])%list)
  else if String.eqb arg "KEY_IMAGES" then
    (Detected.mk (Capabilities.mk (Capabilities.supportsVariables f) true
                    (Capabilities.supportsRotation f)
                    (Capabilities.supportsVariableWrite f))
       (Detected.apiVersion c),
     (shared ++ ["key_images"])%list)
  else (c, shared).

(** [detectCapabilities(args)]: the adapter with [state.capabilities]
    replaced, the object that is then published under
    [companion.capabilities] and emitted, and the content of the shared
    array, which is the [features] of that object. *)
Definition detectCapabilities (shared : list string) (a : t) (args : list string)
  : t * Detected.t * list string :=
  let '(c, shared) := fold_left detectArg args (Detected.defaults, shared) in
  (withCapabilities a (Detected.flags c), c, shared).

End CompanionAdapter.


(* ------------------------------------------------------------------------- *)
(** ** Concrete systems used in examples and counterexamples                   *)
(* ------------------------------------------------------------------------- *)

Module Scenario.

Import Protocol.

(** A runtime whose clock reads 1000 and whose identifiers are numbered. *)
Definition runtime0 : Runtime :=
  mkRuntime 1000 (fun n => "uuid-" ++ Js.Nat_toString n) 0.

(** Three targets: two clients and the adapter's command target. The
    client transport registers a session under an id of its own; [panel]
    and [logger] here are registered with their namespace as id, which is
    what subscription fan-out looks a client up by. *)
Definition panel : MessageRouter.RouteTarget.t :=
  MessageRouter.RouteTarget.mk "app.panel" "app.panel".
Definition logger : MessageRouter.RouteTarget.t :=
  MessageRouter.RouteTarget.mk "app.logger" "app.logger".
Definition companion : MessageRouter.RouteTarget.t :=
  MessageRouter.RouteTarget.mk "companion-adapter-dev-commands" "companion".

(** A fresh router with the three targets registered. *)
Definition router0 : MessageRouter.t :=
  MessageRouter.withTargets
    (MessageRouter.create (StateStore.create "hub.core")
       MessageRouter.RouterOptions.defaults runtime0)
    [("app.panel", panel); ("app.logger", logger); ("companion", companion)].

(** A state message [path = value] from [source]. *)
Definition stateMessage (id source path : string) (value : Js.Value) : BridgeMessage :=
  mkMessage id source None path (PState (State.mk value None None None))
    1000 None 0 None None.

(** [router0] after [app.panel] has written [x.y = 1]. *)
Definition routerWithEntry : MessageRouter.t :=
  fst (fst (MessageRouter.route MessageRouter.quiet router0
              (stateMessage "m-1" "app.panel" "x.y" (Js.JNumber 1)))).

(** A subscribe message. *)
Definition subscribeMessage (id source : string) (patterns : list string)
  (snapshot : option bool) : BridgeMessage :=
  mkMessage id source None "hub.subscriptions"
    (PSubscribe (Subscribe.mk patterns None snapshot)) 1000 None 0 None None.

(** [router0] after [app.panel] and [app.logger] have both subscribed to
    [x.**] without a snapshot. *)
Definition routerWithSubscribers : MessageRouter.t :=
  fst (MessageRouter.run router0
         [MessageRouter.Route (subscribeMessage "s-1" "app.panel" ["x.**"] (Some false))
            MessageRouter.quiet;
          MessageRouter.Route (subscribeMessage "s-2" "app.logger" ["x.**"] (Some false))
            MessageRouter.quiet]).

(** An event message. *)
Definition eventMessage (id source path event : string) : BridgeMessage :=
  mkMessage id source None path (PEvent (Event.mk event Js.JUndefined))
    1000 None 0 None None.

(** The Companion adapter attached to a router, with an open socket and
    with no socket at all. *)
Definition adapterOnline : CompanionAdapter.t :=
  CompanionAdapter.mk "dev" "companion.satellite" 0
    (Some (CompanionAdapter.WebSocket.mk CompanionAdapter.WebSocket.OPEN false []))
    true CompanionAdapter.Capabilities.defaults CompanionAdapter.Metrics.initial
    JsMap.empty JsMap.empty.

Definition adapterOffline : CompanionAdapter.t :=
  CompanionAdapter.withWs adapterOnline None.

(** A command from [app.panel] to [companion.satellite]. *)
Definition command (id key action : string) (params : option Params.t) : BridgeMessage :=
  mkMessage id "app.panel" (Some "companion.satellite") "companion.device.dev"
    (PCommand (Command.mk action params)) 1000 None 0 (Some 30000%Z) (Some key).

(** Seed scenario 3: [press] of key 5 under idempotency key [K1]. *)
Definition pressKey5 : BridgeMessage :=
  command "cmd-1" "K1" "press" (Some (Params.mk (Some 5%Z) None None None None None)).

(** What is left of a list of calls when only the target's namespace and
    the status of a delivered ack are kept. *)
Definition summary (calls : list MessageRouter.Call)
  : list (string * option AckStatus.t) :=
  map (fun c => (MessageRouter.RouteTarget.namespace (MessageRouter.callee c),
                 MessageRouter.ackStatus (MessageRouter.delivered c))) calls.

Definition nestedCalls (c : MessageRouter.Call) : list MessageRouter.Call :=
  match c with MessageRouter.Invoke _ _ nested => nested end.

(** Seed scenario 1: [companion.variables.tally = "cam1"], owned by the
    adapter's namespace, is in the store before anybody subscribes. *)
Definition routerWithTally : MessageRouter.t :=
  fst (MessageRouter.run router0
         [MessageRouter.StoreSet "companion.variables.tally" (Js.JString "cam1")
            "companion.satellite" MessageRouter.quiet]).

Definition subscribeTally : BridgeMessage :=
  subscribeMessage "s-3" "app.panel" ["companion.variables.**"] (Some true).

(** A delivered message in a few words. *)
Definition describe (m : BridgeMessage) : string :=
  match payload m with
  | PAck _ => "ack"
  | PState p =>
      "state " ++ path m ++ " v"
      ++ match State.version p with Some v => Js.Nat_toString v | None => "?" end
  | PEvent p => "event " ++ Event.event p
  | PError p => "error " ++ Error.code p
  | _ => "other"
  end.

Definition deliveries (calls : list MessageRouter.Call) : list (string * string) :=
  map (fun c => (MessageRouter.RouteTarget.namespace (MessageRouter.callee c),
                 describe (MessageRouter.delivered c))) calls.

(** The same for every call, nested ones included, in the order they
    start. *)
Definition allDeliveries (calls : list MessageRouter.Call) : list (string * string) :=
  map (fun d => (MessageRouter.RouteTarget.namespace (fst d), describe (snd d)))
      (MessageRouter.trace calls).

(** The adapter's namespace writes [tally = "cam2"]. *)
Definition writeCam2 : BridgeMessage :=
  stateMessage "m-cam2" "companion.satellite" "companion.variables.tally"
    (Js.JString "cam2").

(** Handlers during whose call with a state message the write of ["cam2"]
    is routed: what goes on in the router while [await handler(stateMsg)]
    is pending. Every call returns. *)
Definition writesInsideStream : MessageRouter.Handlers :=
  MessageRouter.MkHandlers
    (fun _ m =>
       if MessageRouter.isStateMessage m
       then ([(writeCam2, MessageRouter.quiet)], MessageRouter.Returns)
       else ([], MessageRouter.Returns)).

End Scenario.


(* ========================================================================= *)
(** * Properties                                                              *)
(* ========================================================================= *)

(** ** Maps *)

Lemma JsMap_get_set_same {V : Type} (m : JsMap.t V) (k : string) (v : V) :
  JsMap.get (JsMap.set m k v) k = Some v.
Proof.
  induction m as [|[k' v'] m IH]; simpl.
  - now rewrite String.eqb_refl.
  - destruct (String.eqb k' k) eqn:E; simpl.
    + now rewrite String.eqb_refl.
    + now rewrite E.
Qed.

Lemma JsMap_get_set_other {V : Type} (m : JsMap.t V) (k k' : string) (v : V) :
  k <> k' -> JsMap.get (JsMap.set m k v) k' = JsMap.get m k'.
Proof.
  intros Hne. induction m as [|[k0 v0] m IH]; simpl.
  - destruct (String.eqb k k') eqn:E; [apply String.eqb_eq in E; contradiction | reflexivity].
  - destruct (String.eqb k0 k) eqn:E; simpl.
    + apply String.eqb_eq in E. subst k0.
      destruct (String.eqb k k') eqn:E'; [apply String.eqb_eq in E'; contradiction | reflexivity].
    + destruct (String.eqb k0 k'); [reflexivity | exact IH].
Qed.

(** ** The state store *)

Lemma stringifiedDiffer_same (x : option string) : Js.stringifiedDiffer x x = false.
Proof. destruct x as [x|]; simpl; [now rewrite String.eqb_refl | reflexivity]. Qed.

(** A value never differs from itself. *)
Lemma valueChanged_same (v : Js.Value) : StateStore.valueChanged v v = false.
Proof.
  unfold StateStore.valueChanged.
  destruct (Js.strictEquals v v); [reflexivity | apply stringifiedDiffer_same].
Qed.

(** A write by another namespace throws and returns the store it was given. *)
Lemma set_by_other_owner (now : Z) (s : StateStore.t) (path : string)
  (value : Js.Value) (writer : string) (e : StateStore.Entry.t) :
  StateStore.get s path = Some e ->
  StateStore.Entry.owner e <> writer ->
  StateStore.set now s path value writer
  = (s, StateStore.Threw
          (StateStore.OwnershipError.mk path (StateStore.Entry.owner e) writer)).
Proof.
  intros Hget Hne. unfold StateStore.set. unfold StateStore.get in Hget. rewrite Hget.
  destruct (String.eqb (StateStore.Entry.owner e) writer) eqn:E.
  - apply String.eqb_eq in E. contradiction.
  - reflexivity.
Qed.

(** C2, counterexample. [x.y = 1] is written by [app.a], the owner is then
    marked stale, and [app.a] writes [1] again: the ownership check passes,
    the write is suppressed as a no-op, and the entry read back is still
    stale. *)
Lemma C2_rewrite_of_stale_value_stays_stale :
  ~ (forall now s path value owner s' result,
        StateStore.set now s path value owner = (s', result) ->
        (forall e, result <> StateStore.Threw e) ->
        exists entry,
          StateStore.get s' path = Some entry
          /\ StateStore.valueChanged (StateStore.Entry.value entry) value = false
          /\ StateStore.Entry.owner entry = owner
          /\ StateStore.Entry.stale entry = false).
Proof.
  intros claim.
  pose (s1 := fst (StateStore.set 0 (StateStore.create "hub.core") "x.y"
                     (Js.JNumber 1) "app.a")).
  pose (s2 := fst (StateStore.markOwnerStale 1 s1 "app.a")).
  destruct (claim 2%Z s2 "x.y" (Js.JNumber 1) "app.a" s2 StateStore.Unchanged eq_refl)
    as (entry & Hget & _ & _ & Hstale).
  - intros e H; discriminate H.
  - vm_compute in Hget. injection Hget as <-. discriminate Hstale.
Qed.

(** C2, amended. After [set(P, v, O)] passes the ownership check, [get(P)]
    returns an entry whose value is structurally equal to [v] and whose
    owner is [O]. Which entry it is depends on what the store held. When
    the path was new, or held a value not structurally equal to [v], the
    write is applied: a delta is returned, the entry holds [v] itself and
    its stale flag is false. When the store already held a structurally
    equal value, the write is suppressed: [set] returns [null], the store is
    the store it was, and the entry read back is the one held before, its
    stale flag included. *)
Theorem C2_set_then_get (now : Z) (s : StateStore.t) (path : string)
  (value : Js.Value) (owner : string) (s' : StateStore.t)
  (result : StateStore.WriteResult) :
  StateStore.set now s path value owner = (s', result) ->
  (forall e, result <> StateStore.Threw e) ->
  exists entry,
    StateStore.get s' path = Some entry
    /\ StateStore.valueChanged (StateStore.Entry.value entry) value = false
    /\ StateStore.Entry.owner entry = owner
    /\ match StateStore.get s path with
       | Some held =>
           if StateStore.valueChanged (StateStore.Entry.value held) value
           then (exists delta, result = StateStore.Changed delta)
                /\ StateStore.Entry.value entry = value
                /\ StateStore.Entry.stale entry = false
           else result = StateStore.Unchanged /\ s' = s /\ entry = held
       | None =>
           (exists delta, result = StateStore.Changed delta)
           /\ StateStore.Entry.value entry = value
           /\ StateStore.Entry.stale entry = false
       end.
Proof.
  unfold StateStore.set, StateStore.get. intros Hset Hok.
  destruct (JsMap.get (StateStore.entries s) path) as [e|] eqn:Hget.
  - destruct (String.eqb (StateStore.Entry.owner e) owner) eqn:Eo; simpl in Hset.
    + apply String.eqb_eq in Eo.
      destruct (StateStore.valueChanged (StateStore.Entry.value e) value) eqn:Ev;
        simpl in Hset; injection Hset as <- <-; simpl.
      * rewrite JsMap_get_set_same. eexists. split; [reflexivity|]. simpl.
        split; [apply valueChanged_same|]. split; [reflexivity|].
        split; [eexists; reflexivity|]. now split.
      * exists e. rewrite Hget. repeat split; auto.
    + injection Hset as <- <-. exfalso. eapply Hok. reflexivity.
  - injection Hset as <- <-; simpl.
    rewrite JsMap_get_set_same. eexists. split; [reflexivity|]. simpl.
    split; [apply valueChanged_same|]. split; [reflexivity|].
    split; [eexists; reflexivity|]. now split.
Qed.

(** At a suppressed write: [cam.tally = "on"], written by [app.b] and marked
    stale, is written again with ["on"]. *)
Lemma C2_set_then_get_witness :
  let s1 := fst (StateStore.set 0 (StateStore.create "hub.core") "cam.tally"
                   (Js.JString "on") "app.b") in
  let s2 := fst (StateStore.markOwnerStale 1 s1 "app.b") in
  exists entry,
    StateStore.get s2 "cam.tally" = Some entry
    /\ StateStore.valueChanged (StateStore.Entry.value entry) (Js.JString "on") = false
    /\ StateStore.Entry.owner entry = "app.b"
    /\ StateStore.set 2 s2 "cam.tally" (Js.JString "on") "app.b"
       = (s2, StateStore.Unchanged)
    /\ StateStore.get s2 "cam.tally"
       = Some (StateStore.Entry.mk (Js.JString "on") "app.b" 2 true 1 "cam.tally").
Proof.
  intros s1 s2.
  destruct (C2_set_then_get 2 s2 "cam.tally" (Js.JString "on") "app.b" s2
              StateStore.Unchanged eq_refl ltac:(intros e H; discriminate H))
    as (entry & Hget & Hvalue & Howner & _).
  exists entry. split; [exact Hget|]. split; [exact Hvalue|]. split; [exact Howner|].
  split; reflexivity.
Defined.

(** At an applied write, on a new path. *)
Example set_then_get_on_a_new_path :
  StateStore.get
    (fst (StateStore.set 5 (StateStore.create "hub.core") "x.y"
            (Js.JObject [("x", Js.JNumber 1)]) "app.a")) "x.y"
  = Some (StateStore.Entry.mk (Js.JObject [("x", Js.JNumber 1)]) "app.a" 1 false 5 "x.y").
Proof. reflexivity. Qed.


(** ** Handler calls *)

(** A call records the target and the message it was made with, and
    completes as the handler does. *)
Lemma invoke_shape (h : MessageRouter.Handlers) (r : MessageRouter.t)
  (t : MessageRouter.RouteTarget.t) (m : Protocol.BridgeMessage) :
  exists r' nested,
    MessageRouter.invoke h r t m
    = (r', MessageRouter.Invoke t m nested, snd (MessageRouter.react h t m)).
Proof.
  destruct h as [f]. simpl.
  match goal with
  | |- context [let '(_, _) := ?x in _] => destruct x as [r' nested]
  end.
  now exists r', nested.
Qed.

(** A handler that does not call back leaves the router as it found it. *)
Lemma invoke_no_reentry (h : MessageRouter.Handlers) (r : MessageRouter.t)
  (t : MessageRouter.RouteTarget.t) (m : Protocol.BridgeMessage) :
  fst (MessageRouter.react h t m) = [] ->
  MessageRouter.invoke h r t m
  = (r, MessageRouter.Invoke t m [], snd (MessageRouter.react h t m)).
Proof. destruct h as [f]. simpl. intros ->. reflexivity. Qed.

Lemma withStateStore_same (r : MessageRouter.t) :
  MessageRouter.withStateStore r (MessageRouter.stateStore r) = r.
Proof. now destruct r. Qed.

(** [sendError] with the source registered: one call, to the source's
    handler, with an error that carries the code and points back at the
    message. *)
Lemma sendError_delivers (h : MessageRouter.Handlers) (r : MessageRouter.t)
  (m : Protocol.BridgeMessage) (code text : string)
  (sourceTarget : MessageRouter.RouteTarget.t) :
  JsMap.get (MessageRouter.targets r) (Protocol.source m) = Some sourceTarget ->
  exists r' error nested settled,
    MessageRouter.sendError (MessageRouter.invoke h) r m code text
    = (r', [MessageRouter.Invoke sourceTarget error nested], settled)
    /\ Protocol.payload error
       = Protocol.PError (Protocol.Error.mk code text Js.JUndefined
                            (Some (Protocol.id m)))
    /\ Protocol.source error = "hub.core"
    /\ Protocol.target error = Some (Protocol.source m)
    /\ (fst (MessageRouter.react h sourceTarget error) = [] ->
        MessageRouter.stateStore r' = MessageRouter.stateStore r).
Proof.
  intros Hsrc. unfold MessageRouter.sendError. simpl. rewrite Hsrc.
  match goal with
  | |- context [MessageRouter.invoke h ?r0 sourceTarget ?e] =>
      pose proof (invoke_shape h r0 sourceTarget e) as (r' & nested & Hinv);
      pose proof (invoke_no_reentry h r0 sourceTarget e) as Hq;
      rewrite Hinv in *
  end.
  destruct (snd (MessageRouter.react h sourceTarget _)) eqn:Hdone;
    do 4 eexists; (split; [reflexivity|]);
    (repeat split; try reflexivity);
    intros Hno; specialize (Hq Hno); injection Hq as -> _; reflexivity.
Qed.

(** ** C4: a write by a namespace that does not own the path *)

(** C4. When path [P] is held by owner [O1] and a state message for [P]
    arrives from [O2 <> O1], the store's [set] throws the ownership error
    and hands back the very store it was given (entry and global version
    untouched); routing the message is sending a [STATE_CONFLICT] error from
    the unchanged router; and that error is delivered to the writer's
    handler, addressed to the writer. *)
Theorem C4_conflicting_write_is_rejected (h : MessageRouter.Handlers)
  (r : MessageRouter.t) (message : Protocol.BridgeMessage)
  (p : Protocol.State.Payload) (e : StateStore.Entry.t)
  (writer : MessageRouter.RouteTarget.t) :
  Protocol.payload message = Protocol.PState p ->
  StateStore.get (MessageRouter.stateStore r) (Protocol.path message) = Some e ->
  StateStore.Entry.owner e <> Protocol.source message ->
  JsMap.get (MessageRouter.targets r) (Protocol.source message) = Some writer ->
  let conflict :=
    StateStore.OwnershipError.mk (Protocol.path message)
      (StateStore.Entry.owner e) (Protocol.source message) in
  (forall now,
      StateStore.set now (MessageRouter.stateStore r) (Protocol.path message)
        (Protocol.State.value p) (Protocol.source message)
      = (MessageRouter.stateStore r, StateStore.Threw conflict))
  /\ MessageRouter.route h r message
     = MessageRouter.sendError (MessageRouter.invoke h) r message
         Protocol.ErrorCode.STATE_CONFLICT (StateStore.OwnershipError.message conflict)
  /\ exists r' error nested settled,
       MessageRouter.route h r message
       = (r', [MessageRouter.Invoke writer error nested], settled)
       /\ MessageRouter.isErrorWithCode Protocol.ErrorCode.STATE_CONFLICT error = true
       /\ Protocol.target error = Some (Protocol.source message)
       /\ (fst (MessageRouter.react h writer error) = [] ->
           MessageRouter.stateStore r' = MessageRouter.stateStore r).
Proof.
  intros Hp Hget Hne Hsrc conflict.
  assert (Hset : forall now,
      StateStore.set now (MessageRouter.stateStore r) (Protocol.path message)
        (Protocol.State.value p) (Protocol.source message)
      = (MessageRouter.stateStore r, StateStore.Threw conflict))
    by (intros now; now apply set_by_other_owner).
  assert (Hroute : MessageRouter.route h r message
     = MessageRouter.sendError (MessageRouter.invoke h) r message
         Protocol.ErrorCode.STATE_CONFLICT (StateStore.OwnershipError.message conflict)).
  { unfold MessageRouter.route, MessageRouter.routeWith. rewrite Hp.
    unfold MessageRouter.routeState, MessageRouter.storeSet.
    rewrite Hset, withStateStore_same. reflexivity. }
  split; [exact Hset|]. split; [exact Hroute|].
  destruct (sendError_delivers h r message Protocol.ErrorCode.STATE_CONFLICT
              (StateStore.OwnershipError.message conflict) writer Hsrc)
    as (r' & error & nested & settled & Heq & Hpay & _ & Htgt & Hstore).
  exists r', error, nested, settled. rewrite Hroute.
  repeat split; auto.
  unfold MessageRouter.isErrorWithCode. rewrite Hpay. reflexivity.
Qed.

(** Seed scenario 2: [app.panel] holds [x.y = 1]; [app.logger] writes
    [x.y = 2] and gets the conflict. *)
Lemma C4_conflicting_write_is_rejected_witness :
  let message := Scenario.stateMessage "m-2" "app.logger" "x.y" (Js.JNumber 2) in
  exists e,
    StateStore.get (MessageRouter.stateStore Scenario.routerWithEntry) "x.y" = Some e
    /\ StateStore.Entry.owner e <> "app.logger"
    /\ exists r' error nested settled,
         MessageRouter.route MessageRouter.quiet Scenario.routerWithEntry message
         = (r', [MessageRouter.Invoke Scenario.logger error nested], settled)
         /\ MessageRouter.isErrorWithCode Protocol.ErrorCode.STATE_CONFLICT error = true
         /\ Protocol.target error = Some "app.logger"
         /\ (fst (MessageRouter.react MessageRouter.quiet Scenario.logger error) = [] ->
             MessageRouter.stateStore r'
             = MessageRouter.stateStore Scenario.routerWithEntry).
Proof.
  intros message.
  exists (StateStore.Entry.mk (Js.JNumber 1) "app.panel" 1 false 1000 "x.y").
  split; [reflexivity|]. split; [discriminate|].
  refine (proj2 (proj2 (C4_conflicting_write_is_rejected MessageRouter.quiet
            Scenario.routerWithEntry message
            (Protocol.State.mk (Js.JNumber 2) None None None)
            (StateStore.Entry.mk (Js.JNumber 1) "app.panel" 1 false 1000 "x.y")
            Scenario.logger eq_refl eq_refl _ eq_refl))).
  discriminate.
Defined.


(** ** C7: fan-out never reaches the originating namespace *)

Lemma deliverEvent_skips_source (h : MessageRouter.Handlers)
  (message : Protocol.BridgeMessage) (clients : list string) :
  forall r,
    Forall (fun c =>
              MessageRouter.RouteTarget.namespace (MessageRouter.callee c)
              <> Protocol.source message
              /\ MessageRouter.delivered c = message)
           (snd (MessageRouter.deliverEvent (MessageRouter.invoke h) r message clients)).
Proof.
  induction clients as [|clientId rest IH]; intros r; simpl; [constructor|].
  destruct (MessageRouter.findTargetById r clientId) as [target|]; [|apply IH].
  destruct (String.eqb (MessageRouter.RouteTarget.namespace target)
                       (Protocol.source message)) eqn:E; simpl; [apply IH|].
  destruct (invoke_shape h r target message) as (r' & nested & ->).
  specialize (IH r').
  destruct (MessageRouter.deliverEvent (MessageRouter.invoke h) r' message rest)
    as [r'' cs]. simpl in *.
  constructor; [|exact IH]. simpl. split; [|reflexivity].
  intros Heq. rewrite Heq, String.eqb_refl in E. discriminate.
Qed.

Lemma deliverState_skips_owner (h : MessageRouter.Handlers)
  (message : Protocol.BridgeMessage) (owner : string) (clients : list string) :
  forall r,
    Forall (fun c =>
              MessageRouter.RouteTarget.namespace (MessageRouter.callee c) <> owner
              /\ MessageRouter.delivered c = message)
           (snd (MessageRouter.deliverState (MessageRouter.invoke h) r message owner
                   clients)).
Proof.
  induction clients as [|clientId rest IH]; intros r; simpl; [constructor|].
  destruct (MessageRouter.findTargetById r clientId) as [target|]; [|apply IH].
  destruct (String.eqb (MessageRouter.RouteTarget.namespace target) owner) eqn:E;
    simpl; [apply IH|].
  assert (Hne : MessageRouter.RouteTarget.namespace target <> owner).
  { intros Heq. rewrite Heq, String.eqb_refl in E. discriminate. }
  destruct (invoke_shape h r target message) as (r' & nested & ->).
  specialize (IH r').
  destruct (snd (MessageRouter.react h target message));
    try (destruct (MessageRouter.deliverState (MessageRouter.invoke h) r' message
                     owner rest) as [r'' cs]; simpl in *);
    repeat constructor; auto.
Qed.

Lemma handleStateDelta_skips_owner (h : MessageRouter.Handlers) (r : MessageRouter.t)
  (delta : StateStore.Delta.t) :
  Forall (fun c =>
            MessageRouter.RouteTarget.namespace (MessageRouter.callee c)
            <> StateStore.Entry.owner (StateStore.Delta.entry delta)
            /\ MessageRouter.isStateMessage (MessageRouter.delivered c) = true)
         (snd (MessageRouter.handleStateDelta (MessageRouter.invoke h) r delta)).
Proof.
  unfold MessageRouter.handleStateDelta, StateStore.deltaToMessage,
    StateStore.entryToMessage. simpl.
  eapply Forall_impl; [|apply deliverState_skips_owner].
  intros c [Hne ->]. split; [exact Hne | reflexivity].
Qed.

(** C7. Fan-out never calls a target whose namespace is the one the message
    came from. Routing an event calls only targets whose namespace differs
    from the event's source, each with the event itself; the store listener
    calls, for a delta, only targets whose namespace differs from the
    delta's owner, each with a state message; and so does every write to the
    store, whose delta is owned by the writer. *)
Theorem C7_no_self_delivery (h : MessageRouter.Handlers) (r : MessageRouter.t) :
  (forall id source target path p timestamp correlationId sequence ttl key,
      let message :=
        Protocol.mkMessage id source target path (Protocol.PEvent p) timestamp
          correlationId sequence ttl key in
      Forall (fun c =>
                MessageRouter.RouteTarget.namespace (MessageRouter.callee c) <> source
                /\ MessageRouter.delivered c = message)
             (snd (fst (MessageRouter.route h r message))))
  /\ (forall delta,
        Forall (fun c =>
                  MessageRouter.RouteTarget.namespace (MessageRouter.callee c)
                  <> StateStore.Entry.owner (StateStore.Delta.entry delta)
                  /\ MessageRouter.isStateMessage (MessageRouter.delivered c) = true)
               (snd (MessageRouter.handleStateDelta (MessageRouter.invoke h) r delta)))
  /\ (forall path value owner,
        Forall (fun c =>
                  MessageRouter.RouteTarget.namespace (MessageRouter.callee c) <> owner
                  /\ MessageRouter.isStateMessage (MessageRouter.delivered c) = true)
               (snd (fst (MessageRouter.storeSet (MessageRouter.invoke h) r path value
                            owner)))).
Proof.
  split; [|split].
  - intros. unfold MessageRouter.route, MessageRouter.routeWith,
      MessageRouter.routeEvent. simpl.
    match goal with
    | |- context [MessageRouter.deliverEvent ?c ?r0 ?m ?cl] =>
        pose proof (deliverEvent_skips_source h m cl r0) as H;
        destruct (MessageRouter.deliverEvent c r0 m cl) as [r' cs]
    end. exact H.
  - intros delta. apply handleStateDelta_skips_owner.
  - intros path value owner. unfold MessageRouter.storeSet, StateStore.set.
    destruct (JsMap.get (StateStore.entries (MessageRouter.stateStore r)) path)
      as [e|]; simpl.
    + destruct (String.eqb (StateStore.Entry.owner e) owner); simpl; [|constructor].
      destruct (StateStore.valueChanged (StateStore.Entry.value e) value); simpl;
        [|constructor].
      match goal with
      | |- context [MessageRouter.handleStateDelta ?c ?r0 ?d] =>
          pose proof (handleStateDelta_skips_owner h r0 d) as H;
          destruct (MessageRouter.handleStateDelta c r0 d) as [r' cs]
      end. exact H.
    + match goal with
      | |- context [MessageRouter.handleStateDelta ?c ?r0 ?d] =>
          pose proof (handleStateDelta_skips_owner h r0 d) as H;
          destruct (MessageRouter.handleStateDelta c r0 d) as [r' cs]
      end. exact H.
Qed.

(** Seed scenario 6, and that suppression is not silence: with [app.panel]
    and [app.logger] both subscribed to [x.**], a write of [x.foo] by
    [app.panel] reaches [app.logger] and nobody else; an event from
    [app.logger] reaches [app.panel] and nobody else. *)
Example fan_out_reaches_the_others :
  map MessageRouter.callee
    (snd (fst (MessageRouter.route MessageRouter.quiet Scenario.routerWithSubscribers
                 (Scenario.stateMessage "m-1" "app.panel" "x.foo" (Js.JNumber 1)))))
  = [Scenario.logger]
  /\ map MessageRouter.callee
       (snd (fst (MessageRouter.route MessageRouter.quiet Scenario.routerWithSubscribers
                    (Scenario.eventMessage "e-1" "app.logger" "x.bar" "pressed"))))
     = [Scenario.panel].
Proof. split; vm_compute; reflexivity. Qed.


(** ** The Companion adapter *)

(** With a router attached, an error response is one failed ack with the
    code, and nothing goes on the wire. *)
Lemma sendErrorResponse_acks_failed (a : CompanionAdapter.t) (rt : Protocol.Runtime)
  (command : Protocol.BridgeMessage) (code text : string) :
  CompanionAdapter.router a = true ->
  exists a' rt' ack,
    CompanionAdapter.sendErrorResponse a rt command code text = (a', rt', [ack])
    /\ MessageRouter.ackStatus ack = Some Protocol.AckStatus.FAILED
    /\ MessageRouter.ackErrorCode ack = Some code
    /\ Protocol.target ack = Some (Protocol.source command)
    /\ CompanionAdapter.framesSent a' = CompanionAdapter.framesSent a.
Proof.
  intros Hr. unfold CompanionAdapter.sendErrorResponse. rewrite Hr. simpl.
  do 3 eexists. split; [reflexivity|]. repeat split.
Qed.

Lemma sendCompletedAck_acks_completed (a : CompanionAdapter.t) (rt : Protocol.Runtime)
  (command : Protocol.BridgeMessage) (result : Js.Value) :
  CompanionAdapter.router a = true ->
  exists a' rt' ack,
    CompanionAdapter.sendCompletedAck a rt command result = (a', rt', [ack])
    /\ MessageRouter.ackStatus ack = Some Protocol.AckStatus.COMPLETED
    /\ Protocol.target ack = Some (Protocol.source command)
    /\ CompanionAdapter.framesSent a' = CompanionAdapter.framesSent a.
Proof.
  intros Hr. unfold CompanionAdapter.sendCompletedAck. rewrite Hr. simpl.
  do 3 eexists. split; [reflexivity|]. repeat split.
Qed.

(** An action the adapter does not know is answered [ADAPTER_ERROR]. *)
Lemma unknown_action_fails (a : CompanionAdapter.t) (rt : Protocol.Runtime)
  (message : Protocol.BridgeMessage) (p : Protocol.Command.Payload) :
  CompanionAdapter.router a = true ->
  Protocol.payload message = Protocol.PCommand p ->
  ~ In (Protocol.Command.action p)
       ["press"; "release"; "rotate"; "setVariable"; "getVariable"; "clearKeys"] ->
  exists a' rt' ack,
    CompanionAdapter.handleBridgeMessage a rt message = (a', rt', [ack])
    /\ MessageRouter.ackStatus ack = Some Protocol.AckStatus.FAILED
    /\ MessageRouter.ackErrorCode ack = Some Protocol.ErrorCode.ADAPTER_ERROR.
Proof.
  intros Hr Hp Hnot. unfold CompanionAdapter.handleBridgeMessage. rewrite Hp.
  repeat match goal with
         | |- context [String.eqb (Protocol.Command.action p) ?s] =>
             let E := fresh "E" in
             destruct (String.eqb (Protocol.Command.action p) s) eqn:E;
             [apply String.eqb_eq in E; exfalso; apply Hnot; rewrite E; simpl; tauto|]
         end.
  destruct (sendErrorResponse_acks_failed a rt message Protocol.ErrorCode.ADAPTER_ERROR
              ("Unknown action: " ++ Protocol.Command.action p) Hr)
    as (a' & rt' & ack & -> & Hs & Hc & _).
  exists a', rt', ack. auto.
Qed.

(** A press or release that names no key is answered [INVALID_MESSAGE]. *)
Lemma key_command_without_key_fails (word : string) (a : CompanionAdapter.t)
  (rt : Protocol.Runtime) (command : Protocol.BridgeMessage)
  (params : option Protocol.Params.t) :
  CompanionAdapter.router a = true ->
  CompanionAdapter.keyIndexOf params = None ->
  exists a' rt' ack,
    CompanionAdapter.handleKeyCommand word a rt command params = (a', rt', [ack])
    /\ MessageRouter.ackStatus ack = Some Protocol.AckStatus.FAILED
    /\ MessageRouter.ackErrorCode ack = Some Protocol.ErrorCode.INVALID_MESSAGE
    /\ CompanionAdapter.framesSent a' = CompanionAdapter.framesSent a.
Proof.
  intros Hr Hk. unfold CompanionAdapter.handleKeyCommand. rewrite Hk.
  destruct (sendErrorResponse_acks_failed a rt command
              Protocol.ErrorCode.INVALID_MESSAGE
              "Missing keyIndex or page/bank parameters" Hr)
    as (a' & rt' & ack & -> & Hs & Hc & _ & Hf).
  now exists a', rt', ack.
Qed.

(** What [sendSatelliteCommand] leaves behind: the frame is on the wire
    exactly when it answers [true]; the router stays attached. *)
Lemma sendSatelliteCommand_effect (a : CompanionAdapter.t) (command : string)
  (args : list string) :
  CompanionAdapter.router (snd (CompanionAdapter.sendSatelliteCommand a command args))
  = CompanionAdapter.router a
  /\ CompanionAdapter.framesSent
       (snd (CompanionAdapter.sendSatelliteCommand a command args))
     = (CompanionAdapter.framesSent a
        ++ if fst (CompanionAdapter.sendSatelliteCommand a command args)
           then [Js.join " " (command :: args)] else [])%list.
Proof.
  unfold CompanionAdapter.sendSatelliteCommand, CompanionAdapter.framesSent.
  destruct (CompanionAdapter.ws a) as [w|] eqn:Hw; simpl.
  - destruct (CompanionAdapter.WebSocket.isOpen w); simpl.
    + destruct (CompanionAdapter.WebSocket.sendThrows w); simpl;
        rewrite ?Hw, ?app_nil_r; auto.
    + rewrite Hw, app_nil_r. auto.
  - rewrite Hw. auto.
Qed.

(** A press or release that names a key is acked [completed] whatever
    [sendSatelliteCommand] returned: its result is dropped. The frame is on
    the wire only if the socket was open and [send] did not throw. *)
Lemma key_command_acks_completed (word : string) (a : CompanionAdapter.t)
  (rt : Protocol.Runtime) (command : Protocol.BridgeMessage)
  (params : option Protocol.Params.t) (keyIndex : Z) :
  CompanionAdapter.router a = true ->
  CompanionAdapter.keyIndexOf params = Some keyIndex ->
  exists a' rt' ack,
    CompanionAdapter.handleKeyCommand word a rt command params = (a', rt', [ack])
    /\ MessageRouter.ackStatus ack = Some Protocol.AckStatus.COMPLETED
    /\ CompanionAdapter.framesSent a'
       = (CompanionAdapter.framesSent a
          ++ if fst (CompanionAdapter.sendSatelliteCommand a
                       CompanionAdapter.SatelliteCommand.KEY_PRESS
                       [CompanionAdapter.deviceId a; Js.Number_toString keyIndex; word])
             then [Js.join " " [CompanionAdapter.SatelliteCommand.KEY_PRESS;
                                CompanionAdapter.deviceId a;
                                Js.Number_toString keyIndex; word]]
             else [])%list.
Proof.
  intros Hr Hk. unfold CompanionAdapter.handleKeyCommand. rewrite Hk.
  pose proof (sendSatelliteCommand_effect a CompanionAdapter.SatelliteCommand.KEY_PRESS
                [CompanionAdapter.deviceId a; Js.Number_toString keyIndex; word])
    as [Hr1 Hf1].
  destruct (CompanionAdapter.sendSatelliteCommand a _ _) as [ok a1]. simpl in Hr1, Hf1.
  destruct (sendCompletedAck_acks_completed (CompanionAdapter.countCommandSent a1) rt
              command Js.JUndefined) as (a' & rt' & ack & -> & Hs & _ & Hf).
  { simpl. now rewrite Hr1. }
  exists a', rt', ack. split; [reflexivity|]. split; [exact Hs|].
  rewrite Hf. exact Hf1.
Qed.

(** C8, at the failing input. The adapter is attached to a router and has no
    socket. The command [press { keyIndex: 5 }] puts nothing on the wire,
    [sendSatelliteCommand] returns [false], and the one ack handed to the
    router is [completed]. *)
Theorem C8_press_without_socket_is_acked_completed :
  fst (CompanionAdapter.sendSatelliteCommand Scenario.adapterOffline
         CompanionAdapter.SatelliteCommand.KEY_PRESS ["dev"; "5"; "PRESSED"]) = false
  /\ CompanionAdapter.framesSent
       (fst (fst (CompanionAdapter.handleBridgeMessage Scenario.adapterOffline
                    Scenario.runtime0 Scenario.pressKey5))) = []
  /\ map MessageRouter.ackStatus
       (snd (CompanionAdapter.handleBridgeMessage Scenario.adapterOffline
               Scenario.runtime0 Scenario.pressKey5))
     = [Some Protocol.AckStatus.COMPLETED].
Proof. repeat split. Qed.

(** C10. With the ROTATION capability present and a router attached, a
    [rotate] command whose params are [{ keyIndex: 0, direction }], for
    [direction] left or right, is answered with one failed ack with code
    [INVALID_MESSAGE] and puts nothing on the wire: the presence test takes
    index [0] for absent. A [press] or [release] of key [0] is acked
    [completed], and with the socket open its [KEY-PRESS] frame for key [0]
    goes out. *)
Theorem C10_rotate_rejects_key_zero (a : CompanionAdapter.t) (rt : Protocol.Runtime)
  (id source path key direction : string) (target : option string)
  (timestamp : Z) (correlationId : option string) (sequence : nat) (ttl : option Z) :
  CompanionAdapter.Capabilities.supportsRotation (CompanionAdapter.capabilities a) = true ->
  CompanionAdapter.router a = true ->
  direction = "left" \/ direction = "right" ->
  let command action params :=
    Protocol.mkMessage id source target path
      (Protocol.PCommand (Protocol.Command.mk action (Some params)))
      timestamp correlationId sequence ttl (Some key) in
  let rotateZero := Protocol.Params.mk (Some 0%Z) None None (Some direction) None None in
  let keyZero := Protocol.Params.mk (Some 0%Z) None None None None None in
  (exists a' rt' ack,
      CompanionAdapter.handleBridgeMessage a rt (command "rotate" rotateZero)
      = (a', rt', [ack])
      /\ MessageRouter.ackStatus ack = Some Protocol.AckStatus.FAILED
      /\ MessageRouter.ackErrorCode ack = Some Protocol.ErrorCode.INVALID_MESSAGE
      /\ CompanionAdapter.framesSent a' = CompanionAdapter.framesSent a)
  /\ (forall action word,
         (action = "press" /\ word = "PRESSED")
         \/ (action = "release" /\ word = "RELEASED") ->
         exists a' rt' ack,
           CompanionAdapter.handleBridgeMessage a rt (command action keyZero)
           = (a', rt', [ack])
           /\ MessageRouter.ackStatus ack = Some Protocol.AckStatus.COMPLETED
           /\ forall w,
                CompanionAdapter.ws a = Some w ->
                CompanionAdapter.WebSocket.isOpen w = true ->
                CompanionAdapter.WebSocket.sendThrows w = false ->
                CompanionAdapter.framesSent a'
                = (CompanionAdapter.framesSent a
                   ++ [Js.join " " ["KEY-PRESS"; CompanionAdapter.deviceId a; "0"; word]])%list).
Proof.
  intros Hcap Hr Hdir command rotateZero keyZero. split.
  - unfold CompanionAdapter.handleBridgeMessage, command. simpl.
    unfold CompanionAdapter.handleRotateCommand. rewrite Hcap. simpl.
    destruct Hdir as [-> | ->]; simpl;
      destruct (sendErrorResponse_acks_failed a rt
                  (command "rotate" rotateZero) Protocol.ErrorCode.INVALID_MESSAGE
                  "Missing keyIndex or direction parameters" Hr)
        as (a' & rt' & ack & Heq & Hs & Hc & _ & Hf);
      exists a', rt', ack; (split; [exact Heq | auto]).
  - intros action word Hcase.
    destruct (key_command_acks_completed word a rt (command action keyZero)
                (Some keyZero) 0%Z Hr eq_refl)
      as (a' & rt' & ack & Heq & Hs & Hf).
    exists a', rt', ack. split.
    + destruct Hcase as [[-> ->] | [-> ->]]; exact Heq.
    + split; [exact Hs|]. intros w Hw Hopen Hsend. rewrite Hf.
      unfold CompanionAdapter.sendSatelliteCommand. rewrite Hw, Hopen, Hsend.
      reflexivity.
Qed.

Lemma C10_rotate_rejects_key_zero_witness :
  let rotate :=
    Scenario.command "cmd-7" "K7" "rotate"
      (Some (Protocol.Params.mk (Some 0%Z) None None (Some "left") None None)) in
  let adapter :=
    CompanionAdapter.mk "dev" "companion.satellite" 0
      (Some (CompanionAdapter.WebSocket.mk CompanionAdapter.WebSocket.OPEN false []))
      true (CompanionAdapter.Capabilities.mk true true true true)
      CompanionAdapter.Metrics.initial JsMap.empty JsMap.empty in
  exists a' rt' ack,
    CompanionAdapter.handleBridgeMessage adapter Scenario.runtime0 rotate
    = (a', rt', [ack])
    /\ MessageRouter.ackStatus ack = Some Protocol.AckStatus.FAILED
    /\ MessageRouter.ackErrorCode ack = Some Protocol.ErrorCode.INVALID_MESSAGE
    /\ CompanionAdapter.framesSent a' = CompanionAdapter.framesSent adapter.
Proof.
  intros rotate adapter.
  exact (proj1 (C10_rotate_rejects_key_zero adapter Scenario.runtime0 "cmd-7"
                  "app.panel" "companion.device.dev" "K7" "left"
                  (Some "companion.satellite") 1000 None 0 (Some 30000%Z)
                  eq_refl eq_refl (or_introl eq_refl))).
Defined.


(** ** C6: target resolution *)

Lemma join_cons_nonempty (sep p q : string) (rest : list string) :
  Js.join sep (p :: q :: rest) = p ++ sep ++ Js.join sep (q :: rest).
Proof. reflexivity. Qed.

Lemma split_nonempty (sep : ascii) (s : string) : Js.split sep s <> [].
Proof.
  destruct s as [|c s]; simpl; [discriminate|].
  destruct (Ascii.eqb c sep); [discriminate|].
  destruct (Js.split sep s); discriminate.
Qed.

(** Joining the parts of a split gives the text back. *)
Lemma join_split (s : string) : Js.join "." (Js.split "." s) = s.
Proof.
  induction s as [|c s IH]; [reflexivity|]. simpl.
  destruct (Ascii.eqb c ".") eqn:E.
  - apply Ascii.eqb_eq in E. subst c.
    destruct (Js.split "." s) as [|p ps] eqn:Hs; [now apply split_nonempty in Hs|].
    rewrite join_cons_nonempty, IH. reflexivity.
  - destruct (Js.split "." s) as [|p ps] eqn:Hs; [now apply split_nonempty in Hs|].
    destruct ps as [|q ps].
    + simpl in *. now rewrite IH.
    + rewrite join_cons_nonempty. rewrite join_cons_nonempty in IH.
      rewrite <- IH. reflexivity.
Qed.

Lemma leadingSegments_app (k : nat) (l l' : list string) :
  k <= length l ->
  MessageRouter.leadingSegments k (l ++ l') = MessageRouter.leadingSegments k l.
Proof.
  induction k as [|k IH]; intros Hk; [reflexivity|].
  cbn [MessageRouter.leadingSegments]. rewrite IH by lia.
  f_equal. f_equal.
  rewrite firstn_app.
  replace (S k - length l) with 0 by lia. simpl. now rewrite app_nil_r.
Qed.

(** The loop of [findTarget] tries the leading segments, longest first. *)
Lemma findPrefix_tries_leading_segments (targets : JsMap.t MessageRouter.RouteTarget.t)
  (reversedParts : list string) :
  MessageRouter.findPrefix targets reversedParts
  = MessageRouter.firstRegistered targets
      (MessageRouter.leadingSegments (length reversedParts - 1) (rev reversedParts)).
Proof.
  induction reversedParts as [|x shorter IH]; [reflexivity|].
  cbn [MessageRouter.findPrefix length rev].
  replace (S (length shorter) - 1) with (length shorter) by lia.
  destruct shorter as [|y shorter']; [reflexivity|].
  remember (y :: shorter') as shorter eqn:Hs.
  assert (Hlen : length shorter = S (length shorter')) by (subst; reflexivity).
  rewrite Hlen. cbn [MessageRouter.leadingSegments MessageRouter.firstRegistered].
  rewrite <- Hlen.
  assert (Hfirst : firstn (length shorter) (rev shorter ++ [x]) = rev shorter).
  { rewrite <- (length_rev shorter). rewrite firstn_app, Nat.sub_diag, firstn_all.
    simpl. now rewrite app_nil_r. }
  rewrite Hlen in Hfirst |- *. rewrite Hfirst.
  destruct (JsMap.get targets (Js.join "." (rev shorter))); [reflexivity|].
  rewrite IH, leadingSegments_app; [|rewrite length_rev; lia].
  now rewrite Hlen, Nat.sub_succ, Nat.sub_0_r.
Qed.

Lemma candidates_start_with_namespace (namespace : string) :
  MessageRouter.candidates namespace
  = namespace
    :: MessageRouter.leadingSegments (length (Js.split "." namespace) - 1)
         (Js.split "." namespace).
Proof.
  unfold MessageRouter.candidates.
  destruct (Js.split "." namespace) as [|p ps] eqn:Hs;
    [now apply split_nonempty in Hs|].
  cbn [length MessageRouter.leadingSegments]. rewrite Nat.sub_succ, Nat.sub_0_r.
  f_equal. change (S (length ps)) with (length (p :: ps)).
  rewrite firstn_all, <- Hs. apply join_split.
Qed.

(** [findTarget] is the first registered candidate. *)
Lemma findTarget_first_candidate (r : MessageRouter.t) (namespace : string) :
  MessageRouter.findTarget r namespace
  = MessageRouter.firstRegistered (MessageRouter.targets r)
      (MessageRouter.candidates namespace).
Proof.
  unfold MessageRouter.findTarget. rewrite candidates_start_with_namespace.
  cbn [MessageRouter.firstRegistered].
  destruct (JsMap.get (MessageRouter.targets r) namespace); [reflexivity|].
  rewrite findPrefix_tries_leading_segments, length_rev, rev_involutive. reflexivity.
Qed.

Lemma routeCommand_not_cached (call : MessageRouter.Invoker) (r : MessageRouter.t)
  (message : Protocol.BridgeMessage) :
  MessageRouter.answeredFromCache r message = false ->
  MessageRouter.routeCommand call r message
  = MessageRouter.dispatchCommand call r message.
Proof.
  unfold MessageRouter.answeredFromCache, MessageRouter.routeCommand, JsMap.has.
  destruct (MessageRouter.idempotencyKeyOf r (Protocol.idempotencyKey message));
    [|reflexivity].
  destruct (JsMap.get (MessageRouter.idempotencyCache r) s); [discriminate|reflexivity].
Qed.

(** The calls [sendError] makes never carry the message it answers when that
    message is not itself an error. *)
Lemma sendError_calls_carry_an_error (h : MessageRouter.Handlers) (r : MessageRouter.t)
  (m : Protocol.BridgeMessage) (code text : string) :
  Forall (fun c => exists p,
              Protocol.payload (MessageRouter.delivered c) = Protocol.PError p)
         (snd (fst (MessageRouter.sendError (MessageRouter.invoke h) r m code text))).
Proof.
  unfold MessageRouter.sendError. simpl.
  destruct (JsMap.get (MessageRouter.targets r) (Protocol.source m)) as [st|];
    [|constructor].
  match goal with
  | |- context [MessageRouter.invoke h ?r0 st ?e] =>
      destruct (invoke_shape h r0 st e) as (r' & nested & ->)
  end.
  destruct (snd (MessageRouter.react h st _)); repeat constructor; eexists; reflexivity.
Qed.

Ltac step_invoke h :=
  match goal with
  | |- context [MessageRouter.invoke h ?r0 ?t ?m] =>
      let r' := fresh "r" in
      let n := fresh "nested" in
      destruct (invoke_shape h r0 t m) as (r' & n & ->)
  end.

Ltac step_sendError h :=
  match goal with
  | |- context [MessageRouter.sendError (MessageRouter.invoke h) ?r0 ?m ?code ?text] =>
      let H := fresh "Herr" in
      pose proof (sendError_calls_carry_an_error h r0 m code text) as H;
      destruct (MessageRouter.sendError (MessageRouter.invoke h) r0 m code text)
        as [[? ?] ?]; simpl in H
  end.

(** The calls made while dispatching a command: acks and errors, and the
    command itself to the resolved target only. *)
Lemma dispatchCommand_calls (h : MessageRouter.Handlers) (r : MessageRouter.t)
  (message : Protocol.BridgeMessage) (namespace : string) :
  Protocol.target message = Some namespace ->
  Forall (fun c =>
            (exists q, Protocol.payload (MessageRouter.delivered c) = Protocol.PAck q)
            \/ (exists q, Protocol.payload (MessageRouter.delivered c) = Protocol.PError q)
            \/ (MessageRouter.delivered c = message
                /\ MessageRouter.findTarget r namespace = Some (MessageRouter.callee c)))
         (snd (fst (MessageRouter.dispatchCommand (MessageRouter.invoke h) r message))).
Proof.
  intros Htarget. unfold MessageRouter.dispatchCommand. rewrite Htarget.
  assert (Herrors : forall cs,
             Forall (fun c => exists q,
                         Protocol.payload (MessageRouter.delivered c) = Protocol.PError q) cs ->
             Forall (fun c =>
            (exists q, Protocol.payload (MessageRouter.delivered c) = Protocol.PAck q)
            \/ (exists q, Protocol.payload (MessageRouter.delivered c) = Protocol.PError q)
            \/ (MessageRouter.delivered c = message
                /\ MessageRouter.findTarget r namespace = Some (MessageRouter.callee c))) cs).
  { intros cs. apply Forall_impl. intros c Hc. right. left. exact Hc. }
  destruct (MessageRouter.findTarget r namespace) as [target|] eqn:Hfind.
  - unfold MessageRouter.makeAck. simpl.
    match goal with
    | |- context [JsMap.get ?ts (Protocol.source message)] =>
        destruct (JsMap.get ts (Protocol.source message)) as [st|]
    end.
    + step_invoke h.
      destruct (snd (MessageRouter.react h st _)); simpl;
        try (constructor; [left; eexists; reflexivity | constructor]).
      step_invoke h.
      destruct (snd (MessageRouter.react h target message)); simpl;
        try step_sendError h; simpl;
        (constructor; [left; eexists; reflexivity|]);
        (constructor; [right; right; split; reflexivity|]);
        auto.

    + simpl. step_invoke h.
      destruct (snd (MessageRouter.react h target message)); simpl;
        try step_sendError h; simpl;
        (constructor; [right; right; split; reflexivity|]);
        auto.
  - apply Herrors, sendError_calls_carry_an_error.
Qed.




(** A command for a namespace nobody answers, and no prefix of it either. *)
Example unknown_target_is_reported :
  let lost :=
    Protocol.mkMessage "cmd-9" "app.panel" (Some "buttons.deck") "buttons.deck.key.1"
      (Protocol.PCommand (Protocol.Command.mk "press" None)) 1000 None 0 None
      (Some "K9") in
  map (fun c => (MessageRouter.callee c,
                 MessageRouter.isErrorWithCode Protocol.ErrorCode.UNKNOWN_TARGET
                   (MessageRouter.delivered c)))
      (snd (fst (MessageRouter.route MessageRouter.quiet Scenario.router0 lost)))
  = [(Scenario.panel, true)].
Proof. reflexivity. Qed.


(** ** C5: the order of a snapshot stream *)

Lemma streamMessages_to_quiet_subscriber (h : MessageRouter.Handlers)
  (subscriber : MessageRouter.RouteTarget.t) (messages : list Protocol.BridgeMessage) :
  (forall m, MessageRouter.react h subscriber m = ([], MessageRouter.Returns)) ->
  forall r,
    MessageRouter.streamMessages (MessageRouter.invoke h) r subscriber messages
    = (r, map (fun m => MessageRouter.Invoke subscriber m []) messages, None).
Proof.
  intros Hquiet. induction messages as [|m rest IH]; intros r; simpl; [reflexivity|].
  rewrite invoke_no_reentry by (now rewrite Hquiet).
  rewrite Hquiet, IH. reflexivity.
Qed.

Lemma streamSnapshots_to_quiet_subscriber (h : MessageRouter.Handlers)
  (subscriber : MessageRouter.RouteTarget.t) (patterns : list string) :
  (forall m, MessageRouter.react h subscriber m = ([], MessageRouter.Returns)) ->
  forall r,
    MessageRouter.streamSnapshots (MessageRouter.invoke h) r subscriber patterns
    = let '(messages, store, rt) :=
        MessageRouter.snapshotMessages (MessageRouter.runtime r)
          (MessageRouter.stateStore r) patterns in
      (MessageRouter.withRuntime (MessageRouter.withStateStore r store) rt,
       map (fun m => MessageRouter.Invoke subscriber m []) messages, None).
Proof.
  intros Hquiet. induction patterns as [|pattern rest IH]; intros r; simpl.
  - now destruct r.
  - destruct (StateStore.snapshotToMessages (MessageRouter.runtime r)
                (MessageRouter.stateStore r)
                (StateStore.getSnapshotForPattern
                   (Protocol.Date_now (MessageRouter.runtime r))
                   (MessageRouter.stateStore r) pattern))
      as [[messages store] rt] eqn:Hsnap.
    rewrite streamMessages_to_quiet_subscriber by exact Hquiet.
    rewrite IH. simpl.
    destruct (MessageRouter.snapshotMessages rt store rest) as [[messages' store'] rt'].
    now rewrite map_app.
Qed.

Lemma entriesToMessages_keeps_entries (es : JsMap.t StateStore.Entry.t) :
  forall rt s,
    StateStore.entries (snd (fst (StateStore.entriesToMessages rt s es)))
    = StateStore.entries s
    /\ Forall (fun m => MessageRouter.isStateMessage m = true)
              (fst (fst (StateStore.entriesToMessages rt s es))).
Proof.
  induction es as [|[p e] rest IH]; intros rt s; simpl; [now split|].
  match goal with
  | |- context [StateStore.entriesToMessages ?rt0 ?s0 rest] =>
      specialize (IH rt0 s0);
      destruct (StateStore.entriesToMessages rt0 s0 rest) as [[ms s1] rt1]
  end.
  simpl in *. destruct IH as [IH1 IH2]. split; [exact IH1|].
  constructor; [reflexivity | exact IH2].
Qed.

(** Building the snapshot messages reads the entries and leaves them as they
    are; every message built is a state message. *)
Lemma snapshotMessages_keeps_entries (patterns : list string) :
  forall rt s,
    StateStore.entries (snd (fst (MessageRouter.snapshotMessages rt s patterns)))
    = StateStore.entries s
    /\ Forall (fun m => MessageRouter.isStateMessage m = true)
              (fst (fst (MessageRouter.snapshotMessages rt s patterns))).
Proof.
  induction patterns as [|pattern rest IH]; intros rt s; simpl; [now split|].
  unfold StateStore.snapshotToMessages.
  pose proof (entriesToMessages_keeps_entries
                (StateStore.Snapshot.entries
                   (StateStore.getSnapshotForPattern (Protocol.Date_now rt) s pattern))
                rt s) as [H1 H2].
  destruct (StateStore.entriesToMessages rt s _) as [[ms s1] rt1]. simpl in H1, H2.
  specialize (IH rt1 s1).
  destruct (MessageRouter.snapshotMessages rt1 s1 rest) as [[ms' s2] rt2].
  simpl in *. destruct IH as [IH1 IH2]. split; [congruence|].
  apply Forall_app. now split.
Qed.

(** The calls of a subscribe with snapshot, to a subscriber that does not
    call back. *)
Lemma subscribe_with_snapshot_calls (h : MessageRouter.Handlers) (r : MessageRouter.t)
  (message : Protocol.BridgeMessage) (p : Protocol.Subscribe.Payload)
  (subscriber : MessageRouter.RouteTarget.t) :
  Protocol.payload message = Protocol.PSubscribe p ->
  MessageRouter.snapshotRequested p = true ->
  JsMap.get (MessageRouter.targets r) (Protocol.source message) = Some subscriber ->
  (forall m, MessageRouter.react h subscriber m = ([], MessageRouter.Returns)) ->
  exists r' ack rt snapshot complete,
    MessageRouter.route h r message
    = (r',
       map (fun m => MessageRouter.Invoke subscriber m []) (ack :: snapshot ++ [complete]),
       MessageRouter.Fulfilled)
    /\ MessageRouter.ackStatus ack = Some Protocol.AckStatus.COMPLETED
    /\ MessageRouter.ackResult ack
       = Js.JObject [("subscriptionId", Js.JString (MessageRouter.nextSubscriptionId r))]
    /\ snapshot
       = fst (fst (MessageRouter.snapshotMessages rt (MessageRouter.stateStore r)
                     (Protocol.Subscribe.patterns p)))
    /\ Forall (fun m => MessageRouter.isStateMessage m = true) snapshot
    /\ MessageRouter.isEventNamed "snapshot_complete" complete = true
    /\ Protocol.payload complete
       = Protocol.PEvent
           (Protocol.Event.mk "snapshot_complete"
              (Js.JObject [("subscriptionId",
                            Js.JString (MessageRouter.nextSubscriptionId r))]))
    /\ StateStore.entries (MessageRouter.stateStore r')
       = StateStore.entries (MessageRouter.stateStore r).
Proof.
  intros Hp Hsnap Hsrc Hquiet.
  unfold MessageRouter.route, MessageRouter.routeWith. rewrite Hp.
  unfold MessageRouter.handleSubscribe.
  unfold MessageRouter.makeAck. simpl. rewrite Hsrc.
  rewrite invoke_no_reentry by (now rewrite Hquiet). rewrite Hquiet, Hsnap.
  rewrite streamSnapshots_to_quiet_subscriber by exact Hquiet. simpl.
  match goal with
  | |- context [MessageRouter.snapshotMessages ?rt0 ?s0 ?ps] =>
      pose proof (snapshotMessages_keeps_entries ps rt0 s0) as [Hentries Hstate];
      destruct (MessageRouter.snapshotMessages rt0 s0 ps) as [[snapshot store] rt1] eqn:Hmsgs
  end.
  simpl in Hentries, Hstate.
  rewrite invoke_no_reentry by (now rewrite Hquiet). rewrite Hquiet.
  do 2 eexists. eexists. exists snapshot. eexists.
  split; [rewrite map_app; reflexivity|].
  split; [reflexivity|]. split; [reflexivity|].
  split; [exact (eq_sym (f_equal (fun x => fst (fst x)) Hmsgs))|].
  split; [exact Hstate|]. split; [reflexivity|]. split; [reflexivity|].
  exact Hentries.
Qed.

(** What is routed first is called first. *)
Lemma run_after_route (h : MessageRouter.Handlers) (r r' : MessageRouter.t)
  (message : Protocol.BridgeMessage) (calls : list MessageRouter.Call)
  (settled : MessageRouter.Settled) (later : list MessageRouter.Action) :
  MessageRouter.route h r message = (r', calls, settled) ->
  snd (MessageRouter.run r (MessageRouter.Route message h :: later))
  = (calls ++ snd (MessageRouter.run r' later))%list.
Proof.
  intros Hroute. cbn [MessageRouter.run MessageRouter.step]. rewrite Hroute.
  destruct (MessageRouter.run r' later). reflexivity.
Qed.

(** *** The stream, whatever the handlers do meanwhile *)

(** The inner loop calls the subscriber with the messages in their order,
    up to the first call that fails. *)
Lemma streamMessages_calls (h : MessageRouter.Handlers)
  (subscriber : MessageRouter.RouteTarget.t) (messages : list Protocol.BridgeMessage) :
  Forall (fun m => MessageRouter.isStateMessage m = true) messages ->
  forall r,
    let streamed :=
      MessageRouter.streamMessages (MessageRouter.invoke h) r subscriber messages in
    Forall (fun c => MessageRouter.callee c = subscriber
                     /\ MessageRouter.isStateMessage (MessageRouter.delivered c) = true)
           (snd (fst streamed))
    /\ ((forall m, snd (MessageRouter.react h subscriber m) = MessageRouter.Returns) ->
        snd streamed = None).
Proof.
  induction 1 as [|m rest Hm Hrest IH]; intros r; simpl; [now split|].
  destruct (invoke_shape h r subscriber m) as (r1 & nested & ->).
  destruct (snd (MessageRouter.react h subscriber m)) eqn:Hdone.
  - specialize (IH r1). simpl in IH.
    destruct (MessageRouter.streamMessages (MessageRouter.invoke h) r1 subscriber rest)
      as [[r2 cs] failed].
    simpl in *. destruct IH as [IH1 IH2]. split; [|exact IH2].
    constructor; [now split | exact IH1].
  - simpl. split; [repeat constructor; exact Hm|].
    intros Hreturns. rewrite Hreturns in Hdone. discriminate Hdone.
  - simpl. split; [repeat constructor; exact Hm|].
    intros Hreturns. rewrite Hreturns in Hdone. discriminate Hdone.
Qed.

Lemma streamSnapshots_calls (h : MessageRouter.Handlers)
  (subscriber : MessageRouter.RouteTarget.t) (patterns : list string) :
  forall r,
    let streamed :=
      MessageRouter.streamSnapshots (MessageRouter.invoke h) r subscriber patterns in
    Forall (fun c => MessageRouter.callee c = subscriber
                     /\ MessageRouter.isStateMessage (MessageRouter.delivered c) = true)
           (snd (fst streamed))
    /\ ((forall m, snd (MessageRouter.react h subscriber m) = MessageRouter.Returns) ->
        snd streamed = None).
Proof.
  induction patterns as [|pattern rest IH]; intros r; simpl; [now split|].
  unfold StateStore.snapshotToMessages.
  pose proof (entriesToMessages_keeps_entries
                (StateStore.Snapshot.entries
                   (StateStore.getSnapshotForPattern
                      (Protocol.Date_now (MessageRouter.runtime r))
                      (MessageRouter.stateStore r) pattern))
                (MessageRouter.runtime r) (MessageRouter.stateStore r)) as [_ Hstate].
  destruct (StateStore.entriesToMessages _ _ _) as [[messages store] rt].
  simpl in Hstate.
  pose proof (streamMessages_calls h subscriber messages Hstate
                (MessageRouter.withRuntime (MessageRouter.withStateStore r store) rt))
    as [Hcalls Hdone].
  simpl in Hcalls, Hdone.
  destruct (MessageRouter.streamMessages (MessageRouter.invoke h) _ subscriber messages)
    as [[r1 cs] failed].
  simpl in Hcalls, Hdone.
  destruct failed as [e|].
  - simpl. split; [exact Hcalls|]. intros Hreturns. now apply Hdone.
  - specialize (IH r1). simpl in IH.
    destruct (MessageRouter.streamSnapshots (MessageRouter.invoke h) r1 subscriber rest)
      as [[r2 cs'] failed'].
    simpl in *. destruct IH as [IH1 IH2]. split; [|exact IH2].
    apply Forall_app. now split.
Qed.




(** Seed scenario 1 run through: the ack, the snapshot of [tally], the
    [snapshot_complete] event, and only then the delta of the write of
    ["cam2"], at the next version. *)
Example snapshot_then_delta :
  Scenario.deliveries
    (snd (MessageRouter.run Scenario.routerWithTally
            [MessageRouter.Route Scenario.subscribeTally MessageRouter.quiet;
             MessageRouter.StoreSet "companion.variables.tally" (Js.JString "cam2")
               "companion.satellite" MessageRouter.quiet]))
  = [("app.panel", "ack");
     ("app.panel", "state companion.variables.tally v1");
     ("app.panel", "event snapshot_complete");
     ("app.panel", "state companion.variables.tally v2")].
Proof. vm_compute. reflexivity. Qed.


(** ** C9: a subscription created without the [snapshot] field *)

(** Induction over what handlers do: a property holds of a behaviour as soon
    as it holds of the behaviour that comes with every route the handlers
    start. *)
Lemma Handlers_induction (P : MessageRouter.Handlers -> Prop) :
  (forall h,
      (forall t m, Forall (fun route => P (snd route)) (fst (MessageRouter.react h t m))) ->
      P h) ->
  forall h, P h.
Proof.
  intros step. fix self 1. intros h. apply step. destruct h as [f]. simpl.
  intros t m. generalize (fst (f t m)).
  fix routes 1. intros [|[m' inner] rest].
  - constructor.
  - constructor; [apply self | apply routes].
Qed.

Lemma Nat_toString_injective (a b : nat) :
  Js.Nat_toString a = Js.Nat_toString b -> a = b.
Proof.
  unfold Js.Nat_toString. intros H.
  assert (Hnonnil : forall n, Nat.to_uint n <> Decimal.Nil).
  { intros n. rewrite <- (DecimalNat.Unsigned.of_to n) at 1.
    rewrite DecimalNat.Unsigned.to_of. apply DecimalFacts.unorm_nonnil. }
  apply DecimalNat.Unsigned.to_uint_inj.
  pose proof (NilZero.usu _ (Hnonnil a)) as Ha.
  pose proof (NilZero.usu _ (Hnonnil b)) as Hb.
  rewrite H in Ha. rewrite Ha in Hb. now injection Hb.
Qed.

Lemma subscription_id_injective (a b : nat) :
  "sub-" ++ Js.Nat_toString a = "sub-" ++ Js.Nat_toString b -> a = b.
Proof. simpl. intros H. injection H as H. now apply Nat_toString_injective. Qed.

Lemma JsMap_Forall_set {V : Type} (P : string * V -> Prop) (m : JsMap.t V)
  (k : string) (v : V) :
  Forall P m -> P (k, v) -> Forall P (JsMap.set m k v).
Proof.
  intros Hm Hkv. induction m as [|[k' v'] m IH]; simpl.
  - now constructor.
  - inversion Hm; subst. destruct (String.eqb k' k); constructor; auto.
Qed.

Lemma JsMap_Forall_delete {V : Type} (P : string * V -> Prop) (m : JsMap.t V)
  (k : string) :
  Forall P m -> Forall P (JsMap.delete m k).
Proof.
  intros Hm. induction m as [|[k' v'] m IH]; simpl; [constructor|].
  inversion Hm; subst. destruct (String.eqb k' k); [assumption|].
  constructor; auto.
Qed.

Lemma JsMap_get_in {V : Type} (m : JsMap.t V) (k : string) (v : V) :
  JsMap.get m k = Some v -> In (k, v) m.
Proof.
  induction m as [|[k' v'] m IH]; simpl; [discriminate|].
  destruct (String.eqb k' k) eqn:E.
  - apply String.eqb_eq in E. intros H. injection H as ->. subst. now left.
  - intros H. right. now apply IH.
Qed.

(** *** The subscription manager keeps an unsent snapshot unsent *)

Lemma subscribe_keeps_awaiting (k : nat) (now : Z) (sm : SubscriptionManager.t)
  (clientId : string) (patterns : list string)
  (filter : option Protocol.SubscriptionFilter.t) (snapshot : option bool) :
  SubscriptionManager.awaitsSnapshot k sm ->
  SubscriptionManager.awaitsSnapshot k
    (snd (SubscriptionManager.subscribe now sm clientId patterns filter snapshot)).
Proof.
  intros [Hk Hall]. split; simpl; [lia|].
  apply JsMap_Forall_set; [exact Hall|]. intros Heq. cbn [fst] in Heq.
  apply subscription_id_injective in Heq. lia.
Qed.

Lemma unsubscribe_keeps_awaiting (k : nat) (sm : SubscriptionManager.t) (id : string) :
  SubscriptionManager.awaitsSnapshot k sm ->
  SubscriptionManager.awaitsSnapshot k (snd (SubscriptionManager.unsubscribe sm id)).
Proof.
  intros [Hk Hall]. unfold SubscriptionManager.unsubscribe.
  destruct (JsMap.get (SubscriptionManager.subscriptionsById sm) id); [|now split].
  split; simpl; [exact Hk | now apply JsMap_Forall_delete].
Qed.

Lemma unsubscribeEach_keeps_awaiting (k : nat) (patterns subIds : list string) :
  forall sm,
    SubscriptionManager.awaitsSnapshot k sm ->
    SubscriptionManager.awaitsSnapshot k
      (snd (SubscriptionManager.unsubscribeEach sm patterns subIds)).
Proof.
  induction subIds as [|subId rest IH]; intros sm Hsm; simpl; [exact Hsm|].
  destruct (JsMap.get (SubscriptionManager.subscriptionsById sm) subId) as [s|];
    [|now apply IH].
  destruct (existsb _ (SubscriptionManager.Subscription.patterns s)); [|now apply IH].
  specialize (IH _ (unsubscribe_keeps_awaiting k sm subId Hsm)).
  destruct (SubscriptionManager.unsubscribeEach _ patterns rest). exact IH.
Qed.

Lemma unsubscribePatterns_keeps_awaiting (k : nat) (sm : SubscriptionManager.t)
  (clientId : string) (patterns : list string) :
  SubscriptionManager.awaitsSnapshot k sm ->
  SubscriptionManager.awaitsSnapshot k
    (snd (SubscriptionManager.unsubscribePatterns sm clientId patterns)).
Proof.
  intros Hsm. unfold SubscriptionManager.unsubscribePatterns.
  destruct (JsMap.get (SubscriptionManager.subscriptionsByClient sm) clientId);
    [now apply unsubscribeEach_keeps_awaiting | exact Hsm].
Qed.

Lemma unsubscribeClient_keeps_awaiting (k : nat) (sm : SubscriptionManager.t)
  (clientId : string) :
  SubscriptionManager.awaitsSnapshot k sm ->
  SubscriptionManager.awaitsSnapshot k
    (snd (SubscriptionManager.unsubscribeClient sm clientId)).
Proof.
  intros [Hk Hall]. unfold SubscriptionManager.unsubscribeClient.
  destruct (JsMap.get (SubscriptionManager.subscriptionsByClient sm) clientId)
    as [subs|]; [|now split].
  split; simpl; [exact Hk|].
  generalize (SubscriptionManager.subscriptionsById sm) Hall.
  induction subs as [|x subs IH]; intros m Hm; simpl; [exact Hm|].
  apply IH. now apply JsMap_Forall_delete.
Qed.

Lemma markSnapshotSent_keeps_awaiting (k j : nat) (sm : SubscriptionManager.t) :
  j <> k ->
  SubscriptionManager.awaitsSnapshot k sm ->
  SubscriptionManager.awaitsSnapshot k
    (SubscriptionManager.markSnapshotSent sm ("sub-" ++ Js.Nat_toString j)).
Proof.
  intros Hne [Hk Hall]. unfold SubscriptionManager.markSnapshotSent.
  destruct (JsMap.get (SubscriptionManager.subscriptionsById sm) _); [|now split].
  split; simpl; [exact Hk|].
  apply JsMap_Forall_set; [exact Hall|]. intros Heq. cbn [fst] in Heq.
  apply subscription_id_injective in Heq. contradiction.
Qed.

(** *** What the subscription manager keeps, the router keeps

    A property of the subscription manager that survives [subscribe],
    [unsubscribePatterns], [unsubscribeClient] and marking the subscription
    just issued survives everything that can happen to the router, whatever
    the handlers do. *)

Section RouterKeeps.

Variable Q : SubscriptionManager.t -> Prop.

Hypothesis Q_subscribe :
  forall now sm clientId patterns filter snapshot,
    Q sm ->
    Q (snd (SubscriptionManager.subscribe now sm clientId patterns filter snapshot)).
Hypothesis Q_unsubscribePatterns :
  forall sm clientId patterns,
    Q sm -> Q (snd (SubscriptionManager.unsubscribePatterns sm clientId patterns)).
Hypothesis Q_unsubscribeClient :
  forall sm clientId,
    Q sm -> Q (snd (SubscriptionManager.unsubscribeClient sm clientId)).
Hypothesis Q_markIssued :
  forall before sm,
    Q before -> Q sm ->
    Q (SubscriptionManager.markSnapshotSent sm
         ("sub-" ++ Js.Nat_toString (S (SubscriptionManager.idCounter before)))).

#[local] Abbreviation keeps r := (Q (MessageRouter.subscriptionManager r)) (only parsing).

Section WithInvoker.

Variable call : MessageRouter.Invoker.
Hypothesis call_keeps : forall r t m, keeps r -> keeps (fst (fst (call r t m))).

Ltac calling :=
  match goal with
  | |- context [call ?r ?t ?m] =>
      let H := fresh "Hkept" in
      let r' := fresh "r" in
      let c := fresh "c" in
      let done := fresh "done" in
      assert (H : keeps (fst (fst (call r t m))))
        by (apply call_keeps; simpl; auto);
      destruct (call r t m) as [[r' c] done]; simpl in H
  end.

Ltac cases :=
  repeat match goal with
         | |- context [match ?x with _ => _ end] => destruct x; simpl
         end.

Lemma sendError_keeps (r : MessageRouter.t) (m : Protocol.BridgeMessage)
  (code text : string) :
  keeps r -> keeps (fst (fst (MessageRouter.sendError call r m code text))).
Proof.
  intros Hr. unfold MessageRouter.sendError. simpl.
  destruct (JsMap.get (MessageRouter.targets r) (Protocol.source m)); [|exact Hr].
  calling. cases; exact Hkept.
Qed.

Lemma dispatchCommand_keeps (r : MessageRouter.t) (m : Protocol.BridgeMessage) :
  keeps r -> keeps (fst (fst (MessageRouter.dispatchCommand call r m))).
Proof.
  intros Hr. unfold MessageRouter.dispatchCommand.
  destruct (Protocol.target m) as [namespace|]; [|exact Hr].
  destruct (MessageRouter.findTarget r namespace) as [target|];
    [|now apply sendError_keeps].
  unfold MessageRouter.makeAck. simpl.
  destruct (JsMap.get (MessageRouter.targets r) (Protocol.source m)) as [st|].
  - calling. destruct done; simpl; try exact Hkept.
    calling. destruct done; simpl;
      try (match goal with
           | |- context [MessageRouter.sendError call ?r0 ?m0 ?c0 ?t0] =>
               pose proof (sendError_keeps r0 m0 c0 t0 Hkept0);
               destruct (MessageRouter.sendError call r0 m0 c0 t0) as [[? ?] ?]
           end; assumption).
    unfold MessageRouter.idempotencyKeyOf. cases; exact Hkept0.
  - simpl. calling. destruct done; simpl;
      try (match goal with
           | |- context [MessageRouter.sendError call ?r0 ?m0 ?c0 ?t0] =>
               pose proof (sendError_keeps r0 m0 c0 t0 Hkept);
               destruct (MessageRouter.sendError call r0 m0 c0 t0) as [[? ?] ?]
           end; assumption).
    unfold MessageRouter.idempotencyKeyOf. cases; exact Hkept.
Qed.

Lemma routeCommand_keeps (r : MessageRouter.t) (m : Protocol.BridgeMessage) :
  keeps r -> keeps (fst (fst (MessageRouter.routeCommand call r m))).
Proof.
  intros Hr. unfold MessageRouter.routeCommand.
  destruct (MessageRouter.idempotencyKeyOf r (Protocol.idempotencyKey m)) as [key|];
    [|now apply dispatchCommand_keeps].
  destruct (JsMap.get (MessageRouter.idempotencyCache r) key) as [cached|];
    [|now apply dispatchCommand_keeps].
  destruct (MessageRouter.IdempotencyRecord.result cached); [|exact Hr].
  destruct (JsMap.get (MessageRouter.targets r) (Protocol.source m)); [|exact Hr].
  calling. cases; exact Hkept.
Qed.

Lemma deliverEvent_keeps (m : Protocol.BridgeMessage) (clients : list string) :
  forall r, keeps r -> keeps (fst (MessageRouter.deliverEvent call r m clients)).
Proof.
  induction clients as [|clientId rest IH]; intros r Hr; simpl; [exact Hr|].
  destruct (MessageRouter.findTargetById r clientId) as [target|]; [|now apply IH].
  destruct (negb _); [|now apply IH].
  calling. specialize (IH _ Hkept).
  destruct (MessageRouter.deliverEvent call r0 m rest). exact IH.
Qed.

Lemma deliverState_keeps (m : Protocol.BridgeMessage) (owner : string)
  (clients : list string) :
  forall r, keeps r -> keeps (fst (MessageRouter.deliverState call r m owner clients)).
Proof.
  induction clients as [|clientId rest IH]; intros r Hr; simpl; [exact Hr|].
  destruct (MessageRouter.findTargetById r clientId) as [target|]; [|now apply IH].
  destruct (negb _); [|now apply IH].
  calling. specialize (IH _ Hkept).
  destruct done; try exact Hkept;
    destruct (MessageRouter.deliverState call r0 m owner rest); exact IH.
Qed.

Lemma handleStateDelta_keeps (r : MessageRouter.t) (delta : StateStore.Delta.t) :
  keeps r -> keeps (fst (MessageRouter.handleStateDelta call r delta)).
Proof.
  intros Hr. unfold MessageRouter.handleStateDelta, StateStore.deltaToMessage,
    StateStore.entryToMessage. simpl.
  now apply deliverState_keeps.
Qed.

Lemma storeSet_keeps (r : MessageRouter.t) (path : string) (value : Js.Value)
  (owner : string) :
  keeps r -> keeps (fst (fst (MessageRouter.storeSet call r path value owner))).
Proof.
  intros Hr. unfold MessageRouter.storeSet.
  destruct (StateStore.set _ _ path value owner) as [store result].
  destruct result; try exact Hr.
  pose proof (handleStateDelta_keeps (MessageRouter.withStateStore r store) delta Hr).
  destruct (MessageRouter.handleStateDelta call _ delta). assumption.
Qed.

Lemma routeState_keeps (r : MessageRouter.t) (m : Protocol.BridgeMessage)
  (p : Protocol.State.Payload) :
  keeps r -> keeps (fst (fst (MessageRouter.routeState call r m p))).
Proof.
  intros Hr. unfold MessageRouter.routeState.
  pose proof (storeSet_keeps r (Protocol.path m) (Protocol.State.value p)
                (Protocol.source m) Hr) as Hset.
  destruct (MessageRouter.storeSet call r _ _ _) as [[r1 cs] result]. simpl in Hset.
  destruct result; try exact Hset. now apply sendError_keeps.
Qed.

Lemma forward_keeps (r : MessageRouter.t) (t : MessageRouter.RouteTarget.t)
  (m : Protocol.BridgeMessage) :
  keeps r -> keeps (fst (fst (MessageRouter.forward call r t m))).
Proof. intros Hr. unfold MessageRouter.forward. calling. cases; exact Hkept. Qed.

Lemma handleAck_keeps (r : MessageRouter.t) (m : Protocol.BridgeMessage)
  (p : Protocol.Ack.Payload) :
  keeps r -> keeps (fst (fst (MessageRouter.handleAck call r m p))).
Proof.
  intros Hr. unfold MessageRouter.handleAck.
  match goal with
  | |- context [MessageRouter.forward call ?r0 _ _] =>
      assert (Hr0 : keeps r0)
        by (unfold MessageRouter.idempotencyKeyOf in *; cases; exact Hr);
      generalize dependent r0
  end.
  intros r0 Hr0. destruct (Protocol.target m) as [namespace|]; [|exact Hr0].
  destruct (JsMap.get (MessageRouter.targets r0) namespace); [|exact Hr0].
  now apply forward_keeps.
Qed.

Lemma handleError_keeps (r : MessageRouter.t) (m : Protocol.BridgeMessage) :
  keeps r -> keeps (fst (fst (MessageRouter.handleError call r m))).
Proof.
  intros Hr. unfold MessageRouter.handleError.
  destruct (Js.truthyString (Protocol.target m)); [|exact Hr].
  destruct (Protocol.target m) as [namespace|]; [|exact Hr].
  destruct (JsMap.get (MessageRouter.targets r) namespace); [|exact Hr].
  now apply forward_keeps.
Qed.

Lemma streamMessages_keeps (t : MessageRouter.RouteTarget.t)
  (messages : list Protocol.BridgeMessage) :
  forall r, keeps r -> keeps (fst (fst (MessageRouter.streamMessages call r t messages))).
Proof.
  induction messages as [|m rest IH]; intros r Hr; simpl; [exact Hr|].
  calling. specialize (IH _ Hkept).
  destruct done; try exact Hkept.
  destruct (MessageRouter.streamMessages call r0 t rest) as [[? ?] ?]. exact IH.
Qed.

Lemma streamSnapshots_keeps (t : MessageRouter.RouteTarget.t)
  (patterns : list string) :
  forall r, keeps r -> keeps (fst (fst (MessageRouter.streamSnapshots call r t patterns))).
Proof.
  induction patterns as [|pattern rest IH]; intros r Hr; simpl; [exact Hr|].
  destruct (StateStore.snapshotToMessages _ _ _) as [[messages store] rt].
  match goal with
  | |- context [MessageRouter.streamMessages call ?r0 t messages] =>
      pose proof (streamMessages_keeps t messages r0 Hr) as Hstream;
      destruct (MessageRouter.streamMessages call r0 t messages) as [[r1 cs] failed]
  end.
  simpl in Hstream. destruct failed; [exact Hstream|].
  specialize (IH _ Hstream).
  destruct (MessageRouter.streamSnapshots call r1 t rest) as [[? ?] ?]. exact IH.
Qed.

Lemma handleSubscribe_keeps (r : MessageRouter.t) (m : Protocol.BridgeMessage)
  (p : Protocol.Subscribe.Payload) :
  keeps r -> keeps (fst (fst (MessageRouter.handleSubscribe call r m p))).
Proof.
  intros Hr. unfold MessageRouter.handleSubscribe.
  pose proof (Q_subscribe (Protocol.Date_now (MessageRouter.runtime r))
                (MessageRouter.subscriptionManager r) (Protocol.source m)
                (Protocol.Subscribe.patterns p) (Protocol.Subscribe.filter p)
                (Protocol.Subscribe.snapshot p) Hr) as Hsub.
  simpl in Hsub |- *. unfold MessageRouter.makeAck. simpl.
  destruct (JsMap.get (MessageRouter.targets r) (Protocol.source m)) as [st|];
    [|exact Hsub].
  calling. destruct done; try exact Hkept.
  destruct (MessageRouter.snapshotRequested p); [|exact Hkept].
  match goal with
  | |- context [MessageRouter.streamSnapshots call ?r1 st ?ps] =>
      pose proof (streamSnapshots_keeps st ps r1 Hkept) as Hstream;
      destruct (MessageRouter.streamSnapshots call r1 st ps) as [[r2 cs] failed]
  end.
  simpl in Hstream. destruct failed; [exact Hstream|]. simpl.
  calling. destruct done; try exact Hkept0.
  simpl. apply (Q_markIssued (MessageRouter.subscriptionManager r)); assumption.
Qed.

Lemma handleUnsubscribe_keeps (r : MessageRouter.t) (m : Protocol.BridgeMessage)
  (p : Protocol.Unsubscribe.Payload) :
  keeps r -> keeps (fst (fst (MessageRouter.handleUnsubscribe call r m p))).
Proof.
  intros Hr. unfold MessageRouter.handleUnsubscribe.
  pose proof (Q_unsubscribePatterns (MessageRouter.subscriptionManager r)
                (Protocol.source m) (Protocol.Unsubscribe.patterns p) Hr) as Hun.
  destruct (SubscriptionManager.unsubscribePatterns _ _ _) as [removed sm].
  simpl in Hun. unfold MessageRouter.makeAck. simpl.
  destruct (JsMap.get (MessageRouter.targets r) (Protocol.source m)) as [st|];
    [|exact Hun].
  now apply forward_keeps.
Qed.

Lemma routeWith_keeps (r : MessageRouter.t) (m : Protocol.BridgeMessage) :
  keeps r -> keeps (fst (fst (MessageRouter.routeWith call r m))).
Proof.
  intros Hr. unfold MessageRouter.routeWith.
  destruct (Protocol.payload m);
    auto using routeCommand_keeps, routeState_keeps, handleAck_keeps,
      handleError_keeps, handleSubscribe_keeps, handleUnsubscribe_keeps.
  unfold MessageRouter.routeEvent.
  match goal with
  | |- context [MessageRouter.deliverEvent call r m ?cl] =>
      pose proof (deliverEvent_keeps m cl r Hr);
      destruct (MessageRouter.deliverEvent call r m cl)
  end. assumption.
Qed.

End WithInvoker.

Lemma invoke_keeps (h : MessageRouter.Handlers) :
  forall r t m, keeps r -> keeps (fst (fst (MessageRouter.invoke h r t m))).
Proof.
  induction h as [h IH] using Handlers_induction.
  intros r t m Hr. specialize (IH t m). destruct h as [f]. simpl in *.
  revert r Hr. induction (fst (f t m)) as [|[m' inner] rest IHrest]; intros r Hr.
  - exact Hr.
  - inversion IH as [|? ? Hinner Hrest]; subst. simpl in Hinner.
    pose proof (routeWith_keeps (MessageRouter.invoke inner) Hinner r m' Hr) as Hstep.
    destruct (MessageRouter.routeWith (MessageRouter.invoke inner) r m')
      as [[r1 cs] settled]. simpl in Hstep.
    specialize (IHrest Hrest r1 Hstep).
    match type of IHrest with
    | context [let '(_, _) := ?x in _] => destruct x as [r2 cs2]
    end.
    exact IHrest.
Qed.

Lemma route_keeps (h : MessageRouter.Handlers) (r : MessageRouter.t)
  (m : Protocol.BridgeMessage) :
  keeps r -> keeps (fst (fst (MessageRouter.route h r m))).
Proof. apply routeWith_keeps, invoke_keeps. Qed.

Lemma step_keeps (r : MessageRouter.t) (a : MessageRouter.Action) :
  keeps r -> keeps (fst (MessageRouter.step r a)).
Proof.
  intros Hr. destruct a as [m h|path value owner h|target|namespace| |now]; simpl.
  - pose proof (route_keeps h r m Hr) as H.
    destruct (MessageRouter.route h r m) as [[? ?] ?]. exact H.
  - pose proof (storeSet_keeps (MessageRouter.invoke h) (invoke_keeps h)
                  r path value owner Hr) as H.
    destruct (MessageRouter.storeSet (MessageRouter.invoke h) r path value owner)
      as [[? ?] ?].
    exact H.
  - unfold MessageRouter.registerTarget. destruct (JsMap.has _ _); exact Hr.
  - unfold MessageRouter.unregisterTarget.
    destruct (JsMap.get (MessageRouter.targets r) namespace); [|exact Hr].
    simpl. now apply Q_unsubscribeClient.
  - exact Hr.
  - exact Hr.
Qed.

Lemma run_keeps (actions : list MessageRouter.Action) :
  forall r, keeps r -> keeps (fst (MessageRouter.run r actions)).
Proof.
  induction actions as [|a rest IH]; intros r Hr; simpl; [exact Hr|].
  pose proof (step_keeps r a Hr) as Hstep.
  destruct (MessageRouter.step r a) as [r1 cs]. specialize (IH r1 Hstep).
  destruct (MessageRouter.run r1 rest). exact IH.
Qed.

End RouterKeeps.

(** Under [awaitsSnapshot], looking the subscription up finds it unsent. *)
Lemma awaiting_lookup (k : nat) (sm : SubscriptionManager.t)
  (s : SubscriptionManager.Subscription.t) :
  SubscriptionManager.awaitsSnapshot k sm ->
  SubscriptionManager.getSubscription sm ("sub-" ++ Js.Nat_toString k) = Some s ->
  SubscriptionManager.Subscription.snapshot s = true
  /\ SubscriptionManager.Subscription.snapshotSent s = false.
Proof.
  intros [_ Hall] Hget. apply JsMap_get_in in Hget.
  rewrite Forall_forall in Hall. exact (Hall _ Hget eq_refl).
Qed.

Lemma run_keeps_awaiting (k : nat) (actions : list MessageRouter.Action)
  (r : MessageRouter.t) :
  SubscriptionManager.awaitsSnapshot k (MessageRouter.subscriptionManager r) ->
  SubscriptionManager.awaitsSnapshot k
    (MessageRouter.subscriptionManager (fst (MessageRouter.run r actions))).
Proof.
  apply (run_keeps (SubscriptionManager.awaitsSnapshot k)).
  - intros. now apply subscribe_keeps_awaiting.
  - intros. now apply unsubscribePatterns_keeps_awaiting.
  - intros. now apply unsubscribeClient_keeps_awaiting.
  - intros before sm [Hk _] Hsm. apply markSnapshotSent_keeps_awaiting; [lia|exact Hsm].
Qed.

Lemma invoke_keeps_awaiting (k : nat) (h : MessageRouter.Handlers)
  (r : MessageRouter.t) (t : MessageRouter.RouteTarget.t) (m : Protocol.BridgeMessage) :
  SubscriptionManager.awaitsSnapshot k (MessageRouter.subscriptionManager r) ->
  SubscriptionManager.awaitsSnapshot k
    (MessageRouter.subscriptionManager (fst (fst (MessageRouter.invoke h r t m)))).
Proof.
  apply (invoke_keeps (SubscriptionManager.awaitsSnapshot k)).
  - intros. now apply subscribe_keeps_awaiting.
  - intros. now apply unsubscribePatterns_keeps_awaiting.
  - intros before sm [Hk _] Hsm. apply markSnapshotSent_keeps_awaiting; [lia|exact Hsm].
Qed.

(** *** Ids in the table have been issued *)

Lemma idsIssued_weaken (n n' : nat) (m : JsMap.t SubscriptionManager.Subscription.t) :
  n <= n' ->
  Forall (fun kv => exists j, fst kv = "sub-" ++ Js.Nat_toString j /\ j <= n) m ->
  Forall (fun kv => exists j, fst kv = "sub-" ++ Js.Nat_toString j /\ j <= n') m.
Proof.
  intros Hn. apply Forall_impl. intros kv (j & Hj & Hle). exists j. split; [exact Hj|lia].
Qed.

Lemma created_router_ids_issued (store : StateStore.t)
  (options : MessageRouter.RouterOptions.t) (rt : Protocol.Runtime) :
  SubscriptionManager.idsIssued
    (MessageRouter.subscriptionManager (MessageRouter.create store options rt)).
Proof. constructor. Qed.

Lemma run_keeps_ids_issued (actions : list MessageRouter.Action) (r : MessageRouter.t) :
  SubscriptionManager.idsIssued (MessageRouter.subscriptionManager r) ->
  SubscriptionManager.idsIssued
    (MessageRouter.subscriptionManager (fst (MessageRouter.run r actions))).
Proof.
  apply (run_keeps SubscriptionManager.idsIssued).
  - intros now sm clientId patterns filter snapshot Hsm.
    unfold SubscriptionManager.idsIssued in *. simpl.
    apply JsMap_Forall_set.
    + eapply idsIssued_weaken; [|exact Hsm]. lia.
    + eexists. split; [reflexivity|lia].
  - intros sm clientId patterns Hsm.
    unfold SubscriptionManager.unsubscribePatterns.
    destruct (JsMap.get (SubscriptionManager.subscriptionsByClient sm) clientId)
      as [subs|]; [|exact Hsm].
    revert sm Hsm. induction subs as [|subId rest IH]; intros sm Hsm; simpl;
      [exact Hsm|].
    destruct (JsMap.get (SubscriptionManager.subscriptionsById sm) subId) as [s|] eqn:Hg;
      [|now apply IH].
    destruct (existsb _ (SubscriptionManager.Subscription.patterns s)); [|now apply IH].
    assert (Hun : SubscriptionManager.idsIssued
                    (snd (SubscriptionManager.unsubscribe sm subId))).
    { unfold SubscriptionManager.unsubscribe. rewrite Hg.
      unfold SubscriptionManager.idsIssued in *. simpl.
      now apply JsMap_Forall_delete. }
    specialize (IH _ Hun).
    destruct (SubscriptionManager.unsubscribeEach _ patterns rest). exact IH.
  - intros sm clientId Hsm. unfold SubscriptionManager.unsubscribeClient.
    destruct (JsMap.get (SubscriptionManager.subscriptionsByClient sm) clientId)
      as [subs|]; [|exact Hsm].
    unfold SubscriptionManager.idsIssued in *. simpl.
    generalize (SubscriptionManager.subscriptionsById sm) Hsm.
    induction subs as [|x subs IH]; intros m Hm; simpl; [exact Hm|].
    apply IH. now apply JsMap_Forall_delete.
  - intros before sm _ Hsm. unfold SubscriptionManager.markSnapshotSent.
    destruct (JsMap.get (SubscriptionManager.subscriptionsById sm) _) as [s|] eqn:Hg;
      [|exact Hsm].
    unfold SubscriptionManager.idsIssued in *. simpl.
    apply JsMap_Forall_set; [exact Hsm|].
    apply JsMap_get_in in Hg. rewrite Forall_forall in Hsm.
    exact (Hsm _ Hg).
Qed.

(** C9. A subscribe message without the [snapshot] field, routed into a
    router whose subscription ids have all been issued by its counter (as
    they are in every router made by the constructor and whatever happened
    to it since). The subscription manager creates the subscription with
    [snapshot = true] and [snapshotSent = false] under the next id, and
    routing the message is this and no more: the router takes the manager
    with the new subscription in it, and from there hands the [completed]
    ack carrying the id to the source's handler if one is registered. So
    there is at most one call, no snapshot state message and no
    [snapshot_complete] event, whatever the handlers do, and when the
    source's handler does not call back into the router the subscription is
    in the router's manager once the message has been routed. Whatever
    happens to the router afterwards, whatever the handlers do, a
    subscription found under that id still has [snapshot = true] and
    [snapshotSent = false]. *)
Theorem C9_snapshot_field_omitted (h : MessageRouter.Handlers) (r : MessageRouter.t)
  (message : Protocol.BridgeMessage) (p : Protocol.Subscribe.Payload) :
  Protocol.payload message = Protocol.PSubscribe p ->
  Protocol.Subscribe.snapshot p = None ->
  SubscriptionManager.idsIssued (MessageRouter.subscriptionManager r) ->
  let subscribed :=
    SubscriptionManager.subscribe (Protocol.Date_now (MessageRouter.runtime r))
      (MessageRouter.subscriptionManager r) (Protocol.source message)
      (Protocol.Subscribe.patterns p) (Protocol.Subscribe.filter p)
      (Protocol.Subscribe.snapshot p) in
  let id := MessageRouter.nextSubscriptionId r in
  let routed := MessageRouter.route h r message in
  SubscriptionManager.getSubscription (snd subscribed) id = Some (fst subscribed)
  /\ SubscriptionManager.Subscription.snapshot (fst subscribed) = true
  /\ SubscriptionManager.Subscription.snapshotSent (fst subscribed) = false
  /\ SubscriptionManager.Subscription.clientId (fst subscribed) = Protocol.source message
  /\ (exists r1 ack,
        MessageRouter.subscriptionManager r1 = snd subscribed
        /\ MessageRouter.ackStatus ack = Some Protocol.AckStatus.COMPLETED
        /\ MessageRouter.ackResult ack = Js.JObject [("subscriptionId", Js.JString id)]
        /\ routed
           = match JsMap.get (MessageRouter.targets r) (Protocol.source message) with
             | None => (r1, [], MessageRouter.Fulfilled)
             | Some subscriber =>
                 let '(r', c, done) := MessageRouter.invoke h r1 subscriber ack in
                 (r', [c],
                  match done with
                  | MessageRouter.Returns => MessageRouter.Fulfilled
                  | MessageRouter.Rejects e | MessageRouter.Throws e =>
                      MessageRouter.RejectedWith e
                  end)
             end)
  /\ ((forall subscriber m,
          JsMap.get (MessageRouter.targets r) (Protocol.source message) = Some subscriber ->
          fst (MessageRouter.react h subscriber m) = []) ->
      SubscriptionManager.getSubscription
        (MessageRouter.subscriptionManager (fst (fst routed))) id
      = Some (fst subscribed))
  /\ Forall (fun c => MessageRouter.ackStatus (MessageRouter.delivered c)
                      = Some Protocol.AckStatus.COMPLETED)
            (snd (fst routed))
  /\ length (snd (fst routed)) <= 1
  /\ forall later s,
       SubscriptionManager.getSubscription
         (MessageRouter.subscriptionManager
            (fst (MessageRouter.run r (MessageRouter.Route message h :: later)))) id
       = Some s ->
       SubscriptionManager.Subscription.snapshot s = true
       /\ SubscriptionManager.Subscription.snapshotSent s = false.
Proof.
  intros Hp Hsnap Hids. destruct p as [patterns filter snapshot].
  simpl in Hsnap. subst snapshot. intros subscribed id routed.
  assert (Hcreated : SubscriptionManager.awaitsSnapshot
                       (S (SubscriptionManager.idCounter
                             (MessageRouter.subscriptionManager r)))
                       (snd subscribed)).
  { split; [simpl; lia|]. unfold subscribed. simpl.
    apply JsMap_Forall_set.
    - eapply Forall_impl; [|exact Hids]. intros kv (j & Hj & Hle) Heq.
      rewrite Hj in Heq. apply subscription_id_injective in Heq. lia.
    - intros _. split; reflexivity. }
  assert (Hfound : SubscriptionManager.getSubscription (snd subscribed) id
                   = Some (fst subscribed)) by apply JsMap_get_set_same.
  split; [exact Hfound|].
  split; [reflexivity|].
  split; [reflexivity|].
  split; [reflexivity|].
  assert (Hsteps :
            exists r1 ack,
              MessageRouter.subscriptionManager r1 = snd subscribed
              /\ MessageRouter.ackStatus ack = Some Protocol.AckStatus.COMPLETED
              /\ MessageRouter.ackResult ack
                 = Js.JObject [("subscriptionId", Js.JString id)]
              /\ routed
                 = match JsMap.get (MessageRouter.targets r) (Protocol.source message) with
                   | None => (r1, [], MessageRouter.Fulfilled)
                   | Some subscriber =>
                       let '(r', c, done) := MessageRouter.invoke h r1 subscriber ack in
                       (r', [c],
                        match done with
                        | MessageRouter.Returns => MessageRouter.Fulfilled
                        | MessageRouter.Rejects e | MessageRouter.Throws e =>
                            MessageRouter.RejectedWith e
                        end)
                   end).
  { pose (made :=
            MessageRouter.makeAck
              (MessageRouter.withSubscriptionManager r (snd subscribed))
              (Protocol.AckOptions.mk "hub.core" (Protocol.source message)
                 (Protocol.path message) (Protocol.id message)
                 Protocol.AckStatus.COMPLETED
                 (Js.JObject [("subscriptionId", Js.JString id)])
                 None (Protocol.correlationId message))).
    exists (snd made), (fst made).
    split; [reflexivity|]. split; [reflexivity|]. split; [reflexivity|].
    unfold routed, MessageRouter.route, MessageRouter.routeWith. rewrite Hp.
    unfold MessageRouter.handleSubscribe, MessageRouter.snapshotRequested.
    unfold made, MessageRouter.makeAck, id, MessageRouter.nextSubscriptionId. simpl.
    destruct (JsMap.get (MessageRouter.targets r) (Protocol.source message)) as [st|];
      [|reflexivity].
    match goal with
    | |- context [MessageRouter.invoke h ?r0 st ?a] =>
        destruct (MessageRouter.invoke h r0 st a) as [[r' c] done]
    end.
    destruct done; reflexivity. }
  destruct Hsteps as (r1 & ack & Hmanager & Hstatus & Hresult & Hrouted).
  split; [now exists r1, ack|].
  assert (Hkept : SubscriptionManager.awaitsSnapshot
                    (S (SubscriptionManager.idCounter
                          (MessageRouter.subscriptionManager r)))
                    (MessageRouter.subscriptionManager (fst (fst routed)))).
  { rewrite Hrouted.
    destruct (JsMap.get (MessageRouter.targets r) (Protocol.source message)) as [st|].
    - pose proof (invoke_keeps_awaiting _ h r1 st ack
                    ltac:(rewrite Hmanager; exact Hcreated)) as H.
      destruct (MessageRouter.invoke h r1 st ack) as [[r' c] done]. exact H.
    - simpl. rewrite Hmanager. exact Hcreated. }
  split.
  { intros Hquiet. rewrite Hrouted.
    destruct (JsMap.get (MessageRouter.targets r) (Protocol.source message)) as [st|].
    - rewrite (invoke_no_reentry h r1 st ack (Hquiet st ack eq_refl)). simpl.
      rewrite Hmanager. exact Hfound.
    - simpl. rewrite Hmanager. exact Hfound. }
  split.
  { rewrite Hrouted.
    destruct (JsMap.get (MessageRouter.targets r) (Protocol.source message)) as [st|];
      [|constructor].
    destruct (invoke_shape h r1 st ack) as (r' & nested & ->). simpl.
    repeat constructor. exact Hstatus. }
  split.
  { rewrite Hrouted.
    destruct (JsMap.get (MessageRouter.targets r) (Protocol.source message)) as [st|];
      [|simpl; lia].
    destruct (MessageRouter.invoke h r1 st ack) as [[r' c] done]. simpl. lia. }
  intros later s Hget.
  apply (awaiting_lookup _ _ s (run_keeps_awaiting _ later (fst (fst routed)) Hkept)).
  cbn [MessageRouter.run MessageRouter.step] in Hget. fold routed in Hget.
  destruct routed as [[r' calls] settled]. simpl.
  destruct (MessageRouter.run r' later). exact Hget.
Qed.

Lemma C9_snapshot_field_omitted_witness :
  let message := Scenario.subscribeMessage "s-9" "app.panel" ["x.**"] None in
  let routed := MessageRouter.route MessageRouter.quiet Scenario.router0 message in
  SubscriptionManager.idsIssued (MessageRouter.subscriptionManager Scenario.router0)
  /\ (exists s,
        SubscriptionManager.getSubscription
          (MessageRouter.subscriptionManager (fst (fst routed))) "sub-1" = Some s
        /\ SubscriptionManager.Subscription.clientId s = "app.panel"
        /\ SubscriptionManager.Subscription.snapshot s = true
        /\ SubscriptionManager.Subscription.snapshotSent s = false)
  /\ Forall (fun c => MessageRouter.ackStatus (MessageRouter.delivered c)
                      = Some Protocol.AckStatus.COMPLETED)
            (snd (fst routed))
  /\ length (snd (fst routed)) <= 1
  /\ forall later s,
       SubscriptionManager.getSubscription
         (MessageRouter.subscriptionManager
            (fst (MessageRouter.run Scenario.router0
                    (MessageRouter.Route message MessageRouter.quiet :: later)))) "sub-1"
       = Some s ->
       SubscriptionManager.Subscription.snapshot s = true
       /\ SubscriptionManager.Subscription.snapshotSent s = false.
Proof.
  intros message routed.
  pose proof (C9_snapshot_field_omitted MessageRouter.quiet Scenario.router0 message
                (Protocol.Subscribe.mk ["x.**"] None None) eq_refl eq_refl
                (Forall_nil _))
    as (_ & Hsnapshot & Hsent & Hclient & _ & Hthere & Hacks & Hlen & Hlater).
  split; [apply Forall_nil|].
  split.
  { eexists. split; [apply Hthere; intros subscriber m _; reflexivity|].
    split; [exact Hclient|]. split; [exact Hsnapshot | exact Hsent]. }
  split; [exact Hacks|]. split; [exact Hlen | exact Hlater].
Defined.

(** The subscription is there, asks for a snapshot, got none, and is listed
    as awaiting one; a subscription that asked for its snapshot is not. *)
Example omitted_snapshot_is_left_awaiting :
  map (fun s => (SubscriptionManager.Subscription.id s,
                 SubscriptionManager.Subscription.snapshot s,
                 SubscriptionManager.Subscription.snapshotSent s))
      (SubscriptionManager.getAwaitingSnapshot
         (MessageRouter.subscriptionManager
            (fst (MessageRouter.run Scenario.router0
                    [MessageRouter.Route
                       (Scenario.subscribeMessage "s-9" "app.panel" ["x.**"] None)
                       MessageRouter.quiet;
                     MessageRouter.Route
                       (Scenario.subscribeMessage "s-10" "app.logger" ["x.**"] (Some true))
                       MessageRouter.quiet]))))
  = [("sub-1", true, false)]
  /\ Scenario.deliveries
       (snd (MessageRouter.run Scenario.router0
               [MessageRouter.Route
                  (Scenario.subscribeMessage "s-9" "app.panel" ["x.**"] None)
                  MessageRouter.quiet]))
     = [("app.panel", "ack")].
Proof. split; vm_compute; reflexivity. Qed.


(** ** C1: a command sent twice under one idempotency key *)

(** A command whose key is cached without a result is dropped in silence:
    no handler is called, the router is left as it was. *)
Lemma replay_of_in_flight_key_is_dropped (h : MessageRouter.Handlers)
  (r : MessageRouter.t) (message : Protocol.BridgeMessage)
  (p : Protocol.Command.Payload) (key : string) (stamp : Z) :
  Protocol.payload message = Protocol.PCommand p ->
  MessageRouter.idempotencyKeyOf r (Protocol.idempotencyKey message) = Some key ->
  JsMap.get (MessageRouter.idempotencyCache r) key
  = Some (MessageRouter.IdempotencyRecord.mk None stamp) ->
  MessageRouter.route h r message = (r, [], MessageRouter.Fulfilled).
Proof.
  intros Hp Hkey Hcached.
  unfold MessageRouter.route, MessageRouter.routeWith. rewrite Hp.
  unfold MessageRouter.routeCommand. rewrite Hkey, Hcached. reflexivity.
Qed.

(** Without a pending command for its [commandId], an ack leaves the
    idempotency cache as it is before it is forwarded. Nothing in the router
    ever adds a pending command. *)
Lemma handleAck_without_pending_is_forward (call : MessageRouter.Invoker)
  (r : MessageRouter.t) (message : Protocol.BridgeMessage) (p : Protocol.Ack.Payload)
  (namespace : string) (sender : MessageRouter.RouteTarget.t) :
  JsMap.get (MessageRouter.pendingCommands r) (Protocol.Ack.commandId p) = None ->
  Protocol.target message = Some namespace ->
  JsMap.get (MessageRouter.targets r) namespace = Some sender ->
  MessageRouter.handleAck call r message p = MessageRouter.forward call r sender message.
Proof.
  intros Hpending Htarget Hsender. unfold MessageRouter.handleAck.
  rewrite Hpending, Htarget, Hsender. reflexivity.
Qed.

(** *** Nothing ever completes a cached command

    [pendingCommands] is read and emptied but never added to, so it stays
    empty, and with it every record of the idempotency cache stays without a
    result, whatever is routed and whatever the handlers do. *)

Section RouterStaysInFlight.

Lemma inFlightOnly_mark (r : MessageRouter.t) (key : string) (now : Z) :
  MessageRouter.inFlightOnly r ->
  MessageRouter.inFlightOnly
    (MessageRouter.withIdempotencyCache r
       (JsMap.set (MessageRouter.idempotencyCache r) key
          (MessageRouter.IdempotencyRecord.mk None now))).
Proof.
  intros [Hp Hc]. split; [exact Hp|]. simpl.
  apply JsMap_Forall_set; [exact Hc | reflexivity].
Qed.

Section WithInvoker.

Variable call : MessageRouter.Invoker.
Hypothesis call_pends :
  forall r t m, MessageRouter.inFlightOnly r ->
  MessageRouter.inFlightOnly (fst (fst (call r t m))).

Ltac calling :=
  match goal with
  | |- context [call ?r ?t ?m] =>
      let H := fresh "Hkept" in
      let r' := fresh "r" in
      let c := fresh "c" in
      let done := fresh "done" in
      assert (H : MessageRouter.inFlightOnly (fst (fst (call r t m))))
        by (apply call_pends; assumption);
      destruct (call r t m) as [[r' c] done]; simpl in H
  end.

Ltac cases :=
  repeat match goal with
         | |- context [match ?x with _ => _ end] => destruct x; simpl
         end.

Lemma sendError_pends (r : MessageRouter.t) (m : Protocol.BridgeMessage)
  (code text : string) :
  MessageRouter.inFlightOnly r ->
    MessageRouter.inFlightOnly (fst (fst (MessageRouter.sendError call r m code text))).
Proof.
  intros Hr. unfold MessageRouter.sendError. simpl.
  destruct (JsMap.get (MessageRouter.targets r) (Protocol.source m)); [|exact Hr].
  calling. cases; exact Hkept.
Qed.

Lemma dispatchCommand_pends (r : MessageRouter.t) (m : Protocol.BridgeMessage) :
  MessageRouter.inFlightOnly r ->
    MessageRouter.inFlightOnly (fst (fst (MessageRouter.dispatchCommand call r m))).
Proof.
  intros Hr. unfold MessageRouter.dispatchCommand.
  destruct (Protocol.target m) as [namespace|]; [|exact Hr].
  destruct (MessageRouter.findTarget r namespace) as [target|];
    [|now apply sendError_pends].
  unfold MessageRouter.makeAck. simpl.
  destruct (JsMap.get (MessageRouter.targets r) (Protocol.source m)) as [st|].
  - calling. destruct done; simpl; try exact Hkept.
    calling. destruct done; simpl;
      try (match goal with
           | |- context [MessageRouter.sendError call ?r0 ?m0 ?c0 ?t0] =>
               pose proof (sendError_pends r0 m0 c0 t0 Hkept0);
               destruct (MessageRouter.sendError call r0 m0 c0 t0) as [[? ?] ?]
           end; assumption).
    destruct (MessageRouter.idempotencyKeyOf r1 (Protocol.idempotencyKey m));
      [now apply inFlightOnly_mark | exact Hkept0].
  - simpl. calling. destruct done; simpl;
      try (match goal with
           | |- context [MessageRouter.sendError call ?r0 ?m0 ?c0 ?t0] =>
               pose proof (sendError_pends r0 m0 c0 t0 Hkept);
               destruct (MessageRouter.sendError call r0 m0 c0 t0) as [[? ?] ?]
           end; assumption).
    destruct (MessageRouter.idempotencyKeyOf r0 (Protocol.idempotencyKey m));
      [now apply inFlightOnly_mark | exact Hkept].
Qed.

Lemma routeCommand_pends (r : MessageRouter.t) (m : Protocol.BridgeMessage) :
  MessageRouter.inFlightOnly r ->
    MessageRouter.inFlightOnly (fst (fst (MessageRouter.routeCommand call r m))).
Proof.
  intros Hr. unfold MessageRouter.routeCommand.
  destruct (MessageRouter.idempotencyKeyOf r (Protocol.idempotencyKey m)) as [key|];
    [|now apply dispatchCommand_pends].
  destruct (JsMap.get (MessageRouter.idempotencyCache r) key) as [cached|];
    [|now apply dispatchCommand_pends].
  destruct (MessageRouter.IdempotencyRecord.result cached); [|exact Hr].
  destruct (JsMap.get (MessageRouter.targets r) (Protocol.source m)); [|exact Hr].
  calling. cases; exact Hkept.
Qed.

Lemma deliverEvent_pends (m : Protocol.BridgeMessage) (clients : list string) :
  forall r, MessageRouter.inFlightOnly r ->
    MessageRouter.inFlightOnly (fst (MessageRouter.deliverEvent call r m clients)).
Proof.
  induction clients as [|clientId rest IH]; intros r Hr; simpl; [exact Hr|].
  destruct (MessageRouter.findTargetById r clientId) as [target|]; [|now apply IH].
  destruct (negb _); [|now apply IH].
  calling. specialize (IH _ Hkept).
  destruct (MessageRouter.deliverEvent call r0 m rest). exact IH.
Qed.

Lemma deliverState_pends (m : Protocol.BridgeMessage) (owner : string)
  (clients : list string) :
  forall r, MessageRouter.inFlightOnly r ->
    MessageRouter.inFlightOnly (fst (MessageRouter.deliverState call r m owner clients)).
Proof.
  induction clients as [|clientId rest IH]; intros r Hr; simpl; [exact Hr|].
  destruct (MessageRouter.findTargetById r clientId) as [target|]; [|now apply IH].
  destruct (negb _); [|now apply IH].
  calling. specialize (IH _ Hkept).
  destruct done; try exact Hkept;
    destruct (MessageRouter.deliverState call r0 m owner rest); exact IH.
Qed.

Lemma storeSet_pends (r : MessageRouter.t) (path : string) (value : Js.Value)
  (owner : string) :
  MessageRouter.inFlightOnly r ->
    MessageRouter.inFlightOnly (fst (fst (MessageRouter.storeSet call r path value owner))).
Proof.
  intros Hr. unfold MessageRouter.storeSet.
  destruct (StateStore.set _ _ path value owner) as [store result].
  destruct result; try exact Hr.
  unfold MessageRouter.handleStateDelta, StateStore.deltaToMessage,
    StateStore.entryToMessage. simpl.
  match goal with
  | |- context [MessageRouter.deliverState call ?r0 ?m0 ?o ?cl] =>
      pose proof (deliverState_pends m0 o cl r0 Hr);
      destruct (MessageRouter.deliverState call r0 m0 o cl)
  end. assumption.
Qed.

Lemma routeState_pends (r : MessageRouter.t) (m : Protocol.BridgeMessage)
  (p : Protocol.State.Payload) :
  MessageRouter.inFlightOnly r ->
    MessageRouter.inFlightOnly (fst (fst (MessageRouter.routeState call r m p))).
Proof.
  intros Hr. unfold MessageRouter.routeState.
  pose proof (storeSet_pends r (Protocol.path m) (Protocol.State.value p)
                (Protocol.source m) Hr) as Hset.
  destruct (MessageRouter.storeSet call r _ _ _) as [[r1 cs] result]. simpl in Hset.
  destruct result; try exact Hset. now apply sendError_pends.
Qed.

Lemma forward_pends (r : MessageRouter.t) (t : MessageRouter.RouteTarget.t)
  (m : Protocol.BridgeMessage) :
  MessageRouter.inFlightOnly r ->
    MessageRouter.inFlightOnly (fst (fst (MessageRouter.forward call r t m))).
Proof. intros Hr. unfold MessageRouter.forward. calling. cases; exact Hkept. Qed.

(** An ack meets no pending command, so the cache is not written. *)
Lemma handleAck_pends (r : MessageRouter.t) (m : Protocol.BridgeMessage)
  (p : Protocol.Ack.Payload) :
  MessageRouter.inFlightOnly r ->
    MessageRouter.inFlightOnly (fst (fst (MessageRouter.handleAck call r m p))).
Proof.
  intros Hr. unfold MessageRouter.handleAck.
  rewrite (proj1 Hr). simpl.
  destruct (Protocol.target m) as [namespace|]; [|exact Hr].
  destruct (JsMap.get (MessageRouter.targets r) namespace); [|exact Hr].
  now apply forward_pends.
Qed.

Lemma handleError_pends (r : MessageRouter.t) (m : Protocol.BridgeMessage) :
  MessageRouter.inFlightOnly r ->
    MessageRouter.inFlightOnly (fst (fst (MessageRouter.handleError call r m))).
Proof.
  intros Hr. unfold MessageRouter.handleError.
  destruct (Js.truthyString (Protocol.target m)); [|exact Hr].
  destruct (Protocol.target m) as [namespace|]; [|exact Hr].
  destruct (JsMap.get (MessageRouter.targets r) namespace); [|exact Hr].
  now apply forward_pends.
Qed.

Lemma streamMessages_pends (t : MessageRouter.RouteTarget.t)
  (messages : list Protocol.BridgeMessage) :
  forall r, MessageRouter.inFlightOnly r ->
    MessageRouter.inFlightOnly (fst (fst (MessageRouter.streamMessages call r t messages))).
Proof.
  induction messages as [|m rest IH]; intros r Hr; simpl; [exact Hr|].
  calling. specialize (IH _ Hkept).
  destruct done; try exact Hkept.
  destruct (MessageRouter.streamMessages call r0 t rest) as [[? ?] ?]. exact IH.
Qed.

Lemma streamSnapshots_pends (t : MessageRouter.RouteTarget.t)
  (patterns : list string) :
  forall r, MessageRouter.inFlightOnly r ->
    MessageRouter.inFlightOnly (fst (fst (MessageRouter.streamSnapshots call r t patterns))).
Proof.
  induction patterns as [|pattern rest IH]; intros r Hr; simpl; [exact Hr|].
  destruct (StateStore.snapshotToMessages _ _ _) as [[messages store] rt].
  match goal with
  | |- context [MessageRouter.streamMessages call ?r0 t messages] =>
      pose proof (streamMessages_pends t messages r0 Hr) as Hstream;
      destruct (MessageRouter.streamMessages call r0 t messages) as [[r1 cs] failed]
  end.
  simpl in Hstream. destruct failed; [exact Hstream|].
  specialize (IH _ Hstream).
  destruct (MessageRouter.streamSnapshots call r1 t rest) as [[? ?] ?]. exact IH.
Qed.

Lemma handleSubscribe_pends (r : MessageRouter.t) (m : Protocol.BridgeMessage)
  (p : Protocol.Subscribe.Payload) :
  MessageRouter.inFlightOnly r ->
    MessageRouter.inFlightOnly (fst (fst (MessageRouter.handleSubscribe call r m p))).
Proof.
  intros Hr. unfold MessageRouter.handleSubscribe.
  simpl. unfold MessageRouter.makeAck. simpl.
  destruct (JsMap.get (MessageRouter.targets r) (Protocol.source m)) as [st|];
    [|exact Hr].
  calling. destruct done; try exact Hkept.
  destruct (MessageRouter.snapshotRequested p); [|exact Hkept].
  match goal with
  | |- context [MessageRouter.streamSnapshots call ?r1 st ?ps] =>
      pose proof (streamSnapshots_pends st ps r1 Hkept) as Hstream;
      destruct (MessageRouter.streamSnapshots call r1 st ps) as [[r2 cs] failed]
  end.
  simpl in Hstream. destruct failed; [exact Hstream|]. simpl.
  calling. destruct done; exact Hkept0.
Qed.

Lemma handleUnsubscribe_pends (r : MessageRouter.t) (m : Protocol.BridgeMessage)
  (p : Protocol.Unsubscribe.Payload) :
  MessageRouter.inFlightOnly r ->
    MessageRouter.inFlightOnly (fst (fst (MessageRouter.handleUnsubscribe call r m p))).
Proof.
  intros Hr. unfold MessageRouter.handleUnsubscribe.
  destruct (SubscriptionManager.unsubscribePatterns _ _ _) as [removed sm].
  unfold MessageRouter.makeAck. simpl.
  destruct (JsMap.get (MessageRouter.targets r) (Protocol.source m)) as [st|];
    [|exact Hr].
  now apply forward_pends.
Qed.

Lemma routeWith_pends (r : MessageRouter.t) (m : Protocol.BridgeMessage) :
  MessageRouter.inFlightOnly r ->
    MessageRouter.inFlightOnly (fst (fst (MessageRouter.routeWith call r m))).
Proof.
  intros Hr. unfold MessageRouter.routeWith.
  destruct (Protocol.payload m);
    auto using routeCommand_pends, routeState_pends, handleAck_pends,
      handleError_pends, handleSubscribe_pends, handleUnsubscribe_pends.
  unfold MessageRouter.routeEvent.
  match goal with
  | |- context [MessageRouter.deliverEvent call r m ?cl] =>
      pose proof (deliverEvent_pends m cl r Hr);
      destruct (MessageRouter.deliverEvent call r m cl)
  end. assumption.
Qed.

End WithInvoker.

Lemma invoke_pends (h : MessageRouter.Handlers) :
  forall r t m, MessageRouter.inFlightOnly r ->
    MessageRouter.inFlightOnly (fst (fst (MessageRouter.invoke h r t m))).
Proof.
  induction h as [h IH] using Handlers_induction.
  intros r t m Hr. specialize (IH t m). destruct h as [f]. simpl in *.
  revert r Hr. induction (fst (f t m)) as [|[m' inner] rest IHrest]; intros r Hr.
  - exact Hr.
  - inversion IH as [|? ? Hinner Hrest]; subst. simpl in Hinner.
    pose proof (routeWith_pends (MessageRouter.invoke inner) Hinner r m' Hr) as Hstep.
    destruct (MessageRouter.routeWith (MessageRouter.invoke inner) r m')
      as [[r1 cs] settled]. simpl in Hstep.
    specialize (IHrest Hrest r1 Hstep).
    match type of IHrest with
    | context [let '(_, _) := ?x in _] => destruct x as [r2 cs2]
    end.
    exact IHrest.
Qed.

Lemma step_pends (r : MessageRouter.t) (a : MessageRouter.Action) :
  MessageRouter.inFlightOnly r ->
    MessageRouter.inFlightOnly (fst (MessageRouter.step r a)).
Proof.
  intros Hr. destruct a as [m h|path value owner h|target|namespace| |now]; simpl.
  - pose proof (routeWith_pends (MessageRouter.invoke h) (invoke_pends h) r m Hr) as H.
    unfold MessageRouter.route.
    destruct (MessageRouter.routeWith (MessageRouter.invoke h) r m) as [[? ?] ?]. exact H.
  - pose proof (storeSet_pends (MessageRouter.invoke h) (invoke_pends h)
                  r path value owner Hr) as H.
    destruct (MessageRouter.storeSet (MessageRouter.invoke h) r path value owner)
      as [[? ?] ?].
    exact H.
  - unfold MessageRouter.registerTarget. destruct (JsMap.has _ _); exact Hr.
  - unfold MessageRouter.unregisterTarget.
    destruct (JsMap.get (MessageRouter.targets r) namespace); [|exact Hr].
    destruct Hr as [Hp Hc]. split; simpl; [now rewrite Hp | exact Hc].
  - destruct Hr as [Hp Hc]. split; [exact Hp|]. simpl.
    apply Forall_forall. intros kv Hin. apply filter_In in Hin as [Hin _].
    revert kv Hin. now apply Forall_forall.
  - exact Hr.
Qed.

Lemma run_pends (actions : list MessageRouter.Action) :
  forall r, MessageRouter.inFlightOnly r ->
    MessageRouter.inFlightOnly (fst (MessageRouter.run r actions)).
Proof.
  induction actions as [|a rest IH]; intros r Hr; simpl; [exact Hr|].
  pose proof (step_pends r a Hr) as Hstep.
  destruct (MessageRouter.step r a) as [r1 cs]. specialize (IH r1 Hstep).
  destruct (MessageRouter.run r1 rest). exact IH.
Qed.

End RouterStaysInFlight.

(** Whatever has happened to a router since it was created, a command whose
    idempotency key is in the cache is dropped in silence: no handler is
    called, nothing is delivered to its sender, the router is left as it
    was. *)
Lemma resend_is_never_answered (store : StateStore.t)
  (options : MessageRouter.RouterOptions.t) (rt : Protocol.Runtime)
  (actions : list MessageRouter.Action) (h : MessageRouter.Handlers)
  (message : Protocol.BridgeMessage) (p : Protocol.Command.Payload) :
  let r := fst (MessageRouter.run (MessageRouter.create store options rt) actions) in
  Protocol.payload message = Protocol.PCommand p ->
  MessageRouter.answeredFromCache r message = true ->
  MessageRouter.route h r message = (r, [], MessageRouter.Fulfilled).
Proof.
  intros r Hp Hcached.
  assert (Hr : MessageRouter.inFlightOnly r).
  { apply run_pends. split; [reflexivity | constructor]. }
  unfold MessageRouter.answeredFromCache in Hcached.
  destruct (MessageRouter.idempotencyKeyOf r (Protocol.idempotencyKey message))
    as [key|] eqn:Hkey; [|discriminate].
  unfold JsMap.has in Hcached.
  destruct (JsMap.get (MessageRouter.idempotencyCache r) key) as [[result stamp]|]
    eqn:Hget; [|discriminate].
  pose proof (JsMap_get_in _ _ _ Hget) as Hin.
  destruct Hr as [_ Hc]. rewrite Forall_forall in Hc. specialize (Hc _ Hin).
  simpl in Hc. subst result.
  now apply (replay_of_in_flight_key_is_dropped h r message p key stamp).
Qed.

(** C1, at the failing input (seed scenario 3). [app.panel] sends [press] of
    key 5 under key [K1] to [companion.satellite]; the adapter, socket open,
    handles it and routes its [completed] ack from inside the handler. First
    dispatch: [app.panel] is called with the [received] ack, the adapter's
    handler once with the command, and inside that call [app.panel] with the
    [completed] ack. There is no pending command for the ack to meet, so the
    cache entry for [K1] is the in-flight marker, with no result. The same
    envelope sent again: the adapter is not called again, and nobody is
    called at all: the resend gets no ack. *)
Theorem C1_resend_is_answered_with_nothing :
  let h := CompanionAdapter.asHandlers Scenario.adapterOnline Scenario.runtime0
             Scenario.companion in
  let first := MessageRouter.route h Scenario.router0 Scenario.pressKey5 in
  let second := MessageRouter.route h (fst (fst first)) Scenario.pressKey5 in
  Scenario.summary (snd (fst first))
  = [("app.panel", Some Protocol.AckStatus.RECEIVED); ("companion", None)]
  /\ map (fun c => Scenario.summary (Scenario.nestedCalls c)) (snd (fst first))
     = [[]; [("app.panel", Some Protocol.AckStatus.COMPLETED)]]
  /\ MessageRouter.pendingCommands (fst (fst first)) = []
  /\ JsMap.get (MessageRouter.idempotencyCache (fst (fst first))) "K1"
     = Some (MessageRouter.IdempotencyRecord.mk None 1000)
  /\ snd (fst second) = []
  /\ snd second = MessageRouter.Fulfilled.
Proof. vm_compute. repeat split. Qed.


(** ** C3: patterns *)

(** *** Strings *)

Lemma string_pair_induction (P : string -> Prop) :
  P EmptyString ->
  (forall c, P (String c EmptyString)) ->
  (forall c d s, P s -> P (String d s) -> P (String c (String d s))) ->
  forall s, P s.
Proof.
  intros H0 H1 H2 s.
  assert (H : P s /\ forall c, P (String c s)).
  { induction s as [|d s [IHs IHc]]; [now split|].
    split; [apply IHc|]. intros c. apply H2; [exact IHs | apply IHc]. }
  apply H.
Qed.

Lemma append_assoc (a b c : string) : (a ++ b) ++ c = a ++ (b ++ c).
Proof. induction a as [|x a IH]; simpl; [reflexivity | now rewrite IH]. Qed.

Lemma append_empty_r (a : string) : a ++ EmptyString = a.
Proof. induction a as [|x a IH]; simpl; [reflexivity | now rewrite IH]. Qed.

Lemma prefix_cons_differ (a c : ascii) (n s : string) :
  a <> c -> String.prefix (String a n) (String c s) = false.
Proof. intros H. simpl. destruct (ascii_dec a c); [contradiction|reflexivity]. Qed.

Lemma prefix_cons_same (a : ascii) (n s : string) :
  String.prefix (String a n) (String a s) = String.prefix n s.
Proof. simpl. destruct (ascii_dec a a); [reflexivity|contradiction]. Qed.

Lemma prefix_append (n s : string) : String.prefix n (n ++ s) = true.
Proof.
  induction n as [|a n IH]; simpl; [now destruct s|].
  destruct (ascii_dec a a); [exact IH|contradiction].
Qed.

(** Passing over the rest of a match. *)
Lemma replaceAllFrom_skip (needle replacement w s : string) :
  Pattern.replaceAllFrom needle replacement (String.length w) (w ++ s)
  = Pattern.replaceAllFrom needle replacement 0 s.
Proof.
  induction w as [|c w IH]; simpl; [|exact IH].
  destruct s; reflexivity.
Qed.

(** A match at the head is replaced and scanning resumes after it. *)
Lemma replaceAll_match (needle replacement s : string) (a : ascii) (n : string) :
  needle = String a n ->
  Pattern.replaceAll needle replacement (needle ++ s)
  = replacement ++ Pattern.replaceAll needle replacement s.
Proof.
  intros ->. unfold Pattern.replaceAll.
  cbn [Pattern.replaceAllFrom append].
  change (String a (n ++ s)) with (String a n ++ s).
  rewrite prefix_append.
  replace (String.length (String a n) - 1) with (String.length n) by (simpl; lia).
  now rewrite replaceAllFrom_skip.
Qed.

(** No match at the head: the character is kept. *)
Lemma replaceAll_keep (needle replacement s : string) (c : ascii) :
  String.prefix needle (String c s) = false ->
  Pattern.replaceAll needle replacement (String c s)
  = String c (Pattern.replaceAll needle replacement s).
Proof.
  intros H. unfold Pattern.replaceAll. cbn [Pattern.replaceAllFrom].
  rewrite H. reflexivity.
Qed.

Lemma prefix_drop (n s : string) :
  String.prefix n s = true -> n ++ Pattern.drop (String.length n) s = s.
Proof.
  revert s. induction n as [|a n IH]; intros s H; simpl.
  - now destruct s.
  - destruct s as [|c s]; simpl in H; [discriminate|].
    destruct (ascii_dec a c) as [->|]; [|discriminate].
    simpl. now rewrite IH.
Qed.

(** Replacing a text by itself changes nothing: the second [replace] of
    [patternToRegex], of [\.] by [\.], is such a call. *)
Lemma replaceAllFrom_by_itself (a : ascii) (n s : string) :
  forall skip,
    Pattern.replaceAllFrom (String a n) (String a n) skip s = Pattern.drop skip s.
Proof.
  induction s as [|c s IH]; intros skip; [now destruct skip|].
  destruct skip as [|k]; cbn [Pattern.replaceAllFrom Pattern.drop]; [|apply IH].
  destruct (String.prefix (String a n) (String c s)) eqn:E.
  - rewrite IH. replace (String.length (String a n) - 1) with (String.length n)
      by (simpl; lia).
    apply prefix_drop in E. simpl in E. injection E as -> E.
    cbn [append]. now rewrite E.
  - rewrite IH. reflexivity.
Qed.

Lemma replaceAll_by_itself (a : ascii) (n s : string) :
  Pattern.replaceAll (String a n) (String a n) s = s.
Proof. unfold Pattern.replaceAll. now rewrite replaceAllFrom_by_itself. Qed.

(** *** Characters, by cases over the 256 of them *)

Ltac every_ascii c := destruct c as [[] [] [] [] [] [] [] []].

Lemma star_is_not_special : Pattern.isSpecial "*" = false.
Proof. reflexivity. Qed.

Lemma special_is_syntax (c : ascii) :
  Pattern.isSpecial c = true -> RegExp.isSyntaxChar c = true.
Proof. every_ascii c; intros H; try reflexivity; discriminate H. Qed.

Lemma special_is_not_star (c : ascii) :
  Pattern.isSpecial c = true -> Ascii.eqb c "*" = false.
Proof. every_ascii c; intros H; try reflexivity; discriminate H. Qed.

Lemma plain_is_not_syntax (c : ascii) :
  Pattern.isSpecial c = false -> Ascii.eqb c "*" = false ->
  RegExp.isSyntaxChar c = false
  /\ Ascii.eqb c "$" = false /\ Ascii.eqb c Js.backslash = false
  /\ Ascii.eqb c "." = false /\ Ascii.eqb c "[" = false /\ Ascii.eqb c "{" = false.
Proof.
  every_ascii c; intros H1 H2; try discriminate H1; try discriminate H2;
    repeat split.
Qed.

Lemma eqb_false_neq (c d : ascii) : Ascii.eqb c d = false -> d <> c.
Proof. intros H ->. rewrite Ascii.eqb_refl in H. discriminate. Qed.

(** *** Stage by stage *)

Lemma escapeSpecials_cons (c : ascii) (s : string) :
  Pattern.escapeSpecials (String c s) = Pattern.escapeOne c ++ Pattern.escapeSpecials s.
Proof. unfold Pattern.escapeOne. simpl. now destruct (Pattern.isSpecial c). Qed.

Lemma translate_plain (c : ascii) (s : string) :
  Ascii.eqb c "*" = false ->
  Pattern.translate (String c s) = RegExp.Char c :: Pattern.translate s.
Proof. intros E. cbn [Pattern.translate]. now rewrite E. Qed.

Lemma translate_star_star (s : string) :
  Pattern.translate (String "*" (String "*" s)) = RegExp.AnyStar :: Pattern.translate s.
Proof. reflexivity. Qed.

Lemma translate_star_other (d : ascii) (s : string) :
  Ascii.eqb d "*" = false ->
  Pattern.translate (String "*" (String d s))
  = RegExp.NotDotPlus :: RegExp.Char d :: Pattern.translate s.
Proof. intros E. cbn [Pattern.translate]. simpl Ascii.eqb. now rewrite E. Qed.

(** After the first [replace]: the pattern with its special characters
    escaped is [translate] written with the stars as they were. *)
Lemma stage_escape (pattern : string) :
  Pattern.escapeSpecials pattern
  = Pattern.renderAll "**" "*" (Pattern.translate pattern).
Proof.
  induction pattern as [|c|c d s IHs IHd] using string_pair_induction.
  - reflexivity.
  - destruct (Ascii.eqb c "*") eqn:E.
    + apply Ascii.eqb_eq in E. subst c. reflexivity.
    + rewrite translate_plain by exact E. rewrite escapeSpecials_cons. reflexivity.
  - destruct (Ascii.eqb c "*") eqn:Ec.
    + apply Ascii.eqb_eq in Ec. subst c.
      destruct (Ascii.eqb d "*") eqn:Ed.
      * apply Ascii.eqb_eq in Ed. subst d. rewrite translate_star_star.
        cbn [Pattern.renderAll Pattern.render]. rewrite <- IHs. reflexivity.
      * rewrite translate_star_other by exact Ed.
        rewrite translate_plain in IHd by exact Ed.
        change (Pattern.renderAll "**" "*"
                  (RegExp.NotDotPlus :: RegExp.Char d :: Pattern.translate s))
          with ("*" ++ Pattern.renderAll "**" "*" (RegExp.Char d :: Pattern.translate s)).
        rewrite <- IHd. reflexivity.
    + rewrite translate_plain by exact Ec. rewrite escapeSpecials_cons, IHd. reflexivity.
Qed.

Lemma translate_wellFormed (pattern : string) :
  Pattern.wellFormed (Pattern.translate pattern).
Proof.
  induction pattern as [|c|c d s IHs IHd] using string_pair_induction.
  - exact I.
  - destruct (Ascii.eqb c "*") eqn:E.
    + apply Ascii.eqb_eq in E. subst c. exact I.
    + rewrite translate_plain by exact E. split; [|exact I]. intros ->. discriminate E.
  - destruct (Ascii.eqb c "*") eqn:Ec.
    + apply Ascii.eqb_eq in Ec. subst c.
      destruct (Ascii.eqb d "*") eqn:Ed.
      * apply Ascii.eqb_eq in Ed. subst d. rewrite translate_star_star. exact IHs.
      * rewrite translate_star_other by exact Ed.
        rewrite translate_plain in IHd by exact Ed. exact IHd.
    + rewrite translate_plain by exact Ec. split; [|exact IHd].
      intros ->. discriminate Ec.
Qed.

(** A stretch of text in which the first character of the needle does not
    occur is passed over unchanged. *)
Lemma replaceAll_over_text (a : ascii) (n replacement w s : string) :
  (forall c, In c (list_ascii_of_string w) -> a <> c) ->
  Pattern.replaceAll (String a n) replacement (w ++ s)
  = w ++ Pattern.replaceAll (String a n) replacement s.
Proof.
  induction w as [|c w IH]; intros Hw; [reflexivity|].
  cbn [append]. rewrite replaceAll_keep.
  - rewrite IH; [reflexivity|]. intros x Hx. apply Hw. now right.
  - apply prefix_cons_differ. apply Hw. now left.
Qed.

Lemma replaceAll_over_escape (a : ascii) (n replacement : string) (c : ascii)
  (s : string) :
  a <> c -> a <> Js.backslash ->
  Pattern.replaceAll (String a n) replacement (Pattern.escapeOne c ++ s)
  = Pattern.escapeOne c ++ Pattern.replaceAll (String a n) replacement s.
Proof.
  intros Hc Hb. apply replaceAll_over_text. unfold Pattern.escapeOne.
  destruct (Pattern.isSpecial c); simpl; intros x Hx; intuition (subst; auto).
Qed.

Lemma wellFormed_tail (n : RegExp.Node) (rest : list RegExp.Node) :
  Pattern.wellFormed (n :: rest) -> Pattern.wellFormed rest.
Proof.
  destruct n; simpl; [tauto | tauto |].
  destruct rest as [|[] ?]; simpl; tauto.
Qed.

(** After the third [replace]: each pair of stars has become the
    placeholder. *)
Lemma stage_double_star (nodes : list RegExp.Node) :
  Pattern.wellFormed nodes ->
  Pattern.replaceAll "**" Pattern.placeholder (Pattern.renderAll "**" "*" nodes)
  = Pattern.renderAll Pattern.placeholder "*" nodes.
Proof.
  induction nodes as [|n rest IH]; intros Hwf; [reflexivity|].
  specialize (IH (wellFormed_tail _ _ Hwf)).
  destruct n as [c| |]; cbn [Pattern.renderAll Pattern.render].
  - destruct Hwf as [Hc _].
    rewrite replaceAll_over_escape; [now rewrite IH | congruence | discriminate].
  - rewrite (replaceAll_match "**" _ _ "*" "*" eq_refl). now rewrite IH.
  - change ("*" ++ Pattern.renderAll "**" "*" rest)
      with (String "*" (Pattern.renderAll "**" "*" rest)).
    rewrite replaceAll_keep; [now rewrite IH|].
    rewrite prefix_cons_same.
    destruct rest as [|[d| |] rest']; simpl in Hwf; try contradiction; [reflexivity|].
    destruct Hwf as [Hd _]. cbn [Pattern.renderAll Pattern.render].
    unfold Pattern.escapeOne. destruct (Pattern.isSpecial d); cbn [append];
      apply prefix_cons_differ; [discriminate | congruence].
Qed.

(** After the fourth: each remaining star has become [[^.]+]. *)
Lemma stage_single_star (nodes : list RegExp.Node) :
  Pattern.wellFormed nodes ->
  Pattern.replaceAll "*" "[^.]+" (Pattern.renderAll Pattern.placeholder "*" nodes)
  = Pattern.renderAll Pattern.placeholder "[^.]+" nodes.
Proof.
  induction nodes as [|n rest IH]; intros Hwf; [reflexivity|].
  specialize (IH (wellFormed_tail _ _ Hwf)).
  destruct n as [c| |]; cbn [Pattern.renderAll Pattern.render].
  - destruct Hwf as [Hc _].
    rewrite replaceAll_over_escape; [now rewrite IH | congruence | discriminate].
  - rewrite replaceAll_over_text; [now rewrite IH|].
    simpl. intros x Hx. intuition (subst; discriminate).
  - rewrite (replaceAll_match "*" _ _ "*" EmptyString eq_refl). now rewrite IH.
Qed.

(** Nothing written for a node starts with the tail of the placeholder. *)
Lemma no_placeholder_tail_ahead (nodes : list RegExp.Node) :
  String.prefix "{DOUBLE_STAR}}" (Pattern.renderAll Pattern.placeholder "[^.]+" nodes)
  = false.
Proof.
  destruct nodes as [|[c| |] rest]; cbn [Pattern.renderAll Pattern.render];
    try reflexivity.
  unfold Pattern.escapeOne. destruct (Pattern.isSpecial c) eqn:E; cbn [append].
  - apply prefix_cons_differ. discriminate.
  - apply prefix_cons_differ. intros <-. discriminate E.
Qed.

(** After the fifth: each placeholder has become [.*]. *)
Lemma stage_placeholder (nodes : list RegExp.Node) :
  Pattern.replaceAll Pattern.placeholder ".*"
    (Pattern.renderAll Pattern.placeholder "[^.]+" nodes)
  = Pattern.renderAll ".*" "[^.]+" nodes.
Proof.
  induction nodes as [|n rest IH]; [reflexivity|].
  pose proof (no_placeholder_tail_ahead rest) as Hahead.
  unfold Pattern.placeholder in *.
  destruct n as [c| |]; cbn [Pattern.renderAll Pattern.render].
  - unfold Pattern.escapeOne. destruct (Pattern.isSpecial c) eqn:E; cbn [append].
    + rewrite replaceAll_keep by (apply prefix_cons_differ; discriminate).
      rewrite replaceAll_keep; [now rewrite IH|].
      destruct (Ascii.eqb c "{") eqn:Ec.
      * apply Ascii.eqb_eq in Ec. subst c.
        rewrite prefix_cons_same. exact Hahead.
      * apply prefix_cons_differ. now apply eqb_false_neq.
    + rewrite replaceAll_keep; [now rewrite IH|].
      apply prefix_cons_differ. intros <-. discriminate E.
  - rewrite (replaceAll_match _ _ _ "{" "{DOUBLE_STAR}}" eq_refl).
    now rewrite IH.
  - rewrite replaceAll_over_text; [now rewrite IH|].
    simpl. intros x Hx. intuition (subst; discriminate).
Qed.

(** Reading the text back gives the nodes. *)
Lemma parse_rendered (nodes : list RegExp.Node) :
  Pattern.wellFormed nodes ->
  RegExp.parseBody (Pattern.renderAll ".*" "[^.]+" nodes ++ "$") = Some nodes.
Proof.
  induction nodes as [|n rest IH]; intros Hwf; [reflexivity|].
  specialize (IH (wellFormed_tail _ _ Hwf)).
  destruct n as [c| |]; cbn [Pattern.renderAll Pattern.render].
  - destruct Hwf as [Hc _].
    assert (Estar : Ascii.eqb c "*" = false).
    { destruct (Ascii.eqb c "*") eqn:E; [|reflexivity].
      apply Ascii.eqb_eq in E. contradiction. }
    unfold Pattern.escapeOne. destruct (Pattern.isSpecial c) eqn:E; cbn [append].
    + cbn [RegExp.parseBody]. change (Ascii.eqb Js.backslash "$") with false.
      rewrite Ascii.eqb_refl. cbv iota.
      rewrite (special_is_syntax c E), IH. reflexivity.
    + destruct (plain_is_not_syntax c E Estar) as (H1 & H2 & H3 & H4 & H5 & _).
      cbn [RegExp.parseBody]. rewrite H2, H3, H4, H5, H1, IH. reflexivity.
  - rewrite append_assoc. cbn [append RegExp.parseBody]. simpl Ascii.eqb.
    cbv iota. rewrite IH. reflexivity.
  - rewrite append_assoc. cbn [append RegExp.parseBody]. simpl Ascii.eqb.
    cbv iota. simpl. rewrite IH. reflexivity.
Qed.

(** [patternToRegex] always yields a regular expression, and it is the
    translation. *)
Lemma patternToRegex_is_translate (pattern : string) :
  Pattern.patternToRegex pattern = Some (Pattern.translate pattern).
Proof.
  unfold Pattern.patternToRegex, Pattern.regexSource.
  unfold Pattern.backslashDot. rewrite replaceAll_by_itself.
  rewrite stage_escape.
  rewrite stage_double_star by apply translate_wellFormed.
  rewrite stage_single_star by apply translate_wellFormed.
  rewrite stage_placeholder.
  cbn [append RegExp.create]. simpl Ascii.eqb. cbv iota.
  apply parse_rendered, translate_wellFormed.
Qed.

(** *** What the matcher accepts *)

Lemma matchNodes_any (r : list RegExp.Node) (s : string) :
  RegExp.matchNodes (RegExp.AnyStar :: r) s
  = RegExp.matchNodes r s
    || match s with
       | String x s' =>
           negb (RegExp.isLineTerminator x)
           && RegExp.matchNodes (RegExp.AnyStar :: r) s'
       | EmptyString => false
       end.
Proof. destruct s; reflexivity. Qed.

Lemma matchNodes_segment (r : list RegExp.Node) (x : ascii) (s : string) :
  RegExp.matchNodes (RegExp.NotDotPlus :: r) (String x s)
  = negb (RegExp.isDot x)
    && (RegExp.matchNodes r s || RegExp.matchNodes (RegExp.NotDotPlus :: r) s).
Proof. destruct s; reflexivity. Qed.

Lemma Matches_complete (r : list RegExp.Node) (s : string) :
  Pattern.Matches r s -> RegExp.matchNodes r s = true.
Proof.
  induction 1 as [|c r s _ IH|r w s Hw _ IH|r w s Hne Hw _ IH].
  - reflexivity.
  - simpl. now rewrite Ascii.eqb_refl, IH.
  - induction w as [|x w IHw]; rewrite matchNodes_any.
    + cbn [append]. now rewrite IH.
    + cbn [append]. rewrite (Hw x) by now left.
      rewrite IHw; [apply orb_true_r|]. intros c Hc. apply Hw. now right.
  - destruct w as [|x w]; [contradiction|]. clear Hne.
    revert x Hw. induction w as [|y w IHw]; intros x Hw; cbn [append];
      rewrite matchNodes_segment.
    + cbn [append]. rewrite IH.
      assert (Hx : x <> "."%char) by (apply Hw; now left).
      unfold RegExp.isDot. destruct (Ascii.eqb x ".") eqn:E; [|reflexivity].
      apply Ascii.eqb_eq in E. contradiction.
    + assert (Hy := IHw y (fun c Hc => Hw c (or_intror Hc))).
      cbn [append] in Hy. rewrite Hy.
      assert (Hx : x <> "."%char) by (apply Hw; now left).
      unfold RegExp.isDot. destruct (Ascii.eqb x ".") eqn:E;
        [apply Ascii.eqb_eq in E; contradiction|].
      simpl. apply orb_true_r.
Qed.

Lemma Matches_any_extend (r : list RegExp.Node) (x : ascii) (s : string) :
  RegExp.isLineTerminator x = false ->
  Pattern.Matches (RegExp.AnyStar :: r) s ->
  Pattern.Matches (RegExp.AnyStar :: r) (String x s).
Proof.
  intros Hx H. inversion H as [| |r' w s' Hw Hr|]; subst.
  change (String x (w ++ s')) with (String x w ++ s').
  apply Pattern.MatchesAny; [|exact Hr].
  intros c [<-|Hc]; [exact Hx | now apply Hw].
Qed.

Lemma Matches_segment_extend (r : list RegExp.Node) (x : ascii) (s : string) :
  x <> "."%char ->
  Pattern.Matches (RegExp.NotDotPlus :: r) s ->
  Pattern.Matches (RegExp.NotDotPlus :: r) (String x s).
Proof.
  intros Hx H. inversion H as [| | |r' w s' Hne Hw Hr]; subst.
  change (String x (w ++ s')) with (String x w ++ s').
  apply Pattern.MatchesSegment; [discriminate| |exact Hr].
  intros c [<-|Hc]; [exact Hx | now apply Hw].
Qed.

Lemma Matches_sound (r : list RegExp.Node) :
  forall s, RegExp.matchNodes r s = true -> Pattern.Matches r s.
Proof.
  induction r as [|n r IH]; intros s H.
  - destruct s; [constructor | discriminate].
  - destruct n as [c| |].
    + destruct s as [|x s]; [discriminate|]. simpl in H.
      apply andb_true_iff in H as [Hx Hs]. apply Ascii.eqb_eq in Hx. subst x.
      constructor. now apply IH.
    + induction s as [|x s IHs]; rewrite matchNodes_any in H.
      * rewrite orb_false_r in H.
        apply (Pattern.MatchesAny r EmptyString EmptyString); [intros c []|].
        now apply IH.
      * apply orb_true_iff in H as [H|H].
        -- apply (Pattern.MatchesAny r EmptyString (String x s)); [intros c []|].
           now apply IH.
        -- apply andb_true_iff in H as [Hx Hs].
           apply Matches_any_extend; [|now apply IHs].
           now destruct (RegExp.isLineTerminator x).
    + destruct s as [|x s]; [discriminate|].
      revert x H. induction s as [|y s IHs]; intros x H;
        rewrite matchNodes_segment in H; apply andb_true_iff in H as [Hx H].
      * rewrite orb_false_r in H.
        apply (Pattern.MatchesSegment r (String x EmptyString) EmptyString);
          [discriminate| |now apply IH].
        intros c [<-|[]]. unfold RegExp.isDot in Hx. intros ->. discriminate Hx.
      * assert (Hdot : x <> "."%char).
        { unfold RegExp.isDot in Hx. intros ->. discriminate Hx. }
        apply orb_true_iff in H as [H|H].
        -- apply (Pattern.MatchesSegment r (String x EmptyString) (String y s));
             [discriminate| |now apply IH].
           intros c [<-|[]]. exact Hdot.
        -- apply Matches_segment_extend; [exact Hdot | now apply IHs].
Qed.

(** C3, counterexample. Path [a], pattern [a.**]. Read by segments the
    pattern matches ([**] standing for no segment at all), as the claim says
    it should; [patternToRegex] builds [^a\..*$], which asks for the dot, and
    [pathMatchesPattern] answers [false]. *)
Lemma C3_double_star_keeps_its_dot :
  Pattern.matchesBySegments "a" "a.**" = true
  /\ Pattern.regexSource "a.**" = "^a\..*$"
  /\ Pattern.pathMatchesPattern "a" "a.**" = false.
Proof. repeat split; vm_compute; reflexivity. Qed.

(** C3, amended. For every pattern and path, [patternToRegex] yields the
    anchored translation of the pattern, [**] to [.*] and a remaining [*] to
    [[^.]+], stars pairing up from the left and every other character,
    regular-expression metacharacters included, standing for itself; and
    [pathMatchesPattern(path, pattern)] holds iff the whole path matches
    it: [*] takes one or more characters other than the dot, [**] takes any
    run of characters other than line terminators, dots included, possibly
    none. Neither is tied to segment boundaries. *)
Theorem C3_pattern_is_its_translation (path pattern : string) :
  Pattern.patternToRegex pattern = Some (Pattern.translate pattern)
  /\ (Pattern.pathMatchesPattern path pattern = true
      <-> Pattern.Matches (Pattern.translate pattern) path).
Proof.
  split; [apply patternToRegex_is_translate|].
  unfold Pattern.pathMatchesPattern, RegExp.test.
  rewrite patternToRegex_is_translate.
  split; [apply Matches_sound | apply Matches_complete].
Qed.

(** The cases of the repository's own tests, and the ones that tell the two
    readings apart. *)
Example pattern_cases :
  map (fun '(path, pattern) => Pattern.pathMatchesPattern path pattern)
      [("a.b.c", "a.b.c"); ("a.b.d", "a.b.c");
       ("a.b.c", "a.*.c"); ("a.x.c", "a.*.c"); ("a.b.c.d", "a.*.c");
       ("a.b", "a.**"); ("a.b.c.d.e", "a.**"); ("b.c", "a.**");
       ("companion.page.1.bank.0", "companion.page.*.bank.*");
       ("a", "a.**"); ("a.", "a.**"); ("abc.d", "a**"); ("a+b", "a+b");
       ("aab", "a+b")]
  = [true; false; true; true; false; true; true; false; true;
     false; true; true; true; false].
Proof. vm_compute. reflexivity. Qed.


(* ========================================================================= *)
(** * Further properties of the code                                          *)
(* ========================================================================= *)

(** ** Maps with unique keys *)

Lemma JsMap_get_none_keys {V : Type} (m : JsMap.t V) (k : string) :
  JsMap.get m k = None <-> ~ In k (JsMap.keys m).
Proof.
  induction m as [|[k' v'] m IH]; simpl; [tauto|].
  destruct (String.eqb k' k) eqn:E.
  - apply String.eqb_eq in E. split; [discriminate | intros H; exfalso; apply H; now left].
  - apply String.eqb_neq in E. rewrite IH. tauto.
Qed.

Lemma JsMap_in_get {V : Type} (m : JsMap.t V) (k : string) (v : V) :
  JsMap.unique m -> In (k, v) m -> JsMap.get m k = Some v.
Proof.
  unfold JsMap.unique, JsMap.keys.
  induction m as [|[k' v'] m IH]; simpl; intros Hu Hin; [contradiction|].
  inversion Hu as [|? ? Hnot Hrest]; subst.
  destruct Hin as [Heq|Hin].
  - injection Heq as -> ->. now rewrite String.eqb_refl.
  - destruct (String.eqb k' k) eqn:E; [|now apply IH].
    apply String.eqb_eq in E. subst k'. exfalso. apply Hnot.
    change k with (fst (k, v)). now apply in_map.
Qed.

Lemma JsMap_keys_set {V : Type} (m : JsMap.t V) (k : string) (v : V) :
  JsMap.keys (JsMap.set m k v)
  = if JsMap.has m k then JsMap.keys m else (JsMap.keys m ++ [k])%list.
Proof.
  unfold JsMap.has, JsMap.keys.
  induction m as [|[k' v'] m IH]; simpl; [reflexivity|].
  destruct (String.eqb k' k) eqn:E; simpl.
  - apply String.eqb_eq in E. now subst.
  - rewrite IH. now destruct (JsMap.get m k).
Qed.

Lemma JsMap_set_fresh {V : Type} (m : JsMap.t V) (k : string) (v : V) :
  JsMap.get m k = None -> JsMap.set m k v = (m ++ [(k, v)])%list.
Proof.
  induction m as [|[k' v'] m IH]; simpl; [reflexivity|].
  destruct (String.eqb k' k); [discriminate|]. intros H. now rewrite IH.
Qed.

Lemma JsMap_unique_set {V : Type} (m : JsMap.t V) (k : string) (v : V) :
  JsMap.unique m -> JsMap.unique (JsMap.set m k v).
Proof.
  unfold JsMap.unique. rewrite JsMap_keys_set. unfold JsMap.has.
  destruct (JsMap.get m k) eqn:E; [tauto|].
  intros Hu. apply NoDup_app; [exact Hu | repeat constructor; intros [] | ].
  intros x Hx [<-|[]]. now apply JsMap_get_none_keys in E.
Qed.

Lemma JsMap_keys_delete_subset {V : Type} (m : JsMap.t V) (k x : string) :
  In x (JsMap.keys (JsMap.delete m k)) -> In x (JsMap.keys m).
Proof.
  unfold JsMap.keys. induction m as [|[k' v'] m IH]; simpl; [tauto|].
  destruct (String.eqb k' k); simpl; tauto.
Qed.

Lemma JsMap_unique_delete {V : Type} (m : JsMap.t V) (k : string) :
  JsMap.unique m -> JsMap.unique (JsMap.delete m k).
Proof.
  unfold JsMap.unique.
  induction m as [|[k' v'] m IH]; simpl; intros Hu; [constructor|].
  inversion Hu as [|? ? Hnot Hrest]; subst.
  destruct (String.eqb k' k); [exact Hrest|].
  simpl. constructor; [|now apply IH].
  intros Hin. apply Hnot. now apply JsMap_keys_delete_subset in Hin.
Qed.

Lemma JsMap_get_delete_same {V : Type} (m : JsMap.t V) (k : string) :
  JsMap.unique m -> JsMap.get (JsMap.delete m k) k = None.
Proof.
  unfold JsMap.unique.
  induction m as [|[k' v'] m IH]; simpl; intros Hu; [reflexivity|].
  inversion Hu as [|? ? Hnot Hrest]; subst.
  destruct (String.eqb k' k) eqn:E; simpl.
  - apply String.eqb_eq in E. subst. now apply JsMap_get_none_keys.
  - rewrite E. now apply IH.
Qed.

Lemma JsMap_get_delete_other {V : Type} (m : JsMap.t V) (k k' : string) :
  k <> k' -> JsMap.get (JsMap.delete m k) k' = JsMap.get m k'.
Proof.
  intros Hne. induction m as [|[k0 v0] m IH]; simpl; [reflexivity|].
  destruct (String.eqb k0 k) eqn:E; simpl.
  - apply String.eqb_eq in E. subst k0.
    destruct (String.eqb k k') eqn:E'; [apply String.eqb_eq in E'; contradiction | reflexivity].
  - destruct (String.eqb k0 k'); [reflexivity | exact IH].
Qed.

Lemma JsMap_size_delete {V : Type} (m : JsMap.t V) (k : string) (v : V) :
  JsMap.get m k = Some v -> S (JsMap.size (JsMap.delete m k)) = JsMap.size m.
Proof.
  unfold JsMap.size. induction m as [|[k' v'] m IH]; simpl; [discriminate|].
  destruct (String.eqb k' k); [reflexivity|]. intros H. simpl. now rewrite IH.
Qed.

(** Looking a key up in a filtered map whose filter keeps the key's entry. *)
Lemma JsMap_get_filter_kept {V : Type} (f : string * V -> bool) (m : JsMap.t V)
  (k : string) (v : V) :
  JsMap.get m k = Some v -> f (k, v) = true -> JsMap.get (filter f m) k = Some v.
Proof.
  induction m as [|[k' v'] m IH]; simpl; [discriminate|].
  destruct (String.eqb k' k) eqn:E.
  - apply String.eqb_eq in E. subst k'. intros H. injection H as ->. intros ->.
    simpl. now rewrite String.eqb_refl.
  - intros Hg Hf. destruct (f (k', v')); simpl; [rewrite E|]; now apply IH.
Qed.

Lemma JsMap_get_filter_in {V : Type} (f : string * V -> bool) (m : JsMap.t V)
  (k : string) (v : V) :
  JsMap.get (filter f m) k = Some v -> In (k, v) m /\ f (k, v) = true.
Proof.
  intros H. apply JsMap_get_in in H. now apply filter_In in H.
Qed.

Lemma JsMap_unique_filter {V : Type} (f : string * V -> bool) (m : JsMap.t V) :
  JsMap.unique m -> JsMap.unique (filter f m).
Proof.
  unfold JsMap.unique, JsMap.keys.
  induction m as [|[k v] m IH]; simpl; intros Hu; [constructor|].
  inversion Hu as [|? ? Hnot Hrest]; subst.
  destruct (f (k, v)); simpl; [|now apply IH].
  constructor; [|now apply IH].
  intros Hin. apply Hnot. apply in_map_iff in Hin as ([k' v'] & Hk & Hin).
  simpl in Hk. subst k'. apply filter_In in Hin as [Hin _].
  change k with (fst (k, v')). now apply in_map.
Qed.

Lemma JsMap_get_filter {V : Type} (f : string * V -> bool) (m : JsMap.t V)
  (k : string) :
  JsMap.unique m ->
  JsMap.get (filter f m) k
  = match JsMap.get m k with
    | Some v => if f (k, v) then Some v else None
    | None => None
    end.
Proof.
  intros Hu. destruct (JsMap.get m k) as [v|] eqn:Hg.
  - destruct (f (k, v)) eqn:Hf; [now apply JsMap_get_filter_kept|].
    destruct (JsMap.get (filter f m) k) as [v'|] eqn:Hg'; [|reflexivity].
    apply JsMap_get_filter_in in Hg' as [Hin Hf'].
    apply (JsMap_in_get _ _ _ Hu) in Hin. rewrite Hg in Hin. injection Hin as ->.
    congruence.
  - destruct (JsMap.get (filter f m) k) as [v'|] eqn:Hg'; [|reflexivity].
    apply JsMap_get_filter_in in Hg' as [Hin _].
    apply (JsMap_in_get _ _ _ Hu) in Hin. congruence.
Qed.


(** ** The state store: deleting, bulk writes, staleness, versions *)

(** X1. [delete(path, owner)]: a path that is not there gives [null] and
    changes nothing; a path held by another owner throws and changes
    nothing; the owner's own path is removed ([get] and [has] no longer find
    it), no other path is touched, the store's size goes down by one and its
    global version up by one, and the delta notified carries the value
    [null], the entry's owner and stale flag, and the entry's version plus
    one over the previous version. *)
Theorem X1_delete (now : Z) (s : StateStore.t) (path owner : string) :
  JsMap.unique (StateStore.entries s) ->
  match StateStore.get s path with
  | None => StateStore.delete now s path owner = (s, StateStore.Unchanged)
  | Some e =>
      if String.eqb (StateStore.Entry.owner e) owner then
        exists s',
          StateStore.delete now s path owner
          = (s', StateStore.Changed
                   (StateStore.Delta.mk path
                      (StateStore.Entry.mk Js.JNull owner (StateStore.Entry.version e + 1)
                         (StateStore.Entry.stale e) now (StateStore.Entry.path e))
                      (Some (StateStore.Entry.version e))))
          /\ StateStore.get s' path = None
          /\ StateStore.has s' path = false
          /\ (forall other, other <> path -> StateStore.get s' other = StateStore.get s other)
          /\ S (StateStore.size s') = StateStore.size s
          /\ StateStore.version s' = S (StateStore.version s)
      else
        StateStore.delete now s path owner
        = (s, StateStore.Threw
                (StateStore.OwnershipError.mk path (StateStore.Entry.owner e) owner))
  end.
Proof.
  intros Hu. unfold StateStore.get, StateStore.delete.
  destruct (JsMap.get (StateStore.entries s) path) as [e|] eqn:Hget; [|reflexivity].
  destruct (String.eqb (StateStore.Entry.owner e) owner) eqn:Eo; simpl; [|reflexivity].
  apply String.eqb_eq in Eo. eexists. split.
  - rewrite Eo. reflexivity.
  - unfold StateStore.has, JsMap.has, StateStore.size, StateStore.version. simpl.
    rewrite (JsMap_get_delete_same _ _ Hu).
    repeat split; try reflexivity.
    + intros other Hne. apply JsMap_get_delete_other. congruence.
    + now apply (JsMap_size_delete _ _ e).
Qed.

Lemma X1_delete_witness :
  let store := MessageRouter.stateStore Scenario.routerWithEntry in
  JsMap.unique (StateStore.entries store)
  /\ exists s',
       StateStore.delete 2000 store "x.y" "app.panel"
       = (s', StateStore.Changed
                (StateStore.Delta.mk "x.y"
                   (StateStore.Entry.mk Js.JNull "app.panel" 2 false 2000 "x.y")
                   (Some 1)))
       /\ StateStore.get s' "x.y" = None
       /\ StateStore.has s' "x.y" = false
       /\ (forall other, other <> "x.y" -> StateStore.get s' other = StateStore.get store other)
       /\ S (StateStore.size s') = StateStore.size store
       /\ StateStore.version s' = S (StateStore.version store).
Proof.
  intros store.
  assert (Hu : JsMap.unique (StateStore.entries store)).
  { repeat constructor; simpl; intuition discriminate. }
  split; [exact Hu|].
  exact (X1_delete 2000 store "x.y" "app.panel" Hu).
Defined.

(** X2. What [set(path, value, owner)] does to the rest: it never touches
    another path, and a write that throws or is suppressed as a no-op leaves
    the whole store as it was. An applied write puts the delta's entry under
    the path, with the path recorded in it and version one more than the
    entry it replaces ([1] on a new path, with previous version [null]), and
    moves the global version up by one. *)
Theorem X2_set_bookkeeping (now : Z) (s : StateStore.t) (path : string)
  (value : Js.Value) (owner : string) :
  let s' := fst (StateStore.set now s path value owner) in
  (forall other, other <> path -> StateStore.get s' other = StateStore.get s other)
  /\ match snd (StateStore.set now s path value owner) with
     | StateStore.Changed delta =>
         let entry := StateStore.Delta.entry delta in
         StateStore.Delta.path delta = path
         /\ StateStore.get s' path = Some entry
         /\ StateStore.Entry.path entry = path
         /\ StateStore.Entry.version entry
            = match StateStore.get s path with
              | Some e => StateStore.Entry.version e + 1
              | None => 1
              end
         /\ StateStore.Delta.previousVersion delta
            = option_map StateStore.Entry.version (StateStore.get s path)
         /\ StateStore.version s' = S (StateStore.version s)
         /\ StateStore.size s'
            = match StateStore.get s path with
              | Some _ => StateStore.size s
              | None => S (StateStore.size s)
              end
     | _ => s' = s
     end.
Proof.
  unfold StateStore.set, StateStore.get, StateStore.version, StateStore.size.
  assert (Hsize : forall (m : JsMap.t StateStore.Entry.t) k v,
             JsMap.size (JsMap.set m k v)
             = match JsMap.get m k with Some _ => JsMap.size m | None => S (JsMap.size m) end).
  { intros m k v. unfold JsMap.size. induction m as [|[k' v'] m IH]; simpl; [reflexivity|].
    destruct (String.eqb k' k); simpl; [reflexivity|]. rewrite IH.
    now destruct (JsMap.get m k). }
  destruct (JsMap.get (StateStore.entries s) path) as [e|] eqn:Hget.
  - destruct (String.eqb (StateStore.Entry.owner e) owner); simpl; [|now split].
    destruct (StateStore.valueChanged (StateStore.Entry.value e) value); simpl; [|now split].
    split; [intros other Hne; apply JsMap_get_set_other; congruence|].
    rewrite JsMap_get_set_same, Hsize, Hget. repeat split.
  - simpl. split; [intros other Hne; apply JsMap_get_set_other; congruence|].
    rewrite JsMap_get_set_same, Hsize, Hget. repeat split.
Qed.

(** X3. Deleting a path gives it up: after the owner has deleted it, a write
    by any namespace, the former owner or another, is applied; the writer
    becomes the owner, and the entry starts again at version [1] with no
    previous version, whatever version the deleted entry had reached. *)
Theorem X3_delete_then_set (now later : Z) (s : StateStore.t) (path owner : string)
  (e : StateStore.Entry.t) (value : Js.Value) (claimant : string) :
  JsMap.unique (StateStore.entries s) ->
  StateStore.get s path = Some e ->
  StateStore.Entry.owner e = owner ->
  let deleted := fst (StateStore.delete now s path owner) in
  let entry := StateStore.Entry.mk value claimant 1 false later path in
  StateStore.set later deleted path value claimant
  = (StateStore.mk (JsMap.set (StateStore.entries deleted) path entry)
       (S (S (StateStore.globalVersion s)))
       (StateStore.sequenceCounter s) (StateStore.source s),
     StateStore.Changed (StateStore.Delta.mk path entry None))
  /\ StateStore.get (fst (StateStore.set later deleted path value claimant)) path
     = Some entry.
Proof.
  intros Hu Hget Howner deleted entry.
  assert (Hdeleted : deleted
          = StateStore.mk (JsMap.delete (StateStore.entries s) path)
              (S (StateStore.globalVersion s)) (StateStore.sequenceCounter s)
              (StateStore.source s)).
  { unfold deleted, StateStore.delete. unfold StateStore.get in Hget. rewrite Hget.
    rewrite Howner, String.eqb_refl. reflexivity. }
  assert (Hset : StateStore.set later deleted path value claimant
          = (StateStore.mk (JsMap.set (StateStore.entries deleted) path entry)
               (S (S (StateStore.globalVersion s)))
               (StateStore.sequenceCounter s) (StateStore.source s),
             StateStore.Changed (StateStore.Delta.mk path entry None))).
  { rewrite Hdeleted. unfold StateStore.set. simpl.
    now rewrite (JsMap_get_delete_same _ _ Hu). }
  split; [exact Hset|]. rewrite Hset. unfold StateStore.get. simpl.
  apply JsMap_get_set_same.
Qed.

Lemma X3_delete_then_set_witness :
  let store := MessageRouter.stateStore Scenario.routerWithEntry in
  let deleted := fst (StateStore.delete 2000 store "x.y" "app.panel") in
  let entry := StateStore.Entry.mk (Js.JNumber 7) "app.logger" 1 false 3000 "x.y" in
  JsMap.unique (StateStore.entries store)
  /\ StateStore.get (fst (StateStore.set 3000 deleted "x.y" (Js.JNumber 7) "app.logger")) "x.y"
     = Some entry.
Proof.
  intros store deleted entry.
  assert (Hu : JsMap.unique (StateStore.entries store)).
  { repeat constructor; simpl; intuition discriminate. }
  split; [exact Hu|].
  exact (proj2 (X3_delete_then_set 2000 3000 store "x.y" "app.panel"
                  (StateStore.Entry.mk (Js.JNumber 1) "app.panel" 1 false 1000 "x.y")
                  (Js.JNumber 7) "app.logger" Hu eq_refl eq_refl)).
Defined.

(** *** Staleness *)

Lemma flipStale_keys (now : Z) (owner : string) (flag : bool)
  (es : JsMap.t StateStore.Entry.t) :
  JsMap.keys (fst (StateStore.flipStale now owner flag es)) = JsMap.keys es.
Proof.
  unfold JsMap.keys. induction es as [|[p e] es IH]; simpl; [reflexivity|].
  destruct (StateStore.flipStale now owner flag es) as [rest deltas]. simpl in IH.
  destruct (_ && _); simpl; now rewrite IH.
Qed.

Lemma flipStale_get (now : Z) (owner : string) (flag : bool)
  (es : JsMap.t StateStore.Entry.t) (p : string) :
  JsMap.get (fst (StateStore.flipStale now owner flag es)) p
  = option_map
      (fun e =>
         if String.eqb (StateStore.Entry.owner e) owner
            && negb (Bool.eqb (StateStore.Entry.stale e) flag)
         then StateStore.Entry.mk (StateStore.Entry.value e) (StateStore.Entry.owner e)
                (StateStore.Entry.version e + 1) flag now (StateStore.Entry.path e)
         else e)
      (JsMap.get es p).
Proof.
  induction es as [|[q e] es IH]; simpl; [reflexivity|].
  destruct (StateStore.flipStale now owner flag es) as [rest deltas]. simpl in IH.
  destruct (String.eqb (StateStore.Entry.owner e) owner
            && negb (Bool.eqb (StateStore.Entry.stale e) flag)) eqn:E; simpl;
    destruct (String.eqb q p); simpl; rewrite ?E; auto.
Qed.

Lemma flipStale_deltas (now : Z) (owner : string) (flag : bool)
  (es : JsMap.t StateStore.Entry.t) :
  snd (StateStore.flipStale now owner flag es)
  = map (fun kv =>
           StateStore.Delta.mk (fst kv)
             (StateStore.Entry.mk (StateStore.Entry.value (snd kv))
                (StateStore.Entry.owner (snd kv))
                (StateStore.Entry.version (snd kv) + 1) flag now
                (StateStore.Entry.path (snd kv)))
             (Some (StateStore.Entry.version (snd kv))))
        (filter (fun kv =>
                   String.eqb (StateStore.Entry.owner (snd kv)) owner
                   && negb (Bool.eqb (StateStore.Entry.stale (snd kv)) flag))
                es).
Proof.
  induction es as [|[p e] es IH]; simpl; [reflexivity|].
  destruct (StateStore.flipStale now owner flag es) as [rest deltas]. simpl in IH.
  destruct (_ && _); simpl; now rewrite IH.
Qed.

(** With nothing to flip the entries are left as they are. *)
Lemma flipStale_nothing (now : Z) (owner : string) (flag : bool)
  (es : JsMap.t StateStore.Entry.t) :
  snd (StateStore.flipStale now owner flag es) = [] ->
  fst (StateStore.flipStale now owner flag es) = es.
Proof.
  induction es as [|[p e] es IH]; simpl; [reflexivity|].
  destruct (StateStore.flipStale now owner flag es) as [rest deltas]. simpl in IH.
  destruct (_ && _); simpl; [discriminate|]. intros H. now rewrite IH.
Qed.

Lemma flipStale_twice (now later : Z) (owner : string) (flag : bool)
  (es : JsMap.t StateStore.Entry.t) :
  StateStore.flipStale later owner flag (fst (StateStore.flipStale now owner flag es))
  = (fst (StateStore.flipStale now owner flag es), []).
Proof.
  induction es as [|[p e] es IH]; simpl; [reflexivity|].
  destruct (StateStore.flipStale now owner flag es) as [rest deltas]. simpl in IH.
  destruct (String.eqb (StateStore.Entry.owner e) owner
            && negb (Bool.eqb (StateStore.Entry.stale e) flag)) eqn:E; simpl; rewrite IH.
  - rewrite Bool.eqb_reflx, andb_false_r. reflexivity.
  - rewrite E. reflexivity.
Qed.

(** X4. [markOwnerStale(owner)] keeps the paths and their order. Each entry
    of the owner that was not stale is replaced by one with the same value,
    owner and path, the stale flag set and its version one higher; every
    other entry is left as it is. One delta is notified per entry replaced,
    in the order of the store, and the global version goes up by their
    number. Marking again changes nothing and notifies nothing, so the
    second call the adapter makes when its socket closes is harmless. *)
Theorem X4_markOwnerStale (now : Z) (s : StateStore.t) (owner : string) :
  let s' := fst (StateStore.markOwnerStale now s owner) in
  let deltas := snd (StateStore.markOwnerStale now s owner) in
  let marks (e : StateStore.Entry.t) :=
    String.eqb (StateStore.Entry.owner e) owner && negb (StateStore.Entry.stale e) in
  let marked (e : StateStore.Entry.t) :=
    StateStore.Entry.mk (StateStore.Entry.value e) (StateStore.Entry.owner e)
      (StateStore.Entry.version e + 1) true now (StateStore.Entry.path e) in
  JsMap.keys (StateStore.entries s') = JsMap.keys (StateStore.entries s)
  /\ (forall path,
        StateStore.get s' path
        = option_map (fun e => if marks e then marked e else e) (StateStore.get s path))
  /\ deltas
     = map (fun kv =>
              StateStore.Delta.mk (fst kv) (marked (snd kv))
                (Some (StateStore.Entry.version (snd kv))))
           (filter (fun kv => marks (snd kv)) (StateStore.entries s))
  /\ StateStore.version s' = StateStore.version s + length deltas
  /\ (forall path e,
        StateStore.get s' path = Some e ->
        StateStore.Entry.owner e = owner -> StateStore.Entry.stale e = true)
  /\ (forall later, StateStore.markOwnerStale later s' owner = (s', [])).
Proof.
  intros s' deltas marks marked.
  assert (Hmarks : forall e,
             String.eqb (StateStore.Entry.owner e) owner
             && negb (Bool.eqb (StateStore.Entry.stale e) true) = marks e).
  { intros e. unfold marks. now destruct (StateStore.Entry.stale e). }
  assert (Hget : forall path,
        StateStore.get s' path
        = option_map (fun e => if marks e then marked e else e) (StateStore.get s path)).
  { intros path. unfold s', StateStore.markOwnerStale, StateStore.get.
    pose proof (flipStale_get now owner true (StateStore.entries s) path) as H.
    destruct (StateStore.flipStale now owner true (StateStore.entries s)) as [es ds].
    simpl in *. rewrite H. destruct (JsMap.get (StateStore.entries s) path) as [e|];
      [|reflexivity].
    simpl. now rewrite Hmarks. }
  unfold s', deltas, StateStore.markOwnerStale, StateStore.version.
  pose proof (flipStale_keys now owner true (StateStore.entries s)) as Hkeys.
  pose proof (flipStale_deltas now owner true (StateStore.entries s)) as Hdeltas.
  pose proof (flipStale_twice now) as Htwice.
  specialize (fun later => Htwice later owner true (StateStore.entries s)).
  unfold s', StateStore.markOwnerStale in Hget.
  destruct (StateStore.flipStale now owner true (StateStore.entries s)) as [es ds].
  simpl in *.
  split; [exact Hkeys|]. split; [exact Hget|]. split.
  { rewrite Hdeltas. f_equal.
    apply filter_ext. intros [p e]. simpl. apply Hmarks. }
  split; [reflexivity|]. split.
  - intros path e He Ho. rewrite Hget in He.
    destruct (StateStore.get s path) as [e0|]; [|discriminate]. simpl in He.
    unfold marks in He. destruct (String.eqb (StateStore.Entry.owner e0) owner) eqn:Eo.
    + destruct (StateStore.Entry.stale e0) eqn:Es; simpl in He; injection He as <-;
        [exact Es | reflexivity].
    + simpl in He. injection He as <-. rewrite Ho, String.eqb_refl in Eo. discriminate.
  - intros later. rewrite Htwice. simpl. now rewrite Nat.add_0_r.
Qed.

(** X5. Staleness set and cleared again: after [markOwnerStale(owner)] and
    then [clearOwnerStale(owner)] no entry of the owner is stale, each has
    the value, owner and path it had, and its version has gone up by two (by
    one if it was stale to begin with); one delta is notified per entry of
    the owner by the second call; the entries of other owners are never
    touched. *)
Theorem X5_stale_and_back (now later : Z) (s : StateStore.t) (owner : string) :
  let marked := fst (StateStore.markOwnerStale now s owner) in
  let cleared := fst (StateStore.clearOwnerStale later marked owner) in
  (forall path,
      StateStore.get cleared path
      = option_map
          (fun e =>
             if String.eqb (StateStore.Entry.owner e) owner then
               StateStore.Entry.mk (StateStore.Entry.value e) (StateStore.Entry.owner e)
                 (StateStore.Entry.version e + (if StateStore.Entry.stale e then 1 else 2))
                 false later (StateStore.Entry.path e)
             else e)
          (StateStore.get s path))
  /\ length (snd (StateStore.clearOwnerStale later marked owner))
     = length (filter (fun kv => String.eqb (StateStore.Entry.owner (snd kv)) owner)
                 (StateStore.entries s)).
Proof.
  intros marked cleared. split.
  - intros path. unfold cleared, marked, StateStore.clearOwnerStale,
      StateStore.markOwnerStale, StateStore.get.
    pose proof (flipStale_get now owner true (StateStore.entries s) path) as H1.
    destruct (StateStore.flipStale now owner true (StateStore.entries s)) as [es ds].
    simpl in *.
    pose proof (flipStale_get later owner false es path) as H2.
    destruct (StateStore.flipStale later owner false es) as [es' ds']. simpl in *.
    rewrite H2, H1. destruct (JsMap.get (StateStore.entries s) path) as [e|];
      [|reflexivity].
    simpl. destruct (String.eqb (StateStore.Entry.owner e) owner) eqn:Eo; simpl;
      [|now rewrite Eo].
    destruct (StateStore.Entry.stale e) eqn:Es; simpl; rewrite Eo; simpl.
    + rewrite Es. reflexivity.
    + f_equal. f_equal. lia.
  - unfold marked, StateStore.clearOwnerStale, StateStore.markOwnerStale.
    pose proof (flipStale_deltas later owner false) as Hd.
    assert (Hcount : forall es,
      length (filter (fun kv =>
                        String.eqb (StateStore.Entry.owner (snd kv)) owner
                        && negb (Bool.eqb (StateStore.Entry.stale (snd kv)) false))
                (fst (StateStore.flipStale now owner true es)))
      = length (filter (fun kv => String.eqb (StateStore.Entry.owner (snd kv)) owner) es)).
    { induction es as [|[p e] es IH]; simpl; [reflexivity|].
      destruct (StateStore.flipStale now owner true es) as [rest deltas]. simpl in IH.
      destruct (String.eqb (StateStore.Entry.owner e) owner) eqn:Eo; simpl.
      - destruct (StateStore.Entry.stale e) eqn:Es; simpl; rewrite Eo; simpl;
          [rewrite Es|]; simpl; now rewrite IH.
      - rewrite Eo. simpl. exact IH. }
    specialize (Hcount (StateStore.entries s)).
    destruct (StateStore.flipStale now owner true (StateStore.entries s)) as [es ds].
    simpl in *. specialize (Hd es).
    destruct (StateStore.flipStale later owner false es) as [es' ds']. simpl in *.
    rewrite Hd, length_map. exact Hcount.
Qed.

(** *** Bulk writes *)

Lemma setBulk_app (now : Z) (owner : string) (before after : list StateStore.Update.t) :
  forall s,
    StateStore.setBulk now s (before ++ after) owner
    = let '(s1, deltas1, thrown1) := StateStore.setBulk now s before owner in
      match thrown1 with
      | Some e => (s1, deltas1, Some e)
      | None =>
          let '(s2, deltas2, thrown2) := StateStore.setBulk now s1 after owner in
          (s2, (deltas1 ++ deltas2)%list, thrown2)
      end.
Proof.
  induction before as [|u before IH]; intros s; simpl.
  - now destruct (StateStore.setBulk now s after owner) as [[s2 deltas2] thrown2].
  - destruct (StateStore.set now s _ _ _) as [s0 result].
    destruct result as [e| |delta]; [reflexivity | apply IH |].
    rewrite IH.
    destruct (StateStore.setBulk now s0 before owner) as [[s1 deltas1] [e|]];
      [reflexivity|].
    now destruct (StateStore.setBulk now s1 after owner) as [[s2 deltas2] thrown2].
Qed.

(** X6. [setBulk] is not atomic. When the updates before one have all been
    accepted and that one names a path held by another owner than its
    writer ([update.owner ?? owner]), the call throws that ownership error,
    the updates after it are not looked at, and the store is left as the
    updates before it made it, their deltas already notified. *)
Theorem X6_setBulk_stops_at_conflict (now : Z) (s s1 : StateStore.t) (owner : string)
  (before after : list StateStore.Update.t) (update : StateStore.Update.t)
  (deltas : list StateStore.Delta.t) (e : StateStore.Entry.t) :
  let writer := match StateStore.Update.owner update with
                | Some o => o
                | None => owner
                end in
  StateStore.setBulk now s before owner = (s1, deltas, None) ->
  StateStore.get s1 (StateStore.Update.path update) = Some e ->
  StateStore.Entry.owner e <> writer ->
  StateStore.setBulk now s (before ++ update :: after) owner
  = (s1, deltas,
     Some (StateStore.OwnershipError.mk (StateStore.Update.path update)
             (StateStore.Entry.owner e) writer)).
Proof.
  intros writer Hbefore Hget Hne. rewrite setBulk_app, Hbefore. simpl.
  fold writer.
  rewrite (set_by_other_owner now s1 _ (StateStore.Update.value update) writer e Hget Hne).
  now rewrite app_nil_r.
Qed.

Lemma X6_setBulk_stops_at_conflict_witness :
  let store := MessageRouter.stateStore Scenario.routerWithEntry in
  let first := StateStore.Update.mk "x.z" (Js.JNumber 1) None None in
  let second := StateStore.Update.mk "x.y" (Js.JNumber 2) None None in
  let third := StateStore.Update.mk "x.w" (Js.JNumber 3) None None in
  StateStore.get (fst (fst (StateStore.setBulk 2000 store [first] "app.logger"))) "x.y"
  = Some (StateStore.Entry.mk (Js.JNumber 1) "app.panel" 1 false 1000 "x.y")
  /\ "app.panel" <> "app.logger"
  /\ StateStore.setBulk 2000 store [first; second; third] "app.logger"
     = (fst (fst (StateStore.setBulk 2000 store [first] "app.logger")),
        snd (fst (StateStore.setBulk 2000 store [first] "app.logger")),
        Some (StateStore.OwnershipError.mk "x.y" "app.panel" "app.logger")).
Proof.
  intros store first second third.
  split; [reflexivity|]. split; [discriminate|].
  refine (X6_setBulk_stops_at_conflict 2000 store _ "app.logger" [first] [third] second _
            (StateStore.Entry.mk (Js.JNumber 1) "app.panel" 1 false 1000 "x.y")
            eq_refl eq_refl _).
  discriminate.
Defined.

(** *** Removing an owner's entries *)

Lemma removeOwned_entries (now : Z) (owner : string) (es : JsMap.t StateStore.Entry.t) :
  fst (StateStore.removeOwned now owner es)
  = filter (fun kv => negb (String.eqb (StateStore.Entry.owner (snd kv)) owner)) es.
Proof.
  induction es as [|[p e] es IH]; simpl; [reflexivity|].
  destruct (StateStore.removeOwned now owner es) as [rest deltas]. simpl in IH.
  destruct (String.eqb (StateStore.Entry.owner e) owner); simpl; now rewrite IH.
Qed.

Lemma removeOwned_deltas (now : Z) (owner : string) (es : JsMap.t StateStore.Entry.t) :
  snd (StateStore.removeOwned now owner es)
  = map (fun kv => StateStore.removalDelta now (fst kv) (snd kv))
        (filter (fun kv => String.eqb (StateStore.Entry.owner (snd kv)) owner) es).
Proof.
  induction es as [|[p e] es IH]; simpl; [reflexivity|].
  destruct (StateStore.removeOwned now owner es) as [rest deltas]. simpl in IH.
  destruct (String.eqb (StateStore.Entry.owner e) owner); simpl; now rewrite IH.
Qed.

(** [getEntriesByOwner] on a map with unique keys is the entries of the
    owner, in the order of the store. *)
Lemma getEntriesByOwner_filter (s : StateStore.t) (owner : string) :
  JsMap.unique (StateStore.entries s) ->
  StateStore.getEntriesByOwner s owner
  = filter (fun kv => String.eqb (StateStore.Entry.owner (snd kv)) owner)
           (StateStore.entries s).
Proof.
  unfold StateStore.getEntriesByOwner, JsMap.empty.
  set (f := fun kv : string * StateStore.Entry.t =>
              String.eqb (StateStore.Entry.owner (snd kv)) owner).
  assert (H : forall es acc,
             NoDup (JsMap.keys acc ++ JsMap.keys es) ->
             fold_left (fun results kv =>
                          if String.eqb (StateStore.Entry.owner (snd kv)) owner
                          then JsMap.set results (fst kv) (snd kv)
                          else results) es acc
             = (acc ++ filter f es)%list).
  { induction es as [|[p e] es IH]; intros acc Hu; simpl; [now rewrite app_nil_r|].
    unfold f at 1. simpl.
    destruct (String.eqb (StateStore.Entry.owner e) owner).
    - assert (Hfresh : JsMap.get acc p = None).
      { apply JsMap_get_none_keys. intros Hin.
        apply NoDup_remove_2 in Hu. apply Hu. apply in_or_app. now left. }
      rewrite IH.
      + rewrite (JsMap_set_fresh _ _ _ Hfresh), <- app_assoc. reflexivity.
      + rewrite (JsMap_set_fresh _ _ _ Hfresh). unfold JsMap.keys in *.
        rewrite map_app, <- app_assoc. exact Hu.
    - apply IH. unfold JsMap.keys in *. simpl in Hu.
      now apply NoDup_remove_1 in Hu. }
  intros Hu. now rewrite H.
Qed.

Lemma owned_after_removal (owner : string) (es : JsMap.t StateStore.Entry.t) :
  filter (fun kv => String.eqb (StateStore.Entry.owner (snd kv)) owner)
    (filter (fun kv => negb (String.eqb (StateStore.Entry.owner (snd kv)) owner)) es)
  = [].
Proof.
  induction es as [|[p e] es IH]; simpl; [reflexivity|].
  destruct (String.eqb (StateStore.Entry.owner e) owner) eqn:E; simpl;
    [|rewrite E]; exact IH.
Qed.

Lemma others_after_removal (owner other : string) (es : JsMap.t StateStore.Entry.t) :
  other <> owner ->
  filter (fun kv => String.eqb (StateStore.Entry.owner (snd kv)) other)
    (filter (fun kv => negb (String.eqb (StateStore.Entry.owner (snd kv)) owner)) es)
  = filter (fun kv => String.eqb (StateStore.Entry.owner (snd kv)) other) es.
Proof.
  intros Hne. induction es as [|[p e] es IH]; simpl; [reflexivity|].
  destruct (String.eqb (StateStore.Entry.owner e) owner) eqn:E; simpl.
  - apply String.eqb_eq in E.
    destruct (String.eqb (StateStore.Entry.owner e) other) eqn:E'; [|exact IH].
    apply String.eqb_eq in E'. congruence.
  - destruct (String.eqb (StateStore.Entry.owner e) other); [f_equal|]; exact IH.
Qed.

Lemma removal_sizes (owner : string) (es : JsMap.t StateStore.Entry.t) :
  length (filter (fun kv => negb (String.eqb (StateStore.Entry.owner (snd kv)) owner)) es)
  + length (filter (fun kv => String.eqb (StateStore.Entry.owner (snd kv)) owner) es)
  = length es.
Proof.
  induction es as [|[p e] es IH]; simpl; [reflexivity|].
  destruct (String.eqb (StateStore.Entry.owner e) owner); simpl; lia.
Qed.

(** X7. [deleteByOwner(owner)] removes every entry of the owner and no
    other: afterwards no path holds an entry of that owner and
    [getEntriesByOwner(owner)] is empty, while every entry of another owner
    is found as before and [getEntriesByOwner] of another owner gives what
    it gave. One delta, with value [null], is notified per removed entry in
    the order of the store, and the global version goes up by one for each
    of them. *)
Theorem X7_deleteByOwner (now : Z) (s : StateStore.t) (owner : string) :
  JsMap.unique (StateStore.entries s) ->
  let s' := fst (StateStore.deleteByOwner now s owner) in
  let deltas := snd (StateStore.deleteByOwner now s owner) in
  let owned := StateStore.getEntriesByOwner s owner in
  (forall path,
      StateStore.get s' path
      = match StateStore.get s path with
        | Some e => if String.eqb (StateStore.Entry.owner e) owner then None else Some e
        | None => None
        end)
  /\ StateStore.getEntriesByOwner s' owner = []
  /\ (forall other, other <> owner ->
        StateStore.getEntriesByOwner s' other = StateStore.getEntriesByOwner s other)
  /\ deltas = map (fun kv => StateStore.removalDelta now (fst kv) (snd kv)) owned
  /\ StateStore.version s' = StateStore.version s + JsMap.size owned
  /\ StateStore.size s' + JsMap.size owned = StateStore.size s.
Proof.
  intros Hu s' deltas owned.
  set (keep := fun kv : string * StateStore.Entry.t =>
                 negb (String.eqb (StateStore.Entry.owner (snd kv)) owner)).
  assert (Hs' : StateStore.entries s' = filter keep (StateStore.entries s)).
  { unfold s', StateStore.deleteByOwner.
    pose proof (removeOwned_entries now owner (StateStore.entries s)) as H.
    now destruct (StateStore.removeOwned now owner (StateStore.entries s)). }
  assert (Hdeltas : deltas
          = map (fun kv => StateStore.removalDelta now (fst kv) (snd kv)) owned).
  { unfold deltas, owned, StateStore.deleteByOwner.
    rewrite (getEntriesByOwner_filter s owner Hu).
    pose proof (removeOwned_deltas now owner (StateStore.entries s)) as H.
    now destruct (StateStore.removeOwned now owner (StateStore.entries s)). }
  assert (Hu' : JsMap.unique (StateStore.entries s')).
  { rewrite Hs'. now apply JsMap_unique_filter. }
  split.
  { intros path. unfold StateStore.get. rewrite Hs', (JsMap_get_filter keep _ path Hu).
    destruct (JsMap.get (StateStore.entries s) path) as [e|]; [|reflexivity].
    unfold keep. simpl. now destruct (String.eqb (StateStore.Entry.owner e) owner). }
  split.
  { rewrite (getEntriesByOwner_filter s' owner Hu'), Hs'. apply owned_after_removal. }
  split.
  { intros other Hne.
    rewrite (getEntriesByOwner_filter s' other Hu'), (getEntriesByOwner_filter s other Hu), Hs'.
    now apply others_after_removal. }
  split; [exact Hdeltas|].
  assert (Hlen : length deltas = JsMap.size owned).
  { rewrite Hdeltas. apply length_map. }
  split.
  { rewrite <- Hlen. unfold s', deltas, StateStore.deleteByOwner, StateStore.version.
    now destruct (StateStore.removeOwned now owner (StateStore.entries s)). }
  unfold StateStore.size, JsMap.size. rewrite Hs'. unfold owned.
  rewrite (getEntriesByOwner_filter s owner Hu). apply removal_sizes.
Qed.

Lemma X7_deleteByOwner_witness :
  let store :=
    StateStore.applyAll (StateStore.create "hub.core")
      [StateStore.OpSet 1 "cam.1.tally" (Js.JBool true) "app.a";
       StateStore.OpSet 2 "mixer.gain" (Js.JNumber 3) "app.b";
       StateStore.OpSet 3 "cam.2.tally" (Js.JBool false) "app.a"] in
  let s' := fst (StateStore.deleteByOwner 9 store "app.a") in
  JsMap.unique (StateStore.entries store)
  /\ StateStore.getEntriesByOwner s' "app.a" = []
  /\ StateStore.version s' = StateStore.version store + 2
  /\ StateStore.size s' + 2 = StateStore.size store.
Proof.
  intros store s'.
  assert (Hu : JsMap.unique (StateStore.entries store)).
  { repeat constructor; simpl; intuition discriminate. }
  split; [exact Hu|].
  pose proof (X7_deleteByOwner 9 store "app.a" Hu) as (_ & Hnone & _ & _ & Hv & Hsize).
  split; [exact Hnone|]. split; [exact Hv | exact Hsize].
Defined.

(** *** The global version counts the changes *)

Lemma store_eta (s : StateStore.t) :
  StateStore.mk (StateStore.entries s) (StateStore.globalVersion s)
    (StateStore.sequenceCounter s) (StateStore.source s) = s.
Proof. now destruct s. Qed.

Lemma set_version (now : Z) (s : StateStore.t) (path : string) (value : Js.Value)
  (owner : string) :
  let s' := fst (StateStore.set now s path value owner) in
  StateStore.version s <= StateStore.version s'
  /\ (StateStore.version s' = StateStore.version s -> s' = s).
Proof.
  unfold StateStore.set, StateStore.version.
  destruct (JsMap.get (StateStore.entries s) path) as [e|].
  - destruct (negb _); simpl; [split; auto|].
    destruct (negb _); simpl; split; auto; lia.
  - simpl. split; lia.
Qed.

Lemma setBulk_version (now : Z) (owner : string) (updates : list StateStore.Update.t) :
  forall s,
    let s' := fst (fst (StateStore.setBulk now s updates owner)) in
    StateStore.version s <= StateStore.version s'
    /\ (StateStore.version s' = StateStore.version s -> s' = s).
Proof.
  induction updates as [|u updates IH]; intros s; simpl; [split; auto|].
  pose proof (set_version now s (StateStore.Update.path u) (StateStore.Update.value u)
                match StateStore.Update.owner u with Some o => o | None => owner end)
    as [Hle Heq].
  destruct (StateStore.set now s _ _ _) as [s0 result]. simpl in Hle, Heq.
  destruct result as [e| |delta]; simpl.
  - split; assumption.
  - destruct (IH s0) as [Hle' Heq']. split; [lia|].
    intros H. assert (Hs0 : StateStore.version s0 = StateStore.version s) by lia.
    rewrite Heq'; [now apply Heq | lia].
  - destruct (IH s0) as [Hle' Heq'].
    destruct (StateStore.setBulk now s0 updates owner) as [[s1 deltas] thrown].
    simpl in *. split; [lia|].
    intros H. assert (Hs0 : StateStore.version s0 = StateStore.version s) by lia.
    rewrite Heq'; [now apply Heq | lia].
Qed.

Lemma removeOwned_nothing (now : Z) (owner : string) (es : JsMap.t StateStore.Entry.t) :
  snd (StateStore.removeOwned now owner es) = [] ->
  fst (StateStore.removeOwned now owner es) = es.
Proof.
  induction es as [|[p e] es IH]; simpl; [reflexivity|].
  destruct (StateStore.removeOwned now owner es) as [rest deltas]. simpl in IH.
  destruct (String.eqb (StateStore.Entry.owner e) owner); simpl; [discriminate|].
  intros H. now rewrite IH.
Qed.

(** X8. The global version is a change counter. No operation of the store
    ([set], [setBulk], [delete], [markOwnerStale], [clearOwnerStale],
    [deleteByOwner], [clear]) ever lowers it, and an operation after which
    it reads the same has left the whole store as it was; [clear] always
    raises it, on an empty store too. *)
Theorem X8_version_counts_changes (s : StateStore.t) (op : StateStore.Op) :
  StateStore.version s <= StateStore.version (StateStore.apply s op)
  /\ (StateStore.version (StateStore.apply s op) = StateStore.version s ->
      StateStore.apply s op = s)
  /\ (forall now, StateStore.version (StateStore.apply s (StateStore.OpClear now))
                  = S (StateStore.version s)).
Proof.
  split; [|split; [|reflexivity]].
  - destruct op as [now path value owner|now updates owner|now path owner|now owner
                   |now owner|now owner|now]; simpl.
    + apply set_version.
    + apply setBulk_version.
    + unfold StateStore.delete, StateStore.version.
      destruct (JsMap.get (StateStore.entries s) path) as [e|]; [|reflexivity].
      destruct (negb _); simpl; lia.
    + unfold StateStore.markOwnerStale, StateStore.version.
      destruct (StateStore.flipStale now owner true (StateStore.entries s)). simpl. lia.
    + unfold StateStore.clearOwnerStale, StateStore.version.
      destruct (StateStore.flipStale now owner false (StateStore.entries s)). simpl. lia.
    + unfold StateStore.deleteByOwner, StateStore.version.
      destruct (StateStore.removeOwned now owner (StateStore.entries s)). simpl. lia.
    + unfold StateStore.version. simpl. lia.
  - destruct op as [now path value owner|now updates owner|now path owner|now owner
                   |now owner|now owner|now]; simpl.
    + apply set_version.
    + apply setBulk_version.
    + unfold StateStore.delete, StateStore.version.
      destruct (JsMap.get (StateStore.entries s) path) as [e|]; [|reflexivity].
      destruct (negb _); simpl; [reflexivity | lia].
    + unfold StateStore.markOwnerStale, StateStore.version.
      pose proof (flipStale_nothing now owner true (StateStore.entries s)) as H.
      destruct (StateStore.flipStale now owner true (StateStore.entries s)) as [es ds].
      simpl in *. intros Hv. destruct ds; [|simpl in Hv; lia].
      rewrite H by reflexivity. simpl. rewrite Nat.add_0_r. apply store_eta.
    + unfold StateStore.clearOwnerStale, StateStore.version.
      pose proof (flipStale_nothing now owner false (StateStore.entries s)) as H.
      destruct (StateStore.flipStale now owner false (StateStore.entries s)) as [es ds].
      simpl in *. intros Hv. destruct ds; [|simpl in Hv; lia].
      rewrite H by reflexivity. simpl. rewrite Nat.add_0_r. apply store_eta.
    + unfold StateStore.deleteByOwner, StateStore.version.
      pose proof (removeOwned_nothing now owner (StateStore.entries s)) as H.
      destruct (StateStore.removeOwned now owner (StateStore.entries s)) as [es ds].
      simpl in *. intros Hv. destruct ds; [|simpl in Hv; lia].
      rewrite H by reflexivity. simpl. rewrite Nat.add_0_r. apply store_eta.
    + unfold StateStore.version. simpl. lia.
Qed.

(** *** What every store keeps *)

Lemma consistent_weaken (g g' : nat) (es : JsMap.t StateStore.Entry.t) :
  g <= g' ->
  Forall (fun kv => StateStore.Entry.path (snd kv) = fst kv
                    /\ 1 <= StateStore.Entry.version (snd kv) <= g) es ->
  Forall (fun kv => StateStore.Entry.path (snd kv) = fst kv
                    /\ 1 <= StateStore.Entry.version (snd kv) <= g') es.
Proof. intros Hle. apply Forall_impl. intros kv [Hp Hv]. split; [exact Hp | lia]. Qed.

Lemma set_consistent (now : Z) (s : StateStore.t) (path : string) (value : Js.Value)
  (owner : string) :
  StateStore.consistent s ->
  StateStore.consistent (fst (StateStore.set now s path value owner)).
Proof.
  intros [Hu Hall]. unfold StateStore.set.
  destruct (JsMap.get (StateStore.entries s) path) as [e|] eqn:Hget.
  - destruct (negb _); simpl; [now split|].
    destruct (negb _); simpl; [now split|].
    split; simpl; [now apply JsMap_unique_set|].
    apply JsMap_Forall_set;
      [apply (consistent_weaken (StateStore.globalVersion s)); [lia | exact Hall]|].
    simpl. split; [reflexivity|].
    apply JsMap_get_in in Hget. rewrite Forall_forall in Hall.
    specialize (Hall _ Hget). simpl in Hall. lia.
  - split; simpl; [now apply JsMap_unique_set|].
    apply JsMap_Forall_set;
      [apply (consistent_weaken (StateStore.globalVersion s)); [lia | exact Hall]|].
    simpl. split; [reflexivity | lia].
Qed.

Lemma setBulk_consistent (now : Z) (owner : string) (updates : list StateStore.Update.t) :
  forall s,
    StateStore.consistent s ->
    StateStore.consistent (fst (fst (StateStore.setBulk now s updates owner))).
Proof.
  induction updates as [|u updates IH]; intros s Hs; simpl; [exact Hs|].
  pose proof (set_consistent now s (StateStore.Update.path u) (StateStore.Update.value u)
                match StateStore.Update.owner u with Some o => o | None => owner end Hs)
    as Hstep.
  destruct (StateStore.set now s _ _ _) as [s0 result]. simpl in Hstep.
  destruct result as [e| |delta]; simpl; [exact Hstep | now apply IH |].
  specialize (IH s0 Hstep).
  now destruct (StateStore.setBulk now s0 updates owner) as [[s1 deltas] thrown].
Qed.

Lemma flipStale_consistent (now : Z) (owner : string) (flag : bool) (g : nat)
  (es : JsMap.t StateStore.Entry.t) :
  Forall (fun kv => StateStore.Entry.path (snd kv) = fst kv
                    /\ 1 <= StateStore.Entry.version (snd kv) <= g) es ->
  Forall (fun kv => StateStore.Entry.path (snd kv) = fst kv
                    /\ 1 <= StateStore.Entry.version (snd kv)
                       <= g + length (snd (StateStore.flipStale now owner flag es)))
         (fst (StateStore.flipStale now owner flag es)).
Proof.
  induction es as [|[p e] es IH]; simpl; intros Hall; [constructor|].
  inversion Hall as [|? ? [Hp Hv] Hrest]; subst. specialize (IH Hrest). simpl in *.
  destruct (StateStore.flipStale now owner flag es) as [rest deltas]. simpl in IH.
  destruct (_ && _); simpl; constructor; simpl.
  - split; [exact Hp | lia].
  - revert IH. apply consistent_weaken. lia.
  - split; [exact Hp | lia].
  - exact IH.
Qed.

Lemma flipStale_store_consistent (now : Z) (owner : string) (flag : bool)
  (s : StateStore.t) :
  StateStore.consistent s ->
  let '(es, deltas) := StateStore.flipStale now owner flag (StateStore.entries s) in
  StateStore.consistent
    (StateStore.mk es (StateStore.globalVersion s + length deltas)
       (StateStore.sequenceCounter s) (StateStore.source s)).
Proof.
  intros [Hu Hall].
  pose proof (flipStale_keys now owner flag (StateStore.entries s)) as Hkeys.
  pose proof (flipStale_consistent now owner flag _ _ Hall) as Hkept.
  destruct (StateStore.flipStale now owner flag (StateStore.entries s)) as [es ds].
  simpl in *. split; simpl; [|exact Hkept].
  unfold JsMap.unique. now rewrite Hkeys.
Qed.

Lemma apply_consistent (s : StateStore.t) (op : StateStore.Op) :
  StateStore.consistent s -> StateStore.consistent (StateStore.apply s op).
Proof.
  intros Hs.
  destruct op as [now path value owner|now updates owner|now path owner|now owner
                 |now owner|now owner|now]; simpl.
  - now apply set_consistent.
  - now apply setBulk_consistent.
  - destruct Hs as [Hu Hall]. unfold StateStore.delete.
    destruct (JsMap.get (StateStore.entries s) path) as [e|]; [|now split].
    destruct (negb _); simpl; [now split|].
    split; simpl; [now apply JsMap_unique_delete|].
    apply JsMap_Forall_delete. revert Hall. apply consistent_weaken. lia.
  - pose proof (flipStale_store_consistent now owner true s Hs) as H.
    unfold StateStore.markOwnerStale.
    now destruct (StateStore.flipStale now owner true (StateStore.entries s)).
  - pose proof (flipStale_store_consistent now owner false s Hs) as H.
    unfold StateStore.clearOwnerStale.
    now destruct (StateStore.flipStale now owner false (StateStore.entries s)).
  - destruct Hs as [Hu Hall]. unfold StateStore.deleteByOwner.
    pose proof (removeOwned_entries now owner (StateStore.entries s)) as He.
    destruct (StateStore.removeOwned now owner (StateStore.entries s)) as [es ds].
    simpl in He. subst es. split; simpl; [now apply JsMap_unique_filter|].
    apply (consistent_weaken (StateStore.globalVersion s)); [lia|].
    apply Forall_forall. intros kv Hin. apply filter_In in Hin as [Hin _].
    rewrite Forall_forall in Hall. now apply Hall.
  - split; simpl; constructor.
Qed.

Lemma applyAll_consistent (ops : list StateStore.Op) :
  forall s, StateStore.consistent s -> StateStore.consistent (StateStore.applyAll s ops).
Proof.
  unfold StateStore.applyAll.
  induction ops as [|op ops IH]; intros s Hs; simpl; [exact Hs|].
  apply IH. now apply apply_consistent.
Qed.

(** X9. Whatever sequence of [set], [setBulk], [delete], [markOwnerStale],
    [clearOwnerStale], [deleteByOwner] and [clear] a new store has gone
    through, every entry it holds records the path it is stored under, and
    the entry's version lies between [1] and the store's global version: a
    reader can bound every entry version by [store.version]. *)
Theorem X9_store_consistent (source : string) (ops : list StateStore.Op) :
  let s := StateStore.applyAll (StateStore.create source) ops in
  forall path e,
    StateStore.get s path = Some e ->
    StateStore.Entry.path e = path
    /\ 1 <= StateStore.Entry.version e <= StateStore.version s.
Proof.
  intros s path e Hget.
  assert (Hs : StateStore.consistent s).
  { apply applyAll_consistent. split; simpl; constructor. }
  destruct Hs as [_ Hall]. rewrite Forall_forall in Hall.
  apply JsMap_get_in in Hget. exact (Hall _ Hget).
Qed.

Lemma X9_store_consistent_witness :
  let ops := [StateStore.OpSet 1000 "a.b" (Js.JString "x") "app.one";
              StateStore.OpMarkOwnerStale 2000 "app.one"] in
  let s := StateStore.applyAll (StateStore.create "hub.core") ops in
  exists e,
    StateStore.get s "a.b" = Some e
    /\ StateStore.Entry.path e = "a.b"
    /\ 1 <= StateStore.Entry.version e <= StateStore.version s.
Proof.
  eexists. split; [reflexivity|].
  exact (X9_store_consistent "hub.core"
           [StateStore.OpSet 1000 "a.b" (Js.JString "x") "app.one";
            StateStore.OpMarkOwnerStale 2000 "app.one"]
           "a.b" _ eq_refl).
Defined.

(** *** Entries by pattern *)

Lemma fold_get_set (es : JsMap.t StateStore.Entry.t) :
  forall (chosen acc : JsMap.t StateStore.Entry.t),
    (forall kv, In kv chosen -> JsMap.get es (fst kv) = Some (snd kv)) ->
    NoDup (JsMap.keys acc ++ JsMap.keys chosen) ->
    fold_left (fun results path =>
                 match JsMap.get es path with
                 | Some e => JsMap.set results path e
                 | None => results
                 end)
              (JsMap.keys chosen) acc
    = (acc ++ chosen)%list.
Proof.
  induction chosen as [|[p e] chosen IH]; intros acc Hget Hu; simpl;
    [now rewrite app_nil_r|].
  pose proof (Hget (p, e) (or_introl eq_refl)) as Hp. simpl in Hp. rewrite Hp.
  assert (Hfresh : JsMap.get acc p = None).
  { apply JsMap_get_none_keys. intros Hin. simpl in Hu.
    apply NoDup_remove_2 in Hu. apply Hu. apply in_or_app. now left. }
  rewrite (JsMap_set_fresh _ _ _ Hfresh). rewrite IH.
  - now rewrite <- app_assoc.
  - intros kv Hin. apply Hget. now right.
  - unfold JsMap.keys in *. rewrite map_app, <- app_assoc. exact Hu.
Qed.

Lemma filter_keys {V : Type} (g : string -> bool) (m : JsMap.t V) :
  filter g (JsMap.keys m) = JsMap.keys (filter (fun kv => g (fst kv)) m).
Proof.
  unfold JsMap.keys. induction m as [|[k v] m IH]; simpl; [reflexivity|].
  destruct (g k); simpl; now rewrite IH.
Qed.

(** X10. Reading by pattern. [getMatchingPaths(pattern)] is the paths of the
    store, in its order, that [pathMatchesPattern] accepts; the entries of
    [getMatchingEntries(pattern)] and of [getSnapshotForPattern(pattern)]
    are the store's entries under those paths, in the same order, so that
    looking a path up in the snapshot finds the store's entry when the path
    matches and nothing when it does not; the snapshot carries the store's
    global version. *)
Theorem X10_entries_by_pattern (now : Z) (s : StateStore.t) (pattern : string) :
  JsMap.unique (StateStore.entries s) ->
  let snapshot := StateStore.getSnapshotForPattern now s pattern in
  StateStore.getMatchingPaths s pattern
  = filter (fun path => Pattern.pathMatchesPattern path pattern)
           (JsMap.keys (StateStore.entries s))
  /\ StateStore.Snapshot.entries snapshot
     = filter (fun kv => Pattern.pathMatchesPattern (fst kv) pattern) (StateStore.entries s)
  /\ (forall path,
        JsMap.get (StateStore.Snapshot.entries snapshot) path
        = if Pattern.pathMatchesPattern path pattern then StateStore.get s path else None)
  /\ StateStore.Snapshot.version snapshot = StateStore.version s.
Proof.
  intros Hu snapshot.
  assert (Hpaths : StateStore.getMatchingPaths s pattern
          = filter (fun path => Pattern.pathMatchesPattern path pattern)
                   (JsMap.keys (StateStore.entries s))).
  { unfold StateStore.getMatchingPaths, Pattern.pathMatchesPattern.
    now rewrite patternToRegex_is_translate. }
  assert (Hentries : StateStore.getMatchingEntries s pattern
          = filter (fun kv => Pattern.pathMatchesPattern (fst kv) pattern)
                   (StateStore.entries s)).
  { unfold StateStore.getMatchingEntries. rewrite Hpaths, filter_keys.
    rewrite fold_get_set; [reflexivity| |].
    - intros [p e] Hin. apply filter_In in Hin as [Hin _]. simpl.
      now apply JsMap_in_get.
    - simpl. now apply JsMap_unique_filter. }
  split; [exact Hpaths|]. split; [exact Hentries|]. split; [|reflexivity].
  intros path. simpl. rewrite Hentries.
  rewrite (JsMap_get_filter _ _ path Hu). unfold StateStore.get. simpl.
  destruct (JsMap.get (StateStore.entries s) path);
    now destruct (Pattern.pathMatchesPattern path pattern).
Qed.

Lemma X10_entries_by_pattern_witness :
  let store :=
    StateStore.applyAll (StateStore.create "hub.core")
      [StateStore.OpSet 1 "cam.1.tally" (Js.JBool true) "app.a";
       StateStore.OpSet 2 "mixer.gain" (Js.JNumber 3) "app.b";
       StateStore.OpSet 3 "cam.2.tally" (Js.JBool false) "app.a"] in
  JsMap.unique (StateStore.entries store)
  /\ StateStore.getMatchingPaths store "cam.*.tally"
     = filter (fun path => Pattern.pathMatchesPattern path "cam.*.tally")
              (JsMap.keys (StateStore.entries store)).
Proof.
  intros store.
  assert (Hu : JsMap.unique (StateStore.entries store)).
  { repeat constructor; simpl; intuition discriminate. }
  split; [exact Hu|].
  exact (proj1 (X10_entries_by_pattern 0 store "cam.*.tally" Hu)).
Defined.


(** ** The subscription manager: its two indexes *)

Lemma JsMap_in_set {V : Type} (m : JsMap.t V) (k : string) (v : V) (kv : string * V) :
  JsMap.unique m -> In kv (JsMap.set m k v) ->
  kv = (k, v) \/ (In kv m /\ fst kv <> k).
Proof.
  unfold JsMap.unique, JsMap.keys.
  induction m as [|[k' v'] m IH]; simpl; intros Hu Hin.
  - destruct Hin as [<-|[]]. now left.
  - inversion Hu as [|? ? Hnot Hrest]; subst.
    destruct (String.eqb k' k) eqn:E.
    + apply String.eqb_eq in E. subst k'. destruct Hin as [<-|Hin]; [now left|].
      right. split; [now right|]. intros Heq. apply Hnot. rewrite <- Heq.
      now apply in_map.
    + apply String.eqb_neq in E. destruct Hin as [<-|Hin].
      * right. split; [now left | exact E].
      * destruct (IH Hrest Hin) as [->|[Hin' Hne]]; [now left|].
        right. split; [now right | exact Hne].
Qed.

Lemma JsMap_in_delete {V : Type} (m : JsMap.t V) (k : string) (kv : string * V) :
  JsMap.unique m -> In kv (JsMap.delete m k) -> In kv m /\ fst kv <> k.
Proof.
  unfold JsMap.unique, JsMap.keys.
  induction m as [|[k' v'] m IH]; simpl; intros Hu Hin; [contradiction|].
  inversion Hu as [|? ? Hnot Hrest]; subst.
  destruct (String.eqb k' k) eqn:E.
  - apply String.eqb_eq in E. subst k'. split; [now right|].
    intros Heq. apply Hnot. rewrite <- Heq. now apply in_map.
  - apply String.eqb_neq in E. destruct Hin as [<-|Hin].
    + split; [now left | exact E].
    + destruct (IH Hrest Hin) as [Hin' Hne]. split; [now right | exact Hne].
Qed.

Lemma JsMap_get_set {V : Type} (m : JsMap.t V) (k k' : string) (v : V) :
  JsMap.get (JsMap.set m k v) k'
  = if String.eqb k k' then Some v else JsMap.get m k'.
Proof.
  destruct (String.eqb k k') eqn:E.
  - apply String.eqb_eq in E. subst. apply JsMap_get_set_same.
  - apply String.eqb_neq in E. now apply JsMap_get_set_other.
Qed.

Lemma JsMap_get_delete {V : Type} (m : JsMap.t V) (k k' : string) :
  JsMap.unique m ->
  JsMap.get (JsMap.delete m k) k'
  = if String.eqb k k' then None else JsMap.get m k'.
Proof.
  intros Hu. destruct (String.eqb k k') eqn:E.
  - apply String.eqb_eq in E. subst. now apply JsMap_get_delete_same.
  - apply String.eqb_neq in E. now apply JsMap_get_delete_other.
Qed.

(** Deleting a list of keys one after the other. *)
Lemma JsMap_unique_delete_all {V : Type} (ks : list string) :
  forall m : JsMap.t V,
    JsMap.unique m -> JsMap.unique (fold_left (fun m k => JsMap.delete m k) ks m).
Proof.
  induction ks as [|k ks IH]; intros m Hu; simpl; [exact Hu|].
  apply IH. now apply JsMap_unique_delete.
Qed.

Lemma JsMap_get_delete_all {V : Type} (ks : list string) (k' : string) :
  forall m : JsMap.t V,
    JsMap.unique m ->
    JsMap.get (fold_left (fun m k => JsMap.delete m k) ks m) k'
    = if existsb (String.eqb k') ks then None else JsMap.get m k'.
Proof.
  induction ks as [|k ks IH]; intros m Hu; simpl; [reflexivity|].
  rewrite IH by now apply JsMap_unique_delete.
  rewrite (JsMap_get_delete _ k k' Hu), (String.eqb_sym k' k).
  destruct (String.eqb k k'); simpl; [|reflexivity].
  now destruct (existsb (String.eqb k') ks).
Qed.

Lemma JsMap_in_delete_all {V : Type} (ks : list string) (kv : string * V) :
  forall m : JsMap.t V,
    JsMap.unique m ->
    In kv (fold_left (fun m k => JsMap.delete m k) ks m) ->
    In kv m /\ ~ In (fst kv) ks.
Proof.
  induction ks as [|k ks IH]; intros m Hu Hin; simpl in *; [tauto|].
  apply IH in Hin; [|now apply JsMap_unique_delete]. destruct Hin as [Hin Hnot].
  apply (JsMap_in_delete _ _ _ Hu) in Hin as [Hin Hne].
  split; [exact Hin|]. intros [Heq|H]; [congruence | contradiction].
Qed.

Lemma existsb_eqb_In (x : string) (xs : list string) :
  existsb (String.eqb x) xs = true <-> In x xs.
Proof.
  rewrite existsb_exists. split.
  - intros (y & Hin & Heq). apply String.eqb_eq in Heq. now subst.
  - intros Hin. exists x. split; [exact Hin | apply String.eqb_refl].
Qed.

Lemma setAdd_fresh (xs : list string) (x : string) :
  ~ In x xs -> SubscriptionManager.setAdd xs x = (xs ++ [x])%list.
Proof.
  intros Hnot. unfold SubscriptionManager.setAdd.
  destruct (existsb (String.eqb x) xs) eqn:E; [|reflexivity].
  apply existsb_eqb_In in E. contradiction.
Qed.

Lemma setDelete_In (xs : list string) (x y : string) :
  In y (SubscriptionManager.setDelete xs x) <-> In y xs /\ y <> x.
Proof.
  unfold SubscriptionManager.setDelete. rewrite filter_In.
  split; intros [Hin H]; split; auto.
  - intros ->. now rewrite String.eqb_refl in H.
  - apply String.eqb_neq in H. now rewrite H.
Qed.

(** The next id is not in the table. *)
Lemma next_id_is_fresh (sm : SubscriptionManager.t) :
  SubscriptionManager.idsIssued sm ->
  JsMap.get (SubscriptionManager.subscriptionsById sm)
    ("sub-" ++ Js.Nat_toString (S (SubscriptionManager.idCounter sm))) = None.
Proof.
  intros Hissued.
  destruct (JsMap.get _ _) as [s|] eqn:Hget; [|reflexivity].
  apply JsMap_get_in in Hget. unfold SubscriptionManager.idsIssued in Hissued.
  rewrite Forall_forall in Hissued. destruct (Hissued _ Hget) as (j & Heq & Hle).
  simpl in Heq. apply subscription_id_injective in Heq. lia.
Qed.

(** *** Every operation keeps the indexes in step *)

Lemma subscribe_inSync (now : Z) (sm : SubscriptionManager.t) (clientId : string)
  (patterns : list string) (filter : option Protocol.SubscriptionFilter.t)
  (snapshot : option bool) :
  SubscriptionManager.idsIssued sm ->
  SubscriptionManager.inSync sm ->
  SubscriptionManager.inSync
    (snd (SubscriptionManager.subscribe now sm clientId patterns filter snapshot)).
Proof.
  intros Hissued (HuId & HuClient & Hheld & Hlisted).
  pose proof (next_id_is_fresh sm Hissued) as Hfresh. simpl in Hfresh.
  unfold SubscriptionManager.subscribe. simpl.
  set (id := String "s" (String "u" (String "b" (String "-"
               (Js.Nat_toString (S (SubscriptionManager.idCounter sm))))))) in *.
  set (subscription := SubscriptionManager.Subscription.mk id clientId patterns _ _ _ _ _).
  set (subs0 := match JsMap.get (SubscriptionManager.subscriptionsByClient sm) clientId with
                | Some subs => subs
                | None => []
                end).
  rewrite Forall_forall in Hheld, Hlisted.
  assert (Hsubs0 : NoDup subs0 /\ ~ In id subs0
                   /\ forall subId, In subId subs0 ->
                        exists sub,
                          JsMap.get (SubscriptionManager.subscriptionsById sm) subId = Some sub
                          /\ SubscriptionManager.Subscription.clientId sub = clientId).
  { unfold subs0.
    destruct (JsMap.get (SubscriptionManager.subscriptionsByClient sm) clientId)
      as [subs|] eqn:Hc.
    - apply JsMap_get_in in Hc. destruct (Hlisted _ Hc) as (_ & Hnd & Hall).
      simpl in *. rewrite Forall_forall in Hall.
      split; [exact Hnd|]. split; [|exact Hall].
      intros Hin. destruct (Hall _ Hin) as (sub & Hg & _). congruence.
    - split; [constructor|]. split; [intros []|intros ? []]. }
  destruct Hsubs0 as (Hnd & Hnotin & Hsubs).
  rewrite (setAdd_fresh _ _ Hnotin).
  assert (Hother : forall subId sub,
             JsMap.get (SubscriptionManager.subscriptionsById sm) subId = Some sub ->
             JsMap.get (JsMap.set (SubscriptionManager.subscriptionsById sm) id subscription)
               subId = Some sub).
  { intros subId sub Hg. rewrite JsMap_get_set.
    destruct (String.eqb id subId) eqn:E; [|exact Hg].
    apply String.eqb_eq in E. subst subId. congruence. }
  split; [now apply JsMap_unique_set|]. split; [now apply JsMap_unique_set|].
  simpl. split.
  - apply JsMap_Forall_set.
    + apply Forall_forall. intros kv Hin.
      destruct (Hheld _ Hin) as (Hid & Hcomp & subIds & Hg & Hin').
      split; [exact Hid|]. split; [exact Hcomp|]. rewrite JsMap_get_set.
      destruct (String.eqb clientId (SubscriptionManager.Subscription.clientId (snd kv)))
        eqn:E.
      * apply String.eqb_eq in E. eexists. split; [reflexivity|].
        apply in_or_app. left. unfold subs0. rewrite E, Hg. exact Hin'.
      * now exists subIds.
    + simpl. split; [reflexivity|]. split; [reflexivity|].
      rewrite JsMap_get_set_same. eexists. split; [reflexivity|].
      apply in_or_app. right. now left.
  - apply JsMap_Forall_set.
    + apply Forall_forall. intros kv Hin.
      destruct (Hlisted _ Hin) as (Hne & Hnd' & Hall).
      split; [exact Hne|]. split; [exact Hnd'|].
      revert Hall. apply Forall_impl. intros subId (sub & Hg & Hc).
      exists sub. split; [now apply Hother | exact Hc].
    + simpl. split; [now destruct subs0|]. split.
      * apply NoDup_app; [exact Hnd | repeat constructor; intros [] |].
        intros x Hx [<-|[]]. contradiction.
      * apply Forall_forall. intros subId Hin. apply in_app_or in Hin as [Hin|[<-|[]]].
        -- destruct (Hsubs _ Hin) as (sub & Hg & Hc). exists sub.
           split; [now apply Hother | exact Hc].
        -- exists subscription. split; [apply JsMap_get_set_same | reflexivity].
Qed.

Lemma unsubscribe_inSync (sm : SubscriptionManager.t) (subscriptionId : string) :
  SubscriptionManager.inSync sm ->
  SubscriptionManager.inSync (snd (SubscriptionManager.unsubscribe sm subscriptionId)).
Proof.
  intros (HuId & HuClient & Hheld & Hlisted).
  unfold SubscriptionManager.unsubscribe.
  destruct (JsMap.get (SubscriptionManager.subscriptionsById sm) subscriptionId)
    as [s|] eqn:Hs; [|now repeat split].
  rewrite Forall_forall in Hheld, Hlisted.
  pose proof (JsMap_get_in _ _ _ Hs) as Hsin.
  destruct (Hheld _ Hsin) as (_ & _ & subs & Hc & Hinsubs). simpl in Hc, Hinsubs.
  rewrite Hc.
  set (client := SubscriptionManager.Subscription.clientId s) in *.
  set (subs' := SubscriptionManager.setDelete subs subscriptionId).
  set (byClient' := match subs' with
                    | [] => JsMap.delete (SubscriptionManager.subscriptionsByClient sm) client
                    | _ :: _ =>
                        JsMap.set (SubscriptionManager.subscriptionsByClient sm) client subs'
                    end).
  assert (Hget' : forall c,
             JsMap.get byClient' c
             = if String.eqb client c
               then match subs' with [] => None | _ => Some subs' end
               else JsMap.get (SubscriptionManager.subscriptionsByClient sm) c).
  { intros c. unfold byClient'. destruct subs'.
    - now apply JsMap_get_delete.
    - apply JsMap_get_set. }
  assert (Hstill : forall subId sub c,
             JsMap.get (SubscriptionManager.subscriptionsById sm) subId = Some sub ->
             SubscriptionManager.Subscription.clientId sub = c ->
             (c <> client \/ subId <> subscriptionId) ->
             JsMap.get (JsMap.delete (SubscriptionManager.subscriptionsById sm)
                          subscriptionId) subId = Some sub).
  { intros subId sub c Hg Hcl Hor. rewrite (JsMap_get_delete _ _ _ HuId).
    destruct (String.eqb subscriptionId subId) eqn:E; [|exact Hg].
    apply String.eqb_eq in E. subst subId. rewrite Hs in Hg. injection Hg as <-.
    destruct Hor as [H|H]; [now contradiction H | now contradiction H]. }
  split; [now apply JsMap_unique_delete|]. split.
  { unfold byClient'. destruct subs';
      [now apply JsMap_unique_delete | now apply JsMap_unique_set]. }
  simpl. fold subs'. fold byClient'. split.
  - apply Forall_forall. intros kv Hin.
    apply (JsMap_in_delete _ _ _ HuId) in Hin as [Hin Hne].
    destruct (Hheld _ Hin) as (Hid & Hcomp & subIds & Hg & Hin').
    split; [exact Hid|]. split; [exact Hcomp|]. rewrite Hget'.
    destruct (String.eqb client (SubscriptionManager.Subscription.clientId (snd kv)))
      eqn:E; [|now exists subIds].
    apply String.eqb_eq in E. rewrite <- E, Hc in Hg. injection Hg as <-.
    assert (Hin'' : In (fst kv) subs') by now apply setDelete_In.
    destruct subs'; [contradiction|]. eexists. split; [reflexivity | exact Hin''].
  - assert (Hold : forall kv,
               In kv (SubscriptionManager.subscriptionsByClient sm) -> fst kv <> client ->
               snd kv <> []
               /\ NoDup (snd kv)
               /\ Forall (fun subId =>
                    exists sub,
                      JsMap.get (JsMap.delete (SubscriptionManager.subscriptionsById sm)
                                   subscriptionId) subId = Some sub
                      /\ SubscriptionManager.Subscription.clientId sub = fst kv) (snd kv)).
    { intros kv Hin Hne. destruct (Hlisted _ Hin) as (Hnonempty & Hnd & Hall).
      split; [exact Hnonempty|]. split; [exact Hnd|].
      revert Hall. apply Forall_impl. intros subId (sub & Hg & Hcl).
      exists sub. split; [|exact Hcl].
      apply (Hstill subId sub (fst kv) Hg Hcl). now left. }
    assert (Hnew : forall x rest,
               subs' = x :: rest ->
               NoDup subs'
               /\ Forall (fun subId =>
                    exists sub,
                      JsMap.get (JsMap.delete (SubscriptionManager.subscriptionsById sm)
                                   subscriptionId) subId = Some sub
                      /\ SubscriptionManager.Subscription.clientId sub = client) subs').
    { intros x rest _.
      pose proof (JsMap_get_in _ _ _ Hc) as Hcin.
      destruct (Hlisted _ Hcin) as (_ & Hnd & Hall). simpl in *.
      split; [now apply NoDup_filter|].
      apply Forall_forall. intros subId Hin. apply setDelete_In in Hin as [Hin Hne].
      rewrite Forall_forall in Hall. destruct (Hall _ Hin) as (sub & Hg & Hcl).
      exists sub. split; [|exact Hcl].
      apply (Hstill subId sub client Hg Hcl). now right. }
    apply Forall_forall. intros kv Hin. unfold byClient' in Hin.
    destruct subs' as [|x rest] eqn:Hsubs'.
    + apply (JsMap_in_delete _ _ _ HuClient) in Hin as [Hin Hne]. now apply Hold.
    + apply (JsMap_in_set _ _ _ _ HuClient) in Hin as [->|[Hin Hne]]; [|now apply Hold].
      simpl. destruct (Hnew x rest eq_refl) as [Hnd Hall].
      split; [discriminate|]. split; assumption.
Qed.

Lemma unsubscribeEach_inSync (patterns subIds : list string) :
  forall sm,
    SubscriptionManager.inSync sm ->
    SubscriptionManager.inSync
      (snd (SubscriptionManager.unsubscribeEach sm patterns subIds)).
Proof.
  induction subIds as [|subId rest IH]; intros sm Hsm; simpl; [exact Hsm|].
  destruct (JsMap.get (SubscriptionManager.subscriptionsById sm) subId) as [s|];
    [|now apply IH].
  destruct (existsb _ (SubscriptionManager.Subscription.patterns s)); [|now apply IH].
  specialize (IH _ (unsubscribe_inSync sm subId Hsm)).
  destruct (SubscriptionManager.unsubscribeEach _ patterns rest). exact IH.
Qed.

Lemma unsubscribePatterns_inSync (sm : SubscriptionManager.t) (clientId : string)
  (patterns : list string) :
  SubscriptionManager.inSync sm ->
  SubscriptionManager.inSync
    (snd (SubscriptionManager.unsubscribePatterns sm clientId patterns)).
Proof.
  intros Hsm. unfold SubscriptionManager.unsubscribePatterns.
  destruct (JsMap.get (SubscriptionManager.subscriptionsByClient sm) clientId);
    [now apply unsubscribeEach_inSync | exact Hsm].
Qed.

Lemma unsubscribeClient_inSync (sm : SubscriptionManager.t) (clientId : string) :
  SubscriptionManager.inSync sm ->
  SubscriptionManager.inSync (snd (SubscriptionManager.unsubscribeClient sm clientId)).
Proof.
  intros (HuId & HuClient & Hheld & Hlisted).
  unfold SubscriptionManager.unsubscribeClient.
  destruct (JsMap.get (SubscriptionManager.subscriptionsByClient sm) clientId)
    as [subs|] eqn:Hc; [|now repeat split].
  rewrite Forall_forall in Hheld, Hlisted.
  pose proof (JsMap_get_in _ _ _ Hc) as Hcin.
  destruct (Hlisted _ Hcin) as (_ & _ & Hsubs). simpl in Hsubs.
  rewrite Forall_forall in Hsubs.
  split; [now apply JsMap_unique_delete_all|].
  split; [now apply JsMap_unique_delete|]. simpl. split.
  - apply Forall_forall. intros kv Hin.
    apply (JsMap_in_delete_all _ _ _ HuId) in Hin as [Hin Hnot].
    destruct (Hheld _ Hin) as (Hid & Hcomp & subIds & Hg & Hin').
    split; [exact Hid|]. split; [exact Hcomp|].
    exists subIds. split; [|exact Hin'].
    rewrite (JsMap_get_delete _ _ _ HuClient).
    destruct (String.eqb clientId (SubscriptionManager.Subscription.clientId (snd kv)))
      eqn:E; [|exact Hg].
    apply String.eqb_eq in E. rewrite <- E, Hc in Hg. injection Hg as <-. contradiction.
  - apply Forall_forall. intros kv Hin.
    apply (JsMap_in_delete _ _ _ HuClient) in Hin as [Hin Hne].
    destruct (Hlisted _ Hin) as (Hnonempty & Hnd & Hall).
    split; [exact Hnonempty|]. split; [exact Hnd|].
    revert Hall. apply Forall_impl. intros subId (sub & Hg & Hcl).
    exists sub. split; [|exact Hcl].
    rewrite (JsMap_get_delete_all _ _ _ HuId).
    destruct (existsb (String.eqb subId) subs) eqn:E; [|exact Hg].
    apply existsb_eqb_In in E. destruct (Hsubs _ E) as (sub' & Hg' & Hcl').
    rewrite Hg in Hg'. injection Hg' as <-. congruence.
Qed.

Lemma markSnapshotSent_inSync (sm : SubscriptionManager.t) (subscriptionId : string) :
  SubscriptionManager.inSync sm ->
  SubscriptionManager.inSync (SubscriptionManager.markSnapshotSent sm subscriptionId).
Proof.
  intros (HuId & HuClient & Hheld & Hlisted).
  unfold SubscriptionManager.markSnapshotSent.
  destruct (JsMap.get (SubscriptionManager.subscriptionsById sm) subscriptionId)
    as [s|] eqn:Hs; [|now repeat split].
  rewrite Forall_forall in Hheld.
  pose proof (Hheld _ (JsMap_get_in _ _ _ Hs)) as (Hid & Hcomp & Hclient). simpl in *.
  split; [now apply JsMap_unique_set|]. split; [exact HuClient|]. simpl. split.
  - apply JsMap_Forall_set; [now apply Forall_forall|].
    simpl. split; [exact Hid|]. split; [exact Hcomp | exact Hclient].
  - revert Hlisted. apply Forall_impl. intros kv (Hnonempty & Hnd & Hall).
    split; [exact Hnonempty|]. split; [exact Hnd|].
    revert Hall. apply Forall_impl. intros subId (sub & Hg & Hcl).
    rewrite JsMap_get_set.
    destruct (String.eqb subscriptionId subId) eqn:E; [|now exists sub].
    apply String.eqb_eq in E. subst subId. rewrite Hs in Hg. injection Hg as <-.
    eexists. split; [reflexivity | exact Hcl].
Qed.

(** Every id in the table has been issued, whatever is done. *)
Lemma apply_idsIssued (sm : SubscriptionManager.t) (op : SubscriptionManager.Op) :
  SubscriptionManager.idsIssued sm ->
  SubscriptionManager.idsIssued (SubscriptionManager.apply sm op).
Proof.
  intros Hsm.
  assert (Hun : forall sm subId,
             SubscriptionManager.idsIssued sm ->
             SubscriptionManager.idsIssued (snd (SubscriptionManager.unsubscribe sm subId))).
  { intros sm0 subId H0. unfold SubscriptionManager.unsubscribe.
    destruct (JsMap.get (SubscriptionManager.subscriptionsById sm0) subId); [|exact H0].
    unfold SubscriptionManager.idsIssued in *. simpl. now apply JsMap_Forall_delete. }
  destruct op as [now clientId patterns filter snapshot|subId|clientId patterns
                 |clientId|subId]; simpl.
  - unfold SubscriptionManager.idsIssued in *. simpl. apply JsMap_Forall_set.
    + eapply idsIssued_weaken; [|exact Hsm]. lia.
    + eexists. split; [reflexivity | lia].
  - now apply Hun.
  - unfold SubscriptionManager.unsubscribePatterns.
    destruct (JsMap.get (SubscriptionManager.subscriptionsByClient sm) clientId)
      as [subs|]; [|exact Hsm].
    revert sm Hsm. induction subs as [|subId rest IH]; intros sm Hsm; simpl;
      [exact Hsm|].
    destruct (JsMap.get (SubscriptionManager.subscriptionsById sm) subId) as [s|];
      [|now apply IH].
    destruct (existsb _ (SubscriptionManager.Subscription.patterns s)); [|now apply IH].
    specialize (IH _ (Hun sm subId Hsm)).
    destruct (SubscriptionManager.unsubscribeEach _ patterns rest). exact IH.
  - unfold SubscriptionManager.unsubscribeClient.
    destruct (JsMap.get (SubscriptionManager.subscriptionsByClient sm) clientId)
      as [subs|]; [|exact Hsm].
    unfold SubscriptionManager.idsIssued in *. simpl.
    generalize (SubscriptionManager.subscriptionsById sm) Hsm.
    induction subs as [|x subs IH]; intros m Hm; simpl; [exact Hm|].
    apply IH. now apply JsMap_Forall_delete.
  - unfold SubscriptionManager.markSnapshotSent.
    destruct (JsMap.get (SubscriptionManager.subscriptionsById sm) subId) as [s|] eqn:Hg;
      [|exact Hsm].
    unfold SubscriptionManager.idsIssued in *. simpl.
    apply JsMap_Forall_set; [exact Hsm|].
    apply JsMap_get_in in Hg. rewrite Forall_forall in Hsm. exact (Hsm _ Hg).
Qed.

Lemma apply_inSync (sm : SubscriptionManager.t) (op : SubscriptionManager.Op) :
  SubscriptionManager.idsIssued sm ->
  SubscriptionManager.inSync sm ->
  SubscriptionManager.inSync (SubscriptionManager.apply sm op).
Proof.
  intros Hissued Hsm.
  destruct op as [now clientId patterns filter snapshot|subId|clientId patterns
                 |clientId|subId]; simpl.
  - now apply subscribe_inSync.
  - now apply unsubscribe_inSync.
  - now apply unsubscribePatterns_inSync.
  - now apply unsubscribeClient_inSync.
  - now apply markSnapshotSent_inSync.
Qed.

Lemma applyAll_managed (ops : list SubscriptionManager.Op) :
  forall sm,
    SubscriptionManager.idsIssued sm -> SubscriptionManager.inSync sm ->
    SubscriptionManager.idsIssued (SubscriptionManager.applyAll sm ops)
    /\ SubscriptionManager.inSync (SubscriptionManager.applyAll sm ops).
Proof.
  unfold SubscriptionManager.applyAll.
  induction ops as [|op ops IH]; intros sm Hissued Hsm; simpl; [now split|].
  apply IH; [now apply apply_idsIssued | now apply apply_inSync].
Qed.

Lemma created_managed (ops : list SubscriptionManager.Op) :
  let sm := SubscriptionManager.applyAll SubscriptionManager.create ops in
  SubscriptionManager.idsIssued sm /\ SubscriptionManager.inSync sm.
Proof.
  apply applyAll_managed; [constructor|].
  repeat split; constructor.
Qed.

(** *** Reading the indexes *)

Lemma getClientSubscriptions_iff (sm : SubscriptionManager.t) (clientId : string)
  (s : SubscriptionManager.Subscription.t) :
  SubscriptionManager.inSync sm ->
  In s (SubscriptionManager.getClientSubscriptions sm clientId)
  <-> SubscriptionManager.getSubscription sm (SubscriptionManager.Subscription.id s) = Some s
      /\ SubscriptionManager.Subscription.clientId s = clientId.
Proof.
  intros (HuId & HuClient & Hheld & Hlisted). rewrite Forall_forall in Hheld, Hlisted.
  unfold SubscriptionManager.getClientSubscriptions, SubscriptionManager.getSubscription.
  split.
  - destruct (JsMap.get (SubscriptionManager.subscriptionsByClient sm) clientId)
      as [subs|] eqn:Hc; [|intros []].
    intros Hin. apply in_flat_map in Hin as (subId & Hsub & Hin).
    destruct (JsMap.get (SubscriptionManager.subscriptionsById sm) subId) as [s'|] eqn:Hg;
      [|contradiction].
    destruct Hin as [<-|[]].
    destruct (Hheld _ (JsMap_get_in _ _ _ Hg)) as (Hid & _). simpl in Hid.
    rewrite Hid. split; [exact Hg|].
    destruct (Hlisted _ (JsMap_get_in _ _ _ Hc)) as (_ & _ & Hall). simpl in Hall.
    rewrite Forall_forall in Hall. destruct (Hall _ Hsub) as (s'' & Hg' & Hcl).
    congruence.
  - intros [Hg Hcl]. destruct (Hheld _ (JsMap_get_in _ _ _ Hg)) as (_ & _ & subs & Hc & Hin).
    simpl in Hc, Hin. rewrite Hcl in Hc. rewrite Hc.
    apply in_flat_map. exists (SubscriptionManager.Subscription.id s).
    split; [exact Hin|]. rewrite Hg. now left.
Qed.

Lemma held_under_own_id (sm : SubscriptionManager.t)
  (s : SubscriptionManager.Subscription.t) :
  SubscriptionManager.inSync sm ->
  In s (JsMap.values (SubscriptionManager.subscriptionsById sm)) ->
  SubscriptionManager.getSubscription sm (SubscriptionManager.Subscription.id s) = Some s.
Proof.
  intros (HuId & _ & Hheld & _) Hin. rewrite Forall_forall in Hheld.
  unfold JsMap.values in Hin. apply in_map_iff in Hin as ([k s'] & Heq & Hin).
  simpl in Heq. subst s'. destruct (Hheld _ Hin) as (Hid & _). simpl in Hid.
  rewrite Hid. now apply JsMap_in_get.
Qed.

Lemma held_in_values (sm : SubscriptionManager.t) (subId : string)
  (s : SubscriptionManager.Subscription.t) :
  SubscriptionManager.getSubscription sm subId = Some s ->
  In s (JsMap.values (SubscriptionManager.subscriptionsById sm)).
Proof.
  intros Hg. apply JsMap_get_in in Hg. unfold JsMap.values.
  change s with (snd (subId, s)). now apply in_map.
Qed.

(** X11. The index by client agrees with the index by id, whatever sequence
    of [subscribe], [unsubscribe], [unsubscribePatterns], [unsubscribeClient]
    and [markSnapshotSent] a new manager has gone through:
    [getClientSubscriptions(c)] holds exactly the subscriptions that
    [getSubscription] finds under their own id with client [c], and a client
    is counted by [totalClients] exactly while it has a subscription. *)
Theorem X11_indexes_agree (ops : list SubscriptionManager.Op) :
  let sm := SubscriptionManager.applyAll SubscriptionManager.create ops in
  (forall clientId s,
      In s (SubscriptionManager.getClientSubscriptions sm clientId)
      <-> SubscriptionManager.getSubscription sm (SubscriptionManager.Subscription.id s)
          = Some s
          /\ SubscriptionManager.Subscription.clientId s = clientId)
  /\ (forall clientId,
        JsMap.has (SubscriptionManager.subscriptionsByClient sm) clientId = true
        <-> exists s,
              In s (JsMap.values (SubscriptionManager.subscriptionsById sm))
              /\ SubscriptionManager.Subscription.clientId s = clientId).
Proof.
  intros sm. destruct (created_managed ops) as [_ Hsync]. fold sm in Hsync.
  split; [intros clientId s; now apply getClientSubscriptions_iff|].
  intros clientId. unfold JsMap.has.
  destruct Hsync as (HuId & HuClient & Hheld & Hlisted).
  rewrite Forall_forall in Hheld, Hlisted. split.
  - destruct (JsMap.get (SubscriptionManager.subscriptionsByClient sm) clientId)
      as [subs|] eqn:Hc; [|discriminate].
    intros _. destruct (Hlisted _ (JsMap_get_in _ _ _ Hc)) as (Hne & _ & Hall).
    simpl in *. destruct subs as [|subId rest]; [contradiction|].
    rewrite Forall_forall in Hall.
    destruct (Hall subId (or_introl eq_refl)) as (s & Hg & Hcl).
    exists s. split; [now apply (held_in_values sm subId) | exact Hcl].
  - intros (s & Hin & Hcl). unfold JsMap.values in Hin.
    apply in_map_iff in Hin as ([k s'] & Heq & Hin). simpl in Heq. subst s'.
    destruct (Hheld _ Hin) as (_ & _ & subs & Hc & _). simpl in Hc.
    rewrite Hcl in Hc. now rewrite Hc.
Qed.

(** X12. [subscribe] never reuses an id. In a manager with any history, the
    id it issues is not held before the call; after it, [getSubscription]
    finds the new subscription under that id and every other id as before,
    the subscription is among its client's, and there is one subscription
    more. The new subscription has not had its snapshot sent; a filter left
    out is [all] and a snapshot flag left out is [true]. *)
Theorem X12_subscribe_issues_fresh_id (ops : list SubscriptionManager.Op) (now : Z)
  (clientId : string) (patterns : list string)
  (filter : option Protocol.SubscriptionFilter.t) (snapshot : option bool) :
  let sm := SubscriptionManager.applyAll SubscriptionManager.create ops in
  let subscription :=
    fst (SubscriptionManager.subscribe now sm clientId patterns filter snapshot) in
  let sm' := snd (SubscriptionManager.subscribe now sm clientId patterns filter snapshot) in
  let id := SubscriptionManager.Subscription.id subscription in
  SubscriptionManager.getSubscription sm id = None
  /\ SubscriptionManager.getSubscription sm' id = Some subscription
  /\ (forall other, other <> id ->
        SubscriptionManager.getSubscription sm' other
        = SubscriptionManager.getSubscription sm other)
  /\ In subscription (SubscriptionManager.getClientSubscriptions sm' clientId)
  /\ SubscriptionManager.totalSubscriptions sm'
     = S (SubscriptionManager.totalSubscriptions sm)
  /\ SubscriptionManager.Subscription.snapshotSent subscription = false
  /\ SubscriptionManager.Subscription.filter subscription
     = match filter with Some f => f | None => Protocol.SubscriptionFilter.ALL end
  /\ SubscriptionManager.Subscription.snapshot subscription
     = match snapshot with Some b => b | None => true end.
Proof.
  intros sm subscription sm' id.
  destruct (created_managed ops) as [Hissued Hsync]. fold sm in Hissued, Hsync.
  pose proof (next_id_is_fresh sm Hissued) as Hfresh.
  pose proof (subscribe_inSync now sm clientId patterns filter snapshot Hissued Hsync)
    as Hsync'. fold sm' in Hsync'.
  assert (Hnew : SubscriptionManager.getSubscription sm' id = Some subscription)
    by apply JsMap_get_set_same.
  split; [exact Hfresh|]. split; [exact Hnew|]. split.
  { intros other Hne. unfold sm', SubscriptionManager.getSubscription. simpl.
    apply JsMap_get_set_other. intros Heq. apply Hne. now rewrite <- Heq. }
  split.
  { apply (getClientSubscriptions_iff sm' clientId subscription Hsync').
    split; [exact Hnew | reflexivity]. }
  split; [|repeat split].
  unfold sm', SubscriptionManager.totalSubscriptions, JsMap.size. simpl.
  change (String "s" (String "u" (String "b" (String "-"
            (Js.Nat_toString (S (SubscriptionManager.idCounter sm)))))))
    with ("sub-" ++ Js.Nat_toString (S (SubscriptionManager.idCounter sm))).
  rewrite (JsMap_set_fresh _ _ _ Hfresh), length_app. simpl. lia.
Qed.

(** X13. [unsubscribe(id)] on an id that is not held answers [false] and
    changes nothing. On a held id it answers [true]; afterwards
    [getSubscription] no longer finds the id and finds every other id as
    before, the subscription is no longer among its client's, and there is
    one subscription fewer. *)
Theorem X13_unsubscribe (ops : list SubscriptionManager.Op) (subscriptionId : string) :
  let sm := SubscriptionManager.applyAll SubscriptionManager.create ops in
  let sm' := snd (SubscriptionManager.unsubscribe sm subscriptionId) in
  match SubscriptionManager.getSubscription sm subscriptionId with
  | None => SubscriptionManager.unsubscribe sm subscriptionId = (false, sm)
  | Some s =>
      fst (SubscriptionManager.unsubscribe sm subscriptionId) = true
      /\ SubscriptionManager.getSubscription sm' subscriptionId = None
      /\ (forall other, other <> subscriptionId ->
            SubscriptionManager.getSubscription sm' other
            = SubscriptionManager.getSubscription sm other)
      /\ ~ In s (SubscriptionManager.getClientSubscriptions sm'
                   (SubscriptionManager.Subscription.clientId s))
      /\ S (SubscriptionManager.totalSubscriptions sm')
         = SubscriptionManager.totalSubscriptions sm
  end.
Proof.
  intros sm sm'.
  destruct (created_managed ops) as [_ Hsync]. fold sm in Hsync.
  pose proof (unsubscribe_inSync sm subscriptionId Hsync) as Hsync'. fold sm' in Hsync'.
  unfold sm', SubscriptionManager.unsubscribe, SubscriptionManager.getSubscription in *.
  destruct (JsMap.get (SubscriptionManager.subscriptionsById sm) subscriptionId)
    as [s|] eqn:Hs; [|reflexivity].
  destruct Hsync as (HuId & _ & Hheld & _). rewrite Forall_forall in Hheld.
  destruct (Hheld _ (JsMap_get_in _ _ _ Hs)) as (Hid & _). simpl in Hid.
  assert (Hgone : JsMap.get (JsMap.delete (SubscriptionManager.subscriptionsById sm)
                               subscriptionId) subscriptionId = None)
    by now apply JsMap_get_delete_same.
  split; [reflexivity|]. simpl. split; [exact Hgone|]. split.
  { intros other Hne. apply JsMap_get_delete_other. congruence. }
  split.
  { intros Hin. apply (getClientSubscriptions_iff _ _ _ Hsync') in Hin as [Hg _].
    unfold SubscriptionManager.getSubscription in Hg. simpl in Hg.
    rewrite Hid, Hgone in Hg. discriminate. }
  unfold SubscriptionManager.totalSubscriptions. simpl.
  now apply (JsMap_size_delete _ _ s).
Qed.

(** What [unsubscribeClient] does to a manager whose indexes agree. *)
Lemma unsubscribeClient_result (sm : SubscriptionManager.t) (clientId : string) :
  SubscriptionManager.inSync sm ->
  let removed := fst (SubscriptionManager.unsubscribeClient sm clientId) in
  let sm' := snd (SubscriptionManager.unsubscribeClient sm clientId) in
  removed = length (SubscriptionManager.getClientSubscriptions sm clientId)
  /\ SubscriptionManager.getClientSubscriptions sm' clientId = []
  /\ (forall subscriptionId s,
        SubscriptionManager.getSubscription sm' subscriptionId = Some s
        <-> SubscriptionManager.getSubscription sm subscriptionId = Some s
            /\ SubscriptionManager.Subscription.clientId s <> clientId).
Proof.
  intros (HuId & HuClient & Hheld & Hlisted) removed sm'.
  rewrite Forall_forall in Hheld, Hlisted.
  unfold removed, sm', SubscriptionManager.unsubscribeClient,
    SubscriptionManager.getClientSubscriptions, SubscriptionManager.getSubscription.
  destruct (JsMap.get (SubscriptionManager.subscriptionsByClient sm) clientId)
    as [subs|] eqn:Hc; simpl.
  - destruct (Hlisted _ (JsMap_get_in _ _ _ Hc)) as (_ & _ & Hsubs). simpl in Hsubs.
    rewrite Forall_forall in Hsubs.
    split.
    { clear - Hsubs. induction subs as [|subId rest IH]; simpl; [reflexivity|].
      destruct (Hsubs subId (or_introl eq_refl)) as (s & -> & _). simpl.
      f_equal. apply IH. intros x Hx. apply Hsubs. now right. }
    split; [now rewrite (JsMap_get_delete_same _ _ HuClient)|].
    intros subscriptionId s. rewrite (JsMap_get_delete_all _ _ _ HuId).
    destruct (existsb (String.eqb subscriptionId) subs) eqn:E.
    + apply existsb_eqb_In in E. destruct (Hsubs _ E) as (s' & Hg & Hcl).
      split; [discriminate|]. intros [Hg' Hne]. congruence.
    + split; [|tauto]. intros Hg. split; [exact Hg|].
      intros Hcl. destruct (Hheld _ (JsMap_get_in _ _ _ Hg)) as (_ & _ & subs' & Hc' & Hin).
      simpl in Hc', Hin. rewrite Hcl, Hc in Hc'. injection Hc' as <-.
      apply existsb_eqb_In in Hin. congruence.
  - rewrite Hc. split; [reflexivity|]. split; [reflexivity|].
    intros subscriptionId s. split; [|tauto]. intros Hg. split; [exact Hg|].
    intros Hcl. destruct (Hheld _ (JsMap_get_in _ _ _ Hg)) as (_ & _ & subs' & Hc' & _).
    simpl in Hc'. congruence.
Qed.

(** X14. [unsubscribeClient(c)] answers the number of subscriptions the
    client had and removes them all: afterwards the client has none, and
    [getSubscription] finds exactly the subscriptions it found before that
    belong to another client. *)
Theorem X14_unsubscribeClient (ops : list SubscriptionManager.Op) (clientId : string) :
  let sm := SubscriptionManager.applyAll SubscriptionManager.create ops in
  let removed := fst (SubscriptionManager.unsubscribeClient sm clientId) in
  let sm' := snd (SubscriptionManager.unsubscribeClient sm clientId) in
  removed = length (SubscriptionManager.getClientSubscriptions sm clientId)
  /\ SubscriptionManager.getClientSubscriptions sm' clientId = []
  /\ (forall subscriptionId s,
        SubscriptionManager.getSubscription sm' subscriptionId = Some s
        <-> SubscriptionManager.getSubscription sm subscriptionId = Some s
            /\ SubscriptionManager.Subscription.clientId s <> clientId).
Proof.
  intros sm removed sm'.
  destruct (created_managed ops) as [_ Hsync].
  now apply unsubscribeClient_result.
Qed.

(** *** Matching *)

Lemma compiledTest_is_pathMatchesPattern (pattern path : string) :
  SubscriptionManager.compiledTest (Pattern.patternToRegex pattern) path
  = Pattern.pathMatchesPattern path pattern.
Proof. reflexivity. Qed.

(** The first pattern that matches, in the order the subscription lists
    them. *)
Lemma firstMatch_iff (patterns : list string) (path p : string) :
  SubscriptionManager.firstMatch (map Pattern.patternToRegex patterns) patterns path
  = Some p
  <-> exists before after,
        patterns = (before ++ p :: after)%list
        /\ Pattern.pathMatchesPattern path p = true
        /\ Forall (fun q => Pattern.pathMatchesPattern path q = false) before.
Proof.
  induction patterns as [|q patterns IH]; simpl.
  - split; [discriminate|]. intros (before & after & Heq & _). now destruct before.
  - rewrite compiledTest_is_pathMatchesPattern.
    destruct (Pattern.pathMatchesPattern path q) eqn:Hq.
    + split.
      * intros H. injection H as <-. exists [], patterns. now repeat split.
      * intros ([|q' before] & after & Heq & Hp & Hall); simpl in Heq.
        -- now injection Heq as ->.
        -- injection Heq as <- _. inversion Hall; subst. congruence.
    + rewrite IH. split.
      * intros (before & after & -> & Hp & Hall). exists (q :: before), after.
        repeat split; [exact Hp | now constructor].
      * intros ([|q' before] & after & Heq & Hp & Hall); simpl in Heq.
        -- injection Heq as -> _. congruence.
        -- injection Heq as <- ->. inversion Hall; subst.
           exists before, after. now repeat split.
Qed.

Lemma firstMatch_exists (patterns : list string) (path : string) :
  (exists p,
      SubscriptionManager.firstMatch (map Pattern.patternToRegex patterns) patterns path
      = Some p)
  <-> existsb (fun regex => SubscriptionManager.compiledTest regex path)
              (map Pattern.patternToRegex patterns) = true.
Proof.
  induction patterns as [|q patterns IH]; simpl.
  - split; [intros [p H]; discriminate | discriminate].
  - destruct (SubscriptionManager.compiledTest (Pattern.patternToRegex q) path); simpl;
      [|exact IH].
    split; [reflexivity | intros _; now exists q].
Qed.

Lemma getMatchingSubscriptions_In (sm : SubscriptionManager.t) (path : string)
  (messageType : option SubscriptionManager.MessageKind)
  (s : SubscriptionManager.Subscription.t) (p : string) :
  In (s, p) (SubscriptionManager.getMatchingSubscriptions sm path messageType)
  <-> In s (JsMap.values (SubscriptionManager.subscriptionsById sm))
      /\ SubscriptionManager.filteredOut (SubscriptionManager.Subscription.filter s)
           messageType = false
      /\ SubscriptionManager.firstMatch (SubscriptionManager.Subscription.compiledPatterns s)
           (SubscriptionManager.Subscription.patterns s) path = Some p.
Proof.
  unfold SubscriptionManager.getMatchingSubscriptions. rewrite in_flat_map. split.
  - intros (s' & Hin & Hm).
    destruct (SubscriptionManager.filteredOut _ messageType) eqn:Hf; [contradiction|].
    destruct (SubscriptionManager.firstMatch _ _ path) as [p'|] eqn:Hp; [|contradiction].
    destruct Hm as [Heq|[]]. injection Heq as <- <-. now repeat split.
  - intros (Hin & Hf & Hp). exists s. split; [exact Hin|].
    rewrite Hf, Hp. now left.
Qed.

Lemma setAdd_In (xs : list string) (x y : string) :
  In y (SubscriptionManager.setAdd xs x) <-> In y xs \/ y = x.
Proof.
  unfold SubscriptionManager.setAdd.
  destruct (existsb (String.eqb x) xs) eqn:E.
  - apply existsb_eqb_In in E. split; [tauto|]. intros [H| ->]; assumption.
  - rewrite in_app_iff. simpl. intuition congruence.
Qed.

Lemma getSubscribedClients_In (sm : SubscriptionManager.t) (path : string)
  (messageType : option SubscriptionManager.MessageKind) (clientId : string) :
  In clientId (SubscriptionManager.getSubscribedClients sm path messageType)
  <-> exists m,
        In m (SubscriptionManager.getMatchingSubscriptions sm path messageType)
        /\ SubscriptionManager.Subscription.clientId (fst m) = clientId.
Proof.
  unfold SubscriptionManager.getSubscribedClients.
  generalize (SubscriptionManager.getMatchingSubscriptions sm path messageType).
  assert (H : forall (matches : list (SubscriptionManager.Subscription.t * string)) acc,
             In clientId
               (fold_left (fun clients m =>
                             SubscriptionManager.setAdd clients
                               (SubscriptionManager.Subscription.clientId (fst m)))
                          matches acc)
             <-> In clientId acc
                 \/ exists m, In m matches
                              /\ SubscriptionManager.Subscription.clientId (fst m) = clientId).
  { induction matches as [|m matches IH]; intros acc; simpl.
    - split; [tauto|]. intros [H|(m & [] & _)]. exact H.
    - rewrite IH, setAdd_In. split.
      + intros [[H| ->]|(m' & Hin & Hc)]; [now left | right | right].
        * now exists m; split; [left|].
        * exists m'. split; [now right | exact Hc].
      + intros [H|(m' & [<-|Hin] & Hc)]; [now left; left | left; right; now rewrite Hc |].
        right. now exists m'. }
  intros matches. rewrite H. simpl. tauto.
Qed.

(** X15. The two ways of asking agree. In a manager with any history,
    [isClientSubscribed(c, path, type)] answers [true] exactly when [c] is
    among [getSubscribedClients(path, type)], with or without a message
    type. *)
Theorem X15_isClientSubscribed_agrees (ops : list SubscriptionManager.Op)
  (clientId path : string) (messageType : option SubscriptionManager.MessageKind) :
  let sm := SubscriptionManager.applyAll SubscriptionManager.create ops in
  SubscriptionManager.isClientSubscribed sm clientId path messageType = true
  <-> In clientId (SubscriptionManager.getSubscribedClients sm path messageType).
Proof.
  intros sm. destruct (created_managed ops) as [_ Hsync]. fold sm in Hsync.
  assert (Hcompiled : forall s,
             In s (JsMap.values (SubscriptionManager.subscriptionsById sm)) ->
             SubscriptionManager.Subscription.compiledPatterns s
             = map Pattern.patternToRegex (SubscriptionManager.Subscription.patterns s)).
  { intros s Hin. destruct Hsync as (_ & _ & Hheld & _). rewrite Forall_forall in Hheld.
    unfold JsMap.values in Hin. apply in_map_iff in Hin as ([k s'] & Heq & Hin).
    simpl in Heq. subst s'. now destruct (Hheld _ Hin) as (_ & Hcomp & _). }
  rewrite getSubscribedClients_In. unfold SubscriptionManager.isClientSubscribed.
  rewrite existsb_exists. split.
  - intros (s & Hin & Hs). apply andb_true_iff in Hs as [Hf Hp].
    apply negb_true_iff in Hf.
    apply (getClientSubscriptions_iff sm clientId s Hsync) in Hin as [Hg Hcl].
    pose proof (held_in_values sm _ s Hg) as Hval.
    rewrite (Hcompiled s Hval) in Hp. apply firstMatch_exists in Hp as [p Hp].
    exists (s, p). split; [|exact Hcl].
    apply getMatchingSubscriptions_In. rewrite (Hcompiled s Hval). now repeat split.
  - intros ([s p] & Hin & Hcl). simpl in Hcl.
    apply getMatchingSubscriptions_In in Hin as (Hval & Hf & Hp).
    exists s. split.
    + apply (getClientSubscriptions_iff sm clientId s Hsync).
      split; [now apply held_under_own_id | exact Hcl].
    + rewrite Hf. simpl. rewrite (Hcompiled s Hval) in *.
      apply firstMatch_exists. now exists p.
Qed.

Lemma matched_ids_distinct (path : string)
  (messageType : option SubscriptionManager.MessageKind)
  (byId : JsMap.t SubscriptionManager.Subscription.t) :
  NoDup (JsMap.keys byId) ->
  Forall (fun kv => SubscriptionManager.Subscription.id (snd kv) = fst kv) byId ->
  NoDup (map (fun m => SubscriptionManager.Subscription.id (fst m))
           (flat_map (fun subscription =>
              if SubscriptionManager.filteredOut
                   (SubscriptionManager.Subscription.filter subscription) messageType
              then []
              else match SubscriptionManager.firstMatch
                           (SubscriptionManager.Subscription.compiledPatterns subscription)
                           (SubscriptionManager.Subscription.patterns subscription) path with
                   | Some p => [(subscription, p)]
                   | None => []
                   end)
              (JsMap.values byId))).
Proof.
  unfold JsMap.keys, JsMap.values.
  induction byId as [|[k s] byId IH]; simpl; intros Hu Hid; [constructor|].
  inversion Hu as [|? ? Hnot Hrest]; subst. inversion Hid as [|? ? Hk Hids]; subst.
  simpl in Hk. specialize (IH Hrest Hids).
  assert (Hsub : forall x,
             In x (map (fun m => SubscriptionManager.Subscription.id (fst m))
                     (flat_map (fun subscription =>
                        if SubscriptionManager.filteredOut
                             (SubscriptionManager.Subscription.filter subscription)
                             messageType
                        then []
                        else match SubscriptionManager.firstMatch
                                     (SubscriptionManager.Subscription.compiledPatterns
                                        subscription)
                                     (SubscriptionManager.Subscription.patterns subscription)
                                     path with
                             | Some p => [(subscription, p)]
                             | None => []
                             end)
                        (map snd byId))) ->
             In x (map fst byId)).
  { intros x Hx. apply in_map_iff in Hx as ([s' p] & <- & Hin). simpl.
    apply in_flat_map in Hin as (s'' & Hin & Hm).
    destruct (SubscriptionManager.filteredOut _ _); [contradiction|].
    destruct (SubscriptionManager.firstMatch _ _ _); [|contradiction].
    destruct Hm as [Heq|[]]. injection Heq as -> _.
    apply in_map_iff in Hin as ([k' s3] & Heq & Hin). simpl in Heq. subst s3.
    rewrite Forall_forall in Hids. pose proof (Hids _ Hin) as Hk'. simpl in Hk'.
    rewrite Hk'. change k' with (fst (k', s')). now apply in_map. }
  destruct (SubscriptionManager.filteredOut _ _); [exact IH|].
  destruct (SubscriptionManager.firstMatch _ _ _); [|exact IH].
  simpl. constructor; [|exact IH]. rewrite Hk. intros Hin. apply Hnot. now apply Hsub.
Qed.

(** X16. What [getMatchingSubscriptions(path, type)] reports, in a manager
    with any history: a subscription with a pattern exactly when the
    subscription is held, its filter lets the message type through ([state]
    only state, [events] only events, anything when no type is given), and
    the pattern is the first of its patterns, in their order, that
    [pathMatchesPattern] accepts for the path. No subscription is reported
    twice. *)
Theorem X16_matching_subscriptions (ops : list SubscriptionManager.Op) (path : string)
  (messageType : option SubscriptionManager.MessageKind) :
  let sm := SubscriptionManager.applyAll SubscriptionManager.create ops in
  let matches := SubscriptionManager.getMatchingSubscriptions sm path messageType in
  (forall s p,
      In (s, p) matches
      <-> SubscriptionManager.getSubscription sm (SubscriptionManager.Subscription.id s)
          = Some s
          /\ match SubscriptionManager.Subscription.filter s, messageType with
             | Protocol.SubscriptionFilter.STATE, Some SubscriptionManager.KindEvent => False
             | Protocol.SubscriptionFilter.EVENTS, Some SubscriptionManager.KindState => False
             | _, _ => True
             end
          /\ exists before after,
               SubscriptionManager.Subscription.patterns s = (before ++ p :: after)%list
               /\ Pattern.pathMatchesPattern path p = true
               /\ Forall (fun q => Pattern.pathMatchesPattern path q = false) before)
  /\ NoDup (map (fun m => SubscriptionManager.Subscription.id (fst m)) matches).
Proof.
  intros sm matches. destruct (created_managed ops) as [_ Hsync]. fold sm in Hsync.
  assert (Hfilter : forall s,
             SubscriptionManager.filteredOut (SubscriptionManager.Subscription.filter s)
               messageType = false
             <-> match SubscriptionManager.Subscription.filter s, messageType with
                 | Protocol.SubscriptionFilter.STATE, Some SubscriptionManager.KindEvent =>
                     False
                 | Protocol.SubscriptionFilter.EVENTS, Some SubscriptionManager.KindState =>
                     False
                 | _, _ => True
                 end).
  { intros s. unfold SubscriptionManager.filteredOut.
    destruct (SubscriptionManager.Subscription.filter s), messageType as [[]|];
      simpl; split; intros H;
      try reflexivity; try exact I; try discriminate; try contradiction. }
  split.
  - intros s p. unfold matches. rewrite getMatchingSubscriptions_In, Hfilter.
    destruct Hsync as (HuId & HuClient & Hheld & Hlisted). split.
    + intros (Hval & Hf & Hp).
      pose proof (held_under_own_id sm s (conj HuId (conj HuClient (conj Hheld Hlisted)))
                    Hval) as Hg.
      rewrite Forall_forall in Hheld.
      destruct (Hheld _ (JsMap_get_in _ _ _ Hg)) as (_ & Hcomp & _). simpl in Hcomp.
      rewrite Hcomp in Hp. apply firstMatch_iff in Hp. now repeat split.
    + intros (Hg & Hf & Hp). rewrite Forall_forall in Hheld.
      destruct (Hheld _ (JsMap_get_in _ _ _ Hg)) as (_ & Hcomp & _). simpl in Hcomp.
      split; [now apply (held_in_values sm _ s Hg)|]. split; [exact Hf|].
      rewrite Hcomp. now apply firstMatch_iff.
  - unfold matches, SubscriptionManager.getMatchingSubscriptions.
    destruct Hsync as (HuId & _ & Hheld & _).
    apply matched_ids_distinct; [exact HuId|].
    revert Hheld. apply Forall_impl. now intros kv (Hid & _).
Qed.

(** *** Unsubscribing by pattern *)

Lemma unsubscribeEach_result (patterns subIds : list string) :
  forall sm,
    JsMap.unique (SubscriptionManager.subscriptionsById sm) ->
    NoDup subIds ->
    let result := SubscriptionManager.unsubscribeEach sm patterns subIds in
    (forall subscriptionId,
        SubscriptionManager.getSubscription (snd result) subscriptionId
        = match SubscriptionManager.getSubscription sm subscriptionId with
          | Some s =>
              if existsb (String.eqb subscriptionId) subIds
                 && existsb (fun p => existsb (String.eqb p) patterns)
                            (SubscriptionManager.Subscription.patterns s)
              then None
              else Some s
          | None => None
          end)
    /\ SubscriptionManager.totalSubscriptions (snd result) + fst result
       = SubscriptionManager.totalSubscriptions sm.
Proof.
  unfold SubscriptionManager.getSubscription, SubscriptionManager.totalSubscriptions.
  induction subIds as [|subId rest IH]; intros sm Hu Hnd; simpl.
  - split; [|lia]. intros subscriptionId.
    now destruct (JsMap.get (SubscriptionManager.subscriptionsById sm) subscriptionId).
  - inversion Hnd as [|? ? Hnot Hrest]; subst.
    assert (Hnotb : existsb (String.eqb subId) rest = false).
    { destruct (existsb (String.eqb subId) rest) eqn:E; [|reflexivity].
      apply existsb_eqb_In in E. contradiction. }
    destruct (JsMap.get (SubscriptionManager.subscriptionsById sm) subId) as [s|] eqn:Hs.
    + destruct (existsb (fun p => existsb (String.eqb p) patterns)
                  (SubscriptionManager.Subscription.patterns s)) eqn:Hshares.
      * assert (Hu1 : JsMap.unique
                        (SubscriptionManager.subscriptionsById
                           (snd (SubscriptionManager.unsubscribe sm subId)))).
        { unfold SubscriptionManager.unsubscribe. rewrite Hs. simpl.
          now apply JsMap_unique_delete. }
        assert (Hget1 : forall x,
                   JsMap.get (SubscriptionManager.subscriptionsById
                                (snd (SubscriptionManager.unsubscribe sm subId))) x
                   = if String.eqb subId x then None
                     else JsMap.get (SubscriptionManager.subscriptionsById sm) x).
        { intros x. unfold SubscriptionManager.unsubscribe. rewrite Hs. simpl.
          now apply JsMap_get_delete. }
        assert (Hsize1 : S (JsMap.size (SubscriptionManager.subscriptionsById
                                          (snd (SubscriptionManager.unsubscribe sm subId))))
                         = JsMap.size (SubscriptionManager.subscriptionsById sm)).
        { unfold SubscriptionManager.unsubscribe. rewrite Hs. simpl.
          now apply (JsMap_size_delete _ _ s). }
        destruct (IH _ Hu1 Hrest) as [Hget Hcount].
        destruct (SubscriptionManager.unsubscribeEach
                    (snd (SubscriptionManager.unsubscribe sm subId)) patterns rest)
          as [removed sm']. simpl in *.
        split; [|lia]. intros x. rewrite Hget, Hget1, (String.eqb_sym x subId).
        destruct (String.eqb subId x) eqn:E; simpl.
        -- apply String.eqb_eq in E. subst x. now rewrite Hs, Hshares.
        -- reflexivity.
      * destruct (IH sm Hu Hrest) as [Hget Hcount]. split; [|exact Hcount].
        intros x. rewrite Hget, (String.eqb_sym x subId).
        destruct (String.eqb subId x) eqn:E; simpl; [|reflexivity].
        apply String.eqb_eq in E. subst x. rewrite Hs, Hnotb, Hshares. reflexivity.
    + destruct (IH sm Hu Hrest) as [Hget Hcount]. split; [|exact Hcount].
      intros x. rewrite Hget, (String.eqb_sym x subId).
      destruct (String.eqb subId x) eqn:E; simpl; [|reflexivity].
      apply String.eqb_eq in E. subst x. now rewrite Hs.
Qed.

(** X17. [unsubscribePatterns(c, patterns)] removes a subscription as a
    whole. In a manager with any history it removes exactly the
    subscriptions of client [c] that list at least one of the given
    patterns, compared as strings, whatever other patterns they list; every
    other subscription, of this client or another, is found as before; and
    the number it answers is the number of subscriptions removed. *)
Theorem X17_unsubscribePatterns (ops : list SubscriptionManager.Op) (clientId : string)
  (patterns : list string) :
  let sm := SubscriptionManager.applyAll SubscriptionManager.create ops in
  let removed := fst (SubscriptionManager.unsubscribePatterns sm clientId patterns) in
  let sm' := snd (SubscriptionManager.unsubscribePatterns sm clientId patterns) in
  (forall subscriptionId,
      SubscriptionManager.getSubscription sm' subscriptionId
      = match SubscriptionManager.getSubscription sm subscriptionId with
        | Some s =>
            if String.eqb (SubscriptionManager.Subscription.clientId s) clientId
               && existsb (fun p => existsb (String.eqb p) patterns)
                          (SubscriptionManager.Subscription.patterns s)
            then None
            else Some s
        | None => None
        end)
  /\ SubscriptionManager.totalSubscriptions sm' + removed
     = SubscriptionManager.totalSubscriptions sm.
Proof.
  intros sm removed sm'.
  destruct (created_managed ops) as [_ Hsync]. fold sm in Hsync.
  destruct Hsync as (HuId & HuClient & Hheld & Hlisted).
  rewrite Forall_forall in Hheld, Hlisted.
  unfold removed, sm', SubscriptionManager.unsubscribePatterns.
  destruct (JsMap.get (SubscriptionManager.subscriptionsByClient sm) clientId)
    as [subs|] eqn:Hc.
  - destruct (Hlisted _ (JsMap_get_in _ _ _ Hc)) as (_ & Hnd & Hsubs). simpl in Hnd, Hsubs.
    rewrite Forall_forall in Hsubs.
    destruct (unsubscribeEach_result patterns subs sm HuId Hnd) as [Hget Hcount].
    split; [|exact Hcount]. intros subscriptionId. rewrite Hget.
    destruct (SubscriptionManager.getSubscription sm subscriptionId) as [s|] eqn:Hs;
      [|reflexivity].
    unfold SubscriptionManager.getSubscription in Hs.
    replace (existsb (String.eqb subscriptionId) subs)
      with (String.eqb (SubscriptionManager.Subscription.clientId s) clientId);
      [reflexivity|].
    destruct (existsb (String.eqb subscriptionId) subs) eqn:E.
    + apply existsb_eqb_In in E. destruct (Hsubs _ E) as (s' & Hg & Hcl).
      rewrite Hs in Hg. injection Hg as <-. rewrite Hcl. apply String.eqb_refl.
    + apply String.eqb_neq. intros Hcl.
      destruct (Hheld _ (JsMap_get_in _ _ _ Hs)) as (_ & _ & subs' & Hc' & Hin).
      simpl in Hc', Hin. rewrite Hcl, Hc in Hc'. injection Hc' as <-.
      apply existsb_eqb_In in Hin. congruence.
  - simpl. split; [|lia]. intros subscriptionId.
    destruct (SubscriptionManager.getSubscription sm subscriptionId) as [s|] eqn:Hs;
      [|reflexivity].
    unfold SubscriptionManager.getSubscription in Hs.
    destruct (Hheld _ (JsMap_get_in _ _ _ Hs)) as (_ & _ & subs' & Hc' & _).
    simpl in Hc'.
    destruct (String.eqb (SubscriptionManager.Subscription.clientId s) clientId) eqn:E;
      [|reflexivity].
    apply String.eqb_eq in E. congruence.
Qed.


(** ** The router: whom fan-out reaches, targets, the idempotency cache *)

Lemma findTargetById_id (r : MessageRouter.t) (id : string)
  (target : MessageRouter.RouteTarget.t) :
  MessageRouter.findTargetById r id = Some target ->
  MessageRouter.RouteTarget.id target = id.
Proof.
  unfold MessageRouter.findTargetById. intros H. apply find_some in H as [_ H].
  now apply String.eqb_eq.
Qed.

Lemma deliverEvent_by_id (h : MessageRouter.Handlers) (message : Protocol.BridgeMessage)
  (clients : list string) :
  forall r,
    Forall (fun c => In (MessageRouter.RouteTarget.id (MessageRouter.callee c)) clients)
           (snd (MessageRouter.deliverEvent (MessageRouter.invoke h) r message clients)).
Proof.
  induction clients as [|clientId rest IH]; intros r; simpl; [constructor|].
  assert (Hweak : forall r0,
             Forall (fun c => In (MessageRouter.RouteTarget.id (MessageRouter.callee c))
                                 (clientId :: rest))
                    (snd (MessageRouter.deliverEvent (MessageRouter.invoke h) r0 message rest))).
  { intros r0. eapply Forall_impl; [|apply IH]. intros c Hc. now right. }
  destruct (MessageRouter.findTargetById r clientId) as [target|] eqn:Hfind; [|apply Hweak].
  destruct (negb _); [|apply Hweak].
  destruct (invoke_shape h r target message) as (r' & nested & ->).
  specialize (Hweak r').
  destruct (MessageRouter.deliverEvent (MessageRouter.invoke h) r' message rest)
    as [r'' cs]. simpl in *.
  constructor; [|exact Hweak]. simpl. left. now apply findTargetById_id in Hfind.
Qed.

Lemma deliverState_by_id (h : MessageRouter.Handlers) (message : Protocol.BridgeMessage)
  (owner : string) (clients : list string) :
  forall r,
    Forall (fun c => In (MessageRouter.RouteTarget.id (MessageRouter.callee c)) clients)
           (snd (MessageRouter.deliverState (MessageRouter.invoke h) r message owner clients)).
Proof.
  induction clients as [|clientId rest IH]; intros r; simpl; [constructor|].
  assert (Hweak : forall r0,
             Forall (fun c => In (MessageRouter.RouteTarget.id (MessageRouter.callee c))
                                 (clientId :: rest))
                    (snd (MessageRouter.deliverState (MessageRouter.invoke h) r0 message
                            owner rest))).
  { intros r0. eapply Forall_impl; [|apply IH]. intros c Hc. now right. }
  destruct (MessageRouter.findTargetById r clientId) as [target|] eqn:Hfind; [|apply Hweak].
  destruct (negb _); [|apply Hweak].
  destruct (invoke_shape h r target message) as (r' & nested & ->).
  specialize (Hweak r'). apply findTargetById_id in Hfind.
  destruct (snd (MessageRouter.react h target message));
    try (destruct (MessageRouter.deliverState (MessageRouter.invoke h) r' message
                     owner rest) as [r'' cs]; simpl in * );
    repeat constructor; simpl; auto.
Qed.

(** X18. Fan-out looks its recipients up by target id. Whoever is called
    when an event is routed, or when the store's listener is given a delta,
    is a target whose [id] is among [getSubscribedClients(path, type)] for
    the message's path, taken from the subscription manager as routing
    starts. *)
Theorem X18_fan_out_is_by_target_id (h : MessageRouter.Handlers) (r : MessageRouter.t) :
  (forall id source target path p timestamp correlationId sequence ttl key,
      let message :=
        Protocol.mkMessage id source target path (Protocol.PEvent p) timestamp
          correlationId sequence ttl key in
      Forall (fun c =>
                In (MessageRouter.RouteTarget.id (MessageRouter.callee c))
                   (SubscriptionManager.getSubscribedClients
                      (MessageRouter.subscriptionManager r) path
                      (Some SubscriptionManager.KindEvent)))
             (snd (fst (MessageRouter.route h r message))))
  /\ (forall delta,
        Forall (fun c =>
                  In (MessageRouter.RouteTarget.id (MessageRouter.callee c))
                     (SubscriptionManager.getSubscribedClients
                        (MessageRouter.subscriptionManager r)
                        (StateStore.Delta.path delta)
                        (Some SubscriptionManager.KindState)))
               (snd (MessageRouter.handleStateDelta (MessageRouter.invoke h) r delta))).
Proof.
  split.
  - intros id source target path p timestamp correlationId sequence ttl key message.
    unfold MessageRouter.route, MessageRouter.routeWith, MessageRouter.routeEvent. simpl.
    pose proof (deliverEvent_by_id h message
                  (SubscriptionManager.getSubscribedClients
                     (MessageRouter.subscriptionManager r) path
                     (Some SubscriptionManager.KindEvent)) r) as H.
    fold message.
    destruct (MessageRouter.deliverEvent _ r message _) as [r' cs]. exact H.
  - intros delta. unfold MessageRouter.handleStateDelta, StateStore.deltaToMessage,
      StateStore.entryToMessage. simpl. apply deliverState_by_id.
Qed.

(** A client session as the transport registers it: under a session id of
    its own, with the namespace [app.panel] that its messages are sent
    under. It subscribes to [x.**]; an event on [x.y] from elsewhere then
    reaches nobody, because the subscription is kept under the client id
    [app.panel] and no target has that id. With the namespace as id, as in
    [router0], the same event is delivered. *)
Example session_subscription_is_not_served :
  let session := MessageRouter.RouteTarget.mk "0192-session" "app.panel" in
  let router :=
    MessageRouter.withTargets
      (MessageRouter.create (StateStore.create "hub.core")
         MessageRouter.RouterOptions.defaults Scenario.runtime0)
      [("app.panel", session); ("app.logger", Scenario.logger)] in
  let subscribe := Scenario.subscribeMessage "s-1" "app.panel" ["x.**"] (Some false) in
  let event := Scenario.eventMessage "e-1" "app.logger" "x.y" "changed" in
  let subscribed r := fst (fst (MessageRouter.route MessageRouter.quiet r subscribe)) in
  SubscriptionManager.getSubscribedClients
    (MessageRouter.subscriptionManager (subscribed router)) "x.y"
    (Some SubscriptionManager.KindEvent) = ["app.panel"]
  /\ snd (fst (MessageRouter.route MessageRouter.quiet (subscribed router) event)) = []
  /\ Scenario.deliveries
       (snd (fst (MessageRouter.route MessageRouter.quiet (subscribed Scenario.router0)
                    event)))
     = [("app.panel", "event changed")].
Proof. repeat split; vm_compute; reflexivity. Qed.

(** *** Registering and unregistering *)

Lemma JsMap_delete_set_fresh {V : Type} (m : JsMap.t V) (k : string) (v : V) :
  JsMap.get m k = None -> JsMap.delete (JsMap.set m k v) k = m.
Proof.
  induction m as [|[k' v'] m IH]; simpl.
  - now rewrite String.eqb_refl.
  - destruct (String.eqb k' k) eqn:E; [discriminate|]. intros H. simpl.
    now rewrite E, IH.
Qed.

(** X20. [registerTarget] refuses a namespace that is taken and leaves the
    router as it is. On a free namespace it succeeds: the namespace then
    resolves to the target, every other namespace is found as before, a
    second registration under it throws, and [unregisterTarget] of the
    namespace answers [true] and gives back the table of targets as it was
    before the registration. *)
Theorem X20_registerTarget (r : MessageRouter.t) (target : MessageRouter.RouteTarget.t) :
  let namespace := MessageRouter.RouteTarget.namespace target in
  if JsMap.has (MessageRouter.targets r) namespace
  then MessageRouter.registerTarget r target = None
  else
    exists r',
      MessageRouter.registerTarget r target = Some r'
      /\ JsMap.get (MessageRouter.targets r') namespace = Some target
      /\ MessageRouter.findTarget r' namespace = Some target
      /\ (forall other, other <> namespace ->
            JsMap.get (MessageRouter.targets r') other
            = JsMap.get (MessageRouter.targets r) other)
      /\ MessageRouter.registerTarget r' target = None
      /\ fst (MessageRouter.unregisterTarget r' namespace) = true
      /\ MessageRouter.targets (snd (MessageRouter.unregisterTarget r' namespace))
         = MessageRouter.targets r.
Proof.
  intros namespace. unfold MessageRouter.registerTarget. fold namespace.
  destruct (JsMap.has (MessageRouter.targets r) namespace) eqn:Hhas; [reflexivity|].
  assert (Hfree : JsMap.get (MessageRouter.targets r) namespace = None).
  { unfold JsMap.has in Hhas.
    now destruct (JsMap.get (MessageRouter.targets r) namespace). }
  eexists. split; [reflexivity|]. simpl.
  assert (Hget : JsMap.get (JsMap.set (MessageRouter.targets r) namespace target) namespace
                 = Some target) by apply JsMap_get_set_same.
  split; [exact Hget|]. split.
  { unfold MessageRouter.findTarget. simpl. now rewrite Hget. }
  split; [intros other Hne; apply JsMap_get_set_other; congruence|].
  split.
  { unfold JsMap.has. now rewrite Hget. }
  unfold MessageRouter.unregisterTarget. simpl. rewrite Hget. simpl.
  split; [reflexivity | now apply JsMap_delete_set_fresh].
Qed.

(** *** Acks and errors on their way back *)

(** X23. Acks and errors are forwarded by the exact namespace only. An ack
    is handed, unchanged, to the target registered under exactly
    [message.target], and to nobody when there is none; an error likewise,
    and an error whose target is missing or empty is dropped without a
    lookup. Neither goes through the prefix resolution that commands get,
    so an ack addressed below a registered namespace is not delivered. *)
Theorem X23_replies_by_exact_namespace (h : MessageRouter.Handlers) (r : MessageRouter.t) :
  let seen (calls : list MessageRouter.Call) :=
    map (fun c => (MessageRouter.callee c, MessageRouter.delivered c)) calls in
  (forall id source target path p timestamp correlationId sequence ttl key,
      let message :=
        Protocol.mkMessage id source target path (Protocol.PAck p) timestamp
          correlationId sequence ttl key in
      seen (snd (fst (MessageRouter.route h r message)))
      = match target with
        | Some namespace =>
            match JsMap.get (MessageRouter.targets r) namespace with
            | Some registered => [(registered, message)]
            | None => []
            end
        | None => []
        end)
  /\ (forall id source target path p timestamp correlationId sequence ttl key,
        let message :=
          Protocol.mkMessage id source target path (Protocol.PError p) timestamp
            correlationId sequence ttl key in
        seen (snd (fst (MessageRouter.route h r message)))
        = match target with
          | Some (String _ _ as namespace) =>
              match JsMap.get (MessageRouter.targets r) namespace with
              | Some registered => [(registered, message)]
              | None => []
              end
          | _ => []
          end).
Proof.
  intros seen. split.
  - intros id source target path p timestamp correlationId sequence ttl key message.
    unfold MessageRouter.route, MessageRouter.routeWith, MessageRouter.handleAck. simpl.
    match goal with
    | |- context [MessageRouter.forward _ ?r0 _ _] =>
        assert (Htargets : MessageRouter.targets r0 = MessageRouter.targets r)
          by (unfold MessageRouter.idempotencyKeyOf;
              repeat match goal with
                     | |- context [match ?x with _ => _ end] => destruct x; simpl
                     end; reflexivity);
        generalize dependent r0
    end.
    intros r0 Htargets. rewrite Htargets.
    destruct target as [namespace|]; [|reflexivity].
    destruct (JsMap.get (MessageRouter.targets r) namespace) as [registered|];
      [|reflexivity].
    unfold MessageRouter.forward.
    destruct (invoke_shape h r0 registered message) as (r' & nested & ->).
    now destruct (snd (MessageRouter.react h registered message)).
  - intros id source target path p timestamp correlationId sequence ttl key message.
    unfold MessageRouter.route, MessageRouter.routeWith, MessageRouter.handleError. simpl.
    destruct target as [[|c namespace]|]; simpl; try reflexivity.
    destruct (JsMap.get (MessageRouter.targets r) (String c namespace)) as [registered|];
      [|reflexivity].
    unfold MessageRouter.forward.
    destruct (invoke_shape h r registered message) as (r' & nested & ->).
    now destruct (snd (MessageRouter.react h registered message)).
Qed.

(** A command addressed below a registered namespace reaches the target; an
    ack addressed there reaches nobody. *)
Example ack_below_a_namespace_is_dropped :
  let ack :=
    fst (Protocol.createAck
           (Protocol.AckOptions.mk "companion.satellite" "app.panel.left" "p" "cmd-1"
              Protocol.AckStatus.COMPLETED Js.JUndefined None None)
           0 Scenario.runtime0) in
  MessageRouter.findTarget Scenario.router0 "app.panel.left" = Some Scenario.panel
  /\ snd (fst (MessageRouter.route MessageRouter.quiet Scenario.router0 ack)) = [].
Proof. split; vm_compute; reflexivity. Qed.

(** *** The idempotency cache *)

(** X21. A command that fails is not remembered. When the target's handler
    throws or rejects on a command whose idempotency key is not cached, with
    handlers that do not call back into the router, the sender is called
    with the [received] ack and then with an error of code [ADAPTER_ERROR]
    carrying the thrown error's message (or [Unknown error]); the key is not
    put in the cache, so the same command sent again is dispatched again. *)
Theorem X21_failed_command_is_not_cached (h : MessageRouter.Handlers)
  (r : MessageRouter.t) (message : Protocol.BridgeMessage)
  (p : Protocol.Command.Payload) (key namespace : string)
  (target sender : MessageRouter.RouteTarget.t) (thrown : MessageRouter.Thrown) :
  Protocol.payload message = Protocol.PCommand p ->
  MessageRouter.idempotencyKeyOf r (Protocol.idempotencyKey message) = Some key ->
  JsMap.get (MessageRouter.idempotencyCache r) key = None ->
  Protocol.target message = Some namespace ->
  MessageRouter.findTarget r namespace = Some target ->
  JsMap.get (MessageRouter.targets r) (Protocol.source message) = Some sender ->
  (forall t m, fst (MessageRouter.react h t m) = []) ->
  (forall m, MessageRouter.ackStatus m = Some Protocol.AckStatus.RECEIVED ->
             snd (MessageRouter.react h sender m) = MessageRouter.Returns) ->
  snd (MessageRouter.react h target message) = MessageRouter.Rejects thrown
  \/ snd (MessageRouter.react h target message) = MessageRouter.Throws thrown ->
  exists r' ack error settled,
    MessageRouter.route h r message
    = (r', [MessageRouter.Invoke sender ack []; MessageRouter.Invoke target message [];
            MessageRouter.Invoke sender error []], settled)
    /\ MessageRouter.ackStatus ack = Some Protocol.AckStatus.RECEIVED
    /\ Protocol.payload error
       = Protocol.PError
           (Protocol.Error.mk Protocol.ErrorCode.ADAPTER_ERROR
              (MessageRouter.errorMessageOf thrown) Js.JUndefined
              (Some (Protocol.id message)))
    /\ MessageRouter.idempotencyCache r' = MessageRouter.idempotencyCache r
    /\ MessageRouter.answeredFromCache r' message = false
    /\ MessageRouter.routeCommand (MessageRouter.invoke h) r' message
       = MessageRouter.dispatchCommand (MessageRouter.invoke h) r' message.
Proof.
  intros Hp Hkey Hfresh Htarget Hfind Hsender Hquiet Hack Hfail.
  assert (Hnot : MessageRouter.answeredFromCache r message = false).
  { unfold MessageRouter.answeredFromCache, JsMap.has. now rewrite Hkey, Hfresh. }
  unfold MessageRouter.route, MessageRouter.routeWith. rewrite Hp.
  rewrite (routeCommand_not_cached _ _ _ Hnot).
  unfold MessageRouter.dispatchCommand at 1. rewrite Htarget, Hfind.
  unfold MessageRouter.makeAck. cbn [Protocol.next Protocol.createAck
    Protocol.generateUuidV7 MessageRouter.targets MessageRouter.withRuntime
    MessageRouter.withSequenceCounter MessageRouter.runtime MessageRouter.sequenceCounter].
  rewrite Hsender.
  rewrite invoke_no_reentry by apply Hquiet.
  rewrite Hack by reflexivity.
  rewrite invoke_no_reentry by apply Hquiet.
  destruct Hfail as [-> | ->]; unfold MessageRouter.sendError;
    cbn [Protocol.next Protocol.createError Protocol.generateUuidV7 MessageRouter.targets
         MessageRouter.withRuntime MessageRouter.withSequenceCounter MessageRouter.runtime
         MessageRouter.sequenceCounter MessageRouter.withIdempotencyCache];
    rewrite Hsender;
    rewrite invoke_no_reentry by apply Hquiet;
    match goal with
    | |- context [snd (MessageRouter.react h sender ?e)] =>
        destruct (snd (MessageRouter.react h sender e))
    end;
    do 4 eexists; (split; [reflexivity|]);
    (split; [reflexivity|]); (split; [reflexivity|]); (split; [reflexivity|]);
    (assert (Hnot' : forall r',
                MessageRouter.options r' = MessageRouter.options r ->
                MessageRouter.idempotencyCache r' = MessageRouter.idempotencyCache r ->
                MessageRouter.answeredFromCache r' message = false)
       by (intros r' Ho Hc; unfold MessageRouter.answeredFromCache,
             MessageRouter.idempotencyKeyOf, JsMap.has in *;
           rewrite Ho, Hc; exact Hnot));
    (split; [now apply Hnot' | apply routeCommand_not_cached; now apply Hnot']).
Qed.

Lemma X21_failed_command_is_not_cached_witness :
  let h :=
    MessageRouter.MkHandlers
      (fun t _ =>
         ([], if String.eqb (MessageRouter.RouteTarget.namespace t) "companion"
              then MessageRouter.Rejects (MessageRouter.ErrorObject "socket closed")
              else MessageRouter.Returns)) in
  exists r' ack error settled,
    MessageRouter.route h Scenario.router0 Scenario.pressKey5
    = (r', [MessageRouter.Invoke Scenario.panel ack [];
            MessageRouter.Invoke Scenario.companion Scenario.pressKey5 [];
            MessageRouter.Invoke Scenario.panel error []], settled)
    /\ MessageRouter.ackStatus ack = Some Protocol.AckStatus.RECEIVED
    /\ Protocol.payload error
       = Protocol.PError
           (Protocol.Error.mk Protocol.ErrorCode.ADAPTER_ERROR "socket closed"
              Js.JUndefined (Some "cmd-1"))
    /\ MessageRouter.idempotencyCache r' = MessageRouter.idempotencyCache Scenario.router0
    /\ MessageRouter.answeredFromCache r' Scenario.pressKey5 = false
    /\ MessageRouter.routeCommand (MessageRouter.invoke h) r' Scenario.pressKey5
       = MessageRouter.dispatchCommand (MessageRouter.invoke h) r' Scenario.pressKey5.
Proof.
  intros h.
  refine (X21_failed_command_is_not_cached h Scenario.router0 Scenario.pressKey5
            (Protocol.Command.mk "press"
               (Some (Protocol.Params.mk (Some 5%Z) None None None None None)))
            "K1" "companion.satellite" Scenario.companion Scenario.panel
            (MessageRouter.ErrorObject "socket closed")
            eq_refl eq_refl eq_refl eq_refl eq_refl eq_refl _ _ _).
  - intros t m. reflexivity.
  - intros m _. reflexivity.
  - left. reflexivity.
Defined.

Lemma cleanupExpired_keeps_young (r : MessageRouter.t) (key : string)
  (record : MessageRouter.IdempotencyRecord.t) :
  JsMap.get (MessageRouter.idempotencyCache r) key = Some record ->
  (Protocol.Date_now (MessageRouter.runtime r)
   - MessageRouter.IdempotencyRecord.timestamp record
   <= MessageRouter.RouterOptions.idempotencyTtl (MessageRouter.options r) * 2)%Z ->
  JsMap.get (MessageRouter.idempotencyCache (MessageRouter.cleanupExpired r)) key
  = Some record.
Proof.
  intros Hget Hyoung. unfold MessageRouter.cleanupExpired. simpl.
  apply JsMap_get_filter_kept; [exact Hget|]. simpl.
  apply negb_true_iff. apply Z.ltb_ge. exact Hyoung.
Qed.

(** X22. The sweep forgets an idempotency key only when it is older than
    twice the TTL. In a router with any history, a command whose key was
    cached no more than [2 * idempotencyTtl] ago is still in the cache after
    [cleanupExpired], and routing it then calls no handler and delivers
    nothing, although the TTL itself may have passed. *)
Theorem X22_sweep_keeps_twice_the_ttl (store : StateStore.t)
  (options : MessageRouter.RouterOptions.t) (rt : Protocol.Runtime)
  (actions : list MessageRouter.Action) (h : MessageRouter.Handlers)
  (message : Protocol.BridgeMessage) (p : Protocol.Command.Payload) (key : string)
  (record : MessageRouter.IdempotencyRecord.t) :
  let r := fst (MessageRouter.run (MessageRouter.create store options rt) actions) in
  let swept := MessageRouter.cleanupExpired r in
  Protocol.payload message = Protocol.PCommand p ->
  MessageRouter.idempotencyKeyOf r (Protocol.idempotencyKey message) = Some key ->
  JsMap.get (MessageRouter.idempotencyCache r) key = Some record ->
  (Protocol.Date_now (MessageRouter.runtime r)
   - MessageRouter.IdempotencyRecord.timestamp record
   <= MessageRouter.RouterOptions.idempotencyTtl (MessageRouter.options r) * 2)%Z ->
  JsMap.get (MessageRouter.idempotencyCache swept) key = Some record
  /\ MessageRouter.route h swept message = (swept, [], MessageRouter.Fulfilled).
Proof.
  intros r swept Hp Hkey Hget Hyoung.
  pose proof (cleanupExpired_keeps_young r key record Hget Hyoung) as Hkept.
  split; [exact Hkept|].
  assert (Hr : MessageRouter.inFlightOnly r).
  { apply run_pends. split; [reflexivity | constructor]. }
  destruct Hr as [_ Hresults]. rewrite Forall_forall in Hresults.
  pose proof (Hresults _ (JsMap_get_in _ _ _ Hget)) as Hnone. simpl in Hnone.
  destruct record as [result stamp]. simpl in Hnone. subst result.
  now apply (replay_of_in_flight_key_is_dropped h swept message p key stamp).
Qed.

Lemma X22_sweep_keeps_twice_the_ttl_witness :
  let h := CompanionAdapter.asHandlers Scenario.adapterOnline Scenario.runtime0
             Scenario.companion in
  let r :=
    fst (MessageRouter.run
           (MessageRouter.create (StateStore.create "hub.core")
              MessageRouter.RouterOptions.defaults Scenario.runtime0)
           [MessageRouter.RegisterTarget Scenario.panel;
            MessageRouter.RegisterTarget Scenario.companion;
            MessageRouter.Route Scenario.pressKey5 h;
            MessageRouter.ClockReads 121000]) in
  let swept := MessageRouter.cleanupExpired r in
  (Protocol.Date_now (MessageRouter.runtime r) - 1000
   <= MessageRouter.RouterOptions.idempotencyTtl (MessageRouter.options r) * 2)%Z
  /\ JsMap.get (MessageRouter.idempotencyCache swept) "K1"
     = Some (MessageRouter.IdempotencyRecord.mk None 1000)
  /\ MessageRouter.route h swept Scenario.pressKey5 = (swept, [], MessageRouter.Fulfilled).
Proof.
  intros h r swept. split; [vm_compute; discriminate|].
  refine (X22_sweep_keeps_twice_the_ttl (StateStore.create "hub.core")
            MessageRouter.RouterOptions.defaults Scenario.runtime0
            [MessageRouter.RegisterTarget Scenario.panel;
             MessageRouter.RegisterTarget Scenario.companion;
             MessageRouter.Route Scenario.pressKey5 h;
             MessageRouter.ClockReads 121000]
            h Scenario.pressKey5
            (Protocol.Command.mk "press"
               (Some (Protocol.Params.mk (Some 5%Z) None None None None None)))
            "K1" (MessageRouter.IdempotencyRecord.mk None 1000)
            eq_refl eq_refl eq_refl _).
  vm_compute. discriminate.
Defined.


(** *** Routing leaves the targets and the options alone

    Whatever is routed and whatever the handlers route in turn, the table of
    targets and the options stay what they were. *)

Section RouterFrame.

Variable ts : JsMap.t MessageRouter.RouteTarget.t.
Variable os : MessageRouter.RouterOptions.t.

#[local] Abbreviation framed r :=
  (MessageRouter.targets r = ts /\ MessageRouter.options r = os) (only parsing).

Section WithInvoker.

Variable call : MessageRouter.Invoker.
Hypothesis call_frames :
  forall r t m, framed r ->
  framed (fst (fst (call r t m))).

Ltac calling :=
  match goal with
  | |- context [call ?r ?t ?m] =>
      let H := fresh "Hkept" in
      let r' := fresh "r" in
      let c := fresh "c" in
      let done := fresh "done" in
      assert (H : framed (fst (fst (call r t m))))
        by (apply call_frames; assumption);
      destruct (call r t m) as [[r' c] done]; simpl in H
  end.

Ltac cases :=
  repeat match goal with
         | |- context [match ?x with _ => _ end] => destruct x; simpl
         end.

Lemma sendError_frames (r : MessageRouter.t) (m : Protocol.BridgeMessage)
  (code text : string) :
  framed r ->
    framed (fst (fst (MessageRouter.sendError call r m code text))).
Proof.
  intros Hr. unfold MessageRouter.sendError. simpl.
  destruct (JsMap.get (MessageRouter.targets r) (Protocol.source m)); [|exact Hr].
  calling. cases; exact Hkept.
Qed.

Lemma dispatchCommand_frames (r : MessageRouter.t) (m : Protocol.BridgeMessage) :
  framed r ->
    framed (fst (fst (MessageRouter.dispatchCommand call r m))).
Proof.
  intros Hr. unfold MessageRouter.dispatchCommand.
  destruct (Protocol.target m) as [namespace|]; [|exact Hr].
  destruct (MessageRouter.findTarget r namespace) as [target|];
    [|now apply sendError_frames].
  unfold MessageRouter.makeAck. simpl.
  destruct (JsMap.get (MessageRouter.targets r) (Protocol.source m)) as [st|].
  - calling. destruct done; simpl; try exact Hkept.
    calling. destruct done; simpl;
      try (match goal with
           | |- context [MessageRouter.sendError call ?r0 ?m0 ?c0 ?t0] =>
               pose proof (sendError_frames r0 m0 c0 t0 Hkept0);
               destruct (MessageRouter.sendError call r0 m0 c0 t0) as [[? ?] ?]
           end; assumption).
    destruct (MessageRouter.idempotencyKeyOf r1 (Protocol.idempotencyKey m));
      [exact Hkept0 | exact Hkept0].
  - simpl. calling. destruct done; simpl;
      try (match goal with
           | |- context [MessageRouter.sendError call ?r0 ?m0 ?c0 ?t0] =>
               pose proof (sendError_frames r0 m0 c0 t0 Hkept);
               destruct (MessageRouter.sendError call r0 m0 c0 t0) as [[? ?] ?]
           end; assumption).
    destruct (MessageRouter.idempotencyKeyOf r0 (Protocol.idempotencyKey m));
      [exact Hkept | exact Hkept].
Qed.

Lemma routeCommand_frames (r : MessageRouter.t) (m : Protocol.BridgeMessage) :
  framed r ->
    framed (fst (fst (MessageRouter.routeCommand call r m))).
Proof.
  intros Hr. unfold MessageRouter.routeCommand.
  destruct (MessageRouter.idempotencyKeyOf r (Protocol.idempotencyKey m)) as [key|];
    [|now apply dispatchCommand_frames].
  destruct (JsMap.get (MessageRouter.idempotencyCache r) key) as [cached|];
    [|now apply dispatchCommand_frames].
  destruct (MessageRouter.IdempotencyRecord.result cached); [|exact Hr].
  destruct (JsMap.get (MessageRouter.targets r) (Protocol.source m)); [|exact Hr].
  calling. cases; exact Hkept.
Qed.

Lemma deliverEvent_frames (m : Protocol.BridgeMessage) (clients : list string) :
  forall r, framed r ->
    framed (fst (MessageRouter.deliverEvent call r m clients)).
Proof.
  induction clients as [|clientId rest IH]; intros r Hr; simpl; [exact Hr|].
  destruct (MessageRouter.findTargetById r clientId) as [target|]; [|now apply IH].
  destruct (negb _); [|now apply IH].
  calling. specialize (IH _ Hkept).
  destruct (MessageRouter.deliverEvent call r0 m rest). exact IH.
Qed.

Lemma deliverState_frames (m : Protocol.BridgeMessage) (owner : string)
  (clients : list string) :
  forall r, framed r ->
    framed (fst (MessageRouter.deliverState call r m owner clients)).
Proof.
  induction clients as [|clientId rest IH]; intros r Hr; simpl; [exact Hr|].
  destruct (MessageRouter.findTargetById r clientId) as [target|]; [|now apply IH].
  destruct (negb _); [|now apply IH].
  calling. specialize (IH _ Hkept).
  destruct done; try exact Hkept;
    destruct (MessageRouter.deliverState call r0 m owner rest); exact IH.
Qed.

Lemma storeSet_frames (r : MessageRouter.t) (path : string) (value : Js.Value)
  (owner : string) :
  framed r ->
    framed (fst (fst (MessageRouter.storeSet call r path value owner))).
Proof.
  intros Hr. unfold MessageRouter.storeSet.
  destruct (StateStore.set _ _ path value owner) as [store result].
  destruct result; try exact Hr.
  unfold MessageRouter.handleStateDelta, StateStore.deltaToMessage,
    StateStore.entryToMessage. simpl.
  match goal with
  | |- context [MessageRouter.deliverState call ?r0 ?m0 ?o ?cl] =>
      pose proof (deliverState_frames m0 o cl r0 Hr);
      destruct (MessageRouter.deliverState call r0 m0 o cl)
  end. assumption.
Qed.

Lemma routeState_frames (r : MessageRouter.t) (m : Protocol.BridgeMessage)
  (p : Protocol.State.Payload) :
  framed r ->
    framed (fst (fst (MessageRouter.routeState call r m p))).
Proof.
  intros Hr. unfold MessageRouter.routeState.
  pose proof (storeSet_frames r (Protocol.path m) (Protocol.State.value p)
                (Protocol.source m) Hr) as Hset.
  destruct (MessageRouter.storeSet call r _ _ _) as [[r1 cs] result]. simpl in Hset.
  destruct result; try exact Hset. now apply sendError_frames.
Qed.

Lemma forward_frames (r : MessageRouter.t) (t : MessageRouter.RouteTarget.t)
  (m : Protocol.BridgeMessage) :
  framed r ->
    framed (fst (fst (MessageRouter.forward call r t m))).
Proof. intros Hr. unfold MessageRouter.forward. calling. cases; exact Hkept. Qed.

Lemma handleAck_frames (r : MessageRouter.t) (m : Protocol.BridgeMessage)
  (p : Protocol.Ack.Payload) :
  framed r ->
    framed (fst (fst (MessageRouter.handleAck call r m p))).
Proof.
  intros Hr. unfold MessageRouter.handleAck.
  match goal with
  | |- context [MessageRouter.forward call ?r0 _ _] =>
      assert (Hr0 : framed r0)
        by (unfold MessageRouter.idempotencyKeyOf in *; cases; exact Hr);
      generalize dependent r0
  end.
  intros r0 Hr0. destruct (Protocol.target m) as [namespace|]; [|exact Hr0].
  destruct (JsMap.get (MessageRouter.targets r0) namespace); [|exact Hr0].
  now apply forward_frames.
Qed.

Lemma handleError_frames (r : MessageRouter.t) (m : Protocol.BridgeMessage) :
  framed r ->
    framed (fst (fst (MessageRouter.handleError call r m))).
Proof.
  intros Hr. unfold MessageRouter.handleError.
  destruct (Js.truthyString (Protocol.target m)); [|exact Hr].
  destruct (Protocol.target m) as [namespace|]; [|exact Hr].
  destruct (JsMap.get (MessageRouter.targets r) namespace); [|exact Hr].
  now apply forward_frames.
Qed.

Lemma streamMessages_frames (t : MessageRouter.RouteTarget.t)
  (messages : list Protocol.BridgeMessage) :
  forall r, framed r ->
    framed (fst (fst (MessageRouter.streamMessages call r t messages))).
Proof.
  induction messages as [|m rest IH]; intros r Hr; simpl; [exact Hr|].
  calling. specialize (IH _ Hkept).
  destruct done; try exact Hkept.
  destruct (MessageRouter.streamMessages call r0 t rest) as [[? ?] ?]. exact IH.
Qed.

Lemma streamSnapshots_frames (t : MessageRouter.RouteTarget.t)
  (patterns : list string) :
  forall r, framed r ->
    framed (fst (fst (MessageRouter.streamSnapshots call r t patterns))).
Proof.
  induction patterns as [|pattern rest IH]; intros r Hr; simpl; [exact Hr|].
  destruct (StateStore.snapshotToMessages _ _ _) as [[messages store] rt].
  match goal with
  | |- context [MessageRouter.streamMessages call ?r0 t messages] =>
      pose proof (streamMessages_frames t messages r0 Hr) as Hstream;
      destruct (MessageRouter.streamMessages call r0 t messages) as [[r1 cs] failed]
  end.
  simpl in Hstream. destruct failed; [exact Hstream|].
  specialize (IH _ Hstream).
  destruct (MessageRouter.streamSnapshots call r1 t rest) as [[? ?] ?]. exact IH.
Qed.

Lemma handleSubscribe_frames (r : MessageRouter.t) (m : Protocol.BridgeMessage)
  (p : Protocol.Subscribe.Payload) :
  framed r ->
    framed (fst (fst (MessageRouter.handleSubscribe call r m p))).
Proof.
  intros Hr. unfold MessageRouter.handleSubscribe.
  simpl. unfold MessageRouter.makeAck. simpl.
  destruct (JsMap.get (MessageRouter.targets r) (Protocol.source m)) as [st|];
    [|exact Hr].
  calling. destruct done; try exact Hkept.
  destruct (MessageRouter.snapshotRequested p); [|exact Hkept].
  match goal with
  | |- context [MessageRouter.streamSnapshots call ?r1 st ?ps] =>
      pose proof (streamSnapshots_frames st ps r1 Hkept) as Hstream;
      destruct (MessageRouter.streamSnapshots call r1 st ps) as [[r2 cs] failed]
  end.
  simpl in Hstream. destruct failed; [exact Hstream|]. simpl.
  calling. destruct done; exact Hkept0.
Qed.

Lemma handleUnsubscribe_frames (r : MessageRouter.t) (m : Protocol.BridgeMessage)
  (p : Protocol.Unsubscribe.Payload) :
  framed r ->
    framed (fst (fst (MessageRouter.handleUnsubscribe call r m p))).
Proof.
  intros Hr. unfold MessageRouter.handleUnsubscribe.
  destruct (SubscriptionManager.unsubscribePatterns _ _ _) as [removed sm].
  unfold MessageRouter.makeAck. simpl.
  destruct (JsMap.get (MessageRouter.targets r) (Protocol.source m)) as [st|];
    [|exact Hr].
  now apply forward_frames.
Qed.

Lemma routeWith_frames (r : MessageRouter.t) (m : Protocol.BridgeMessage) :
  framed r ->
    framed (fst (fst (MessageRouter.routeWith call r m))).
Proof.
  intros Hr. unfold MessageRouter.routeWith.
  destruct (Protocol.payload m);
    auto using routeCommand_frames, routeState_frames, handleAck_frames,
      handleError_frames, handleSubscribe_frames, handleUnsubscribe_frames.
  unfold MessageRouter.routeEvent.
  match goal with
  | |- context [MessageRouter.deliverEvent call r m ?cl] =>
      pose proof (deliverEvent_frames m cl r Hr);
      destruct (MessageRouter.deliverEvent call r m cl)
  end. assumption.
Qed.

End WithInvoker.

Lemma invoke_frames (h : MessageRouter.Handlers) :
  forall r t m, framed r ->
    framed (fst (fst (MessageRouter.invoke h r t m))).
Proof.
  induction h as [h IH] using Handlers_induction.
  intros r t m Hr. specialize (IH t m). destruct h as [f]. simpl in *.
  revert r Hr. induction (fst (f t m)) as [|[m' inner] rest IHrest]; intros r Hr.
  - exact Hr.
  - inversion IH as [|? ? Hinner Hrest]; subst. simpl in Hinner.
    pose proof (routeWith_frames (MessageRouter.invoke inner) Hinner r m' Hr) as Hstep.
    destruct (MessageRouter.routeWith (MessageRouter.invoke inner) r m')
      as [[r1 cs] settled]. simpl in Hstep.
    specialize (IHrest Hrest r1 Hstep).
    match type of IHrest with
    | context [let '(_, _) := ?x in _] => destruct x as [r2 cs2]
    end.
    exact IHrest.
Qed.

End RouterFrame.


Lemma route_frames (h : MessageRouter.Handlers) (r : MessageRouter.t)
  (m : Protocol.BridgeMessage) :
  MessageRouter.targets (fst (fst (MessageRouter.route h r m))) = MessageRouter.targets r
  /\ MessageRouter.options (fst (fst (MessageRouter.route h r m))) = MessageRouter.options r.
Proof.
  apply (routeWith_frames (MessageRouter.targets r) (MessageRouter.options r)
           (MessageRouter.invoke h));
    [apply invoke_frames | now split].
Qed.

Lemma storeSet_route_frames (h : MessageRouter.Handlers) (r : MessageRouter.t)
  (path : string) (value : Js.Value) (owner : string) :
  let r' := fst (fst (MessageRouter.storeSet (MessageRouter.invoke h) r path value owner)) in
  MessageRouter.targets r' = MessageRouter.targets r
  /\ MessageRouter.options r' = MessageRouter.options r.
Proof.
  apply (storeSet_frames (MessageRouter.targets r) (MessageRouter.options r)
           (MessageRouter.invoke h));
    [apply invoke_frames | now split].
Qed.

(** *** Routers reached from a new one *)

(** A namespace is registered once. *)
Lemma step_unique_targets (r : MessageRouter.t) (a : MessageRouter.Action) :
  JsMap.unique (MessageRouter.targets r) ->
  JsMap.unique (MessageRouter.targets (fst (MessageRouter.step r a))).
Proof.
  intros Hr. destruct a as [m h|path value owner h|target|namespace| |now]; simpl.
  - pose proof (route_frames h r m) as [H _].
    destruct (MessageRouter.route h r m) as [[? ?] ?]. simpl in *. now rewrite H.
  - pose proof (storeSet_route_frames h r path value owner) as [H _].
    destruct (MessageRouter.storeSet (MessageRouter.invoke h) r path value owner)
      as [[? ?] ?].
    simpl in *. now rewrite H.
  - unfold MessageRouter.registerTarget. destruct (JsMap.has _ _); [exact Hr|].
    simpl. now apply JsMap_unique_set.
  - unfold MessageRouter.unregisterTarget.
    destruct (JsMap.get (MessageRouter.targets r) namespace); [|exact Hr].
    simpl. now apply JsMap_unique_delete.
  - exact Hr.
  - exact Hr.
Qed.

Lemma run_unique_targets (actions : list MessageRouter.Action) :
  forall r, JsMap.unique (MessageRouter.targets r) ->
    JsMap.unique (MessageRouter.targets (fst (MessageRouter.run r actions))).
Proof.
  induction actions as [|a rest IH]; intros r Hr; simpl; [exact Hr|].
  pose proof (step_unique_targets r a Hr) as Hstep.
  destruct (MessageRouter.step r a) as [r1 cs]. specialize (IH r1 Hstep).
  destruct (MessageRouter.run r1 rest). exact IH.
Qed.

(** The subscription manager of a router keeps its indexes in agreement. *)
Lemma run_managed (actions : list MessageRouter.Action) (r : MessageRouter.t) :
  SubscriptionManager.idsIssued (MessageRouter.subscriptionManager r)
  /\ SubscriptionManager.inSync (MessageRouter.subscriptionManager r) ->
  let sm := MessageRouter.subscriptionManager (fst (MessageRouter.run r actions)) in
  SubscriptionManager.idsIssued sm /\ SubscriptionManager.inSync sm.
Proof.
  apply (run_keeps (fun sm => SubscriptionManager.idsIssued sm
                              /\ SubscriptionManager.inSync sm)).
  - intros now sm clientId patterns filter snapshot [Hi Hs]. split.
    + exact (apply_idsIssued sm
               (SubscriptionManager.OpSubscribe now clientId patterns filter snapshot) Hi).
    + now apply subscribe_inSync.
  - intros sm clientId patterns [Hi Hs]. split.
    + exact (apply_idsIssued sm
               (SubscriptionManager.OpUnsubscribePatterns clientId patterns) Hi).
    + now apply unsubscribePatterns_inSync.
  - intros sm clientId [Hi Hs]. split.
    + exact (apply_idsIssued sm (SubscriptionManager.OpUnsubscribeClient clientId) Hi).
    + now apply unsubscribeClient_inSync.
  - intros before sm _ [Hi Hs]. split.
    + exact (apply_idsIssued sm (SubscriptionManager.OpMarkSnapshotSent _) Hi).
    + now apply markSnapshotSent_inSync.
Qed.

Lemma created_router (store : StateStore.t) (options : MessageRouter.RouterOptions.t)
  (rt : Protocol.Runtime) (actions : list MessageRouter.Action) :
  let r := fst (MessageRouter.run (MessageRouter.create store options rt) actions) in
  JsMap.unique (MessageRouter.targets r)
  /\ SubscriptionManager.inSync (MessageRouter.subscriptionManager r)
  /\ MessageRouter.pendingCommands r = [].
Proof.
  intros r. split; [|split].
  - apply run_unique_targets. constructor.
  - apply run_managed. split; [constructor|]. repeat split; constructor.
  - apply (run_pends actions (MessageRouter.create store options rt)).
    split; constructor.
Qed.

(** X19. On a router reached from a new one, [unregisterTarget(ns)] answers
    false and changes nothing when [ns] is not registered. When it is, the
    answer is true, [ns] is no longer registered, every other namespace keeps
    its target, the subscriptions whose client id is the target's id are
    removed and no others, and the store, the idempotency cache and the
    options are left as they were. *)
Theorem X19_unregisterTarget (store : StateStore.t)
  (options : MessageRouter.RouterOptions.t) (rt : Protocol.Runtime)
  (actions : list MessageRouter.Action) (namespace : string) :
  let r := fst (MessageRouter.run (MessageRouter.create store options rt) actions) in
  let gone := fst (MessageRouter.unregisterTarget r namespace) in
  let r' := snd (MessageRouter.unregisterTarget r namespace) in
  match JsMap.get (MessageRouter.targets r) namespace with
  | None => gone = false /\ r' = r
  | Some target =>
      gone = true
      /\ JsMap.get (MessageRouter.targets r') namespace = None
      /\ (forall other, other <> namespace ->
            JsMap.get (MessageRouter.targets r') other
            = JsMap.get (MessageRouter.targets r) other)
      /\ SubscriptionManager.getClientSubscriptions
           (MessageRouter.subscriptionManager r') (MessageRouter.RouteTarget.id target) = []
      /\ (forall subscriptionId s,
            SubscriptionManager.getSubscription
              (MessageRouter.subscriptionManager r') subscriptionId = Some s
            <-> SubscriptionManager.getSubscription
                  (MessageRouter.subscriptionManager r) subscriptionId = Some s
                /\ SubscriptionManager.Subscription.clientId s
                   <> MessageRouter.RouteTarget.id target)
      /\ MessageRouter.stateStore r' = MessageRouter.stateStore r
      /\ MessageRouter.idempotencyCache r' = MessageRouter.idempotencyCache r
      /\ MessageRouter.options r' = MessageRouter.options r
  end.
Proof.
  intros r gone r'.
  destruct (created_router store options rt actions) as (Hu & Hsync & _). fold r in Hu, Hsync.
  unfold gone, r', MessageRouter.unregisterTarget.
  destruct (JsMap.get (MessageRouter.targets r) namespace) as [target|] eqn:Ht;
    [|now split].
  simpl. split; [reflexivity|].
  split; [now apply JsMap_get_delete_same|].
  split; [intros other Hne; apply JsMap_get_delete_other; congruence|].
  destruct (unsubscribeClient_result (MessageRouter.subscriptionManager r)
              (MessageRouter.RouteTarget.id target) Hsync) as (_ & Hnone & Hrest).
  split; [exact Hnone|]. split; [exact Hrest|]. now repeat split.
Qed.

(** X24. Routing a message, or writing to the store through the router,
    never registers or unregisters a target and never changes the router's
    options, whatever the handlers answer and whatever they route in turn
    while they are called. *)
Theorem X24_routing_keeps_targets (h : MessageRouter.Handlers) (r : MessageRouter.t) :
  (forall message,
      let r' := fst (fst (MessageRouter.route h r message)) in
      MessageRouter.targets r' = MessageRouter.targets r
      /\ MessageRouter.options r' = MessageRouter.options r)
  /\ (forall path value owner,
        let r' := fst (fst (MessageRouter.storeSet (MessageRouter.invoke h) r
                              path value owner)) in
        MessageRouter.targets r' = MessageRouter.targets r
        /\ MessageRouter.options r' = MessageRouter.options r).
Proof.
  split.
  - intros message. apply route_frames.
  - intros path value owner. apply storeSet_route_frames.
Qed.


(** ** The Companion adapter: every command is answered *)

Section AdapterAnswers.

Variable a : CompanionAdapter.t.
Variable command : Protocol.BridgeMessage.

(** An adapter that differs from [a] by what sending a frame changes. *)
#[local] Abbreviation like a1 :=
  (CompanionAdapter.router a1 = true
   /\ CompanionAdapter.namespace a1 = CompanionAdapter.namespace a
   /\ CompanionAdapter.sequenceCounter a1 = CompanionAdapter.sequenceCounter a
   /\ (CompanionAdapter.framesSent a1 = CompanionAdapter.framesSent a
       \/ exists frame,
            CompanionAdapter.framesSent a1
            = (CompanionAdapter.framesSent a ++ [frame])%list))
  (only parsing).

(** One ack for [command], from the adapter to the command's source. *)
#[local] Abbreviation answered result :=
  (exists a' rt' ack ackPayload,
      result = (a', rt', [ack])
      /\ Protocol.payload ack = Protocol.PAck ackPayload
      /\ Protocol.Ack.commandId ackPayload = Protocol.id command
      /\ Protocol.source ack = CompanionAdapter.namespace a
      /\ Protocol.target ack = Some (Protocol.source command)
      /\ Protocol.path ack = Protocol.path command
      /\ Protocol.correlationId ack = Protocol.correlationId command
      /\ Protocol.sequence ack = CompanionAdapter.sequenceCounter a
      /\ CompanionAdapter.sequenceCounter a' = S (CompanionAdapter.sequenceCounter a)
      /\ (CompanionAdapter.framesSent a' = CompanionAdapter.framesSent a
          \/ exists frame,
               CompanionAdapter.framesSent a'
               = (CompanionAdapter.framesSent a ++ [frame])%list))
  (only parsing).

Lemma sendCompletedAck_answers (a1 : CompanionAdapter.t) (rt : Protocol.Runtime)
  (result : Js.Value) :
  like a1 -> answered (CompanionAdapter.sendCompletedAck a1 rt command result).
Proof.
  intros (Hr & Hn & Hs & Hf). unfold CompanionAdapter.sendCompletedAck.
  rewrite Hr. simpl. do 4 eexists. split; [reflexivity|]. simpl.
  rewrite Hn, Hs. repeat split. exact Hf.
Qed.

Lemma sendErrorResponse_answers (a1 : CompanionAdapter.t) (rt : Protocol.Runtime)
  (code text : string) :
  like a1 -> answered (CompanionAdapter.sendErrorResponse a1 rt command code text).
Proof.
  intros (Hr & Hn & Hs & Hf). unfold CompanionAdapter.sendErrorResponse.
  rewrite Hr. simpl. do 4 eexists. split; [reflexivity|]. simpl.
  rewrite Hn, Hs. repeat split. exact Hf.
Qed.

Hypothesis attached : CompanionAdapter.router a = true.

Lemma itself_like : like a.
Proof. repeat split; [exact attached | now left]. Qed.

(** Sending, then counting the command. *)
Lemma sent_like (word : string) (args : list string) :
  like (CompanionAdapter.countCommandSent
          (snd (CompanionAdapter.sendSatelliteCommand a word args))).
Proof.
  unfold CompanionAdapter.sendSatelliteCommand, CompanionAdapter.framesSent.
  destruct (CompanionAdapter.ws a) as [w|] eqn:Hw; simpl;
    [|rewrite Hw; repeat split; [exact attached | now left]].
  destruct (CompanionAdapter.WebSocket.isOpen w); simpl;
    [|rewrite Hw; repeat split; [exact attached | now left]].
  destruct (CompanionAdapter.WebSocket.sendThrows w); simpl;
    [rewrite Hw; repeat split; [exact attached | now left]|].
  repeat split; [exact attached|]. right. now eexists.
Qed.

Lemma handleKeyCommand_answers (word : string) (rt : Protocol.Runtime)
  (params : option Protocol.Params.t) :
  answered (CompanionAdapter.handleKeyCommand word a rt command params).
Proof.
  unfold CompanionAdapter.handleKeyCommand.
  destruct (CompanionAdapter.keyIndexOf params) as [keyIndex|].
  - pose proof (sent_like CompanionAdapter.SatelliteCommand.KEY_PRESS
                  [CompanionAdapter.deviceId a; Js.Number_toString keyIndex; word]) as H.
    destruct (CompanionAdapter.sendSatelliteCommand a _ _) as [ok a1].
    now apply sendCompletedAck_answers.
  - apply sendErrorResponse_answers, itself_like.
Qed.

Lemma handleRotateCommand_answers (rt : Protocol.Runtime)
  (params : option Protocol.Params.t) :
  answered (CompanionAdapter.handleRotateCommand a rt command params).
Proof.
  unfold CompanionAdapter.handleRotateCommand.
  destruct (negb _); [apply sendErrorResponse_answers, itself_like|].
  destruct (Protocol.Params.keyIndex _) as [keyIndex|];
    [|apply sendErrorResponse_answers, itself_like].
  destruct (Protocol.Params.direction _) as [[|c direction]|];
    try (apply sendErrorResponse_answers, itself_like).
  destruct (Z.eqb keyIndex 0); [apply sendErrorResponse_answers, itself_like|].
  match goal with
  | |- context [CompanionAdapter.sendSatelliteCommand a ?w ?args] =>
      pose proof (sent_like w args) as H;
      destruct (CompanionAdapter.sendSatelliteCommand a w args) as [ok a1]
  end.
  now apply sendCompletedAck_answers.
Qed.

Lemma handleSetVariableCommand_answers (rt : Protocol.Runtime)
  (params : option Protocol.Params.t) :
  answered (CompanionAdapter.handleSetVariableCommand a rt command params).
Proof.
  unfold CompanionAdapter.handleSetVariableCommand.
  destruct (negb _); [apply sendErrorResponse_answers, itself_like|].
  destruct (Protocol.Params.name _) as [[|c name]|];
    try (apply sendErrorResponse_answers, itself_like).
  destruct (Protocol.Params.value _) as [value|];
    [|apply sendErrorResponse_answers, itself_like].
  match goal with
  | |- context [CompanionAdapter.sendSatelliteCommand a ?w ?args] =>
      pose proof (sent_like w args) as H;
      destruct (CompanionAdapter.sendSatelliteCommand a w args) as [ok a1]
  end.
  now apply sendCompletedAck_answers.
Qed.

Lemma handleGetVariableCommand_answers (rt : Protocol.Runtime)
  (params : option Protocol.Params.t) :
  answered (CompanionAdapter.handleGetVariableCommand a rt command params).
Proof.
  unfold CompanionAdapter.handleGetVariableCommand.
  destruct (Protocol.Params.name _) as [[|c name]|];
    try (apply sendErrorResponse_answers, itself_like).
  apply sendCompletedAck_answers, itself_like.
Qed.

Lemma handleClearKeysCommand_answers (rt : Protocol.Runtime) :
  answered (CompanionAdapter.handleClearKeysCommand a rt command).
Proof.
  unfold CompanionAdapter.handleClearKeysCommand.
  pose proof (sent_like CompanionAdapter.SatelliteCommand.KEYS_CLEAR
                [CompanionAdapter.deviceId a]) as H.
  destruct (CompanionAdapter.sendSatelliteCommand a _ _) as [ok a1].
  now apply sendCompletedAck_answers.
Qed.

End AdapterAnswers.

(** X25. While a router is attached, the adapter answers with exactly one
    ack every command whose params have the types its handlers cast them
    to: integers for [keyIndex], [page] and [bank], well-formed strings for
    [direction], [name] and [value], each present or absent. The ack goes
    from the adapter's namespace to the command's source and carries the
    command's id as [commandId], its path and its correlation id, numbered
    with the adapter's next sequence number; handling the command writes at
    most one frame to the socket. Params of another type ([keyIndex: null],
    a string with a lone surrogate), on which [toString] or
    [encodeURIComponent] throws before any ack, are not values of
    [Protocol.Params.t] and the statement says nothing of them. *)
Theorem X25_every_command_is_acked_once (a : CompanionAdapter.t)
  (rt : Protocol.Runtime) (message : Protocol.BridgeMessage)
  (p : Protocol.Command.Payload) :
  CompanionAdapter.router a = true ->
  Protocol.payload message = Protocol.PCommand p ->
  exists a' rt' ack ackPayload,
    CompanionAdapter.handleBridgeMessage a rt message = (a', rt', [ack])
    /\ Protocol.payload ack = Protocol.PAck ackPayload
    /\ Protocol.Ack.commandId ackPayload = Protocol.id message
    /\ Protocol.source ack = CompanionAdapter.namespace a
    /\ Protocol.target ack = Some (Protocol.source message)
    /\ Protocol.path ack = Protocol.path message
    /\ Protocol.correlationId ack = Protocol.correlationId message
    /\ Protocol.sequence ack = CompanionAdapter.sequenceCounter a
    /\ CompanionAdapter.sequenceCounter a' = S (CompanionAdapter.sequenceCounter a)
    /\ (CompanionAdapter.framesSent a' = CompanionAdapter.framesSent a
        \/ exists frame,
             CompanionAdapter.framesSent a'
             = (CompanionAdapter.framesSent a ++ [frame])%list).
Proof.
  intros Hr Hp. unfold CompanionAdapter.handleBridgeMessage. rewrite Hp.
  destruct (String.eqb _ "press"); [now apply handleKeyCommand_answers|].
  destruct (String.eqb _ "release"); [now apply handleKeyCommand_answers|].
  destruct (String.eqb _ "rotate"); [now apply handleRotateCommand_answers|].
  destruct (String.eqb _ "setVariable"); [now apply handleSetVariableCommand_answers|].
  destruct (String.eqb _ "getVariable"); [now apply handleGetVariableCommand_answers|].
  destruct (String.eqb _ "clearKeys"); [now apply handleClearKeysCommand_answers|].
  apply sendErrorResponse_answers. repeat split; [exact Hr | now left].
Qed.

Lemma X25_every_command_is_acked_once_witness :
  exists a' rt' ack ackPayload,
    CompanionAdapter.handleBridgeMessage Scenario.adapterOnline Scenario.runtime0
      Scenario.pressKey5 = (a', rt', [ack])
    /\ Protocol.payload ack = Protocol.PAck ackPayload
    /\ Protocol.Ack.commandId ackPayload = "cmd-1"
    /\ Protocol.source ack = "companion.satellite"
    /\ Protocol.target ack = Some "app.panel"
    /\ Protocol.path ack = "companion.device.dev"
    /\ Protocol.correlationId ack = None
    /\ Protocol.sequence ack = 0
    /\ CompanionAdapter.sequenceCounter a' = 1
    /\ (CompanionAdapter.framesSent a' = []
        \/ exists frame, CompanionAdapter.framesSent a' = ([] ++ [frame])%list).
Proof.
  exact (X25_every_command_is_acked_once Scenario.adapterOnline Scenario.runtime0
           Scenario.pressKey5
           (Protocol.Command.mk "press"
              (Some (Protocol.Params.mk (Some 5%Z) None None None None None)))
           eq_refl eq_refl).
Defined.

(** *** The counters *)

Lemma sendSatelliteCommand_counts (a : CompanionAdapter.t) (word : string)
  (args : list string) :
  let a' := snd (CompanionAdapter.sendSatelliteCommand a word args) in
  CompanionAdapter.Metrics.messagesSent (CompanionAdapter.metrics a')
  + length (CompanionAdapter.framesSent a)
  = CompanionAdapter.Metrics.messagesSent (CompanionAdapter.metrics a)
    + length (CompanionAdapter.framesSent a')
  /\ CompanionAdapter.Metrics.commandsFailed (CompanionAdapter.metrics a')
     = CompanionAdapter.Metrics.commandsFailed (CompanionAdapter.metrics a)
  /\ CompanionAdapter.router a' = CompanionAdapter.router a.
Proof.
  unfold CompanionAdapter.sendSatelliteCommand, CompanionAdapter.framesSent.
  destruct (CompanionAdapter.ws a) as [w|] eqn:Hw; simpl; [|now rewrite Hw].
  destruct (CompanionAdapter.WebSocket.isOpen w); simpl; [|now rewrite Hw].
  destruct (CompanionAdapter.WebSocket.sendThrows w); simpl; [now rewrite Hw|].
  rewrite length_app. simpl. repeat split. lia.
Qed.

Section AdapterCounts.

Variable a : CompanionAdapter.t.
Variable command : Protocol.BridgeMessage.

(** The failed acks among the messages handed to the router. *)
#[local] Abbreviation failures acks :=
  (length (filter (fun ack =>
                     match MessageRouter.ackStatus ack with
                     | Some Protocol.AckStatus.FAILED => true
                     | _ => false
                     end) acks))
  (only parsing).

#[local] Abbreviation sameCounts a1 :=
  (CompanionAdapter.Metrics.messagesSent (CompanionAdapter.metrics a1)
   + length (CompanionAdapter.framesSent a)
   = CompanionAdapter.Metrics.messagesSent (CompanionAdapter.metrics a)
     + length (CompanionAdapter.framesSent a1)
   /\ CompanionAdapter.Metrics.commandsFailed (CompanionAdapter.metrics a1)
      = CompanionAdapter.Metrics.commandsFailed (CompanionAdapter.metrics a))
  (only parsing).

#[local] Abbreviation counted result :=
  (CompanionAdapter.Metrics.messagesSent (CompanionAdapter.metrics (fst (fst result)))
   + length (CompanionAdapter.framesSent a)
   = CompanionAdapter.Metrics.messagesSent (CompanionAdapter.metrics a)
     + length (CompanionAdapter.framesSent (fst (fst result)))
   /\ CompanionAdapter.Metrics.commandsFailed (CompanionAdapter.metrics (fst (fst result)))
      = CompanionAdapter.Metrics.commandsFailed (CompanionAdapter.metrics a)
        + failures (snd result))
  (only parsing).

Lemma sendCompletedAck_counts (a1 : CompanionAdapter.t) (rt : Protocol.Runtime)
  (result : Js.Value) :
  sameCounts a1 -> counted (CompanionAdapter.sendCompletedAck a1 rt command result).
Proof.
  intros [Hm Hf]. unfold CompanionAdapter.sendCompletedAck.
  destruct (CompanionAdapter.router a1); simpl; split; auto; lia.
Qed.

Lemma sendErrorResponse_counts (a1 : CompanionAdapter.t) (rt : Protocol.Runtime)
  (code text : string) :
  sameCounts a1 -> counted (CompanionAdapter.sendErrorResponse a1 rt command code text).
Proof.
  intros [Hm Hf]. unfold CompanionAdapter.sendErrorResponse.
  destruct (CompanionAdapter.router a1); simpl; split; auto; lia.
Qed.

Lemma sent_counts (word : string) (args : list string) :
  sameCounts (CompanionAdapter.countCommandSent
                (snd (CompanionAdapter.sendSatelliteCommand a word args))).
Proof.
  destruct (sendSatelliteCommand_counts a word args) as (Hm & Hf & _).
  split; [exact Hm | exact Hf].
Qed.

Lemma handleBridgeMessage_counts (rt : Protocol.Runtime) :
  counted (CompanionAdapter.handleBridgeMessage a rt command).
Proof.
  assert (Ha : sameCounts a) by (split; reflexivity).
  assert (Hsent : forall word args ok a1,
             CompanionAdapter.sendSatelliteCommand a word args = (ok, a1) ->
             sameCounts (CompanionAdapter.countCommandSent a1)).
  { intros word args ok a1 E. pose proof (sent_counts word args) as H.
    now rewrite E in H. }
  unfold CompanionAdapter.handleBridgeMessage.
  destruct (Protocol.payload command) as [p| | | | | |]; try (simpl; split; lia).
  unfold CompanionAdapter.handlePressCommand, CompanionAdapter.handleReleaseCommand,
    CompanionAdapter.handleKeyCommand, CompanionAdapter.handleRotateCommand,
    CompanionAdapter.handleSetVariableCommand, CompanionAdapter.handleGetVariableCommand,
    CompanionAdapter.handleClearKeysCommand.
  repeat match goal with
         | |- context [if ?c then _ else _] => destruct c
         | |- context [match ?x with Some _ => _ | None => _ end] => destruct x
         | |- context [match ?x with EmptyString => _ | String _ _ => _ end] => destruct x
         | |- context [let '(_, _) := ?x in _] =>
             let E := fresh "E" in destruct x eqn:E; apply Hsent in E
         | |- _ => apply sendCompletedAck_counts; assumption
         | |- _ => apply sendErrorResponse_counts; assumption
         end.
Qed.

End AdapterCounts.

(** X26. Whatever message the adapter handles, [messagesSent] grows by the
    number of frames written to the socket, and [commandsFailed] by the
    number of failed acks handed to the router. *)
Theorem X26_counters_follow_the_wire (a : CompanionAdapter.t) (rt : Protocol.Runtime)
  (message : Protocol.BridgeMessage) :
  let a' := fst (fst (CompanionAdapter.handleBridgeMessage a rt message)) in
  let acks := snd (CompanionAdapter.handleBridgeMessage a rt message) in
  CompanionAdapter.Metrics.messagesSent (CompanionAdapter.metrics a')
  + length (CompanionAdapter.framesSent a)
  = CompanionAdapter.Metrics.messagesSent (CompanionAdapter.metrics a)
    + length (CompanionAdapter.framesSent a')
  /\ CompanionAdapter.Metrics.commandsFailed (CompanionAdapter.metrics a')
     = CompanionAdapter.Metrics.commandsFailed (CompanionAdapter.metrics a)
       + length (filter (fun ack =>
                           match MessageRouter.ackStatus ack with
                           | Some Protocol.AckStatus.FAILED => true
                           | _ => false
                           end) acks).
Proof.
  intros a' acks. unfold a', acks.
  apply handleBridgeMessage_counts.
Qed.

(** ** Identifiers: what the text of a UUID v7 holds *)

Lemma string_app_assoc (x y z : string) : (x ++ y) ++ z = x ++ (y ++ z).
Proof. induction x as [|c x IH]; simpl; [reflexivity | now rewrite IH]. Qed.

Lemma string_length_app (x y : string) :
  String.length (x ++ y) = String.length x + String.length y.
Proof. induction x as [|c x IH]; simpl; [reflexivity | now rewrite IH]. Qed.

Lemma hexValue_app (x y : string) :
  forall v, Uuid.hexValue v (x ++ y) = Uuid.hexValue (Uuid.hexValue v x) y.
Proof. induction x as [|c x IH]; intros v; simpl; [reflexivity | apply IH]. Qed.

(** A digit reads back as its value. *)
Lemma hexDigit_value (d : Z) :
  (0 <= d < 16)%Z -> Uuid.hexDigitValue (Js.hexDigit (Z.to_nat d)) = d.
Proof.
  intros Hd.
  assert (H : exists n, n < 16 /\ d = Z.of_nat n)
    by (exists (Z.to_nat d); split; lia).
  destruct H as (n & Hn & ->). rewrite Nat2Z.id.
  do 16 (destruct n as [|n]; [reflexivity|]). lia.
Qed.

(** [toHex] with fuel enough for [n]: the digits written read back as [n],
    and there are no more of them than [n] needs. *)
Lemma toHex_digits (fuel : nat) :
  forall n acc,
    (0 <= n < 16 ^ Z.of_nat fuel)%Z -> 1 <= fuel ->
    exists ds,
      Uuid.toHex fuel n acc = ds ++ acc
      /\ (forall v, Uuid.hexValue v ds
                    = (v * 16 ^ Z.of_nat (String.length ds) + n)%Z)
      /\ 1 <= String.length ds
      /\ (forall k, 1 <= k -> (n < 16 ^ Z.of_nat k)%Z -> String.length ds <= k).
Proof.
  induction fuel as [|fuel IH]; intros n acc Hn Hfuel; [lia|].
  cbn [Uuid.toHex].
  assert (Hmod : (0 <= n mod 16 < 16)%Z) by (apply Z.mod_pos_bound; lia).
  assert (Hdiv : (0 <= n / 16)%Z) by (apply Z.div_pos; lia).
  pose proof (Z.div_mod n 16 ltac:(lia)) as Hsplit.
  destruct (Z.eqb (n / 16) 0) eqn:E.
  - apply Z.eqb_eq in E.
    exists (String (Js.hexDigit (Z.to_nat (n mod 16))) EmptyString).
    split; [reflexivity|]. split; [|split; [simpl; lia|intros; simpl; lia]].
    intros v. cbn [Uuid.hexValue String.length].
    rewrite (hexDigit_value _ Hmod). change (16 ^ Z.of_nat 1)%Z with 16%Z. lia.
  - apply Z.eqb_neq in E.
    assert (Hpow : forall k, (16 ^ Z.of_nat (S k) = 16 * 16 ^ Z.of_nat k)%Z).
    { intros k. rewrite Nat2Z.inj_succ. apply Z.pow_succ_r. lia. }
    assert (Hfuel' : 1 <= fuel).
    { destruct fuel; [|lia]. change (16 ^ Z.of_nat 1)%Z with 16%Z in Hn.
      exfalso. apply E. apply Z.div_small. lia. }
    assert (Hn' : (0 <= n / 16 < 16 ^ Z.of_nat fuel)%Z).
    { split; [exact Hdiv|]. apply Z.div_lt_upper_bound; [lia|].
      rewrite <- Hpow. lia. }
    destruct (IH (n / 16)%Z (String (Js.hexDigit (Z.to_nat (n mod 16))) acc) Hn' Hfuel')
      as (ds & Heq & Hval & Hlen & Hmax).
    exists (ds ++ String (Js.hexDigit (Z.to_nat (n mod 16))) EmptyString).
    split; [now rewrite Heq, string_app_assoc|].
    split; [|split].
    + intros v. rewrite hexValue_app, Hval. cbn [Uuid.hexValue].
      rewrite (hexDigit_value _ Hmod), string_length_app. cbn [String.length].
      replace (String.length ds + 1) with (S (String.length ds)) by lia.
      rewrite Hpow. lia.
    + rewrite string_length_app. simpl. lia.
    + intros k Hk Hnk. rewrite string_length_app. cbn [String.length].
      destruct k as [|k]; [lia|].
      assert (Hk' : 1 <= k).
      { destruct k; [|lia]. change (16 ^ Z.of_nat 1)%Z with 16%Z in Hnk.
        exfalso. apply E. apply Z.div_small. lia. }
      assert (String.length ds <= k); [|lia].
      apply Hmax; [exact Hk'|]. apply Z.div_lt_upper_bound; [lia|].
      rewrite <- Hpow. exact Hnk.
Qed.

(** The fuel [Number_toString16] gives is enough. *)
Lemma enough_fuel (n : Z) :
  (0 <= n)%Z -> (n < 16 ^ Z.of_nat (S (Z.to_nat (Z.log2 n))))%Z.
Proof.
  intros Hn. pose proof (Z.log2_nonneg n) as Hlog.
  rewrite Nat2Z.inj_succ, Z2Nat.id by exact Hlog.
  destruct (Z.eq_dec n 0) as [->|Hne].
  - vm_compute. reflexivity.
  - destruct (Z.log2_spec n ltac:(lia)) as [_ Hlt].
    apply Z.lt_le_trans with (1 := Hlt).
    change 16%Z with (2 ^ 4)%Z. rewrite <- Z.pow_mul_r by lia.
    apply Z.pow_le_mono_r; lia.
Qed.

Lemma Number_toString16_digits (n : Z) :
  (0 <= n)%Z ->
  Uuid.hexValue 0 (Uuid.Number_toString16 n) = n
  /\ (forall k, 1 <= k -> (n < 16 ^ Z.of_nat k)%Z ->
                String.length (Uuid.Number_toString16 n) <= k).
Proof.
  intros Hn. unfold Uuid.Number_toString16.
  destruct (toHex_digits (S (Z.to_nat (Z.log2 n))) n EmptyString
              (conj Hn (enough_fuel n Hn)) ltac:(lia))
    as (ds & -> & Hval & _ & Hmax).
  assert (Hnil : forall s : string, s ++ EmptyString = s)
    by (induction s as [|c s IH]; simpl; [reflexivity | now rewrite IH]).
  rewrite Hnil. split; [rewrite Hval; lia | exact Hmax].
Qed.

(** Padding with zeros keeps the value and fills the length. *)
Lemma padStart_zeros (target : nat) (s : string) :
  String.length s <= target ->
  String.length (Uuid.padStart target "0" s) = target
  /\ Uuid.hexValue 0 (Uuid.padStart target "0" s) = Uuid.hexValue 0 s.
Proof.
  intros Hlen. unfold Uuid.padStart.
  assert (Hz : forall k, String.length (string_of_list_ascii (repeat "0"%char k)) = k
                         /\ Uuid.hexValue 0 (string_of_list_ascii (repeat "0"%char k)) = 0%Z).
  { induction k as [|k [IH1 IH2]]; [now split|]. simpl. rewrite IH1. now split. }
  destruct (Hz (target - String.length s)) as [H1 H2].
  rewrite string_length_app, hexValue_app, H1, H2. split; [lia | reflexivity].
Qed.

(** The timestamp, twelve digits that read back. *)
Lemma timestampHex_digits (now : Z) :
  (0 <= now < 2 ^ 48)%Z ->
  exists c1 c2 c3 c4 c5 c6 c7 c8 c9 c10 c11 c12,
    Uuid.padStart 12 "0" (Uuid.Number_toString16 now)
    = String c1 (String c2 (String c3 (String c4 (String c5 (String c6
        (String c7 (String c8 (String c9 (String c10 (String c11
          (String c12 EmptyString)))))))))))
    /\ Uuid.hexValue 0
         (String c1 (String c2 (String c3 (String c4 (String c5 (String c6
           (String c7 (String c8 (String c9 (String c10 (String c11
             (String c12 EmptyString)))))))))))) = now.
Proof.
  intros Hnow.
  destruct (Number_toString16_digits now ltac:(lia)) as [Hval Hmax].
  destruct (padStart_zeros 12 (Uuid.Number_toString16 now)) as [Hlen Hpad].
  { apply Hmax; [lia|]. change (16 ^ Z.of_nat 12)%Z with (2 ^ 48)%Z. lia. }
  rewrite Hval in Hpad.
  destruct (Uuid.padStart 12 "0" (Uuid.Number_toString16 now)) as [|c1 s];
    [discriminate Hlen|].
  do 11 (destruct s as [|? s]; [discriminate Hlen|]).
  destruct s; [|discriminate Hlen].
  do 12 eexists. split; [reflexivity | exact Hpad].
Qed.

(** *** Bytes, by cases over the 256 of them *)

Lemma every_byte (check : Z -> bool) :
  forallb (fun n => check (Z.of_nat n)) (seq 0 256) = true ->
  forall b, (0 <= b < 256)%Z -> check b = true.
Proof.
  intros Hall b Hb. rewrite forallb_forall in Hall.
  specialize (Hall (Z.to_nat b)). rewrite Z2Nat.id in Hall by lia.
  apply Hall, in_seq. lia.
Qed.

Lemma byteToHex_two (b : Z) :
  (0 <= b < 256)%Z ->
  exists c1 c2, Uuid.byteToHex b = String c1 (String c2 EmptyString).
Proof.
  intros Hb.
  pose proof (every_byte
                (fun b => match Uuid.byteToHex b with
                          | String _ (String _ EmptyString) => true
                          | _ => false
                          end) ltac:(vm_compute; reflexivity) b Hb) as H.
  simpl in H. destruct (Uuid.byteToHex b) as [|c1 [|c2 [|]]]; try discriminate H.
  now exists c1, c2.
Qed.

Lemma version_byte (b : Z) :
  (0 <= b < 256)%Z ->
  exists c, Uuid.byteToHex (Z.lor (Z.land b 15) 112) = String "7" (String c EmptyString).
Proof.
  intros Hb.
  pose proof (every_byte
                (fun b => match Uuid.byteToHex (Z.lor (Z.land b 15) 112) with
                          | String c1 (String _ EmptyString) => Ascii.eqb c1 "7"
                          | _ => false
                          end) ltac:(vm_compute; reflexivity) b Hb) as H.
  simpl in H.
  destruct (Uuid.byteToHex (Z.lor (Z.land b 15) 112)) as [|c1 [|c2 [|]]];
    try discriminate H.
  apply Ascii.eqb_eq in H. subst c1. now exists c2.
Qed.

Lemma variant_byte (b : Z) :
  (0 <= b < 256)%Z ->
  exists v c,
    Uuid.byteToHex (Z.lor (Z.land b 63) 128) = String v (String c EmptyString)
    /\ In v ["8"; "9"; "a"; "b"]%char.
Proof.
  intros Hb.
  pose proof (every_byte
                (fun b => match Uuid.byteToHex (Z.lor (Z.land b 63) 128) with
                          | String v (String _ EmptyString) =>
                              existsb (Ascii.eqb v) ["8"; "9"; "a"; "b"]%char
                          | _ => false
                          end) ltac:(vm_compute; reflexivity) b Hb) as H.
  cbv beta in H.
  destruct (Uuid.byteToHex (Z.lor (Z.land b 63) 128)) as [|v [|c [|]]];
    try discriminate H.
  exists v, c. split; [reflexivity|].
  apply existsb_exists in H as (x & Hin & Hx). apply Ascii.eqb_eq in Hx. now subst x.
Qed.

(** X28. For a clock reading below 2^48 and ten random bytes,
    [generateUuidV7] gives 36 characters in the groups 8-4-4-4-12 separated
    by hyphens; the first character of the third group is the version [7],
    the first of the fourth is one of [8], [9], [a], [b]; and the twelve
    hexadecimal digits of the first two groups read back as the clock
    reading. *)
Theorem X28_uuid_text (now : Z) (randomBytes : list Z) :
  (0 <= now < 2 ^ 48)%Z ->
  length randomBytes = 10 ->
  Forall (fun b => (0 <= b < 256)%Z) randomBytes ->
  let uuid := Uuid.generateUuidV7 now randomBytes in
  String.length uuid = 36
  /\ (forall i, In i [8; 13; 18; 23] -> String.get i uuid = Some "-"%char)
  /\ String.get 14 uuid = Some "7"%char
  /\ (exists v, String.get 19 uuid = Some v /\ In v ["8"; "9"; "a"; "b"]%char)
  /\ Uuid.timestampOf uuid = now.
Proof.
  intros Hnow Hlen Hbytes uuid.
  destruct randomBytes as [|b0 [|b1 [|b2 [|b3 [|b4 [|b5 [|b6 [|b7 [|b8 [|b9 [|]]]]]]]]]]];
    try discriminate Hlen.
  repeat match goal with
         | H : Forall _ (_ :: _) |- _ => inversion H; subst; clear H
         | H : Forall _ [] |- _ => clear H
         end.
  destruct (timestampHex_digits now Hnow)
    as (c1 & c2 & c3 & c4 & c5 & c6 & c7 & c8 & c9 & c10 & c11 & c12 & Hts & Hval).
  destruct (version_byte b0 ltac:(assumption)) as (h & Hversion).
  destruct (variant_byte b2 ltac:(assumption)) as (v & l & Hvariant & Hv).
  destruct (byteToHex_two b1 ltac:(assumption)) as (x1 & y1 & E1).
  destruct (byteToHex_two b3 ltac:(assumption)) as (x3 & y3 & E3).
  destruct (byteToHex_two b4 ltac:(assumption)) as (x4 & y4 & E4).
  destruct (byteToHex_two b5 ltac:(assumption)) as (x5 & y5 & E5).
  destruct (byteToHex_two b6 ltac:(assumption)) as (x6 & y6 & E6).
  destruct (byteToHex_two b7 ltac:(assumption)) as (x7 & y7 & E7).
  destruct (byteToHex_two b8 ltac:(assumption)) as (x8 & y8 & E8).
  destruct (byteToHex_two b9 ltac:(assumption)) as (x9 & y9 & E9).
  assert (Huuid : uuid
                  = String c1 (String c2 (String c3 (String c4 (String c5 (String c6
                      (String c7 (String c8
                    (String "-" (String c9 (String c10 (String c11 (String c12
                    (String "-" (String "7" (String h (String x1 (String y1
                    (String "-" (String v (String l (String x3 (String y3
                    (String "-" (String x4 (String y4 (String x5 (String y5
                      (String x6 (String y6 (String x7 (String y7 (String x8
                      (String y8 (String x9 (String y9
                         EmptyString)))))))))))))))))))))))))))))))))))).
  { unfold uuid, Uuid.generateUuidV7. rewrite Hts.
    cbn [nth Uuid.sliceBytes skipn firstn Nat.sub Uuid.bytesToHex map Js.join].
    fold (Uuid.byteToHex (Z.lor (Z.land b0 15) 112)).
    fold (Uuid.byteToHex (Z.lor (Z.land b2 63) 128)).
    fold (Uuid.byteToHex b3).
    rewrite Hversion, Hvariant, E1, E3, E4, E5, E6, E7, E8, E9. reflexivity. }
  rewrite Huuid. split; [reflexivity|]. split.
  { intros i [<-|[<-|[<-|[<-|[]]]]]; reflexivity. }
  split; [reflexivity|]. split; [exists v; split; [reflexivity | exact Hv]|].
  exact Hval.
Qed.

Lemma X28_uuid_text_witness :
  String.get 14 (Uuid.generateUuidV7 1700000000000 [255; 1; 2; 3; 4; 5; 6; 7; 8; 9]%Z)
  = Some "7"%char
  /\ Uuid.timestampOf
       (Uuid.generateUuidV7 1700000000000 [255; 1; 2; 3; 4; 5; 6; 7; 8; 9]%Z)
     = 1700000000000%Z.
Proof.
  pose proof (X28_uuid_text 1700000000000 [255; 1; 2; 3; 4; 5; 6; 7; 8; 9]%Z
                ltac:(vm_compute; split; [discriminate | reflexivity]) eq_refl
                ltac:(repeat constructor; vm_compute; discriminate)) as H.
  exact (conj (proj1 (proj2 (proj2 H))) (proj2 (proj2 (proj2 (proj2 H))))).
Defined.


(** ** The Companion adapter: capability detection *)

(** One turn sets the flag of its word and leaves the others. *)
Lemma detectArg_flags (c : CompanionAdapter.Detected.t) (shared : list string)
  (arg : string) :
  let f := CompanionAdapter.Detected.flags c in
  let f' := CompanionAdapter.Detected.flags
              (fst (CompanionAdapter.detectArg (c, shared) arg)) in
  CompanionAdapter.Capabilities.supportsVariables f'
  = CompanionAdapter.Capabilities.supportsVariables f || String.eqb arg "VARIABLES"
  /\ CompanionAdapter.Capabilities.supportsKeyImages f'
     = CompanionAdapter.Capabilities.supportsKeyImages f || String.eqb arg "KEY_IMAGES"
  /\ CompanionAdapter.Capabilities.supportsRotation f'
     = CompanionAdapter.Capabilities.supportsRotation f || String.eqb arg "ROTATION"
  /\ CompanionAdapter.Capabilities.supportsVariableWrite f'
     = CompanionAdapter.Capabilities.supportsVariableWrite f
       || String.eqb arg "VARIABLE_WRITE".
Proof.
  unfold CompanionAdapter.detectArg.
  destruct (String.prefix "API:" arg) eqn:P.
  - repeat match goal with
           | |- context [String.eqb arg ?w] =>
               let E := fresh "E" in
               destruct (String.eqb arg w) eqn:E;
               [apply String.eqb_eq in E; subst arg; discriminate P|]
           end.
    cbn. now rewrite !orb_false_r.
  - destruct (String.eqb arg "VARIABLES") eqn:E1;
      [apply String.eqb_eq in E1; subst arg; cbn;
       rewrite ?orb_true_r, ?orb_false_r; repeat split|].
    destruct (String.eqb arg "ROTATION") eqn:E2;
      [apply String.eqb_eq in E2; subst arg; cbn;
       rewrite ?orb_true_r, ?orb_false_r; repeat split|].
    destruct (String.eqb arg "VARIABLE_WRITE") eqn:E3;
      [apply String.eqb_eq in E3; subst arg; cbn;
       rewrite ?orb_true_r, ?orb_false_r; repeat split|].
    destruct (String.eqb arg "KEY_IMAGES") eqn:E4;
      [apply String.eqb_eq in E4; subst arg; cbn;
       rewrite ?orb_true_r, ?orb_false_r; repeat split|].
    cbn. now rewrite !orb_false_r.
Qed.

(** The flags after the loop: each is what it was, or set by its word. *)
Lemma detect_flags (args : list string) :
  forall c shared,
    let f := CompanionAdapter.Detected.flags c in
    let f' := CompanionAdapter.Detected.flags
                (fst (fold_left CompanionAdapter.detectArg args (c, shared))) in
    CompanionAdapter.Capabilities.supportsVariables f'
    = CompanionAdapter.Capabilities.supportsVariables f
      || existsb (String.eqb "VARIABLES") args
    /\ CompanionAdapter.Capabilities.supportsKeyImages f'
       = CompanionAdapter.Capabilities.supportsKeyImages f
         || existsb (String.eqb "KEY_IMAGES") args
    /\ CompanionAdapter.Capabilities.supportsRotation f'
       = CompanionAdapter.Capabilities.supportsRotation f
         || existsb (String.eqb "ROTATION") args
    /\ CompanionAdapter.Capabilities.supportsVariableWrite f'
       = CompanionAdapter.Capabilities.supportsVariableWrite f
         || existsb (String.eqb "VARIABLE_WRITE") args.
Proof.
  induction args as [|arg args IH]; intros c shared.
  - simpl. now rewrite !orb_false_r.
  - cbn [fold_left existsb]. cbv zeta.
    pose proof (detectArg_flags c shared arg) as Hstep. cbv zeta in Hstep.
    destruct (CompanionAdapter.detectArg (c, shared) arg) as [c1 shared1].
    specialize (IH c1 shared1). cbv zeta in IH. simpl in Hstep.
    destruct IH as (H1 & H2 & H3 & H4). destruct Hstep as (S1 & S2 & S3 & S4).
    rewrite H1, H2, H3, H4, S1, S2, S3, S4, !orb_assoc.
    rewrite !(String.eqb_sym arg). repeat split.
Qed.

(** What the loop pushes depends on the words alone. *)
Lemma detect_features (args : list string) :
  exists added,
    (forall c shared,
        snd (fold_left CompanionAdapter.detectArg args (c, shared)) = (shared ++ added)%list)
    /\ (forall word feature,
          In (word, feature)
             [("VARIABLES", "variables"); ("ROTATION", "rotation");
              ("VARIABLE_WRITE", "variable_write"); ("KEY_IMAGES", "key_images")] ->
          count_occ string_dec added feature = count_occ string_dec args word).
Proof.
  induction args as [|arg args (added & Hadd & Hcount)].
  - exists []. split; [intros; simpl; now rewrite app_nil_r | reflexivity].
  - assert (Hstep : exists pushed,
               (forall c shared,
                   snd (CompanionAdapter.detectArg (c, shared) arg) = (shared ++ pushed)%list)
               /\ (forall word feature,
                     In (word, feature)
                        [("VARIABLES", "variables"); ("ROTATION", "rotation");
                         ("VARIABLE_WRITE", "variable_write");
                         ("KEY_IMAGES", "key_images")] ->
                     count_occ string_dec pushed feature
                     = count_occ string_dec [arg] word)).
    { unfold CompanionAdapter.detectArg.
      destruct (String.prefix "API:" arg) eqn:P.
      - exists []. split; [intros; simpl; now rewrite app_nil_r|].
        intros word feature Hin. simpl.
        destruct (string_dec arg word) as [->|]; [|reflexivity].
        simpl in Hin.
        destruct Hin as [H|[H|[H|[H|[]]]]]; injection H as <- _; discriminate P.
      - destruct (String.eqb arg "VARIABLES") eqn:E1;
          [apply String.eqb_eq in E1; subst arg; exists ["variables"]; split;
           [reflexivity|];
           intros word feature [H|[H|[H|[H|[]]]]]; injection H as <- <-; reflexivity|].
        destruct (String.eqb arg "ROTATION") eqn:E2;
          [apply String.eqb_eq in E2; subst arg; exists ["rotation"]; split;
           [reflexivity|];
           intros word feature [H|[H|[H|[H|[]]]]]; injection H as <- <-; reflexivity|].
        destruct (String.eqb arg "VARIABLE_WRITE") eqn:E3;
          [apply String.eqb_eq in E3; subst arg; exists ["variable_write"]; split;
           [reflexivity|];
           intros word feature [H|[H|[H|[H|[]]]]]; injection H as <- <-; reflexivity|].
        destruct (String.eqb arg "KEY_IMAGES") eqn:E4;
          [apply String.eqb_eq in E4; subst arg; exists ["key_images"]; split;
           [reflexivity|];
           intros word feature [H|[H|[H|[H|[]]]]]; injection H as <- <-; reflexivity|].
        exists []. split; [intros; simpl; now rewrite app_nil_r|].
        intros word feature Hin. simpl.
        destruct (string_dec arg word) as [->|]; [|reflexivity].
        simpl in Hin.
        destruct Hin as [H|[H|[H|[H|[]]]]]; injection H as <- _;
          discriminate. }
    destruct Hstep as (pushed & Hpush & Hone).
    exists (pushed ++ added)%list. split.
    + intros c shared. cbn [fold_left].
      pose proof (Hpush c shared) as Hp.
      destruct (CompanionAdapter.detectArg (c, shared) arg) as [c1 shared1].
      simpl in Hp. subst shared1. rewrite Hadd. now rewrite app_assoc.
    + intros word feature Hin. rewrite count_occ_app, (Hone _ _ Hin), (Hcount _ _ Hin).
      change (arg :: args) with ([arg] ++ args)%list. now rewrite count_occ_app.
Qed.

(** X29. After [detectCapabilities(args)] the adapter reports variables, key
    images and variable writes as supported whatever [args] holds, and
    rotation exactly when [ROTATION] is among them. The feature names are
    pushed onto the one array every capabilities object shares, after what
    it held: each word adds its name once per occurrence, and nothing is
    ever taken out, so a second detection reports the first one's features
    again. *)
Theorem X29_detected_capabilities (shared : list string) (a : CompanionAdapter.t)
  (args : list string) :
  let caps := CompanionAdapter.capabilities
                (fst (fst (CompanionAdapter.detectCapabilities shared a args))) in
  CompanionAdapter.Capabilities.supportsVariables caps = true
  /\ CompanionAdapter.Capabilities.supportsKeyImages caps = true
  /\ CompanionAdapter.Capabilities.supportsVariableWrite caps = true
  /\ (CompanionAdapter.Capabilities.supportsRotation caps = true <-> In "ROTATION" args)
  /\ exists added,
       (forall earlier,
           snd (CompanionAdapter.detectCapabilities earlier a args) = (earlier ++ added)%list)
       /\ (forall word feature,
             In (word, feature)
                [("VARIABLES", "variables"); ("ROTATION", "rotation");
                 ("VARIABLE_WRITE", "variable_write"); ("KEY_IMAGES", "key_images")] ->
             count_occ string_dec added feature = count_occ string_dec args word).
Proof.
  intros caps.
  pose proof (detect_flags args CompanionAdapter.Detected.defaults shared) as Hflags.
  cbv zeta in Hflags. destruct Hflags as (H1 & H2 & H3 & H4).
  assert (Hcaps : caps
                  = CompanionAdapter.Detected.flags
                      (fst (fold_left CompanionAdapter.detectArg args
                              (CompanionAdapter.Detected.defaults, shared)))).
  { unfold caps, CompanionAdapter.detectCapabilities.
    now destruct (fold_left _ _ _). }
  rewrite Hcaps, H1, H2, H3, H4.
  cbn [CompanionAdapter.Detected.flags CompanionAdapter.Detected.defaults
       CompanionAdapter.Capabilities.defaults
       CompanionAdapter.Capabilities.supportsVariables
       CompanionAdapter.Capabilities.supportsKeyImages
       CompanionAdapter.Capabilities.supportsRotation
       CompanionAdapter.Capabilities.supportsVariableWrite orb].
  split; [reflexivity|]. split; [reflexivity|]. split; [reflexivity|]. split.
  - rewrite existsb_exists. split.
    + intros (x & Hin & Hx). apply String.eqb_eq in Hx. now subst x.
    + intros Hin. exists "ROTATION". now split.
  - destruct (detect_features args) as (added & Hadd & Hcount).
    exists added. split; [|exact Hcount].
    intros earlier. unfold CompanionAdapter.detectCapabilities.
    rewrite <- (Hadd CompanionAdapter.Detected.defaults earlier).
    now destruct (fold_left CompanionAdapter.detectArg args
                    (CompanionAdapter.Detected.defaults, earlier)).
Qed.

(** Two registrations in a row: the second reports [rotation] twice. *)
Example second_detection_repeats_features :
  let first := CompanionAdapter.detectCapabilities [] Scenario.adapterOnline
                 ["API:1.7"; "ROTATION"] in
  let second := CompanionAdapter.detectCapabilities (snd first) (fst (fst first))
                  ["API:1.7"; "ROTATION"] in
  snd first = ["rotation"]
  /\ snd second = ["rotation"; "rotation"]
  /\ CompanionAdapter.Detected.apiVersion (snd (fst second)) = Some "1.7".
Proof. repeat split. Qed.
